(* ===== verification/_CoqProject ===== *)
-Q . S2P
Prelude.v
MemPool.v
MemPoolSpec.v
KvDb.v
KvDbSpec.v
Simulation.v
Modules.v
ModulesSpec.v
Slab.v
SlabSpec.v
Queue.v
Net.v
Shm.v
ShmSpec.v
Calls.v
Getopt.v
Double.v
RateLimit.v
ProcessPool.v
AdminHttp.v
AdminHttpSpec.v
Process.v
ConnPool.v
ThreadPool.v
Auth.v
FileWatch.v
FileWatchSpec.v
HashUtil.v
HashUtilSpec.v
SslWrap.v
SslWrapSpec.v
Metadata.v
MetadataSpec.v
ServerLog.v
ServerLogSpec.v
FileServer.v
FileServerSpec.v
EpollWrap.v
ServerLoop.v
ServerMain.v
ServerMainSpec.v
FileClient.v
FileClientSpec.v
ClientMain.v
Proxy.v
ProxySpec.v
ProxyLife.v
IpcBench.v
IpcBenchSpec.v
IpcRounds.v
IpcRoundsSpec.v
SysMon.v
SysMonUi.v
SysMonSpec.v
ShellParser.v
ShellParserSpec.v
ShellJobs.v
ShellJobsSpec.v
ShellIo.v
ShellIoSpec.v
WebHttp.v
WebHttpSpec.v
WebMain.v
WebMainSpec.v
LogSys.v
LogSysSpec.v
Serial.v
SerialTerminal.v
SerialSpec.v
SerialScript.v
SerialScriptSpec.v
SerialMain.v
SerialMainSpec.v
