(* ===== verification/Prelude.v ===== *)
(** * Verification of the linux-c-learning programs

    The repository is a collection of C programs for Linux.  This library models the
    programs and proves what makes them correct; where the code does not do what it means
    to, a theorem says what it does instead.

    ** Parts and files

    Shared:
    - [Prelude]: the monad of C functions (a run returns, is undefined behaviour, blocks
      for ever or is out of fuel), machine integers, bytes and C strings, little-endian
      words, ring-buffer lists, and what the sources use of the C library (snprintf into a
      bounded buffer, scanf fields, atoi, strncpy).
    - [Calls]: the weakest preconditions [wp] and the invariants [stays] of runs, for
      programs that are long sequences of system calls; [Process]: what a server process
      holds, and its accept loop; [Getopt]: getopt_long; [Double]: binary64 numbers as the
      programs print and compare them.
    - [Simulation]: sequences of calls, and the lemma that calls which each answer as a
      specification do so in any sequence ([Class Simulates]); [Queue]: the interface
      [Fifo] of a bounded queue between an accept loop and workers; [ConnPool]: the
      interface [Server] of such a queue with a flag, its worker threads, and the signal
      that stops them.

    Small programs:
    - [MemPool], [MemPoolSpec]: memory-pool/src/mempool.c.  Block headers, user bytes and
      pools by address, two doubly linked lists per pool; every operation.
    - [KvDb], [KvDbSpec]: kv-database/src/kvdb.c.  The chained hash table, the handle, the
      data file and the write-ahead log, with scripted allocation failures.
    - [LogSys], [LogSysSpec]: log-system/src/log.c, formatting, synchronous and
      asynchronous delivery, rotation, and the step relation of the writer thread.
    - [IpcBench], [IpcBenchSpec]: ipc-bench, the transfers and what each benchmark holds;
      [IpcRounds], [IpcRoundsSpec]: its two processes as step relations.
    - [SysMon], [SysMonUi], [SysMonSpec]: sys-monitor, the readers of /proc, the rates and
      the screens.

    linux-file-server:
    - [Net]: [Module Net], a stream socket whose kernel accepts and delivers as many bytes
      as it likes; [Module Protocol], protocol.c.
    - [FileServer], [FileServerSpec]: server.c, every command handler, the dispatch and
      session loop on a [Net] socket, the client table; [ServerLoop]: its accept loop on
      the pool of [ThreadPool] (thread_pool.c); [ServerMain], [ServerMainSpec]:
      main_server.c, server_init, server_stop and the reload; [ServerLog], [ServerLogSpec]:
      log.c.
    - [FileClient], [FileClientSpec]: client.c and its conversations with that server;
      [ClientMain]: main_client.c.
    - [Auth]: auth.c; [Metadata], [MetadataSpec]: metadata.c over a database that is a
      class; [SslWrap], [SslWrapSpec]: ssl_wrap.c; [HashUtil], [HashUtilSpec]: hash_util.c
      and compress.c; [EpollWrap]: epoll_wrap.c; [FileWatch], [FileWatchSpec]:
      file_watch.c, the inotify thread.
    - [Modules], [ModulesSpec]: module.c with the example plugin; [Slab], [SlabSpec]:
      mempool.c, in byte-addressed memory; [Shm], [ShmSpec]: shm_ipc.c; [RateLimit]:
      rate_limit.c; [ProcessPool]: process_pool.c; [AdminHttp], [AdminHttpSpec]:
      http_server.c, which reads the counters of [Shm].

    mini-shell:
    - [ShellParser], [ShellParserSpec]: parser.c; [ShellJobs], [ShellJobsSpec]: job.c, the
      parent's side of executor.c, and fg, bg, jobs of builtin.c; [ShellIo], [ShellIoSpec]:
      descriptors and the child's side of executor.c, the other built-in commands,
      signal.c and the main loop.

    Servers and the serial line:
    - [WebHttp], [WebHttpSpec]: web-server/src/http.c, URL coding, request parser,
      responses, static files, routes and the connection queue, an instance of [Queue]'s
      interface; [WebMain], [WebMainSpec]: web-server/src/main.c and the life of the
      server, an instance of [ConnPool]'s.
    - [Proxy], [ProxySpec]: network-proxy/src/proxy.c, URLs, request rewriting, the CONNECT
      tunnel, statistics and the connection queue; [ProxyLife]: its start, stop and
      destruction, instances of the same interfaces.
    - [Serial], [SerialSpec]: serial-tool's serial.c and hexdump.c; [SerialTerminal]:
      terminal.c; [SerialScript], [SerialScriptSpec]: script.c; [SerialMain],
      [SerialMainSpec]: main.c.

    In each pair the first file holds data and operations under the names of the code, the
    second the specification, the lemmas and the properties; components whose proofs are
    short have one file.  A function of the code is a function of the model in the monad
    [C] over a record of the state it touches; error codes are the code's.  Behaviour of
    the kernel and of libraries that are not in the repository is an argument: scripts of
    the results of calls, or a class of functions with a class of documented laws (SQLite,
    the digests of OpenSSL, epoll) and an instance that satisfies them.  Threads are step
    relations whose steps are the critical sections of the code, finer where the theorem is
    about what happens between them.

    ** What the theorems show

    - Memory pool (C1): any sequence of calls is answered as by an abstract LIFO pool.
    - Store (C2 to C4): any session is answered as by a finite map and survives close and
      open; any file can be opened and gives the records it begins with, unless the last of
      them has a key of 256 bytes.
    - Log (C5): the asynchronous writer is a lossless FIFO under every interleaving.
    - File server and client (C6 to C13): send_all is reliable against any kernel; tasks
      run in order, once, and all of them before the pool is gone; a login's token
      verifies; sessions touch only the shared directory; the client table is a bounded
      set; uploads in one session arrive; resuming a download gives what a download gives.
    - Shell (C14 to C17): the parser is total, print and parse round-trip, the job table
      keeps its invariant, pipelines are wired as drawn.
    - Proxy (C18, C19): a request reaches its server and the answer its client; the tunnel
      passes on the front of each stream in order and counts it.
    - Serial tool (C20, C21, C32): scripts run as the statements they were printed from,
      the keyboard loop is a line editor with modes, the device gets its settings back.
    - Module manager (C22) and slab allocator (C23): any sequence of calls is answered as
      by a list of modules and a stack of blocks.
    - Benchmarks (C24, C25): rounds complete under every schedule; the busy-wait handshake
      can deadlock.
    - System monitor (C26, C27): a turn of the main loop keeps arrays and strings within
      bounds, or has met a file of /proc of a shape that is named; rates are percentages.
    - The file server's program (C28 to C31): the log and its generations, release of
      everything on every path that returns, precedence of options and configuration, and the accept
      loop with its pool.
    - The file server's libraries: the watcher tells of every event in order and stops
      within five steps (C33, C34), a file is hashed as one piece (C35), TLS transfers are
      whole or fail with the errors printed (C36), the metadata store answers as three
      tables, as far as the database does (C37).
    - The web server's program: which way it ends and what it then holds (C38), what it
      answers (C39), and when its stop returns, within a bound, in every interleaving (C40).

    Further theorems that are not numbered hold for the same parts: the round trips of URL
    coding, of requests and of the listing of the web management, queues that are FIFOs
    under every interleaving, shared counters that count, a process pool that leaves no
    child behind, the interest list of epoll, the ends of the client's program and of the
    proxy, and the lemmas named in the findings, each a run in which the code misbehaves.

    ** Bounds and fuel

    Loops whose bound is not structural take fuel, and the callers in the model give
    enough: one unit per byte left in the transfer and parser loops (each turn consumes
    one), one per record in file scans, one per entry of a script where a call may be
    repeated.  Theorems prove that the run returns, not only what it returns when it does,
    or say in which cases it does not: a run that waits for ever is [Blocked], with the
    condition on the threads or clients it waits for, and a run that is undefined is [UB],
    with the input that makes it so (C4, C10, C26, C38).  Liveness of threads is a bound on the number of steps with
    a step that is always possible.  Buffer sizes, table sizes and limits are the constants
    of the code; size_t, uint32_t and int arithmetic is reduced or checked where the code
    can reach the limit.  Paths of the file server are strings below the shared directory,
    which has no symbolic links.

    ** Not modelled

    The insides of OpenSSL, SQLite, zlib, ncurses and readline, which are not in the
    repository, and the headers of theirs that are; the test programs; the time a call
    takes; the log lines of client.c; signals that arrive while the web server or the
    proxy handles one.  In the life of the servers it is a parameter whether the workers
    that are joined end; what it takes for that in the web server is C40.  The proxy's cache, access lists, reverse and
    transparent modes, and the directory listing of the web server are declared in the
    sources but not written. *)

From Stdlib Require Export Strings.Byte.
From Stdlib Require Import Strings.String.
From stdpp Require Export base tactics list list_numbers numbers gmap strings.

#[export] Set Default Goal Selector "1".
Open Scope Z_scope.

(** ** Outcomes of C code *)

(** A C function run on a state either returns, runs into undefined behaviour
    (a null or dangling dereference, an access outside an array), blocks for
    ever on a mutex that is already held, or has used up the fuel of a loop
    whose bound is not structural. *)
Inductive outcome (A : Type) : Type :=
  | Ret (a : A)
  | UB
  | Blocked
  | Fuel.
Arguments Ret {A} a.
Arguments UB {A}.
Arguments Blocked {A}.
Arguments Fuel {A}.

#[global] Instance outcome_eq_dec {A} `{EqDecision A} : EqDecision (outcome A).
Proof. solve_decision. Defined.

(** The state-and-outcome monad of the C functions. *)
Definition C (S A : Type) : Type := S → outcome (A * S).

#[global] Instance C_ret {S} : MRet (C S) := λ A a s, Ret (a, s).
#[global] Instance C_bind {S} : MBind (C S) := λ A B k m s,
  match m s with
  | Ret (a, s') => k a s'
  | UB => UB
  | Blocked => Blocked
  | Fuel => Fuel
  end.

Definition c_get {S} : C S S := λ s, Ret (s, s).
Definition c_put {S} (s : S) : C S unit := λ _, Ret (tt, s).
Definition c_mod {S} (f : S → S) : C S unit := λ s, Ret (tt, f s).
Definition c_ub {S A} : C S A := λ _, UB.
Definition c_blocked {S A} : C S A := λ _, Blocked.
Definition c_fuel {S A} : C S A := λ _, Fuel.
Definition c_lift {S A} (o : outcome A) : C S A := λ s,
  match o with
  | Ret a => Ret (a, s)
  | UB => UB
  | Blocked => Blocked
  | Fuel => Fuel
  end.

(** [for (i = i0; ...; i++)] run [n] times. *)
Fixpoint c_for {S} (n : nat) (i : Z) (body : Z → C S unit) : C S unit :=
  match n with
  | O => mret tt
  | Datatypes.S n' => body i ;; c_for n' (i + 1) body
  end.

Lemma bind_Ret {S A B} (m : C S A) (k : A → C S B) s a s' :
  m s = Ret (a, s') → (m ≫= k) s = k a s'.
Proof. intros H. unfold mbind, C_bind. by rewrite H. Qed.

Lemma bind_inv {S A B} (m : C S A) (k : A → C S B) s r :
  (m ≫= k) s = Ret r → ∃ a s', m s = Ret (a, s') ∧ k a s' = Ret r.
Proof.
  unfold mbind, C_bind. destruct (m s) as [[a s']| | |]; naive_solver.
Qed.

(** Unfold the monad and compute. *)
Ltac c_unfold :=
  unfold mret, C_ret, c_get, c_put, c_mod, c_ub, c_blocked, c_fuel in *.
Ltac c_step H := rewrite (bind_Ret _ _ _ _ _ H).
Ltac c_simpl := repeat (unfold mbind, C_bind in *; c_unfold; simpl in * ).

(** Take a returning run apart at its binds. *)
Ltac run_inv :=
  repeat match goal with
  | H : (_ ≫= _) _ = Ret _ |- _ => apply bind_inv in H as (? & ? & ? & H)
  | H : c_mod _ _ = Ret _ |- _ => injection H; clear H; intros; subst
  | H : c_get _ = Ret _ |- _ => injection H; clear H; intros; subst
  | H : mret _ _ = Ret _ |- _ => injection H; clear H; intros; subst
  | H : c_lift ?o _ = Ret _ |- _ => unfold c_lift in H; destruct o eqn:?; try discriminate H;
                                    injection H; clear H; intros; subst
  | H : c_ub _ = Ret _ |- _ => discriminate H
  | H : c_blocked _ = Ret _ |- _ => discriminate H
  end.

(** ** Machine integers *)

Definition u8 (z : Z) : Z := z `mod` 2 ^ 8.
Definition u16 (z : Z) : Z := z `mod` 2 ^ 16.
Definition u32 (z : Z) : Z := z `mod` 2 ^ 32.
Definition u64 (z : Z) : Z := z `mod` 2 ^ 64.
(** Two's-complement reading of the low 32 bits, the value of [(int)z]. *)
Definition s32 (z : Z) : Z := (z + 2 ^ 31) `mod` 2 ^ 32 - 2 ^ 31.

Definition is_u64 (z : Z) : Prop := 0 ≤ z < 2 ^ 64.
Definition is_u32 (z : Z) : Prop := 0 ≤ z < 2 ^ 32.

Lemma u64_small z : 0 ≤ z < 2 ^ 64 → u64 z = z.
Proof. apply Z.mod_small. Qed.
Lemma u32_small z : 0 ≤ z < 2 ^ 32 → u32 z = z.
Proof. apply Z.mod_small. Qed.
Lemma u64_range z : 0 ≤ u64 z < 2 ^ 64.
Proof. apply Z.mod_pos_bound. lia. Qed.
Lemma u32_range z : 0 ≤ u32 z < 2 ^ 32.
Proof. apply Z.mod_pos_bound. lia. Qed.
Lemma s32_small z : -2 ^ 31 ≤ z < 2 ^ 31 → s32 z = z.
Proof. intros. unfold s32. rewrite Z.mod_small; lia. Qed.

Create HintDb cint.
#[export] Hint Resolve u64_range u32_range : cint.

(** [ALIGN_UP(size, 8)] on a size_t. *)
Lemma land_neg8 z : Z.land z (-8) = z - z `mod` 8.
Proof.
  change (-8) with (Z.lnot (Z.ones 3)).
  rewrite <- Z.ldiff_land.
  rewrite Z.ldiff_ones_r by lia.
  rewrite Z.shiftl_mul_pow2, Z.shiftr_div_pow2 by lia.
  change (2 ^ 3) with 8.
  pose proof (Z.div_mod z 8 ltac:(lia)). lia.
Qed.

(** ** Bytes and C strings *)

#[global] Instance byte_eq_dec : EqDecision byte := Byte.byte_eq_dec.

Definition b2z (b : byte) : Z := Z.of_N (Byte.to_N b).
Definition z2b (z : Z) : byte :=
  match Byte.of_N (Z.to_N (z `mod` 256)) with Some b => b | None => x00 end.
(** The value of a [char] on a target where [char] is signed. *)
Definition schar (b : byte) : Z := if b2z b <? 128 then b2z b else b2z b - 256.

Lemma b2z_range b : 0 ≤ b2z b < 256.
Proof.
  unfold b2z. pose proof (Byte.to_N_bounded b). lia.
Qed.
Lemma z2b_b2z b : z2b (b2z b) = b.
Proof.
  unfold z2b. rewrite Z.mod_small by apply b2z_range.
  unfold b2z. rewrite N2Z.id. by rewrite Byte.of_to_N.
Qed.
Lemma b2z_z2b z : b2z (z2b z) = z `mod` 256.
Proof.
  unfold z2b, b2z.
  pose proof (Z.mod_pos_bound z 256 ltac:(lia)) as Hb.
  destruct (Byte.of_N (Z.to_N (z `mod` 256))) as [b|] eqn:E.
  - apply Byte.to_of_N in E. rewrite E. lia.
  - apply Byte.of_N_None_iff in E. lia.
Qed.

(** String literals as byte lists. *)
Definition str (s : string) : list byte := String.list_byte_of_string s.

(** A C string value: the bytes before the terminating NUL. *)
Definition nonul (s : list byte) : Prop := Forall (λ b, b ≠ x00) s.

(** The string stored in a buffer: the bytes up to the first NUL. *)
Fixpoint cstr (buf : list byte) : list byte :=
  match buf with
  | [] => []
  | b :: buf' => if decide (b = x00) then [] else b :: cstr buf'
  end.

Lemma cstr_nonul buf : nonul (cstr buf).
Proof.
  induction buf as [|b buf IH]; simpl; [constructor|].
  case_decide; [constructor|]. by constructor.
Qed.
Lemma cstr_app_nul s rest : nonul s → cstr (s ++ x00 :: rest) = s.
Proof.
  induction 1 as [|b s Hb _ IH]; simpl; [done|].
  rewrite decide_False by done. by rewrite IH.
Qed.
Lemma cstr_id s : nonul s → cstr s = s.
Proof.
  induction 1 as [|b s Hb _ IH]; simpl; [done|].
  rewrite decide_False by done. by rewrite IH.
Qed.
Lemma nonul_app s t : nonul (s ++ t) ↔ nonul s ∧ nonul t.
Proof. apply Forall_app. Qed.
Lemma nonul_take n s : nonul s → nonul (take n s).
Proof. apply Forall_take. Qed.

Definition strlen (s : list byte) : Z := Z.of_nat (length s).

(** ** Little-endian words *)

Fixpoint le_split (n : nat) (w : Z) : list byte :=
  match n with
  | O => []
  | Datatypes.S n' => z2b w :: le_split n' (w `div` 256)
  end.
Fixpoint le_combine (l : list byte) : Z :=
  match l with
  | [] => 0
  | b :: l' => b2z b + 256 * le_combine l'
  end.

Lemma length_le_split n w : length (le_split n w) = n.
Proof. revert w. induction n; intros; simpl; congruence. Qed.

Lemma le_combine_split n w :
  le_combine (le_split n w) = w `mod` 256 ^ Z.of_nat n.
Proof.
  revert w. induction n as [|n IH]; intros w; simpl.
  - by rewrite Z.mod_1_r.
  - rewrite IH, b2z_z2b.
    replace (256 ^ Z.of_nat (Datatypes.S n)) with (256 * 256 ^ Z.of_nat n)
      by (rewrite Nat2Z.inj_succ, Z.pow_succ_r; lia).
    rewrite Z.rem_mul_r by lia. lia.
Qed.

Lemma le_combine_range l : 0 ≤ le_combine l < 256 ^ Z.of_nat (length l).
Proof.
  induction l as [|b l IH]; simpl; [lia|].
  rewrite Nat2Z.inj_succ, Z.pow_succ_r by lia.
  pose proof (b2z_range b). lia.
Qed.

Lemma le_split_combine l : le_split (length l) (le_combine l) = l.
Proof.
  induction l as [|b l IH]; simpl; [done|].
  f_equal.
  - unfold z2b. rewrite (Z.mul_comm 256), Z.mod_add by lia.
    rewrite Z.mod_small by apply b2z_range.
    unfold b2z. by rewrite N2Z.id, Byte.of_to_N.
  - rewrite (Z.mul_comm 256), Z.div_add, Z.div_small, Z.add_0_l by
      (try lia; apply b2z_range). done.
Qed.

(** ** Lists *)

(** [strncmp]/[strncasecmp]-style prefix test. *)
Fixpoint is_prefix (p l : list byte) : bool :=
  match p, l with
  | [], _ => true
  | a :: p', b :: l' => bool_decide (a = b) && is_prefix p' l'
  | _ :: _, [] => false
  end.

Lemma is_prefix_spec p l : is_prefix p l = true ↔ ∃ r, l = p ++ r.
Proof.
  revert l. induction p as [|a p IH]; intros l; simpl.
  - split; [by exists l|done].
  - destruct l as [|b l]; [split; [done|by intros [? ?]]|].
    rewrite andb_true_iff, bool_decide_eq_true, IH.
    split; [intros [-> [r ->]]; by exists r|intros [r [= -> ->]]; eauto].
Qed.

(** [strstr]: the offset of the first occurrence. *)
Fixpoint find_sub (p l : list byte) : option nat :=
  if is_prefix p l then Some 0%nat
  else match l with
       | [] => None
       | _ :: l' => Datatypes.S <$> find_sub p l'
       end.

(** [strchr] on the bytes of a string: the offset of the first occurrence. *)
Fixpoint find_byte (c : byte) (l : list byte) : option nat :=
  match l with
  | [] => None
  | b :: l' => if decide (b = c) then Some 0%nat else Datatypes.S <$> find_byte c l'
  end.

Lemma find_byte_None c l : find_byte c l = None ↔ c ∉ l.
Proof.
  induction l as [|b l IH]; simpl; [set_solver|].
  case_decide; subst; [set_solver|].
  rewrite fmap_None, IH. set_solver.
Qed.
Lemma find_byte_Some c l i :
  find_byte c l = Some i → l = take i l ++ c :: drop (Datatypes.S i) l ∧ c ∉ take i l.
Proof.
  revert i. induction l as [|b l IH]; intros i; simpl; [done|].
  case_decide; subst.
  - intros [= <-]. simpl. split; [done|set_solver].
  - intros (j & Hj & ->)%fmap_Some. destruct (IH _ Hj) as [E N]. simpl.
    split; [by rewrite <- E|set_solver].
Qed.

Lemma filter_notin {A} `{EqDecision A} (a : A) (l : list A) : a ∉ l → filter (λ x, x ≠ a) l = l.
Proof.
  induction l as [|b l IH]; intros Ha; [done|].
  rewrite filter_cons, decide_True by set_solver. f_equal. apply IH. set_solver.
Qed.
Lemma filter_ne_app {A} `{EqDecision A} (a : A) (l1 l2 : list A) :
  NoDup (l1 ++ a :: l2) → filter (λ x, x ≠ a) (l1 ++ a :: l2) = l1 ++ l2.
Proof.
  intros (_ & Hdis & [Ha _]%NoDup_cons)%NoDup_app. rewrite filter_app, filter_cons.
  rewrite decide_False by naive_solver.
  f_equal; apply filter_notin; set_solver.
Qed.

#[global] Instance byte_countable : Countable byte.
Proof.
  apply (inj_countable' Byte.to_N (λ n, default x00 (Byte.of_N n))).
  intros b. by rewrite Byte.of_to_N.
Defined.

(** [strncpy(dst, src, n)] into a zeroed buffer of [m] bytes, [n < m]. *)
Definition strncpy_zeroed (m n : nat) (src : list byte) : list byte :=
  take n src ++ replicate (m - length (take n src)) x00.

Lemma length_strncpy_zeroed m n src : (n ≤ m)%nat → length (strncpy_zeroed m n src) = m.
Proof. intros. unfold strncpy_zeroed. rewrite length_app, length_replicate, length_take. lia. Qed.
Lemma cstr_strncpy_zeroed m n src :
  (n < m)%nat → nonul src → cstr (strncpy_zeroed m n src) = take n src.
Proof.
  intros Hn Hs. unfold strncpy_zeroed.
  assert (∃ k, (m - length (take n src) = Datatypes.S k)%nat) as [k ->].
  { exists (m - length (take n src) - 1)%nat. rewrite length_take. lia. }
  simpl. apply cstr_app_nul. by apply nonul_take.
Qed.

(** ** Reader-writer locks *)

Inductive rwlock := RwFree | RwRead | RwWrite.

(** ** Circular buffers *)

(** The elements of a circular buffer, oldest first: [n] of them from slot
    [head] of an array of [cap] slots. *)
Definition ring_list {A} (arr : list A) (cap head n : Z) : list A :=
  omap (λ i, arr !! Z.to_nat ((head + i) `mod` cap)) (seqZ 0 n).

Lemma omap_ext_in {A B} (f g : A → option B) (l : list A) :
  (∀ x, x ∈ l → f x = g x) → omap f l = omap g l.
Proof.
  induction l as [|x l IH]; intros H; [done|]. cbn [omap list_omap].
  rewrite (H x) by set_solver. rewrite IH by set_solver. done.
Qed.

Lemma omap_fmap_ext {A B D} (h : D → A) (f : A → option B) (g : D → option B) (l : list D) :
  (∀ i, f (h i) = g i) → omap f (h <$> l) = omap g l.
Proof.
  intros H. induction l as [|i l IH]; [done|]. rewrite fmap_cons. cbn [omap list_omap].
  rewrite H. by destruct (g i); [f_equal|]; apply IH.
Qed.

Lemma ring_list_push {A} (arr : list A) cap head n x :
  length arr = Z.to_nat cap → 0 ≤ head < cap → 0 ≤ n < cap →
  ring_list (<[Z.to_nat ((head + n) `mod` cap) := x]> arr) cap head (n + 1) =
  ring_list arr cap head n ++ [x].
Proof.
  intros Hl Hh Hn. unfold ring_list. rewrite seqZ_app by lia.
  rewrite omap_app. f_equal.
  - apply omap_ext_in. intros i [? ?]%elem_of_seqZ. apply list_lookup_insert_ne.
    intros E. pose proof (Z.mod_pos_bound (head + i) cap ltac:(lia)).
    pose proof (Z.mod_pos_bound (head + n) cap ltac:(lia)).
    assert (E' : (head + n) `mod` cap = (head + i) `mod` cap) by lia.
    pose proof (Z.div_mod (head + n) cap ltac:(lia)). pose proof (Z.div_mod (head + i) cap ltac:(lia)).
    rewrite E' in *. assert (cap * ((head + n) `div` cap - (head + i) `div` cap) = n - i) by lia.
    assert ((head + n) `div` cap - (head + i) `div` cap = 0) by nia. nia.
  - rewrite (seqZ_cons _ 1) by lia. simpl. rewrite list_lookup_insert_eq; [done|].
    rewrite Hl. pose proof (Z.mod_pos_bound (head + n) cap ltac:(lia)). lia.
Qed.

Lemma ring_list_pop {A} (arr : list A) cap head n :
  length arr = Z.to_nat cap → 0 ≤ head < cap → 0 < n ≤ cap →
  ∃ x, arr !! Z.to_nat head = Some x ∧
    ring_list arr cap head n = x :: ring_list arr cap ((head + 1) `mod` cap) (n - 1).
Proof.
  intros Hl Hh Hn. destruct (lookup_lt_is_Some_2 arr (Z.to_nat head)) as [x Hx]; [lia|].
  exists x. split; [done|]. unfold ring_list. rewrite (seqZ_cons 0) by lia. simpl.
  rewrite Z.add_0_r, Z.mod_small, Hx by lia. f_equal.
  replace (Z.pred n) with (n - 1) by lia. change (Z.succ 0) with 1.
  assert (Hs : seqZ 1 (n - 1) = (Z.add 1) <$> seqZ 0 (n - 1)) by (rewrite fmap_add_seqZ; done).
  rewrite Hs. apply omap_fmap_ext. intros i.
  by rewrite Z.add_mod_idemp_l, Z.add_assoc by lia.
Qed.

Lemma ring_list_length {A} (arr : list A) cap head n :
  length arr = Z.to_nat cap → 0 < cap → 0 ≤ n → length (ring_list arr cap head n) = Z.to_nat n.
Proof.
  intros Hl Hc Hn. unfold ring_list.
  assert (H : ∀ l : list Z, length (omap (λ i, arr !! Z.to_nat ((head + i) `mod` cap)) l) = length l).
  { induction l as [|i l IH]; [done|]. cbn [omap list_omap].
    destruct (lookup_lt_is_Some_2 arr (Z.to_nat ((head + i) `mod` cap))) as [x Hx].
    - rewrite Hl. pose proof (Z.mod_pos_bound (head + i) cap ltac:(lia)). lia.
    - rewrite Hx. simpl. f_equal. apply IH. }
  rewrite H. by rewrite length_seqZ.
Qed.

(** ** Printing *)

(** The digits of [n] in base [b], most significant first. *)
Fixpoint digits (fuel : nat) (b n : Z) (acc : list byte) : list byte :=
  match fuel with
  | O => acc
  | Datatypes.S fuel' =>
      let d := n `mod` b in
      let c := z2b (if d <? 10 then 48 + d else 87 + d) in
      if n `div` b =? 0 then c :: acc else digits fuel' b (n `div` b) (c :: acc)
  end.
(** [%u] and [%d], [%x]; 64 digits are more than any 64-bit value has. *)
Definition dec (n : Z) : list byte :=
  if n <? 0 then x2d :: digits 64 10 (- n) [] else digits 64 10 n [].
Definition hex (n : Z) : list byte := digits 64 16 n [].
(** [%0wd], [%0wx] of a non-negative value, and [%-ws]. *)
Definition pad0 (w : nat) (s : list byte) : list byte := replicate (w - length s) x30 ++ s.
(** [%02x] of a byte. *)
Definition hex2 (b : byte) : list byte := pad0 2 (hex (b2z b)).
Definition padr (w : nat) (s : list byte) : list byte := s ++ replicate (w - length s) x20.

(** ** Character classes *)

Definition is_digit (c : byte) : bool := (48 <=? b2z c) && (b2z c <=? 57).
Definition is_upper (c : byte) : bool := (65 <=? b2z c) && (b2z c <=? 90).
Definition is_lower (c : byte) : bool := (97 <=? b2z c) && (b2z c <=? 122).
Definition is_alnum (c : byte) : bool := is_digit c || is_upper c || is_lower c.
(** [isspace] in the C locale. *)
Definition is_space (c : byte) : bool := (b2z c =? 32) || ((9 <=? b2z c) && (b2z c <=? 13)).
Definition to_lower (c : byte) : byte := if is_upper c then z2b (b2z c + 32) else c.
Definition lower (s : list byte) : list byte := to_lower <$> s.
(** [strcasecmp(a, b) == 0]. *)
Definition strcaseeq (a b : list byte) : bool := bool_decide (lower a = lower b).

(** ** Formatting into a bounded buffer *)

(** [pos += snprintf(buf + pos, len - pos, "%s", s)]: the text in the buffer and
    [pos].  Past the end, [len - pos] wraps around and the write is out of
    bounds. *)
Definition sn (len : Z) (s : list byte) : C (list byte * Z) unit := λ st,
  let '(acc, pos) := st in
  if len <? pos then UB
  else Ret (tt, (acc ++ take (Z.to_nat (len - pos - 1)) s, pos + strlen s)).

Fixpoint sn_all (len : Z) (ps : list (list byte)) : C (list byte * Z) unit :=
  match ps with
  | [] => mret tt
  | p :: ps' => sn len p;; sn_all len ps'
  end.

Lemma sn_all_app len ps qs st : sn_all len (ps ++ qs) st = (sn_all len ps;; sn_all len qs) st.
Proof.
  revert st. induction ps as [|p ps IH]; intros st; [done|]. simpl.
  unfold mbind, C_bind. destruct (sn len p st) as [[[] st']| | |]; [|done..].
  rewrite IH. unfold mbind, C_bind. by destruct (sn_all len ps st') as [[[] ?]| | |].
Qed.
Lemma sn_all_if (b : bool) len ps st :
  sn_all len (if b then ps else []) st = (if b then sn_all len ps else mret tt) st.
Proof. by destruct b. Qed.
Lemma sn_all_one len p st : sn_all len [p] st = sn len p st.
Proof. simpl. unfold mbind, C_bind. by destruct (sn len p st) as [[[] ?]| | |]. Qed.

Lemma bind_ext {S A B} (m1 m2 : C S A) (k1 k2 : A → C S B) s :
  m1 s = m2 s → (∀ a s', k1 a s' = k2 a s') → (m1 ≫= k1) s = (m2 ≫= k2) s.
Proof. intros E K. unfold mbind, C_bind. rewrite E. by destruct (m2 s) as [[? ?]| | |]. Qed.

(** Printing one piece into a buffer the earlier text has not overrun. *)
Lemma sn_run len p t : 0 < len → strlen t ≤ len →
  sn len p (take (Z.to_nat (len - 1)) t, strlen t) =
  Ret (tt, (take (Z.to_nat (len - 1)) (t ++ p), strlen (t ++ p))).
Proof.
  intros Hl Ht. unfold sn. rewrite (proj2 (Z.ltb_ge _ _)) by lia. unfold strlen in *.
  do 3 f_equal; [|rewrite length_app; lia]. rewrite take_app. f_equal. f_equal. lia.
Qed.

Lemma sn_all_run len ps l : ∀ t, 0 < len → strlen t ≤ len →
  sn_all len (ps ++ [l]) (take (Z.to_nat (len - 1)) t, strlen t) =
  if len <? strlen (t ++ mjoin ps) then UB
  else Ret (tt, (take (Z.to_nat (len - 1)) (t ++ mjoin ps ++ l), strlen (t ++ mjoin ps ++ l))).
Proof.
  induction ps as [|p ps IH]; intros t Hl Ht.
  - cbn [mjoin list_join app]. rewrite app_nil_r, (proj2 (Z.ltb_ge _ _)) by lia.
    rewrite sn_all_one. by apply sn_run.
  - cbn [app sn_all]. c_step (sn_run len p t Hl Ht). cbn [mjoin list_join].
    rewrite <- !(assoc_L (++)), !(assoc_L (++) t p). destruct (decide (strlen (t ++ p) ≤ len)) as [Hp|Hp].
    + by rewrite (IH (t ++ p)).
    + rewrite (proj2 (Z.ltb_lt _ _)) by (unfold strlen in *; rewrite !length_app in *; lia).
      destruct ps as [|q ps]; cbn [app sn_all]; unfold mbind, C_bind, sn;
        by rewrite (proj2 (Z.ltb_lt _ _)) by lia.
Qed.

(** ** Scanning *)

Fixpoint skip_space (s : list byte) : list byte :=
  match s with
  | c :: s' => if is_space c then skip_space s' else s
  | [] => []
  end.
(** The longest prefix of at most [n] bytes that satisfy [p], and the rest. *)
Fixpoint span_n (n : nat) (p : byte → bool) (s : list byte) : list byte * list byte :=
  match n, s with
  | Datatypes.S n', c :: s' =>
      if p c then let (a, b) := span_n n' p s' in (c :: a, b) else ([], s)
  | _, _ => ([], s)
  end.
(** The conversions [%ns] and [%n[...]] of scanf: [None] is a matching failure. *)
Definition scan_word (n : nat) (s : list byte) : option (list byte * list byte) :=
  match span_n n (λ c, negb (is_space c)) (skip_space s) with
  | ([], _) => None
  | r => Some r
  end.
Definition scan_set (n : nat) (p : byte → bool) (s : list byte) : option (list byte * list byte) :=
  match span_n n p s with
  | ([], _) => None
  | r => Some r
  end.

Lemma span_n_app n p s : s = (span_n n p s).1 ++ (span_n n p s).2.
Proof.
  revert n. induction s as [|c s IH]; intros [|n]; simpl; try done.
  case_match; [|done]. specialize (IH n). destruct (span_n n p s). simpl in *. by rewrite <- IH.
Qed.
Lemma span_n_length n p s : (length (span_n n p s).1 ≤ n)%nat.
Proof.
  revert n. induction s as [|c s IH]; intros [|n]; simpl; try lia.
  case_match; simpl; [|lia]. specialize (IH n). destruct (span_n n p s). simpl in *. lia.
Qed.
Lemma span_n_all n p s : Forall (λ c, p c = true) (span_n n p s).1.
Proof.
  revert n. induction s as [|c s IH]; intros [|n]; simpl; try constructor.
  case_match; simpl; [|constructor]. specialize (IH n). destruct (span_n n p s). by constructor.
Qed.
(** A run of [p]-bytes followed by something that is not one. *)
Lemma span_n_exact n p a b : (length a ≤ n)%nat → Forall (λ c, p c = true) a →
  match b with [] => True | c :: _ => p c = false end → span_n n p (a ++ b) = (a, b).
Proof.
  intros Hn Ha Hb. revert n Hn. induction Ha as [|c a Hc _ IH]; intros n Hn.
  - destruct n, b as [|x b]; simpl; try done. by rewrite Hb.
  - destruct n; simpl in *; [lia|]. rewrite Hc, IH by lia. done.
Qed.

(** [fgets]: the next line with its newline, cut at [n] bytes, and the rest. *)
Fixpoint fgets_line (n : nat) (s : list byte) : list byte * list byte :=
  match n, s with
  | Datatypes.S n', c :: s' =>
      if decide (c = x0a) then ([c], s') else let (l, r) := fgets_line n' s' in (c :: l, r)
  | _, _ => ([], s)
  end.

Lemma fgets_line_exact l : ∀ n rest, Forall (λ c, c ≠ x0a) l → (length l < n)%nat →
  fgets_line n (l ++ x0a :: rest) = (l ++ [x0a], rest).
Proof.
  induction l as [|c l IH]; intros [|n] rest Hl Hn; simpl in Hn; try lia; cbn [app fgets_line].
  - by rewrite decide_True.
  - apply Forall_cons in Hl as [Hc Hl]. rewrite decide_False by done. by rewrite IH by (done || lia).
Qed.

(** The lines that fgets gives with a buffer of [size] bytes. *)
Fixpoint lines_fuel (fuel : nat) (size : Z) (s : list byte) : list (list byte) :=
  match fuel, s with
  | Datatypes.S fuel', _ :: _ => let '(l, r) := fgets_line (Z.to_nat (size - 1)) s in cstr l :: lines_fuel fuel' size r
  | _, _ => []
  end.
Definition lines (size : Z) (s : list byte) : list (list byte) := lines_fuel (length s) size s.
(** A text line: no zero or newline before its end, and short enough for the buffer. *)
Definition text_line (size : Z) (l : list byte) : Prop :=
  ∃ b, l = b ++ [x0a] ∧ Forall (λ c, c ≠ x00 ∧ c ≠ x0a) b ∧ Z.of_nat (length l) < size.
Lemma lines_text size ls : Forall (text_line size) ls → lines size (mjoin ls) = ls.
Proof.
  unfold lines. intros Hls. assert (H : ∀ fuel, (length (mjoin ls) ≤ fuel)%nat → lines_fuel fuel size (mjoin ls) = ls); [|by apply H].
  induction Hls as [|l ls (b & -> & Hb & Hl) _ IH]; intros fuel Hf; [by destruct fuel|].
  change (mjoin ((b ++ [x0a]) :: ls)) with ((b ++ [x0a]) ++ mjoin ls) in *. rewrite !length_app in *. cbn [length] in *.
  destruct fuel as [|fuel]; [lia|]. cbn [lines_fuel]. destruct ((b ++ [x0a]) ++ mjoin ls) eqn:E.
  { apply (f_equal length) in E. rewrite !length_app in E. cbn in E. lia. }
  rewrite <- E. rewrite <- (assoc_L (++)). cbn [app]. rewrite fgets_line_exact; [|by eapply Forall_impl; [exact Hb|]; intros c [_ ?]|lia].
  rewrite cstr_id. { f_equal. apply IH. lia. }
  apply Forall_app. split; [|by repeat constructor]. eapply Forall_impl; [exact Hb|]. by intros c [? _].
Qed.

(** [atoi], that is [(int)strtol(s, NULL, 10)], which saturates at the limits of long. *)
Fixpoint dec_value (acc : Z) (s : list byte) : Z :=
  match s with
  | c :: s' => if is_digit c then dec_value (10 * acc + (b2z c - 48)) s' else acc
  | [] => acc
  end.
Definition atoi (s : list byte) : Z :=
  let v := match skip_space s with
           | x2d :: s' => - dec_value 0 s'
           | x2b :: s' => dec_value 0 s'
           | s' => dec_value 0 s'
           end in
  s32 (Z.max (- 2 ^ 63) (Z.min (2 ^ 63 - 1) v)).

(** ** Scanning what was printed *)

(** [strstr(s, "\r\n")] after text without a carriage return. *)
Lemma find_crlf a rest : Forall (λ c, c ≠ x0d) a →
  find_sub [x0d; x0a] (a ++ x0d :: x0a :: rest) = Some (length a).
Proof.
  induction 1 as [|c a Hc _ IH]; [done|]. cbn [app find_sub length].
  assert (Hp : is_prefix [x0d; x0a] (c :: a ++ x0d :: x0a :: rest) = false).
  { simpl. by rewrite bool_decide_eq_false_2. }
  rewrite Hp. rewrite IH. done.
Qed.

Lemma scan_word_exact n w rest : w ≠ [] → (length w ≤ n)%nat →
  Forall (λ c, is_space c = false) w →
  match rest with [] => True | c :: _ => is_space c = true end →
  scan_word n (w ++ rest) = Some (w, rest).
Proof.
  intros Hne Hl Hw Hr. unfold scan_word.
  assert (Hs : skip_space (w ++ rest) = w ++ rest).
  { destruct w as [|c w]; [done|]. apply Forall_cons in Hw as [Hc _]. simpl. by rewrite Hc. }
  rewrite Hs, (span_n_exact n _ w rest); [by destruct w|done| |].
  - eapply Forall_impl; [exact Hw|]. by intros ? ->.
  - destruct rest; [done|]. by rewrite Hr.
Qed.
(** A word behind blanks is the same word. *)
Lemma scan_word_space n c s : is_space c = true → scan_word n (c :: s) = scan_word n s.
Proof. intros Hc. unfold scan_word. simpl. by rewrite Hc. Qed.

Lemma digits_app fuel b : ∀ n acc, digits fuel b n acc = digits fuel b n [] ++ acc.
Proof.
  induction fuel as [|fuel IH]; intros n acc; simpl; [done|].
  destruct (n `div` b =? 0); [done|]. rewrite IH, (IH _ [_]). by rewrite <- (assoc_L (++)).
Qed.
Lemma digits_step fuel n : digits (Datatypes.S fuel) 10 n [] =
  (if n `div` 10 =? 0 then [] else digits fuel 10 (n `div` 10) []) ++ [z2b (48 + n `mod` 10)].
Proof.
  pose proof (Z.mod_pos_bound n 10 ltac:(lia)). cbn [digits]. rewrite (proj2 (Z.ltb_lt _ _)) by lia.
  destruct (n `div` 10 =? 0); [done|]. by rewrite digits_app.
Qed.
Lemma digit_char d : 0 ≤ d < 10 → is_digit (z2b (48 + d)) = true ∧ b2z (z2b (48 + d)) = 48 + d.
Proof.
  intros Hd. rewrite b2z_z2b, Z.mod_small by lia. split; [|done]. unfold is_digit.
  rewrite b2z_z2b, Z.mod_small by lia. apply andb_true_iff. split; apply Z.leb_le; lia.
Qed.
Lemma dec_value_snoc ds c a : Forall (λ c, is_digit c = true) ds → is_digit c = true →
  dec_value a (ds ++ [c]) = 10 * dec_value a ds + (b2z c - 48).
Proof.
  intros Hd Hc. revert a. induction Hd as [|x ds Hx _ IH]; intros a; simpl; [by rewrite Hc|].
  by rewrite Hx, IH.
Qed.
(** The decimal digits of a number and their value. *)
Lemma digits_spec fuel : ∀ n, 0 ≤ n < 10 ^ Z.of_nat fuel → (0 < fuel)%nat →
  Forall (λ c, is_digit c = true) (digits fuel 10 n []) ∧ digits fuel 10 n [] ≠ [] ∧
  dec_value 0 (digits fuel 10 n []) = n.
Proof.
  induction fuel as [|fuel IH]; intros n Hn Hf; [lia|]. rewrite digits_step.
  pose proof (Z.mod_pos_bound n 10 ltac:(lia)) as Hm. pose proof (Z.div_mod n 10 ltac:(lia)) as Hdm.
  destruct (digit_char (n `mod` 10) Hm) as [Hdc Hv].
  destruct (Z.eqb_spec (n `div` 10) 0) as [H0|H0].
  { split_and!; [by repeat constructor|done|].
    rewrite dec_value_snoc by (done || constructor). rewrite Hv. simpl. lia. }
  rewrite Nat2Z.inj_succ, Z.pow_succ_r in Hn by lia.
  assert (0 ≤ n `div` 10 < 10 ^ Z.of_nat fuel) as Hn'.
  { split; [apply Z.div_pos; lia|apply Z.div_lt_upper_bound; lia]. }
  assert (0 < fuel)%nat as Hf' by (destruct fuel; [simpl in Hn'; lia|lia]).
  destruct (IH _ Hn' Hf') as (Hall & Hne & Hval). split_and!.
  - apply Forall_app. split; [done|by repeat constructor].
  - by destruct (digits fuel 10 (n `div` 10) []).
  - rewrite dec_value_snoc, Hval, Hv by done. lia.
Qed.
Lemma digits_length fuel : ∀ n k, 0 ≤ n < 10 ^ Z.of_nat k → (0 < k)%nat →
  (length (digits fuel 10 n []) ≤ k)%nat.
Proof.
  induction fuel as [|fuel IH]; intros n k Hn Hk; [simpl; lia|]. rewrite digits_step, length_app.
  destruct (Z.eqb_spec (n `div` 10) 0) as [H0|H0]; [simpl; lia|].
  destruct k as [|k]; [lia|]. rewrite Nat2Z.inj_succ, Z.pow_succ_r in Hn by lia.
  assert (0 ≤ n `div` 10 < 10 ^ Z.of_nat k) as Hn'.
  { split; [apply Z.div_pos; lia|apply Z.div_lt_upper_bound; lia]. }
  assert (0 < k)%nat by (destruct k; [simpl in Hn'; lia|lia]).
  specialize (IH _ k Hn' ltac:(lia)). simpl. lia.
Qed.
Lemma dec_spec n : 0 ≤ n < 2 ^ 64 →
  Forall (λ c, is_digit c = true) (dec n) ∧ dec n ≠ [] ∧ dec_value 0 (dec n) = n.
Proof.
  intros Hn. unfold dec. rewrite (proj2 (Z.ltb_ge _ _)) by lia. apply digits_spec; [|lia].
  split; [lia|]. eapply Z.lt_le_trans; [apply Hn|]. vm_compute. discriminate.
Qed.
Lemma atoi_dec n : 0 ≤ n < 2 ^ 31 → atoi (dec n) = n.
Proof.
  intros Hn. destruct (dec_spec n) as (Hd & Hne & Hv); [lia|]. unfold atoi.
  destruct (dec n) as [|c ds]; [done|]. apply Forall_cons in Hd as [Hc Hd].
  assert (Hc' := Hc). unfold is_digit in Hc'. rewrite andb_true_iff, !Z.leb_le in Hc'.
  assert (Hs : skip_space (c :: ds) = c :: ds).
  { simpl. unfold is_space. rewrite (proj2 (Z.eqb_neq _ _)) by lia.
    rewrite (proj2 (Z.leb_gt (b2z c) 13)) by lia. by rewrite andb_false_r. }
  rewrite Hs. assert (Hm : (match c :: ds with
    | x2d :: s' => - dec_value 0 s' | x2b :: s' => dec_value 0 s' | s' => dec_value 0 s' end) = n).
  { destruct c; try exact Hv; by vm_compute in Hc. }
  rewrite Hm, Z.min_r, Z.max_r, s32_small by lia. done.
Qed.
