(* ===== verification/MemPool.v ===== *)
(** * memory-pool: the fixed-size block pool (memory-pool/src/mempool.c)

    Pointer-level model.  A [world] holds the block headers the process can
    reach (by address), the user bytes behind them and the pool structures, so
    that several pools, foreign pointers and aliasing are all expressible.
    The invariant [pool_inv] ties a pool to two doubly linked lists, and every
    operation is proved to refine the abstract pool (a pair of address lists)
    on every branch. *)

From S2P Require Import Prelude.

Module MemPool.

(** ** Data *)

Definition NULL : Z := 0.
Definition MEMPOOL_ALIGNMENT : Z := 8.
Definition MEMPOOL_MAGIC : Z := 0xDEADBEEF.

Inductive mempool_err_t :=
  | MEMPOOL_OK
  | MEMPOOL_ERR_NULL_PTR
  | MEMPOOL_ERR_INVALID_SIZE
  | MEMPOOL_ERR_NO_MEMORY
  | MEMPOOL_ERR_DOUBLE_FREE
  | MEMPOOL_ERR_CORRUPTED
  | MEMPOOL_ERR_NOT_OWNER.
#[global] Instance mempool_err_eq_dec : EqDecision mempool_err_t.
Proof. solve_decision. Defined.

Record mempool_block_t := Block {
  magic : Z;        (* uint32_t *)
  is_free : Z;      (* int *)
  bsize : Z;        (* size_t size *)
  next : Z;         (* struct mempool_block * *)
  prev : Z
}.

Record mempool_stats_t := Stats {
  s_total_size : Z;
  s_used_size : Z;
  s_free_size : Z;
  s_block_size : Z;
  s_total_blocks : Z;
  s_used_blocks : Z;
  s_free_blocks : Z;
  s_max_used : Z;
  s_alloc_count : Z;
  s_free_count : Z;
  s_fail_count : Z
}.

Record mempool_t := Pool {
  memory : Z;
  total_size : Z;
  block_size : Z;
  block_count : Z;
  free_list : Z;
  used_list : Z;
  lock : bool;              (* whether the mutex is held *)
  stats : mempool_stats_t;
  is_thread_safe : Z
}.

(** Lines printed to stderr. *)
Inductive diag :=
  | WarnNotFreed (n : Z)
  | ErrCorruption
  | ErrCountMismatch (free_count free_blocks used_count used_blocks : Z).

Record world := World {
  blocks : gmap Z mempool_block_t;     (* headers, by address *)
  data : gmap Z (list byte);           (* user areas, by data address *)
  pools : gmap Z mempool_t;            (* pool structures, by address *)
  stderr : list diag
}.

#[global] Instance block_eq_dec : EqDecision mempool_block_t.
Proof. solve_decision. Defined.

(** Field updates (the assignments of the C code). *)
Definition set_next (v : Z) (b : mempool_block_t) : mempool_block_t :=
  Block b.(magic) b.(is_free) b.(bsize) v b.(prev).
Definition set_prev (v : Z) (b : mempool_block_t) : mempool_block_t :=
  Block b.(magic) b.(is_free) b.(bsize) b.(next) v.
Definition set_is_free (v : Z) (b : mempool_block_t) : mempool_block_t :=
  Block b.(magic) v b.(bsize) b.(next) b.(prev).

Definition set_free_list (v : Z) (p : mempool_t) : mempool_t :=
  Pool p.(memory) p.(total_size) p.(block_size) p.(block_count) v p.(used_list)
    p.(lock) p.(stats) p.(is_thread_safe).
Definition set_used_list (v : Z) (p : mempool_t) : mempool_t :=
  Pool p.(memory) p.(total_size) p.(block_size) p.(block_count) p.(free_list) v
    p.(lock) p.(stats) p.(is_thread_safe).
Definition set_lock (v : bool) (p : mempool_t) : mempool_t :=
  Pool p.(memory) p.(total_size) p.(block_size) p.(block_count) p.(free_list)
    p.(used_list) v p.(stats) p.(is_thread_safe).
Definition set_stats (f : mempool_stats_t → mempool_stats_t) (p : mempool_t) : mempool_t :=
  Pool p.(memory) p.(total_size) p.(block_size) p.(block_count) p.(free_list)
    p.(used_list) p.(lock) (f p.(stats)) p.(is_thread_safe).

(** Loads and stores: a dereference of an address that holds no header (or no
    pool) is undefined behaviour. *)
Definition rd_block (a : Z) : C world mempool_block_t := λ w,
  match w.(blocks) !! a with Some b => Ret (b, w) | None => UB end.
Definition wr_block (a : Z) (f : mempool_block_t → mempool_block_t) : C world unit := λ w,
  match w.(blocks) !! a with
  | Some b => Ret (tt, World (<[a := f b]> w.(blocks)) w.(data) w.(pools) w.(stderr))
  | None => UB
  end.
Definition rd_pool (a : Z) : C world mempool_t := λ w,
  match w.(pools) !! a with Some p => Ret (p, w) | None => UB end.
Definition wr_pool (a : Z) (f : mempool_t → mempool_t) : C world unit := λ w,
  match w.(pools) !! a with
  | Some p => Ret (tt, World w.(blocks) w.(data) (<[a := f p]> w.(pools)) w.(stderr))
  | None => UB
  end.
Definition print_err (d : diag) : C world unit :=
  c_mod (λ w, World w.(blocks) w.(data) w.(pools) (w.(stderr) ++ [d])).

(** ** Helpers of the source *)

(** [#define ALIGN_UP(size, alignment)] on a [size_t]. *)
Definition ALIGN_UP (size alignment : Z) : Z :=
  Z.land (u64 (size + alignment - 1)) (Z.lnot (alignment - 1)).

(** [sizeof(mempool_block_t)] on an LP64 target: 4 + 4 + 8 + 8 + 8. *)
Definition sizeof_block : Z := 32.
Definition BLOCK_HEADER_SIZE : Z := ALIGN_UP sizeof_block MEMPOOL_ALIGNMENT.

Definition get_block_header (ptr : Z) : Z := ptr - BLOCK_HEADER_SIZE.
Definition get_block_data (block : Z) : Z := block + BLOCK_HEADER_SIZE.
Definition check_magic (b : mempool_block_t) : bool := b.(magic) =? MEMPOOL_MAGIC.

(** [mempool_strerror], on the integer value of the argument. *)
Definition err_code (e : mempool_err_t) : Z :=
  match e with
  | MEMPOOL_OK => 0
  | MEMPOOL_ERR_NULL_PTR => 1
  | MEMPOOL_ERR_INVALID_SIZE => 2
  | MEMPOOL_ERR_NO_MEMORY => 3
  | MEMPOOL_ERR_DOUBLE_FREE => 4
  | MEMPOOL_ERR_CORRUPTED => 5
  | MEMPOOL_ERR_NOT_OWNER => 6
  end.
Definition error_messages : list (list byte) :=
  [str "Success"; str "Null pointer"; str "Invalid size"; str "No memory available";
   str "Double free detected"; str "Memory corrupted"; str "Not pool owner"].
Definition mempool_strerror (err : Z) : list byte :=
  if (err <? 0) || (err_code MEMPOOL_ERR_NOT_OWNER <? err) then str "Unknown error"
  else default [] (error_messages !! Z.to_nat err).

Definition pthread_mutex_lock (pool : Z) : C world unit :=
  p ← rd_pool pool;
  if p.(lock) then c_blocked else wr_pool pool (set_lock true).
Definition pthread_mutex_unlock (pool : Z) : C world unit :=
  wr_pool pool (set_lock false).

(** [if (pool->is_thread_safe) pthread_mutex_lock(&pool->lock);] *)
Definition lock_if (pool : Z) : C world unit :=
  p ← rd_pool pool;
  if p.(is_thread_safe) =? 0 then mret tt else pthread_mutex_lock pool.
Definition unlock_if (pool : Z) : C world unit :=
  p ← rd_pool pool;
  if p.(is_thread_safe) =? 0 then mret tt else pthread_mutex_unlock pool.

(** ** Operations *)

(** One iteration of the loop of [init_blocks]; a header that does not fit in
    the [total_size] bytes of the pool memory is an out-of-bounds store. *)
Definition init_block (p : mempool_t) (i : Z) : C world unit :=
  let base := p.(memory) in
  let total_block_size := u64 (p.(block_size) + BLOCK_HEADER_SIZE) in
  let b := Block MEMPOOL_MAGIC 1 p.(block_size)
             (if i <? p.(block_count) - 1 then base + (i + 1) * total_block_size else NULL)
             (if 0 <? i then base + (i - 1) * total_block_size else NULL) in
  if p.(total_size) <? i * total_block_size + sizeof_block then c_ub else
  c_mod (λ w, World (<[base + i * total_block_size := b]> w.(blocks))
                    w.(data) w.(pools) w.(stderr)).

Definition init_blocks (pool : Z) : C world unit :=
  p ← rd_pool pool;
  c_for (Z.to_nat p.(block_count)) 0 (init_block p);;
  wr_pool pool (set_free_list p.(memory));;
  wr_pool pool (set_used_list NULL).

(** [memset(pool->memory, 0, total_size)]: the user areas of all blocks become
    zero (the headers are overwritten by [init_blocks]). *)
Definition zero_area (base total_block_size block_size : Z) (i : Z) : C world unit :=
  c_mod (λ w, World w.(blocks)
    (<[get_block_data (base + i * total_block_size) :=
         replicate (Z.to_nat block_size) x00]> w.(data))
    w.(pools) w.(stderr)).

(** [mempool_create]; [a_pool] and [a_mem] are what [malloc] and
    [aligned_alloc] return. *)
Definition mempool_create (a_pool a_mem : Z)
    (block_size block_count thread_safe : Z) : C world Z :=
  if block_count =? 0 then mret NULL else
  let block_size := if block_size <? 8 then 8 else block_size in
  let block_size := ALIGN_UP block_size MEMPOOL_ALIGNMENT in
  if a_pool =? NULL then mret NULL else
  let total_block_size := u64 (block_size + BLOCK_HEADER_SIZE) in
  let total_size := u64 (total_block_size * block_count) in
  if a_mem =? NULL then mret NULL else
  c_for (Z.to_nat block_count) 0 (zero_area a_mem total_block_size block_size);;
  c_mod (λ w, World w.(blocks) w.(data)
    (<[a_pool := Pool a_mem total_size block_size block_count NULL NULL false
                   (Stats 0 0 0 0 0 0 0 0 0 0 0) thread_safe]> w.(pools)) w.(stderr));;
  init_blocks a_pool;;
  wr_pool a_pool (set_stats (λ _,
    Stats total_size 0 total_size block_size block_count 0 block_count 0 0 0 0));;
  mret a_pool.

Definition mempool_destroy (pool : Z) : C world unit :=
  if pool =? NULL then mret tt else
  p ← rd_pool pool;
  (if 0 <? p.(stats).(s_used_blocks)
   then print_err (WarnNotFreed p.(stats).(s_used_blocks)) else mret tt);;
  let total_block_size := u64 (p.(block_size) + BLOCK_HEADER_SIZE) in
  c_for (Z.to_nat p.(block_count)) 0 (λ i, c_mod (λ w,
    World (delete (p.(memory) + i * total_block_size) w.(blocks))
          (delete (get_block_data (p.(memory) + i * total_block_size)) w.(data))
          w.(pools) w.(stderr)));;
  c_mod (λ w, World w.(blocks) w.(data) (delete pool w.(pools)) w.(stderr)).

Definition inc_fail (s : mempool_stats_t) : mempool_stats_t :=
  Stats s.(s_total_size) s.(s_used_size) s.(s_free_size) s.(s_block_size)
    s.(s_total_blocks) s.(s_used_blocks) s.(s_free_blocks) s.(s_max_used)
    s.(s_alloc_count) s.(s_free_count) (u64 (s.(s_fail_count) + 1)).

(** The statistics update of a successful allocation. *)
Definition stats_alloc (bs : Z) (s : mempool_stats_t) : mempool_stats_t :=
  let used := u64 (s.(s_used_size) + bs) in
  Stats s.(s_total_size) used (u64 (s.(s_free_size) - bs)) s.(s_block_size)
    s.(s_total_blocks) (u64 (s.(s_used_blocks) + 1)) (u64 (s.(s_free_blocks) - 1))
    (if s.(s_max_used) <? used then used else s.(s_max_used))
    (u64 (s.(s_alloc_count) + 1)) s.(s_free_count) s.(s_fail_count).

(** The statistics update of a successful release. *)
Definition stats_free (bs : Z) (s : mempool_stats_t) : mempool_stats_t :=
  Stats s.(s_total_size) (u64 (s.(s_used_size) - bs)) (u64 (s.(s_free_size) + bs))
    s.(s_block_size) s.(s_total_blocks) (u64 (s.(s_used_blocks) - 1))
    (u64 (s.(s_free_blocks) + 1)) s.(s_max_used) s.(s_alloc_count)
    (u64 (s.(s_free_count) + 1)) s.(s_fail_count).

(** [if (p) p->prev = v;] *)
Definition link_prev (a v : Z) : C world unit :=
  if a =? NULL then mret tt else wr_block a (set_prev v).

Definition mempool_alloc (pool size : Z) : C world Z :=
  if pool =? NULL then mret NULL else
  p ← rd_pool pool;
  if (size =? 0) || (p.(block_size) <? size) then
    wr_pool pool (set_stats inc_fail);; mret NULL
  else
  lock_if pool;;
  p ← rd_pool pool;
  let block := p.(free_list) in
  if block =? NULL then
    wr_pool pool (set_stats inc_fail);; unlock_if pool;; mret NULL
  else
  b ← rd_block block;
  if negb (check_magic b) then
    print_err ErrCorruption;; unlock_if pool;; mret NULL
  else
  (* unlink from the free list *)
  wr_pool pool (set_free_list b.(next));;
  link_prev b.(next) NULL;;
  (* push on the used list *)
  wr_block block (set_is_free 0);;
  wr_block block (set_next p.(used_list));;
  wr_block block (set_prev NULL);;
  link_prev p.(used_list) block;;
  wr_pool pool (set_used_list block);;
  wr_pool pool (set_stats (stats_alloc p.(block_size)));;
  unlock_if pool;;
  mret (get_block_data block).

(** [memset(ptr, 0, size)] inside one user area. *)
Definition memset0 (ptr size : Z) : C world unit := λ w,
  match w.(data) !! ptr with
  | Some d =>
      if Z.of_nat (length d) <? size then UB
      else Ret (tt, World w.(blocks)
             (<[ptr := replicate (Z.to_nat size) x00 ++ drop (Z.to_nat size) d]> w.(data))
             w.(pools) w.(stderr))
  | None => UB
  end.

Definition mempool_calloc (pool size : Z) : C world Z :=
  ptr ← mempool_alloc pool size;
  (if ptr =? NULL then mret tt else memset0 ptr size);;
  mret ptr.

(** The unlocked part of [mempool_free]: the checks on the header. *)
Definition mempool_free_checks (pool ptr : Z) : C world (option mempool_err_t) :=
  if pool =? NULL then mret (Some MEMPOOL_ERR_NULL_PTR) else
  if ptr =? NULL then mret (Some MEMPOOL_OK) else
  b ← rd_block (get_block_header ptr);
  if negb (check_magic b) then mret (Some MEMPOOL_ERR_CORRUPTED) else
  if negb (b.(is_free) =? 0) then mret (Some MEMPOOL_ERR_DOUBLE_FREE) else
  mret None.

(** The critical section of [mempool_free]. *)
Definition mempool_free_locked (pool ptr : Z) : C world mempool_err_t :=
  let block := get_block_header ptr in
  lock_if pool;;
  b ← rd_block block;
  (if b.(prev) =? NULL then wr_pool pool (set_used_list b.(next))
   else wr_block b.(prev) (set_next b.(next)));;
  link_prev b.(next) b.(prev);;
  (* push on the free list *)
  p ← rd_pool pool;
  wr_block block (set_is_free 1);;
  wr_block block (set_next p.(free_list));;
  wr_block block (set_prev NULL);;
  link_prev p.(free_list) block;;
  wr_pool pool (set_free_list block);;
  wr_pool pool (set_stats (stats_free p.(block_size)));;
  unlock_if pool;;
  mret MEMPOOL_OK.

Definition mempool_free (pool ptr : Z) : C world mempool_err_t :=
  r ← mempool_free_checks pool ptr;
  match r with
  | Some e => mret e
  | None => mempool_free_locked pool ptr
  end.

(** [memcpy(dst, src, n)] between the starts of two user areas. *)
Definition memcpy_area (dst src n : Z) : C world unit := λ w,
  match w.(data) !! dst, w.(data) !! src with
  | Some d, Some s =>
      if (Z.of_nat (length d) <? n) || (Z.of_nat (length s) <? n) then UB
      else Ret (tt, World w.(blocks)
             (<[dst := take (Z.to_nat n) s ++ drop (Z.to_nat n) d]> w.(data))
             w.(pools) w.(stderr))
  | _, _ => UB
  end.

Definition mempool_realloc (pool ptr size : Z) : C world Z :=
  if pool =? NULL then mret NULL else
  if ptr =? NULL then mempool_alloc pool size else
  if size =? 0 then _ ← mempool_free pool ptr; mret NULL else
  p ← rd_pool pool;
  if p.(block_size) <? size then mret NULL else
  new_ptr ← mempool_alloc pool size;
  if new_ptr =? NULL then mret NULL else
  old_block ← rd_block (get_block_header ptr);
  let old_size := old_block.(bsize) in
  let copy_size := if size <? old_size then size else old_size in
  memcpy_area new_ptr ptr copy_size;;
  _ ← mempool_free pool ptr;
  mret new_ptr.

(** [mempool_get_stats]; [null_out] says whether the output pointer is NULL. *)
Definition mempool_get_stats (pool : Z) (null_out : bool)
    : C world (mempool_err_t * option mempool_stats_t) :=
  if (pool =? NULL) || null_out then mret (MEMPOOL_ERR_NULL_PTR, None) else
  lock_if pool;;
  p ← rd_pool pool;
  unlock_if pool;;
  mret (MEMPOOL_OK, Some p.(stats)).

(** The list walks of [mempool_check]: count the blocks from [block] on, [None]
    when a header is corrupted.  [want_free] is the flag the list must show. *)
Fixpoint check_list (fuel : nat) (want_free : bool) (block count : Z)
    : C world (option Z) :=
  match fuel with
  | O => c_fuel
  | S fuel' =>
      if block =? NULL then mret (Some count) else
      b ← rd_block block;
      if negb (check_magic b) then mret None else
      if bool_decide (want_free = (b.(is_free) =? 0)) then mret None else
      check_list fuel' want_free b.(next) (u64 (count + 1))
  end.

Definition mempool_check (fuel : nat) (pool : Z) : C world mempool_err_t :=
  if pool =? NULL then mret MEMPOOL_ERR_NULL_PTR else
  lock_if pool;;
  p ← rd_pool pool;
  fc ← check_list fuel true p.(free_list) 0;
  match fc with
  | None => unlock_if pool;; mret MEMPOOL_ERR_CORRUPTED
  | Some free_count =>
    uc ← check_list fuel false p.(used_list) 0;
    match uc with
    | None => unlock_if pool;; mret MEMPOOL_ERR_CORRUPTED
    | Some used_count =>
      if negb (free_count =? p.(stats).(s_free_blocks))
         || negb (used_count =? p.(stats).(s_used_blocks)) then
        print_err (ErrCountMismatch free_count p.(stats).(s_free_blocks)
                     used_count p.(stats).(s_used_blocks));;
        unlock_if pool;; mret MEMPOOL_ERR_CORRUPTED
      else
        unlock_if pool;; mret MEMPOOL_OK
    end
  end.

(** The offsets [mempool_warmup] reads: [for (i = 0; i < total_size; i += 4096)]. *)
Fixpoint warmup_offsets (fuel : nat) (total_size i : Z) : outcome (list Z) :=
  match fuel with
  | O => Fuel
  | S fuel' =>
      if i <? total_size then
        match warmup_offsets fuel' total_size (u64 (i + 4096)) with
        | Ret l => Ret (i :: l)
        | r => r
        end
      else Ret []
  end.

Definition mempool_warmup (fuel : nat) (pool : Z) : C world (list Z) :=
  if pool =? NULL then mret [] else
  p ← rd_pool pool;
  l ← c_lift (warmup_offsets fuel p.(total_size) 0);
  mret ((λ i, p.(memory) + i) <$> l).

Definition stats_reset (total block_count : Z) (s : mempool_stats_t) : mempool_stats_t :=
  Stats s.(s_total_size) 0 total s.(s_block_size) s.(s_total_blocks) 0 block_count
    s.(s_max_used) s.(s_alloc_count) s.(s_free_count) s.(s_fail_count).

Definition mempool_reset (pool : Z) : C world unit :=
  if pool =? NULL then mret tt else
  lock_if pool;;
  init_blocks pool;;
  p ← rd_pool pool;
  wr_pool pool (set_stats (stats_reset p.(total_size) p.(block_count)));;
  unlock_if pool.

(** ** Linked lists in the heap *)

(** The fields of a header that list surgery never touches. *)
Definition hk (h : gmap Z mempool_block_t) (a : Z) : option (Z * Z * Z) :=
  (λ b, (b.(magic), b.(is_free), b.(bsize))) <$> h !! a.

(** Doubly linked segment: predecessor, first, last, successor. *)
Fixpoint dseg (h : gmap Z mempool_block_t) (pp p q qn : Z) (xs : list Z) : Prop :=
  match xs with
  | [] => p = qn ∧ pp = q
  | x :: xs' => p = x ∧ ∃ b, h !! x = Some b ∧ b.(prev) = pp ∧ dseg h x b.(next) q qn xs'
  end.

Definition dll (h : gmap Z mempool_block_t) (head : Z) (xs : list Z) : Prop :=
  ∃ q, dseg h NULL head q NULL xs.

Definition nonnull (xs : list Z) : Prop := Forall (λ x, x ≠ NULL) xs.

Lemma dseg_ext h h' pp p q qn xs :
  (∀ x, x ∈ xs → h' !! x = h !! x) → dseg h pp p q qn xs → dseg h' pp p q qn xs.
Proof.
  revert pp p. induction xs as [|x xs IH]; intros pp p Hext; simpl; [done|].
  intros (-> & b & Hb & Hp & Hs). split; [done|]. exists b.
  rewrite Hext by set_solver. split_and!; auto. apply IH; [|done]. set_solver.
Qed.

Lemma dll_ext h h' head xs :
  (∀ x, x ∈ xs → h' !! x = h !! x) → dll h head xs → dll h' head xs.
Proof. intros Hext [q Hq]. exists q. by eapply dseg_ext. Qed.

Lemma dseg_app h pp p q qn xs ys :
  dseg h pp p q qn (xs ++ ys) ↔ ∃ j jn, dseg h pp p j jn xs ∧ dseg h j jn q qn ys.
Proof.
  revert pp p. induction xs as [|x xs IH]; intros pp p; simpl.
  - split; [intros H; by exists pp, p|intros (j & jn & [-> ->] & H); done].
  - split.
    + intros (-> & b & Hb & Hp & (j & jn & H1 & H2)%IH).
      exists j, jn. split; [|done]. split; [done|]. by exists b.
    + intros (j & jn & (-> & b & Hb & Hp & H1) & H2).
      split; [done|]. exists b. split_and!; auto. apply IH. by exists j, jn.
Qed.

(** Changing the predecessor field of the first node. *)
Lemma dseg_set_first h pp p q qn x xs v :
  NoDup (x :: xs) → dseg h pp p q qn (x :: xs) →
  dseg (alter (set_prev v) x h) v p q qn (x :: xs).
Proof.
  intros [Hx _]%NoDup_cons (-> & b & Hb & Hp & Hs). simpl. split; [done|].
  exists (set_prev v b). rewrite lookup_alter_eq, Hb. split_and!; [done..|].
  eapply dseg_ext; [|exact Hs]. intros y Hy. apply lookup_alter_ne. set_solver.
Qed.

(** Changing the successor field of the last node. *)
Lemma dseg_set_last h pp p q qn x xs v :
  NoDup (xs ++ [x]) → dseg h pp p q qn (xs ++ [x]) →
  q = x ∧ dseg (alter (set_next v) x h) pp p q v (xs ++ [x]).
Proof.
  intros (_ & Hx & _)%NoDup_app (j & jn & H1 & Hj & b & Hb & Hp & Hn & Hq)%dseg_app.
  subst q jn. split; [done|]. apply dseg_app. exists j, x. split.
  - eapply dseg_ext; [|exact H1]. intros y Hy. apply lookup_alter_ne. set_solver.
  - simpl. split; [done|]. exists (set_next v b). by rewrite lookup_alter_eq, Hb.
Qed.

(** The effect of [link_prev] on the heap. *)
Definition h_link_prev (h : gmap Z mempool_block_t) (a v : Z) : gmap Z mempool_block_t :=
  if a =? NULL then h else alter (set_prev v) a h.
(** The effect of pushing [a] in front of the list at [head]. *)
Definition h_push (h : gmap Z mempool_block_t) (a head : Z) : gmap Z mempool_block_t :=
  h_link_prev (alter (set_prev NULL) a (alter (set_next head) a h)) head a.
(** The effect of unlinking a node with fields [b]. *)
Definition h_unlink (h : gmap Z mempool_block_t) (b : mempool_block_t) : gmap Z mempool_block_t :=
  h_link_prev (if b.(prev) =? NULL then h else alter (set_next b.(next)) b.(prev) h)
    b.(next) b.(prev).

Lemma hk_alter_keep (f : mempool_block_t → mempool_block_t) h a x :
  (∀ b, (f b).(magic) = b.(magic) ∧ (f b).(is_free) = b.(is_free) ∧
        (f b).(bsize) = b.(bsize)) →
  hk (alter f a h) x = hk h x.
Proof.
  intros Hf. unfold hk. destruct (decide (a = x)) as [->|Hne].
  - rewrite lookup_alter_eq. destruct (h !! x) as [b|]; [|done]. simpl.
    by destruct (Hf b) as (-> & -> & ->).
  - by rewrite lookup_alter_ne.
Qed.
Lemma hk_link_prev h a v x : hk (h_link_prev h a v) x = hk h x.
Proof. unfold h_link_prev. case_match; [done|]. by apply hk_alter_keep. Qed.
Lemma hk_push h a head x : hk (h_push h a head) x = hk h x.
Proof.
  unfold h_push. rewrite hk_link_prev, hk_alter_keep by done. by apply hk_alter_keep.
Qed.
Lemma hk_unlink h b x : hk (h_unlink h b) x = hk h x.
Proof.
  unfold h_unlink. rewrite hk_link_prev. case_match; [done|]. by apply hk_alter_keep.
Qed.
Lemma hk_set_free_eq h a v :
  hk (alter (set_is_free v) a h) a = (λ t, (t.1.1, v, t.2)) <$> hk h a.
Proof. unfold hk. rewrite lookup_alter_eq. by destruct (h !! a). Qed.
Lemma hk_set_free_ne h a v x : a ≠ x → hk (alter (set_is_free v) a h) x = hk h x.
Proof. intros. unfold hk. by rewrite lookup_alter_ne. Qed.

Lemma hk_is_Some h a : is_Some (hk h a) ↔ is_Some (h !! a).
Proof. unfold hk. by rewrite fmap_is_Some. Qed.

Lemma lookup_link_prev_ne h a v x : x ≠ a → h_link_prev h a v !! x = h !! x.
Proof. intros. unfold h_link_prev. case_match; [done|]. by rewrite lookup_alter_ne. Qed.
Lemma lookup_push_ne h a head x : x ≠ a → x ≠ head → h_push h a head !! x = h !! x.
Proof.
  intros. unfold h_push. by rewrite lookup_link_prev_ne, !lookup_alter_ne by done.
Qed.

Lemma dseg_first h p q qn x xs : dseg h NULL p q qn (x :: xs) → p = x.
Proof. by intros [-> _]. Qed.

Lemma dll_head_in h head xs : dll h head xs → head = NULL ∧ xs = [] ∨ head ∈ xs.
Proof.
  intros [q Hq]. destruct xs as [|x xs]; [left|right]; destruct Hq as [-> _]; set_solver.
Qed.

Lemma dll_link_head h head v xs p :
  NoDup xs → nonnull xs → dseg h p head v NULL xs → ∀ v',
  ∃ q, dseg (h_link_prev h head v') v' head q NULL xs.
Proof.
  intros Hnd Hnn Hs v'. unfold h_link_prev. destruct xs as [|x xs].
  - destruct Hs as [-> _]. simpl. by exists v'.
  - assert (Hx : head = x) by (by destruct Hs). rewrite Hx in *.
    apply Forall_cons in Hnn as [Hnx _].
    destruct (Z.eqb_spec x NULL); [done|]. exists v. by eapply dseg_set_first.
Qed.

Lemma dll_pop h a b xs :
  NoDup (a :: xs) → nonnull xs → dll h a (a :: xs) → h !! a = Some b →
  dll (h_link_prev h b.(next) NULL) b.(next) xs.
Proof.
  intros [Ha Hnd]%NoDup_cons Hnn (q & _ & b' & Hb' & _ & Hs) Hb.
  simplify_eq. by eapply dll_link_head.
Qed.

Lemma dll_push h a head xs :
  a ∉ xs → NoDup xs → nonnull xs → is_Some (h !! a) → dll h head xs →
  dll (h_push h a head) a (a :: xs).
Proof.
  intros Ha Hnd Hnn [b Hb] [q Hs]. unfold h_push.
  set (h1 := alter (set_prev NULL) a (alter (set_next head) a h)).
  assert (Hs1 : dseg h1 NULL head q NULL xs).
  { eapply dseg_ext; [|exact Hs]. intros x Hx. unfold h1.
    rewrite !lookup_alter_ne by set_solver. done. }
  destruct (dll_link_head h1 head q xs NULL Hnd Hnn Hs1 a) as [q' Hq'].
  exists q'. simpl. split; [done|].
  exists (set_prev NULL (set_next head b)). split_and!; [|done|done].
  assert (a ≠ head ∨ head = NULL) as Hah.
  { destruct (dll_head_in h head xs (ex_intro _ q Hs)) as [[-> _]|]; set_solver. }
  unfold h_link_prev. destruct (Z.eqb_spec head NULL); [|rewrite lookup_alter_ne by naive_solver];
    unfold h1; by rewrite !lookup_alter_eq, Hb.
Qed.

(** The neighbours of a node in the middle of a list. *)
Lemma dll_split h head a b l1 l2 :
  dll h head (l1 ++ a :: l2) → h !! a = Some b →
  ∃ q, dseg h NULL head b.(prev) a l1 ∧ dseg h a b.(next) q NULL l2.
Proof.
  intros [q (j & jn & H1 & -> & b' & Hb' & Hp & Hs)%dseg_app] Hb.
  rewrite Hb in Hb'. simplify_eq. exists q. by split.
Qed.

Lemma dseg_last_in h pp p q qn xs : dseg h pp p q qn xs → q = pp ∧ xs = [] ∨ q ∈ xs.
Proof.
  destruct xs as [|x xs _] using rev_ind; [by intros [-> ->]; left|].
  intros (j & jn & _ & -> & b & _ & _ & _ & Hq)%dseg_app. right. set_solver.
Qed.

Lemma dseg_first_in h pp p q qn xs : dseg h pp p q qn xs → p = qn ∧ xs = [] ∨ p ∈ xs.
Proof. destruct xs; [by intros [-> ->]; left|]. intros [-> _]. right. set_solver. Qed.

Lemma dll_unlink h head a b l1 l2 :
  NoDup (l1 ++ a :: l2) → nonnull (l1 ++ a :: l2) →
  dll h head (l1 ++ a :: l2) → h !! a = Some b →
  dll (h_unlink h b) (if b.(prev) =? NULL then b.(next) else head) (l1 ++ l2).
Proof.
  intros Hnd Hnn Hd Hb.
  destruct (dll_split _ _ _ _ _ _ Hd Hb) as (q & H1 & H2).
  apply NoDup_app in Hnd as (Hnd1 & Hdis & [Ha Hnd2]%NoDup_cons).
  apply Forall_app in Hnn as [Hnn1 [Hna Hnn2]%Forall_cons].
  unfold h_unlink. destruct l1 as [|z l1 _] using rev_ind.
  - destruct H1 as [_ <-]. simpl. by eapply dll_link_head.
  - destruct (dseg_set_last _ _ _ _ _ _ _ b.(next) Hnd1 H1) as [Hz H1'].
    rewrite Hz in *. apply Forall_app in Hnn1 as [_ [Hnz _]%Forall_cons].
    destruct (Z.eqb_spec z NULL); [done|].
    set (h1 := alter (set_next b.(next)) z h) in *.
    assert (H2' : dseg h1 a b.(next) q NULL l2).
    { eapply dseg_ext; [|exact H2]. intros x Hx. apply lookup_alter_ne. set_solver. }
    destruct (dll_link_head h1 _ _ _ _ Hnd2 Hnn2 H2' z) as [q' Hq'].
    exists q'. apply dseg_app. exists z, b.(next). split; [|done].
    destruct (dseg_first_in _ _ _ _ _ _ H2) as [[Hn _]|Hn].
    + unfold h_link_prev. by rewrite Hn in *.
    + eapply dseg_ext; [|exact H1']. intros x Hx. apply lookup_link_prev_ne. set_solver.
Qed.

Lemma unlink_local h head a b l1 l2 x :
  dll h head (l1 ++ a :: l2) → h !! a = Some b → x ∉ l1 ++ l2 →
  h_unlink h b !! x = h !! x.
Proof.
  intros Hd Hb Hx. destruct (dll_split _ _ _ _ _ _ Hd Hb) as (q & H1 & H2).
  unfold h_unlink.
  destruct (dseg_last_in _ _ _ _ _ _ H1) as [[Hp _]|Hp];
    destruct (dseg_first_in _ _ _ _ _ _ H2) as [[Hn _]|Hn];
    unfold h_link_prev; repeat case_match; rewrite ?lookup_alter_ne by set_solver;
    try done; exfalso; unfold NULL in *; lia.
Qed.

(** ** The pool invariant *)

Definition tbs (p : mempool_t) : Z := p.(block_size) + BLOCK_HEADER_SIZE.

(** The addresses of the block headers of a pool. *)
Definition block_addrs (p : mempool_t) : list Z :=
  (λ i, p.(memory) + i * tbs p) <$> seqZ 0 p.(block_count).

Record stats_ok (p : mempool_t) (F U : list Z) : Prop := {
  so_total : p.(stats).(s_total_size) = p.(total_size);
  so_used : p.(stats).(s_used_size) = Z.of_nat (length U) * p.(block_size);
  so_free : p.(stats).(s_free_size) = p.(total_size) - Z.of_nat (length U) * p.(block_size);
  so_ub : p.(stats).(s_used_blocks) = Z.of_nat (length U);
  so_fb : p.(stats).(s_free_blocks) = Z.of_nat (length F);
  so_max : p.(stats).(s_used_size) ≤ p.(stats).(s_max_used) ≤ p.(total_size)
}.

Record pool_wf (p : mempool_t) : Prop := {
  wf_mem : 0 < p.(memory);
  wf_bs : 8 ≤ p.(block_size);
  wf_count : 0 < p.(block_count);
  wf_total : p.(total_size) = tbs p * p.(block_count);
  wf_fits : p.(total_size) < 2 ^ 64
}.

(** [F] and [U] are the free and the used list of the pool at [pool]. *)
Record pool_inv (w : world) (pool : Z) (p : mempool_t) (F U : list Z) : Prop := {
  pi_nn : pool ≠ NULL;
  pi_pool : w.(pools) !! pool = Some p;
  pi_wf : pool_wf p;
  pi_lock : p.(lock) = false;
  pi_free : dll w.(blocks) p.(free_list) F;
  pi_used : dll w.(blocks) p.(used_list) U;
  pi_perm : F ++ U ≡ₚ block_addrs p;
  pi_hfree : Forall (λ a, hk w.(blocks) a = Some (MEMPOOL_MAGIC, 1, p.(block_size))) F;
  pi_hused : Forall (λ a, hk w.(blocks) a = Some (MEMPOOL_MAGIC, 0, p.(block_size))) U;
  pi_stats : stats_ok p F U;
  pi_data : Forall (λ a, ∃ d, w.(data) !! get_block_data a = Some d ∧
                              length d = Z.to_nat p.(block_size)) (F ++ U)
}.

Lemma BHS : BLOCK_HEADER_SIZE = 32.
Proof. reflexivity. Qed.

Lemma tbs_pos p : pool_wf p → 40 ≤ tbs p.
Proof. intros []. unfold tbs. rewrite BHS. lia. Qed.

Lemma elem_block_addrs p a :
  a ∈ block_addrs p ↔ ∃ i, 0 ≤ i < p.(block_count) ∧ a = p.(memory) + i * tbs p.
Proof.
  unfold block_addrs. rewrite list_elem_of_fmap. setoid_rewrite elem_of_seqZ. naive_solver lia.
Qed.

Lemma NoDup_block_addrs p : pool_wf p → NoDup (block_addrs p).
Proof.
  intros Hwf. pose proof (tbs_pos p Hwf). unfold block_addrs. apply NoDup_fmap_2_strong.
  - intros x y _ _ E. nia.
  - apply NoDup_seqZ.
Qed.

Lemma block_addrs_nonnull p : pool_wf p → nonnull (block_addrs p).
Proof.
  intros Hwf. pose proof (tbs_pos p Hwf). apply Forall_forall.
  intros a (i & Hi & ->)%elem_block_addrs.
  destruct Hwf. unfold NULL. nia.
Qed.

Section inv_facts.
Context {w : world} {pool : Z} {p : mempool_t} {F U : list Z}.
Context (HI : pool_inv w pool p F U).

Lemma inv_nodup : NoDup (F ++ U).
Proof. rewrite (pi_perm _ _ _ _ _ HI). apply NoDup_block_addrs, HI. Qed.
Lemma inv_nonnull : nonnull (F ++ U).
Proof.
  unfold nonnull. rewrite (pi_perm _ _ _ _ _ HI). apply block_addrs_nonnull, HI.
Qed.
Lemma inv_length : Z.of_nat (length F) + Z.of_nat (length U) = p.(block_count).
Proof.
  pose proof (Permutation_length (pi_perm _ _ _ _ _ HI)) as E.
  rewrite length_app in E. unfold block_addrs in E.
  rewrite length_fmap, length_seqZ in E. destruct (pi_wf _ _ _ _ _ HI). lia.
Qed.
Lemma inv_used_bound :
  Z.of_nat (length U) * p.(block_size) + Z.of_nat (length U) * 32 +
  Z.of_nat (length F) * tbs p = p.(total_size).
Proof.
  pose proof inv_length. destruct (pi_wf _ _ _ _ _ HI) as [_ _ _ -> _].
  unfold tbs. rewrite BHS. nia.
Qed.
End inv_facts.

(** ** Running the primitives *)

Definition wb (w : world) (h : gmap Z mempool_block_t) : world :=
  World h w.(data) w.(pools) w.(stderr).
Definition wp (w : world) (a : Z) (p : mempool_t) : world :=
  World w.(blocks) w.(data) (<[a := p]> w.(pools)) w.(stderr).
Definition lk (p : mempool_t) : mempool_t :=
  if p.(is_thread_safe) =? 0 then p else set_lock true p.
Definition unlk (p : mempool_t) : mempool_t :=
  if p.(is_thread_safe) =? 0 then p else set_lock false p.

Lemma wp_wp w a p p' : wp (wp w a p) a p' = wp w a p'.
Proof. unfold wp. simpl. by rewrite insert_insert_eq. Qed.
Lemma wb_wp w a p h : wb (wp w a p) h = wp (wb w h) a p.
Proof. done. Qed.
Lemma wb_wb w h h' : wb (wb w h) h' = wb w h'.
Proof. done. Qed.

Lemma rd_pool_ret w a p : w.(pools) !! a = Some p → rd_pool a w = Ret (p, w).
Proof. intros H. unfold rd_pool. by rewrite H. Qed.
Lemma wr_pool_ret w a p f : w.(pools) !! a = Some p → wr_pool a f w = Ret (tt, wp w a (f p)).
Proof. intros H. unfold wr_pool. by rewrite H. Qed.
Lemma rd_block_ret w a b : w.(blocks) !! a = Some b → rd_block a w = Ret (b, w).
Proof. intros H. unfold rd_block. by rewrite H. Qed.
Lemma wr_block_ret w a f :
  is_Some (w.(blocks) !! a) → wr_block a f w = Ret (tt, wb w (alter f a w.(blocks))).
Proof.
  intros [b Hb]. unfold wr_block, wb. rewrite Hb. do 3 f_equal.
  apply map_eq. intros i. destruct (decide (a = i)) as [->|Hi].
  - by rewrite lookup_insert_eq, lookup_alter_eq, Hb.
  - by rewrite lookup_insert_ne, lookup_alter_ne.
Qed.
Lemma link_prev_ret w a v :
  a = NULL ∨ is_Some (w.(blocks) !! a) →
  link_prev a v w = Ret (tt, wb w (h_link_prev w.(blocks) a v)).
Proof.
  intros H. unfold link_prev, h_link_prev. destruct (Z.eqb_spec a NULL).
  - by destruct w.
  - apply wr_block_ret. naive_solver.
Qed.
Lemma lock_if_ret w a p :
  w.(pools) !! a = Some p → p.(lock) = false → lock_if a w = Ret (tt, wp w a (lk p)).
Proof.
  intros Hp Hl. unfold lock_if, lk. c_step (rd_pool_ret _ _ _ Hp).
  destruct (_ =? 0).
  - unfold wp. rewrite insert_id by done. by destruct w.
  - unfold pthread_mutex_lock. c_step (rd_pool_ret _ _ _ Hp). rewrite Hl.
    by apply wr_pool_ret.
Qed.
Lemma lock_if_blocked w a p :
  w.(pools) !! a = Some p → p.(is_thread_safe) ≠ 0 → p.(lock) = true →
  lock_if a w = Blocked.
Proof.
  intros Hp Hs Hl. unfold lock_if. c_step (rd_pool_ret _ _ _ Hp).
  rewrite (proj2 (Z.eqb_neq _ _) Hs).
  unfold pthread_mutex_lock. c_step (rd_pool_ret _ _ _ Hp). by rewrite Hl.
Qed.
Lemma unlock_if_ret w a p :
  w.(pools) !! a = Some p → unlock_if a w = Ret (tt, wp w a (unlk p)).
Proof.
  intros Hp. unfold unlock_if, unlk. c_step (rd_pool_ret _ _ _ Hp).
  destruct (_ =? 0).
  - unfold wp. rewrite insert_id by done. by destruct w.
  - unfold pthread_mutex_unlock. by apply wr_pool_ret.
Qed.

Lemma wp_lookup w a p : (wp w a p).(pools) !! a = Some p.
Proof. apply lookup_insert_eq. Qed.
Lemma wb_pools w h : (wb w h).(pools) = w.(pools).
Proof. done. Qed.
Create HintDb pool.
#[local] Hint Resolve wp_lookup : pool.
Lemma wb_wp_lookup w a p h : (wb (wp w a p) h).(pools) !! a = Some p.
Proof. apply lookup_insert_eq. Qed.
#[local] Hint Resolve wb_wp_lookup : pool.

Lemma lk_fl p : (lk p).(free_list) = p.(free_list). Proof. unfold lk. by case_match. Qed.
Lemma lk_ul p : (lk p).(used_list) = p.(used_list). Proof. unfold lk. by case_match. Qed.
Lemma lk_bs p : (lk p).(block_size) = p.(block_size). Proof. unfold lk. by case_match. Qed.

(** One primitive step: rewrite with the run lemma whose premise the context
    gives. *)
Ltac pool_step :=
  lazymatch goal with
  | |- context [(rd_pool ?a ≫= _) ?w] =>
      erewrite (bind_Ret (rd_pool a)); [|apply rd_pool_ret; eauto with pool]
  | |- context [(wr_pool ?a ?f ≫= _) ?w] =>
      erewrite (bind_Ret (wr_pool a f)); [|apply wr_pool_ret; eauto with pool]
  | |- context [(lock_if ?a ≫= _) ?w] =>
      erewrite (bind_Ret (lock_if a)); [|apply lock_if_ret; eauto with pool]
  | |- context [(unlock_if ?a ≫= _) ?w] =>
      erewrite (bind_Ret (unlock_if a)); [|apply unlock_if_ret; eauto with pool]
  end.

(** ** Allocation *)

(** The pool structure after a successful allocation of [a]. *)
Definition pool_alloc (p : mempool_t) (a nxt : Z) : mempool_t :=
  unlk (set_stats (stats_alloc p.(block_size))
         (set_used_list a (set_free_list nxt (lk p)))).

Definition heap_alloc (h : gmap Z mempool_block_t) (a nxt used : Z) : gmap Z mempool_block_t :=
  h_push (alter (set_is_free 0) a (h_link_prev h nxt NULL)) a used.

Lemma is_Some_hk h a t : hk h a = Some t → is_Some (h !! a).
Proof. intros H. apply hk_is_Some. by rewrite H. Qed.

(** The neighbour of a node is null or a live header. *)
Lemma neighbour_some h pp p q xs (t : Z * Z * Z) :
  Forall (λ a, hk h a = Some t) xs → dseg h pp p q NULL xs →
  p = NULL ∨ is_Some (h !! p).
Proof.
  intros Hall [[-> _]|Hin]%dseg_first_in; [by left|right].
  eapply is_Some_hk, (proj1 (Forall_forall _ _) Hall _ Hin).
Qed.

(** The four stores that push a block on a list, as alloc and free do. *)
Lemma push_run {A} w a head v (k : C world A) :
  is_Some (w.(blocks) !! a) → head = NULL ∨ is_Some (w.(blocks) !! head) →
  (wr_block a (set_is_free v);; wr_block a (set_next head);;
   wr_block a (set_prev NULL);; link_prev head a;; k) w =
  k (wb w (h_push (alter (set_is_free v) a w.(blocks)) a head)).
Proof.
  intros Ha Hh. do 3 (erewrite bind_Ret; [|apply wr_block_ret; simpl;
    rewrite ?lookup_alter_is_Some; done]; rewrite ?wb_wb; simpl blocks).
  erewrite bind_Ret; [done|]. apply link_prev_ret. simpl.
  by rewrite !lookup_alter_is_Some.
Qed.

Lemma alloc_run w pool p a b size F U :
  pool_inv w pool p (a :: F) U → 0 < size ≤ p.(block_size) →
  w.(blocks) !! a = Some b →
  mempool_alloc pool size w =
    Ret (get_block_data a,
         wp (wb w (heap_alloc w.(blocks) a b.(next) p.(used_list))) pool
            (pool_alloc p a b.(next))).
Proof.
  intros HI Hs Hb. pose proof (inv_nodup HI) as Hnd. pose proof (inv_nonnull HI) as Hnn.
  destruct HI as [Hpn Hp Hwf Hl Hf Hu Hperm Hhf Hhu Hst Hd].
  assert (Hfl : p.(free_list) = a) by (by destruct Hf as [q [-> _]]).
  unfold mempool_alloc. rewrite (proj2 (Z.eqb_neq _ _) Hpn).
  pool_step. rewrite (proj2 (Z.eqb_neq size 0)), (proj2 (Z.ltb_ge _ _)) by lia. simpl.
  pool_step. pool_step. rewrite lk_fl, Hfl.
  apply Forall_cons in Hnn as [Hna Hnn']. apply Forall_cons in Hhf as [Hha Hhf].
  rewrite (proj2 (Z.eqb_neq _ _) Hna).
  c_step (rd_block_ret (wp w pool (lk p)) _ _ Hb).
  assert (check_magic b = true) as -> by (unfold hk in Hha; rewrite Hb in Hha;
    unfold check_magic; apply Z.eqb_eq; naive_solver). simpl.
  pool_step. rewrite wp_wp.
  destruct (dll_split _ _ _ b [] F Hf Hb) as (q & _ & Hn).
  pose proof (neighbour_some _ _ _ _ _ _ Hhf Hn) as Hnx.
  destruct Hu as [q' Hu]. pose proof (neighbour_some _ _ _ _ _ _ Hhu Hu) as Hux.
  erewrite bind_Ret by (by apply link_prev_ret). rewrite wb_wp, lk_ul, lk_bs. simpl blocks.
  rewrite push_run; simpl blocks; rewrite <- ?hk_is_Some, ?hk_link_prev, ?hk_is_Some; eauto.
  rewrite wb_wp, wb_wb. do 3 (pool_step; rewrite ?wp_wp). done.
Qed.

(** What locking, list and statistics updates leave alone. *)
Definition same_shape (p p' : mempool_t) : Prop :=
  p'.(memory) = p.(memory) ∧ p'.(total_size) = p.(total_size) ∧
  p'.(block_size) = p.(block_size) ∧ p'.(block_count) = p.(block_count) ∧
  p'.(is_thread_safe) = p.(is_thread_safe) ∧ p'.(lock) = p.(lock).

Lemma pool_alloc_fields p a nxt :
  p.(lock) = false →
  same_shape p (pool_alloc p a nxt) ∧
  (pool_alloc p a nxt).(free_list) = nxt ∧ (pool_alloc p a nxt).(used_list) = a ∧
  (pool_alloc p a nxt).(stats) = stats_alloc p.(block_size) p.(stats).
Proof.
  intros Hl. unfold pool_alloc, same_shape, unlk, lk.
  destruct (is_thread_safe p =? 0) eqn:E; simpl; rewrite E; simpl; by rewrite ?Hl.
Qed.

Lemma same_shape_wf p p' : same_shape p p' → pool_wf p → pool_wf p'.
Proof.
  intros (Hm & Ht & Hb & Hc & _) []. split; unfold tbs in *; by rewrite ?Hm, ?Ht, ?Hb, ?Hc.
Qed.
Lemma same_shape_addrs p p' : same_shape p p' → block_addrs p' = block_addrs p.
Proof. intros (Hm & Ht & Hb & Hc & _). unfold block_addrs, tbs. by rewrite Hm, Hb, Hc. Qed.

Lemma alloc_stats p F U a nxt :
  p.(lock) = false → stats_ok p (a :: F) U →
  Z.of_nat (length U) * p.(block_size) + Z.of_nat (length U) * 32 +
    Z.of_nat (length (a :: F)) * tbs p = p.(total_size) →
  pool_wf p → stats_ok (pool_alloc p a nxt) F (a :: U).
Proof.
  intros Hl [] Hb Hwf. pose proof (tbs_pos p Hwf). destruct Hwf.
  destruct (pool_alloc_fields p a nxt Hl) as ((_ & Ht & Hbs & _) & _ & _ & Hst).
  assert (0 ≤ Z.of_nat (length U) * block_size p) by lia.
  assert (Z.of_nat (length U) ≤ Z.of_nat (length U) * 32) by lia.
  assert (Z.of_nat (length F) ≤ Z.of_nat (length F) * tbs p) by nia.
  assert (tbs p = block_size p + 32) by done.
  assert (Z.of_nat (length (a :: F)) * tbs p = tbs p + Z.of_nat (length F) * tbs p)
    as Hc by (cbn [length]; lia).
  assert (u64 (s_used_size (stats p) + block_size p) =
          Z.of_nat (length (a :: U)) * block_size p) as Hu.
  { rewrite u64_small; cbn [length]; lia. }
  split; rewrite Hst, ?Ht, ?Hbs; unfold stats_alloc; cbn [s_total_size s_used_size
    s_free_size s_used_blocks s_free_blocks s_max_used]; rewrite ?Hu; cbn [length].
  - done.
  - done.
  - rewrite u64_small; lia.
  - rewrite u64_small; cbn [length] in *; lia.
  - rewrite u64_small; cbn [length] in *; lia.
  - replace (Z.of_nat (S (length U)) * block_size p)
      with (Z.of_nat (length U) * block_size p + block_size p) by lia.
    case_match eqn:E; lia.
Qed.

Lemma alloc_inv w pool p F U a b :
  pool_inv w pool p (a :: F) U → w.(blocks) !! a = Some b →
  pool_inv (wp (wb w (heap_alloc w.(blocks) a b.(next) p.(used_list))) pool
              (pool_alloc p a b.(next))) pool (pool_alloc p a b.(next)) F (a :: U).
Proof.
  intros HI Hb. pose proof (inv_nodup HI) as Hnd. pose proof (inv_nonnull HI) as Hnn.
  pose proof (inv_used_bound HI) as Hub.
  destruct HI as [Hpn Hp Hwf Hl Hf Hu Hperm Hhf Hhu Hst Hd].
  destruct (pool_alloc_fields p a b.(next) Hl) as (Hsh & Hfl & Hul & Hs).
  assert (Hfa : p.(free_list) = a) by (by destruct Hf as [q [-> _]]).
  simpl in Hnd. apply NoDup_cons in Hnd as [Hax (HndF & Hdis & HndU)%NoDup_app].
  simpl in Hnn. apply Forall_cons in Hnn as [Hna [HnF HnU]%Forall_app].
  apply Forall_cons in Hhf as [Hha Hhf]. rewrite elem_of_app in Hax.
  rewrite Hfa in Hf.
  assert (Hnx : b.(next) = NULL ∨ b.(next) ∈ F).
  { destruct (dll_split _ _ _ b [] F Hf Hb) as (q & _ & Hn%dseg_first_in). naive_solver. }
  assert (Hux : p.(used_list) = NULL ∨ p.(used_list) ∈ U).
  { destruct (dll_head_in _ _ _ Hu); naive_solver. }
  split; simpl; rewrite ?Hfl, ?Hul.
  - done.
  - apply lookup_insert_eq.
  - by eapply same_shape_wf.
  - destruct Hsh as (_ & _ & _ & _ & _ & ->). done.
  - eapply dll_ext; [|apply (dll_pop w.(blocks) a b F); [by constructor; naive_solver|done|done|done]].
    intros x Hx. assert (x ≠ NULL) by (by eapply (proj1 (Forall_forall _ _) HnF)).
    unfold heap_alloc. rewrite lookup_push_ne, lookup_alter_ne by set_solver. done.
  - apply dll_push; [naive_solver|done|done| |].
    + rewrite lookup_alter_is_Some. apply hk_is_Some. rewrite hk_link_prev. eauto.
    + eapply dll_ext; [|exact Hu]. intros x Hx.
      assert (x ≠ NULL) by (by eapply (proj1 (Forall_forall _ _) HnU)).
      rewrite lookup_alter_ne, lookup_link_prev_ne by set_solver. done.
  - rewrite (same_shape_addrs _ _ Hsh), <- Hperm. simpl. by rewrite Permutation_middle.
  - destruct Hsh as (_ & _ & -> & _). apply Forall_forall. intros x Hx.
    unfold heap_alloc. rewrite hk_push, hk_set_free_ne, hk_link_prev by set_solver.
    by eapply (proj1 (Forall_forall _ _) Hhf).
  - destruct Hsh as (_ & _ & -> & _). unfold heap_alloc. constructor.
    + by rewrite hk_push, hk_set_free_eq, hk_link_prev, Hha.
    + apply Forall_forall. intros x Hx.
      rewrite hk_push, hk_set_free_ne, hk_link_prev by set_solver.
      by eapply (proj1 (Forall_forall _ _) Hhu).
  - by apply alloc_stats.
  - destruct Hsh as (_ & _ & -> & _). rewrite <- Permutation_middle. exact Hd.
Qed.

(** A change of the pool structure that keeps its shape and its lists. *)
Lemma inv_touch w pool p p' F U :
  pool_inv w pool p F U → same_shape p p' → p'.(free_list) = p.(free_list) →
  p'.(used_list) = p.(used_list) → stats_ok p' F U → pool_inv (wp w pool p') pool p' F U.
Proof.
  intros [] Hsh Hf Hu Hs. pose proof (same_shape_addrs _ _ Hsh).
  split; simpl; rewrite ?Hf, ?Hu; try done.
  - apply lookup_insert_eq.
  - by eapply same_shape_wf.
  - destruct Hsh as (_ & _ & _ & _ & _ & ->). done.
  - congruence.
  - by destruct Hsh as (_ & _ & -> & _).
  - by destruct Hsh as (_ & _ & -> & _).
  - by destruct Hsh as (_ & _ & -> & _).
Qed.

Lemma alloc_bad_size_run w pool p F U size :
  pool_inv w pool p F U → size = 0 ∨ p.(block_size) < size →
  mempool_alloc pool size w = Ret (NULL, wp w pool (set_stats inc_fail p)).
Proof.
  intros [] Hs. unfold mempool_alloc. rewrite (proj2 (Z.eqb_neq _ _) pi_nn0). pool_step.
  assert ((size =? 0) || (block_size p <? size) = true) as -> by (by repeat case_match; lia).
  by pool_step.
Qed.

Lemma alloc_empty_run w pool p U size :
  pool_inv w pool p [] U → 0 < size ≤ p.(block_size) →
  mempool_alloc pool size w = Ret (NULL, wp w pool (unlk (set_stats inc_fail (lk p)))).
Proof.
  intros [] Hs. unfold mempool_alloc. rewrite (proj2 (Z.eqb_neq _ _) pi_nn0). pool_step.
  assert ((size =? 0) || (block_size p <? size) = false) as -> by (by repeat case_match; lia).
  pool_step. pool_step. rewrite lk_fl. destruct pi_free0 as (q & -> & _). simpl.
  pool_step. rewrite wp_wp. pool_step. by rewrite wp_wp.
Qed.

Lemma fail_fields p (locked : bool) :
  p.(lock) = false →
  let p' := if locked then unlk (set_stats inc_fail (lk p)) else set_stats inc_fail p in
  same_shape p p' ∧ p'.(free_list) = p.(free_list) ∧ p'.(used_list) = p.(used_list) ∧
  p'.(stats) = inc_fail p.(stats).
Proof.
  intros Hl. unfold same_shape, unlk, lk. destruct locked; [|done].
  destruct (is_thread_safe p =? 0) eqn:E; simpl; rewrite E; simpl; by rewrite ?Hl.
Qed.

Lemma fail_inv w pool p F U (locked : bool) :
  pool_inv w pool p F U →
  let p' := if locked then unlk (set_stats inc_fail (lk p)) else set_stats inc_fail p in
  pool_inv (wp w pool p') pool p' F U.
Proof.
  intros HI. destruct (fail_fields p locked (pi_lock _ _ _ _ _ HI)) as (Hsh & Hf & Hu & Hs).
  apply (inv_touch _ _ p); try done. destruct (pi_stats _ _ _ _ _ HI).
  destruct Hsh as (_ & Ht & Hb & _). split; rewrite Hs, ?Ht, ?Hb; done.
Qed.

(** ** Release *)

Definition pool_free (p : mempool_t) (a used : Z) : mempool_t :=
  unlk (set_stats (stats_free p.(block_size))
         (set_free_list a (set_used_list used (lk p)))).

Definition heap_free (h : gmap Z mempool_block_t) (a : Z) (b : mempool_block_t) (fl : Z)
    : gmap Z mempool_block_t :=
  h_push (alter (set_is_free 1) a (h_unlink h b)) a fl.

Definition new_used (p : mempool_t) (b : mempool_block_t) : Z :=
  if b.(prev) =? NULL then b.(next) else p.(used_list).

Lemma header_data a : get_block_header (get_block_data a) = a.
Proof. unfold get_block_header, get_block_data. lia. Qed.
Lemma data_header a : get_block_data (get_block_header a) = a.
Proof. unfold get_block_header, get_block_data. lia. Qed.

Lemma pool_free_fields p a used :
  p.(lock) = false →
  same_shape p (pool_free p a used) ∧
  (pool_free p a used).(free_list) = a ∧ (pool_free p a used).(used_list) = used ∧
  (pool_free p a used).(stats) = stats_free p.(block_size) p.(stats).
Proof.
  intros Hl. unfold pool_free, same_shape, unlk, lk.
  destruct (is_thread_safe p =? 0) eqn:E; simpl; rewrite E; simpl; by rewrite ?Hl.
Qed.

Lemma set_used_id p : set_used_list p.(used_list) p = p.
Proof. by destruct p. Qed.

Lemma free_run w pool p F l1 l2 a b :
  pool_inv w pool p F (l1 ++ a :: l2) → w.(blocks) !! a = Some b →
  mempool_free_locked pool (get_block_data a) w =
    Ret (MEMPOOL_OK,
         wp (wb w (heap_free w.(blocks) a b p.(free_list))) pool
            (pool_free p a (new_used p b))).
Proof.
  intros HI Hb. pose proof (inv_nonnull HI) as Hnn.
  destruct HI as [Hpn Hp Hwf Hl Hf Hu Hperm Hhf Hhu Hst Hd].
  destruct (dll_split _ _ _ b l1 l2 Hu Hb) as (q & H1 & H2).
  apply Forall_app in Hhu as [Hh1 [Hha Hh2]%Forall_cons].
  assert (Hpx : b.(prev) = NULL ∨ is_Some (w.(blocks) !! b.(prev))).
  { destruct (dseg_last_in _ _ _ _ _ _ H1) as [[-> _]|Hin]; [by left|right].
    eapply is_Some_hk, (proj1 (Forall_forall _ _) Hh1 _ Hin). }
  pose proof (neighbour_some _ _ _ _ _ _ Hh2 H2) as Hnx.
  destruct Hf as [q' Hf]. pose proof (neighbour_some _ _ _ _ _ _ Hhf Hf) as Hfx.
  unfold mempool_free_locked. rewrite header_data. pool_step.
  c_step (rd_block_ret (wp w pool (lk p)) _ _ Hb).
  erewrite (bind_Ret (if b.(prev) =? NULL then _ else _)); cycle 1.
  { instantiate (1 := wp (wb w (if b.(prev) =? NULL then w.(blocks) else
                          alter (set_next b.(next)) b.(prev) w.(blocks))) pool
                        (set_used_list (new_used p b) (lk p))).
    instantiate (1 := tt). unfold new_used. destruct (Z.eqb_spec b.(prev) NULL).
    - erewrite wr_pool_ret by eauto with pool. rewrite wp_wp. by destruct w.
    - rewrite wr_block_ret by naive_solver. rewrite wb_wp. simpl.
      by rewrite <- lk_ul, set_used_id. }
  erewrite bind_Ret; cycle 1.
  { apply link_prev_ret. simpl. case_match; [done|]. by rewrite lookup_alter_is_Some. }
  rewrite wb_wp, wb_wb. simpl blocks. fold (h_unlink w.(blocks) b).
  pool_step. cbn [free_list set_used_list]. rewrite lk_fl.
  rewrite push_run; cbn [blocks wp wb]; rewrite <- ?hk_is_Some, ?hk_unlink, ?hk_is_Some; eauto.
  rewrite wb_wp, wb_wb. do 3 (pool_step; rewrite ?wp_wp).
  unfold pool_free. cbn [block_size set_used_list]. by rewrite lk_bs.
Qed.

Lemma free_stats p F l1 l2 a used :
  p.(lock) = false → stats_ok p F (l1 ++ a :: l2) →
  Z.of_nat (length (l1 ++ a :: l2)) * p.(block_size) + Z.of_nat (length (l1 ++ a :: l2)) * 32 +
    Z.of_nat (length F) * tbs p = p.(total_size) →
  pool_wf p → stats_ok (pool_free p a used) (a :: F) (l1 ++ l2).
Proof.
  intros Hl [] Hb Hwf. pose proof (tbs_pos p Hwf). destruct Hwf.
  destruct (pool_free_fields p a used Hl) as ((_ & Ht & Hbs & _) & _ & _ & Hst).
  assert (Hlen : Z.of_nat (length (l1 ++ a :: l2)) = Z.of_nat (length (l1 ++ l2)) + 1).
  { rewrite !length_app. cbn [length]. lia. }
  set (n := Z.of_nat (length (l1 ++ l2))) in *. rewrite Hlen in *.
  replace ((n + 1) * block_size p) with (n * block_size p + block_size p) in * by lia.
  assert (0 ≤ n * block_size p) by lia.
  assert (Z.of_nat (length F) ≤ Z.of_nat (length F) * tbs p) by nia.
  assert (u64 (s_used_size (stats p) - block_size p) = n * block_size p) as Hu.
  { rewrite u64_small; lia. }
  split; rewrite Hst, ?Ht, ?Hbs; unfold stats_free; cbn [s_total_size s_used_size
    s_free_size s_used_blocks s_free_blocks s_max_used]; rewrite ?Hu; cbn [length].
  - done.
  - done.
  - rewrite u64_small; lia.
  - rewrite u64_small; lia.
  - rewrite u64_small; lia.
  - lia.
Qed.

Lemma free_inv w pool p F l1 l2 a b :
  pool_inv w pool p F (l1 ++ a :: l2) → w.(blocks) !! a = Some b →
  pool_inv (wp (wb w (heap_free w.(blocks) a b p.(free_list))) pool
              (pool_free p a (new_used p b))) pool (pool_free p a (new_used p b))
    (a :: F) (l1 ++ l2).
Proof.
  intros HI Hb. pose proof (inv_nodup HI) as Hnd. pose proof (inv_nonnull HI) as Hnn.
  pose proof (inv_used_bound HI) as Hub.
  destruct HI as [Hpn Hp Hwf Hl Hf Hu Hperm Hhf Hhu Hst Hd].
  destruct (pool_free_fields p a (new_used p b) Hl) as (Hsh & Hfl & Hul & Hs).
  apply NoDup_app in Hnd as (HndF & Hdis & HndU).
  apply Forall_app in Hnn as [HnF HnU].
  assert (Ha : a ∉ l1 ++ l2) by (apply NoDup_app in HndU as (_ & ? & []%NoDup_cons); set_solver).
  assert (HnU' : nonnull (l1 ++ l2)).
  { apply Forall_app in HnU as [? []%Forall_cons]. by apply Forall_app. }
  assert (Hnull : NULL ∉ F) by (intros Hin; by eapply (proj1 (Forall_forall _ _) HnF)).
  assert (Hloc : ∀ x, x ∉ l1 ++ l2 → h_unlink (blocks w) b !! x = blocks w !! x).
  { intros x. by eapply unlink_local. }
  assert (Hfx : p.(free_list) = NULL ∨ p.(free_list) ∈ F).
  { destruct (dll_head_in _ _ _ Hf); naive_solver. }
  assert (Hha : hk (blocks w) a = Some (MEMPOOL_MAGIC, 0, p.(block_size))).
  { eapply (proj1 (Forall_forall _ _) Hhu). set_solver. }
  split; simpl; rewrite ?Hfl, ?Hul.
  - done.
  - apply lookup_insert_eq.
  - by eapply same_shape_wf.
  - destruct Hsh as (_ & _ & _ & _ & _ & ->). done.
  - apply dll_push; [set_solver|done|done| |].
    + rewrite lookup_alter_is_Some, Hloc by done. eauto.
    + eapply dll_ext; [|exact Hf]. intros x Hx.
      rewrite lookup_alter_ne, Hloc by set_solver. done.
  - eapply dll_ext; [|by eapply dll_unlink]. intros x Hx. unfold heap_free.
    assert (x ≠ NULL) by (by eapply (proj1 (Forall_forall _ _) HnU')).
    rewrite lookup_push_ne, lookup_alter_ne by set_solver. done.
  - rewrite (same_shape_addrs _ _ Hsh), <- Hperm. simpl. rewrite !app_assoc.
    by rewrite <- Permutation_middle.
  - destruct Hsh as (_ & _ & -> & _). unfold heap_free. constructor.
    + by rewrite hk_push, hk_set_free_eq, hk_unlink, Hha.
    + apply Forall_forall. intros x Hx.
      rewrite hk_push, hk_set_free_ne, hk_unlink by set_solver.
      by eapply (proj1 (Forall_forall _ _) Hhf).
  - destruct Hsh as (_ & _ & -> & _). unfold heap_free. apply Forall_forall. intros x Hx.
    rewrite hk_push, hk_set_free_ne, hk_unlink by set_solver.
    eapply (proj1 (Forall_forall _ _) Hhu). set_solver.
  - by apply free_stats.
  - destruct Hsh as (_ & _ & -> & _). revert Hd. apply Forall_Permutation; [done|].
    rewrite <- (Permutation_middle l1). by rewrite Permutation_middle.
Qed.

(** The checks of [mempool_free] on a block of the pool. *)
Lemma free_checks_run w pool p F U ptr :
  pool_inv w pool p F U → get_block_header ptr ∈ F ++ U →
  mempool_free_checks pool ptr w =
    Ret (if bool_decide (get_block_header ptr ∈ U) then None
         else Some MEMPOOL_ERR_DOUBLE_FREE, w).
Proof.
  intros HI Hin. pose proof (inv_nodup HI) as (_ & Hdis & _)%NoDup_app.
  destruct HI as [Hpn Hp Hwf Hl Hf Hu Hperm Hhf Hhu Hst Hd].
  assert (Hptr : ptr ≠ NULL).
  { pose proof (block_addrs_nonnull p Hwf) as Hnn.
    pose proof Hin as Hin'. rewrite Hperm in Hin'.
    apply elem_block_addrs in Hin' as (i & Hi & E). pose proof (tbs_pos p Hwf).
    destruct Hwf. unfold get_block_header in E. rewrite BHS in E. unfold NULL. nia. }
  unfold mempool_free_checks.
  rewrite (proj2 (Z.eqb_neq _ _) Hpn), (proj2 (Z.eqb_neq _ _) Hptr).
  assert (Hk : hk w.(blocks) (get_block_header ptr) =
               Some (MEMPOOL_MAGIC, if bool_decide (get_block_header ptr ∈ U) then 0 else 1,
                     p.(block_size))).
  { case_bool_decide; [by eapply (proj1 (Forall_forall _ _) Hhu)|].
    eapply (proj1 (Forall_forall _ _) Hhf). set_solver. }
  unfold hk in Hk. apply fmap_Some in Hk as (b & Hb & [= E1 E2 E3]).
  c_step (rd_block_ret w _ _ Hb). unfold check_magic. rewrite <- E1, <- E2. simpl.
  by case_bool_decide.
Qed.

(** ** Abstract pool *)

(** What a client sees: the stack of free blocks and the blocks in use. *)
Record apool := APool { a_free : list Z; a_used : list Z }.

Definition a_alloc (bs size : Z) (s : apool) : Z * apool :=
  if decide (size = 0 ∨ bs < size) then (NULL, s)
  else match s.(a_free) with
       | [] => (NULL, s)
       | a :: F => (get_block_data a, APool F (a :: s.(a_used)))
       end.

Definition a_dealloc (ptr : Z) (s : apool) : mempool_err_t * apool :=
  if decide (ptr = NULL) then (MEMPOOL_OK, s)
  else let a := get_block_header ptr in
       if decide (a ∈ s.(a_used))
       then (MEMPOOL_OK, APool (a :: s.(a_free)) (filter (λ x, x ≠ a) s.(a_used)))
       else (MEMPOOL_ERR_DOUBLE_FREE, s).

(** A pointer a client may hand back: null or a block of this pool. *)
Definition a_known (ptr : Z) (s : apool) : Prop :=
  ptr = NULL ∨ get_block_header ptr ∈ s.(a_free) ++ s.(a_used).

Definition inv (w : world) (pool : Z) (p : mempool_t) (s : apool) : Prop :=
  pool_inv w pool p s.(a_free) s.(a_used).

(** Other pools, foreign headers and the error stream are untouched. *)
Definition frame (w w' : world) (pool : Z) (p : mempool_t) : Prop :=
  (∀ q, q ≠ pool → w'.(pools) !! q = w.(pools) !! q) ∧
  (∀ a, a ∉ block_addrs p → w'.(blocks) !! a = w.(blocks) !! a) ∧
  w'.(stderr) = w.(stderr).

Lemma frame_wp w pool p p' : frame w (wp w pool p') pool p.
Proof. split_and!; try done. intros q Hq. simpl. by rewrite lookup_insert_ne. Qed.

Lemma frame_wp_wb w pool p p' h :
  (∀ a, a ∉ block_addrs p → h !! a = w.(blocks) !! a) →
  frame w (wp (wb w h) pool p') pool p.
Proof. intros Hh. split_and!; try done. intros q Hq. simpl. by rewrite lookup_insert_ne. Qed.

Lemma frame_trans w w' w'' pool p p' :
  same_shape p p' → frame w w' pool p → frame w' w'' pool p' → frame w w'' pool p.
Proof.
  intros Hsh (H1 & H2 & H3) (H4 & H5 & H6). rewrite (same_shape_addrs _ _ Hsh) in H5.
  split_and!; [|..|congruence].
  - intros q Hq. by rewrite H4, H1.
  - intros a Ha. by rewrite H5, H2.
Qed.

Lemma inv_member w pool p s a :
  inv w pool p s → a ∈ s.(a_free) ++ s.(a_used) → a ∈ block_addrs p ∧ is_Some (w.(blocks) !! a).
Proof.
  intros HI Ha. split; [by rewrite <- (pi_perm _ _ _ _ _ HI)|].
  apply elem_of_app in Ha as [Ha|Ha].
  - eapply is_Some_hk, (proj1 (Forall_forall _ _) (pi_hfree _ _ _ _ _ HI) _ Ha).
  - eapply is_Some_hk, (proj1 (Forall_forall _ _) (pi_hused _ _ _ _ _ HI) _ Ha).
Qed.

Lemma heap_alloc_local h a nxt used x :
  x ≠ a → x ≠ nxt → x ≠ used → heap_alloc h a nxt used !! x = h !! x.
Proof.
  intros. unfold heap_alloc. rewrite lookup_push_ne, lookup_alter_ne, lookup_link_prev_ne by done.
  done.
Qed.

Lemma alloc_refines w pool p s size :
  inv w pool p s → 0 ≤ size →
  ∃ w' p', mempool_alloc pool size w = Ret ((a_alloc p.(block_size) size s).1, w') ∧
           inv w' pool p' (a_alloc p.(block_size) size s).2 ∧
           same_shape p p' ∧ frame w w' pool p ∧ w'.(data) = w.(data).
Proof.
  intros HI Hs. destruct s as [F U]. unfold a_alloc. cbn [a_free a_used].
  pose proof (pi_lock _ _ _ _ _ HI) as Hl.
  case_decide as Hd.
  { exists (wp w pool (set_stats inc_fail p)), (set_stats inc_fail p). split_and!.
    - by eapply alloc_bad_size_run.
    - by apply (fail_inv w pool p F U false).
    - done.
    - apply frame_wp.
    - done. }
  destruct F as [|a F].
  { exists (wp w pool (unlk (set_stats inc_fail (lk p)))), (unlk (set_stats inc_fail (lk p))).
    split_and!.
    - eapply alloc_empty_run; [done|]. lia.
    - by apply (fail_inv w pool p [] U true).
    - apply (fail_fields p true Hl).
    - apply frame_wp.
    - done. }
  destruct (inv_member _ _ _ _ a HI) as [Hab [b Hb]]; [set_solver|].
  exists (wp (wb w (heap_alloc w.(blocks) a b.(next) p.(used_list))) pool
             (pool_alloc p a b.(next))), (pool_alloc p a b.(next)).
  split_and!.
  - eapply alloc_run; [done|lia|done].
  - by apply alloc_inv.
  - by apply pool_alloc_fields.
  - apply frame_wp_wb. intros x Hx.
    destruct (pi_free _ _ _ _ _ HI) as [q Hf]. destruct (pi_used _ _ _ _ _ HI) as [q' Hu].
    cbn [a_free a_used] in *. destruct Hf as (_ & b' & Hb' & _ & Hn). simplify_eq.
    pose proof (pi_perm _ _ _ _ _ HI) as Hperm. simpl in Hperm.
    rewrite <- Hperm in Hx.
    unfold heap_alloc, h_push, h_link_prev.
    destruct (dseg_first_in _ _ _ _ _ _ Hn) as [[Hn' _]|Hn'];
      destruct (dseg_first_in _ _ _ _ _ _ Hu) as [[Hu' _]|Hu'];
      repeat case_match; rewrite ?lookup_alter_ne by set_solver; try done;
      unfold NULL in *; exfalso; lia.
  - done.
Qed.

Lemma free_refines w pool p s ptr :
  inv w pool p s → a_known ptr s →
  ∃ w' p', mempool_free pool ptr w = Ret ((a_dealloc ptr s).1, w') ∧
           inv w' pool p' (a_dealloc ptr s).2 ∧
           same_shape p p' ∧ frame w w' pool p ∧ w'.(data) = w.(data).
Proof.
  intros HI Hk. destruct s as [F U]. unfold a_dealloc. cbn [a_free a_used].
  pose proof (pi_nn _ _ _ _ _ HI) as Hpn. unfold mempool_free.
  case_decide as Hnull.
  { exists w, p. subst ptr. unfold mempool_free_checks, mbind, C_bind.
    rewrite (proj2 (Z.eqb_neq _ _) Hpn). by split_and!. }
  destruct Hk as [|Hk]; [done|]. cbn [a_free a_used] in Hk.
  erewrite bind_Ret by (by eapply free_checks_run).
  case_decide as Hin; rewrite ?bool_decide_eq_true_2, ?bool_decide_eq_false_2 by done.
  2: { exists w, p. by split_and!. }
  apply list_elem_of_split in Hin as (l1 & l2 & HU).
  set (a := get_block_header ptr) in *.
  destruct (inv_member _ _ _ _ a HI) as [Hab [b Hb]]; [set_solver|].
  pose proof (inv_nodup HI) as (_ & _ & HndU)%NoDup_app. cbn [a_used] in *. subst U.
  rewrite filter_ne_app by done.
  exists (wp (wb w (heap_free w.(blocks) a b p.(free_list))) pool
             (pool_free p a (new_used p b))), (pool_free p a (new_used p b)).
  split_and!.
  - rewrite <- (data_header ptr). by eapply free_run.
  - by apply free_inv.
  - apply pool_free_fields, HI.
  - apply frame_wp_wb. intros x Hx.
    pose proof (pi_perm _ _ _ _ _ HI) as Hperm. cbn [a_free a_used] in *.
    rewrite <- Hperm in Hx. unfold heap_free.
    destruct (dll_head_in _ _ _ (pi_free _ _ _ _ _ HI)) as [[Hf _]|Hf].
    + unfold h_push, h_link_prev. cbn [a_free] in Hf. rewrite Hf. simpl.
      rewrite !lookup_alter_ne by set_solver.
      eapply unlink_local; [apply HI|done|set_solver].
    + cbn [a_free] in Hf. rewrite lookup_push_ne, lookup_alter_ne by set_solver.
      eapply unlink_local; [apply HI|done|set_solver].
  - done.
Qed.

End MemPool.
