(* ===== verification/MemPoolSpec.v ===== *)
(** * memory-pool: integrity check, creation, reset, and the properties

    The refinement of every pool operation to the abstract pool, the freshly
    created pool, runs of arbitrary client operations, and the two places where
    the code falls short of its contract (the unlocked checks of [mempool_free]
    and the unchecked size computation of [mempool_create]). *)

From S2P Require Import Prelude MemPool.
Import MemPool.

Module MemPoolSpec.

(** ** Integrity check *)

Lemma unlk_lk p : p.(lock) = false → unlk (lk p) = p.
Proof.
  intros Hl. unfold unlk, lk. destruct (is_thread_safe p =? 0) eqn:E; simpl; rewrite ?E; [done|].
  destruct p; simpl in *. by rewrite Hl.
Qed.
Lemma wp_id w a p : w.(pools) !! a = Some p → wp w a p = w.
Proof. intros H. unfold wp. rewrite insert_id by done. by destruct w. Qed.
Lemma lk_stats p : (lk p).(stats) = p.(stats).
Proof. unfold lk. by case_match. Qed.

(** The flag value a list must show. *)
Definition flag (want_free : bool) : Z := if want_free then 1 else 0.

Lemma check_list_run w (h := w.(blocks)) bs want xs : ∀ pp p q count fuel,
  dseg h pp p q NULL xs → nonnull xs →
  Forall (λ a, hk h a = Some (MEMPOOL_MAGIC, flag want, bs)) xs →
  (length xs < fuel)%nat → 0 ≤ count → count + Z.of_nat (length xs) < 2 ^ 64 →
  check_list fuel want p count w = Ret (Some (count + Z.of_nat (length xs)), w).
Proof.
  induction xs as [|x xs IH]; intros pp p q count fuel Hs Hnn Hall Hf Hc Hlt;
    (destruct fuel as [|fuel]; [simpl in Hf; lia|]).
  - destruct Hs as [-> _]. simpl. by rewrite Z.add_0_r.
  - destruct Hs as (-> & b & Hb & Hp & Hs).
    apply Forall_cons in Hnn as [Hx Hnn]. apply Forall_cons in Hall as [Hk Hall].
    unfold hk in Hk. rewrite Hb in Hk. simpl in Hk. injection Hk as E1 E2 E3.
    cbn [check_list]. rewrite (proj2 (Z.eqb_neq _ _) Hx). c_step (rd_block_ret w _ _ Hb).
    unfold check_magic. rewrite E1, Z.eqb_refl. cbn [negb].
    rewrite bool_decide_eq_false_2 by (rewrite E2; by destruct want).
    cbv iota. cbn [length] in *. rewrite u64_small by lia.
    rewrite (IH x b.(next) q) by (try done; lia). do 3 f_equal. lia.
Qed.

(** A header on the walk with a bad magic number or the wrong flag. *)
Lemma check_list_bad w (h := w.(blocks)) bs want xs a b ys : ∀ pp p q count fuel,
  dseg h pp p q NULL (xs ++ a :: ys) → nonnull (xs ++ [a]) →
  Forall (λ a, hk h a = Some (MEMPOOL_MAGIC, flag want, bs)) xs →
  h !! a = Some b → b.(magic) ≠ MEMPOOL_MAGIC ∨ (b.(is_free) =? 0) = want →
  (length xs < fuel)%nat →
  check_list fuel want p count w = Ret (None, w).
Proof.
  induction xs as [|x xs IH]; intros pp p q count fuel Hs Hnn Hall Ha Hbad Hf;
    (destruct fuel as [|fuel]; [simpl in Hf; lia|]).
  - destruct Hs as (-> & _). apply Forall_cons in Hnn as [Hx _].
    cbn [check_list]. rewrite (proj2 (Z.eqb_neq _ _) Hx). c_step (rd_block_ret w _ _ Ha).
    unfold check_magic. destruct (Z.eqb_spec b.(magic) MEMPOOL_MAGIC); [|done]. simpl.
    rewrite bool_decide_eq_true_2 by naive_solver. done.
  - destruct Hs as (-> & b' & Hb & Hp & Hs).
    apply Forall_cons in Hnn as [Hx Hnn]. apply Forall_cons in Hall as [Hk Hall].
    unfold hk in Hk. rewrite Hb in Hk. simpl in Hk. injection Hk as E1 E2 E3.
    cbn [check_list]. rewrite (proj2 (Z.eqb_neq _ _) Hx). c_step (rd_block_ret w _ _ Hb).
    unfold check_magic. rewrite E1, Z.eqb_refl. cbn [negb].
    rewrite bool_decide_eq_false_2 by (rewrite E2; by destruct want).
    cbv iota. cbn [length] in *. apply (IH x b'.(next) q); try done. lia.
Qed.

Lemma check_ok w pool p s fuel :
  inv w pool p s → (Z.to_nat p.(block_count) < fuel)%nat →
  mempool_check fuel pool w = Ret (MEMPOOL_OK, w).
Proof.
  intros HI Hfuel. pose proof (inv_length HI) as Hlen. pose proof (inv_nonnull HI) as [Hn1 Hn2]%Forall_app.
  assert (p.(block_count) < 2 ^ 64).
  { destruct (pi_wf _ _ _ _ _ HI). pose proof (tbs_pos p (pi_wf _ _ _ _ _ HI)). nia. }
  destruct HI as [Hpn Hp Hwf Hl Hf Hu Hperm Hhf Hhu Hst Hd].
  unfold mempool_check. rewrite (proj2 (Z.eqb_neq _ _) Hpn).
  erewrite (bind_Ret (lock_if pool)) by (by apply lock_if_ret).
  erewrite (bind_Ret (rd_pool pool)) by (apply rd_pool_ret, wp_lookup).
  rewrite lk_fl, lk_ul, lk_stats. destruct Hf as [q Hf]. destruct Hu as [q' Hu].
  erewrite bind_Ret by (by eapply (check_list_run (wp w pool (lk p))); eauto; lia).
  cbv iota. erewrite bind_Ret by (by eapply (check_list_run (wp w pool (lk p))); eauto; lia).
  cbv iota. destruct Hst. rewrite so_fb0, so_ub0, !Z.add_0_l, !Z.eqb_refl. simpl.
  erewrite bind_Ret by (apply unlock_if_ret, wp_lookup).
  rewrite wp_wp, unlk_lk, wp_id by done. done.
Qed.

(** ** Initialisation *)

(** The header [init_blocks] writes for block [i]. *)
Definition init_hdr (p : mempool_t) (i : Z) : mempool_block_t :=
  Block MEMPOOL_MAGIC 1 p.(block_size)
    (if i <? p.(block_count) - 1 then p.(memory) + (i + 1) * tbs p else NULL)
    (if 0 <? i then p.(memory) + (i - 1) * tbs p else NULL).

Definition addr (p : mempool_t) (i : Z) : Z := p.(memory) + i * tbs p.

Fixpoint init_heap (p : mempool_t) (n : nat) (i : Z) (h : gmap Z mempool_block_t)
    : gmap Z mempool_block_t :=
  match n with
  | O => h
  | S n' => init_heap p n' (i + 1) (<[addr p i := init_hdr p i]> h)
  end.

Lemma u64_tbs p : 0 ≤ tbs p < 2 ^ 64 → u64 (p.(block_size) + BLOCK_HEADER_SIZE) = tbs p.
Proof. apply u64_small. Qed.

Lemma init_loop_run p : pool_wf p → ∀ n i w, 0 ≤ i → i + Z.of_nat n ≤ p.(block_count) →
  c_for n i (init_block p) w = Ret (tt, wb w (init_heap p n i w.(blocks))).
Proof.
  intros Hwf. pose proof (tbs_pos p Hwf). destruct Hwf.
  induction n as [|n IH]; intros i w Hi Hn; [by destruct w|].
  cbn [c_for]. erewrite (bind_Ret (init_block p i)).
  2: { unfold init_block. cbv zeta. rewrite u64_tbs by nia.
       rewrite (proj2 (Z.ltb_ge _ _)) by (rewrite wf_total0; unfold sizeof_block; nia).
       reflexivity. }
  rewrite IH by lia. done.
Qed.

Lemma addr_inj p i j : 0 < tbs p → addr p i = addr p j → i = j.
Proof. unfold addr. nia. Qed.

Lemma init_heap_lookup p : 0 < tbs p → ∀ n i h k,
  init_heap p n i h !! addr p k =
    if decide (i ≤ k < i + Z.of_nat n) then Some (init_hdr p k) else h !! addr p k.
Proof.
  intros Ht. induction n as [|n IH]; intros i h k; cbn [init_heap].
  - rewrite decide_False by lia. done.
  - rewrite IH. case_decide; case_decide; try lia; [done| |].
    + assert (k = i) as -> by lia. by rewrite lookup_insert_eq.
    + rewrite lookup_insert_ne; [done|]. intros E%addr_inj; lia.
Qed.

Lemma init_heap_other p : ∀ n i h a,
  (∀ k, i ≤ k < i + Z.of_nat n → a ≠ addr p k) → init_heap p n i h !! a = h !! a.
Proof.
  induction n as [|n IH]; intros i h a Ha; cbn [init_heap]; [done|].
  rewrite IH by (intros; apply Ha; lia).
  rewrite lookup_insert_ne; [done|]. intros E. symmetry in E. apply (Ha i); [lia|done].
Qed.

Lemma init_dseg p h : pool_wf p →
  (∀ k, 0 ≤ k < p.(block_count) → h !! addr p k = Some (init_hdr p k)) →
  ∀ n i, 0 ≤ i → (0 < n)%nat → i + Z.of_nat n = p.(block_count) →
  dseg h (if 0 <? i then addr p (i - 1) else NULL) (addr p i)
    (addr p (p.(block_count) - 1)) NULL (addr p <$> seqZ i (Z.of_nat n)).
Proof.
  intros Hwf Hh. induction n as [|n IH]; intros i Hi Hn Hc; [lia|].
  rewrite Nat2Z.inj_succ, seqZ_cons by lia. simpl. split; [done|].
  exists (init_hdr p i). rewrite Hh by lia. split_and!; [done|done|]. simpl.
  replace (Z.pred (Z.succ (Z.of_nat n))) with (Z.of_nat n) by lia.
  destruct n as [|n].
  - rewrite seqZ_nil by lia. rewrite (proj2 (Z.ltb_ge _ _)) by lia.
    simpl. split; [done|]. f_equal. lia.
  - rewrite (proj2 (Z.ltb_lt _ _)) by lia. specialize (IH (i + 1) ltac:(lia) ltac:(lia) ltac:(lia)).
    rewrite (proj2 (Z.ltb_lt 0 (i + 1))) in IH by lia.
    replace (i + 1 - 1) with i in IH by lia. unfold Z.succ. exact IH.
Qed.

Lemma init_heap_dll p h : pool_wf p →
  dll (init_heap p (Z.to_nat p.(block_count)) 0 h) p.(memory) (block_addrs p).
Proof.
  intros Hwf. pose proof (tbs_pos p Hwf). pose proof (wf_count p Hwf).
  exists (addr p (p.(block_count) - 1)).
  pose proof (init_dseg p (init_heap p (Z.to_nat p.(block_count)) 0 h) Hwf) as Hd.
  specialize (Hd ltac:(intros k Hk; rewrite init_heap_lookup, decide_True by lia; done)
    (Z.to_nat p.(block_count)) 0 ltac:(lia) ltac:(lia) ltac:(lia)).
  rewrite Z2Nat.id in Hd by lia. simpl in Hd.
  unfold addr at 1 in Hd. replace (memory p + 0 * tbs p) with (memory p) in Hd by lia. exact Hd.
Qed.

Lemma init_heap_hk p h a : pool_wf p → a ∈ block_addrs p →
  hk (init_heap p (Z.to_nat p.(block_count)) 0 h) a = Some (MEMPOOL_MAGIC, 1, p.(block_size)).
Proof.
  intros Hwf (i & Hi & ->)%elem_block_addrs. pose proof (tbs_pos p Hwf).
  unfold hk. fold (addr p i). rewrite init_heap_lookup, decide_True by lia. done.
Qed.

Lemma init_heap_shape p p' :
  p'.(memory) = p.(memory) → p'.(block_size) = p.(block_size) →
  p'.(block_count) = p.(block_count) → ∀ n i h, init_heap p' n i h = init_heap p n i h.
Proof.
  intros Hm Hb Hc. induction n as [|n IH]; intros i h; cbn [init_heap]; [done|].
  rewrite IH. unfold addr, init_hdr, tbs. by rewrite Hm, Hb, Hc.
Qed.

Lemma init_heap_frame p h a : pool_wf p → a ∉ block_addrs p →
  init_heap p (Z.to_nat p.(block_count)) 0 h !! a = h !! a.
Proof.
  intros Hwf Ha. apply init_heap_other. intros k Hk ->. apply Ha, elem_block_addrs.
  exists k. destruct Hwf. split; [lia|done].
Qed.

(** What [init_blocks] does to a pool structure at [pool]. *)
Lemma init_blocks_run w pool p :
  w.(pools) !! pool = Some p → pool_wf p →
  init_blocks pool w =
    Ret (tt, wp (wb w (init_heap p (Z.to_nat p.(block_count)) 0 w.(blocks))) pool
               (set_used_list NULL (set_free_list p.(memory) p))).
Proof.
  intros Hp Hwf. pose proof (wf_count p Hwf). unfold init_blocks.
  c_step (rd_pool_ret _ _ _ Hp).
  erewrite bind_Ret by (apply init_loop_run; [done|lia|lia]).
  erewrite bind_Ret by (by apply wr_pool_ret).
  erewrite wr_pool_ret by apply wp_lookup. by rewrite wp_wp.
Qed.

(** A pool whose blocks have just been initialised. *)
Lemma fresh_inv w pool p h :
  pool ≠ NULL → w.(pools) !! pool = Some p → pool_wf p → p.(lock) = false →
  p.(free_list) = p.(memory) → p.(used_list) = NULL →
  w.(blocks) = init_heap p (Z.to_nat p.(block_count)) 0 h →
  stats_ok p (block_addrs p) [] →
  Forall (λ a, ∃ d, w.(data) !! get_block_data a = Some d ∧
                    length d = Z.to_nat p.(block_size)) (block_addrs p) →
  pool_inv w pool p (block_addrs p) [].
Proof.
  intros. split; try done.
  - rewrite H3, H5. by apply init_heap_dll.
  - rewrite H4. by exists NULL.
  - by rewrite app_nil_r.
  - apply Forall_forall. intros a Ha. rewrite H5. by apply init_heap_hk.
  - by rewrite app_nil_r.
Qed.

(** The zeroing loop of [mempool_create]. *)
Lemma zero_loop_run base tb bs : 0 < tb → ∀ n i w,
  ∃ d, c_for n i (zero_area base tb bs) w =
         Ret (tt, World w.(blocks) d w.(pools) w.(stderr)) ∧
       (∀ k, i ≤ k < i + Z.of_nat n →
          d !! get_block_data (base + k * tb) = Some (replicate (Z.to_nat bs) x00)) ∧
       (∀ k, ¬ (i ≤ k < i + Z.of_nat n) →
          d !! get_block_data (base + k * tb) = w.(data) !! get_block_data (base + k * tb)).
Proof.
  intros Ht. induction n as [|n IH]; intros i w; cbn [c_for].
  - exists w.(data). split_and!; [by destruct w|lia|done].
  - erewrite (bind_Ret (zero_area base tb bs i)) by reflexivity.
    set (w1 := World _ _ _ _). destruct (IH (i + 1) w1) as (d & Hr & Hk & Ho).
    exists d. split_and!; [done| |].
    + intros k Hki. destruct (decide (k = i)) as [->|].
      * rewrite Ho by lia. apply lookup_insert_eq.
      * apply Hk. lia.
    + intros k Hki. rewrite Ho by lia. apply lookup_insert_ne.
      unfold get_block_data. nia.
Qed.

(** [ALIGN_UP(size, 8)] rounds up to a multiple of eight. *)
Lemma ALIGN_UP_spec size : 0 ≤ size → size + 7 < 2 ^ 64 →
  size ≤ ALIGN_UP size 8 < size + 8 ∧ ALIGN_UP size 8 `mod` 8 = 0.
Proof.
  intros H0 H1. unfold ALIGN_UP. rewrite u64_small by lia.
  change (Z.lnot (8 - 1)) with (-8). rewrite land_neg8.
  pose proof (Z.mod_pos_bound (size + 8 - 1) 8 ltac:(lia)).
  pose proof (Z.div_mod (size + 8 - 1) 8 ltac:(lia)) as E. split; [lia|].
  replace (size + 8 - 1 - (size + 8 - 1) `mod` 8)
    with ((size + 8 - 1) `div` 8 * 8) by lia.
  apply Z.mod_mul. lia.
Qed.

Definition bs_of (block_size : Z) : Z := ALIGN_UP (if block_size <? 8 then 8 else block_size) 8.

Lemma bs_of_spec n : 0 ≤ n → n + 7 < 2 ^ 64 → 8 ≤ bs_of n ∧ n ≤ bs_of n < n + 16.
Proof.
  intros. unfold bs_of. case_match; [|pose proof (ALIGN_UP_spec n); lia].
  pose proof (ALIGN_UP_spec 8). lia.
Qed.

Lemma create_run w a_pool a_mem n count ts :
  a_pool ≠ NULL → 0 < a_mem → 0 ≤ n → 0 < count → n + 7 < 2 ^ 64 →
  (bs_of n + 32) * count < 2 ^ 64 →
  ∃ w' p, mempool_create a_pool a_mem n count ts w = Ret (a_pool, w') ∧
          inv w' a_pool p (APool (block_addrs p) []) ∧
          p.(memory) = a_mem ∧ p.(block_size) = bs_of n ∧ p.(block_count) = count ∧
          p.(is_thread_safe) = ts ∧ frame w w' a_pool p ∧
          Forall (λ a, w'.(data) !! get_block_data a =
                       Some (replicate (Z.to_nat (bs_of n)) x00)) (block_addrs p).
Proof.
  intros Hpn Hm Hn Hc Hn7 Hfit. pose proof (bs_of_spec n Hn Hn7) as [Hb8 Hbn].
  unfold mempool_create. rewrite (proj2 (Z.eqb_neq count 0)) by lia. cbv zeta.
  rewrite (proj2 (Z.eqb_neq _ _) Hpn), (proj2 (Z.eqb_neq a_mem NULL)) by (unfold NULL; lia).
  fold (bs_of n). change MEMPOOL_ALIGNMENT with 8. fold (bs_of n).
  rewrite BHS, (u64_small (bs_of n + 32)), (u64_small ((bs_of n + 32) * count)) by nia.
  set (total := (bs_of n + 32) * count).
  destruct (zero_loop_run a_mem (bs_of n + 32) (bs_of n) ltac:(lia) (Z.to_nat count) 0 w)
    as (d & Hr & Hd & _).
  c_step Hr. unfold c_mod at 1. erewrite bind_Ret by done.
  set (p0 := Pool a_mem total (bs_of n) count NULL NULL false (Stats 0 0 0 0 0 0 0 0 0 0 0) ts).
  assert (Hwf : pool_wf p0).
  { split; unfold tbs, p0; simpl; rewrite ?BHS; unfold total; lia. }
  set (w1 := World _ _ _ _).
  erewrite (bind_Ret (init_blocks a_pool)) by
    (apply (init_blocks_run w1 a_pool p0); [apply lookup_insert_eq|done]).
  erewrite bind_Ret by (apply wr_pool_ret, wp_lookup). rewrite wp_wp.
  set (p1 := set_stats _ _). eexists _, p1. split; [reflexivity|].
  assert (Hdata : Forall (λ a, d !! get_block_data a =
                       Some (replicate (Z.to_nat (bs_of n)) x00)) (block_addrs p1)).
  { apply Forall_forall. intros a (i & Hi & ->)%elem_block_addrs.
    apply (Hd i). simpl in Hi. lia. }
  split_and!; try done.
  - apply (fresh_inv _ _ p1 w.(blocks)); try done.
    + apply lookup_insert_eq.
    + symmetry. by apply (init_heap_shape p0 p1).
    + split; simpl; try done; rewrite ?Z.mul_0_l, ?Z.sub_0_r; try done.
      * unfold block_addrs. rewrite length_fmap, length_seqZ. simpl. lia.
      * unfold total. nia.
    + eapply Forall_impl; [exact Hdata|]. intros a Ha. eexists. split; [exact Ha|].
      by rewrite length_replicate.
  - split_and!; [| |done].
    + intros q Hq. simpl. by rewrite !lookup_insert_ne.
    + intros a Ha. by apply (init_heap_frame p0).
Qed.

(** ** Reset *)

Definition pool_reset (p : mempool_t) : mempool_t :=
  unlk (set_stats (stats_reset p.(total_size) p.(block_count))
         (set_used_list NULL (set_free_list p.(memory) (lk p)))).

Lemma lk_shape p : p.(lock) = false → same_shape p (unlk (lk p)).
Proof. intros. rewrite unlk_lk by done. by split_and!. Qed.

Lemma pool_reset_fields p : p.(lock) = false →
  same_shape p (pool_reset p) ∧ (pool_reset p).(free_list) = p.(memory) ∧
  (pool_reset p).(used_list) = NULL ∧
  (pool_reset p).(stats) = stats_reset p.(total_size) p.(block_count) p.(stats).
Proof.
  intros Hl. unfold pool_reset, same_shape, unlk, lk.
  destruct (is_thread_safe p =? 0) eqn:E; simpl; rewrite E; simpl; by rewrite ?Hl.
Qed.

Lemma reset_refines w pool p s :
  inv w pool p s →
  ∃ w' p', mempool_reset pool w = Ret (tt, w') ∧
           inv w' pool p' (APool (block_addrs p) []) ∧ same_shape p p' ∧
           frame w w' pool p ∧ w'.(data) = w.(data).
Proof.
  intros HI. pose proof (inv_length HI) as Hlen.
  destruct HI as [Hpn Hp Hwf Hl Hf Hu Hperm Hhf Hhu Hst Hd].
  destruct (pool_reset_fields p Hl) as (Hsh & Hfl & Hul & Hs).
  assert (Hwl : pool_wf (lk p)) by
    (destruct Hwf; unfold lk; case_match; split; done).
  assert (Hih : ∀ n i h, init_heap (lk p) n i h = init_heap p n i h).
  { intros. apply init_heap_shape; unfold lk; by case_match. }
  eexists _, (pool_reset p). split.
  { unfold mempool_reset. rewrite (proj2 (Z.eqb_neq _ _) Hpn).
    erewrite (bind_Ret (lock_if pool)) by (by apply lock_if_ret).
    erewrite (bind_Ret (init_blocks pool)) by (apply init_blocks_run; [apply wp_lookup|done]).
    erewrite (bind_Ret (rd_pool pool)) by (apply rd_pool_ret, wp_lookup).
    erewrite bind_Ret by (apply wr_pool_ret, wp_lookup).
    erewrite unlock_if_ret by (rewrite wp_wp; apply wp_lookup).
    rewrite !wp_wp, wb_wp, !wp_wp, Hih. cbn [blocks wp].
    assert (Hx : ∀ (A : Type) (f : mempool_t → A), (∀ b, f (set_lock b p) = f p) → f (lk p) = f p).
    { intros A f Hf'. unfold lk. case_match; [done|]. apply Hf'. }
    rewrite (Hx _ memory), (Hx _ block_count) by done.
    cbn [total_size block_count set_used_list set_free_list].
    rewrite (Hx _ total_size), (Hx _ block_count) by done. reflexivity. }
  fold (pool_reset p).
  split_and!; [|done| |done].
  - unfold inv. cbn [a_free a_used]. rewrite <- (same_shape_addrs _ _ Hsh).
    apply (fresh_inv _ _ _ w.(blocks)); try done.
    + apply lookup_insert_eq.
    + by eapply same_shape_wf.
    + by destruct Hsh as (_ & _ & _ & _ & _ & ->).
    + rewrite Hfl. by destruct Hsh as (-> & _).
    + destruct Hsh as (Hm & _ & Hb & Hc & _). rewrite (init_heap_shape p (pool_reset p)), Hc by done. done.
    + rewrite (same_shape_addrs _ _ Hsh). destruct Hst, Hsh as (_ & Ht & Hb & _).
      assert (length (block_addrs p) = Z.to_nat p.(block_count)) as Hla.
      { unfold block_addrs. by rewrite length_fmap, length_seqZ. }
      destruct Hwf. split; rewrite Hs, ?Ht, ?Hb; simpl; try lia.
    + rewrite (same_shape_addrs _ _ Hsh), <- Hperm. by destruct Hsh as (_ & _ & -> & _).
  - split_and!; [| |done].
    + intros q Hq. simpl. by rewrite !lookup_insert_ne.
    + intros a Ha. by apply init_heap_frame.
Qed.

(** ** Operations that touch user data *)

Definition wd (w : world) (d : gmap Z (list byte)) : world :=
  World w.(blocks) d w.(pools) w.(stderr).

Lemma inv_wd w pool p s ptr old new :
  inv w pool p s → w.(data) !! ptr = Some old → length new = length old →
  inv (wd w (<[ptr := new]> w.(data))) pool p s.
Proof.
  intros [] Hold Hlen. split; try done.
  eapply Forall_impl; [exact pi_data0|]. intros a (d & Ha & Hd). simpl.
  destruct (decide (get_block_data a = ptr)) as [<-|Hne].
  - exists new. rewrite lookup_insert_eq. split; [done|]. congruence.
  - exists d. by rewrite lookup_insert_ne.
Qed.

Lemma inv_area w pool p s a :
  inv w pool p s → a ∈ s.(a_free) ++ s.(a_used) →
  ∃ d, w.(data) !! get_block_data a = Some d ∧ length d = Z.to_nat p.(block_size).
Proof. intros HI Ha. apply (proj1 (Forall_forall _ _) (pi_data _ _ _ _ _ HI) _ Ha). Qed.

Lemma block_pos w pool p s a :
  inv w pool p s → a ∈ s.(a_free) ++ s.(a_used) → 0 < a.
Proof.
  intros HI Ha. destruct (inv_member _ _ _ _ _ HI Ha) as [(i & Hi & ->)%elem_block_addrs _].
  pose proof (tbs_pos p (pi_wf _ _ _ _ _ HI)). destruct (pi_wf _ _ _ _ _ HI). nia.
Qed.

Lemma get_block_data_nn a : 0 < a → get_block_data a ≠ NULL.
Proof. unfold get_block_data, NULL. rewrite BHS. lia. Qed.

(** The block an allocation hands out. *)
Lemma a_alloc_cases bs size s :
  (a_alloc bs size s).1 = NULL ∧ (a_alloc bs size s).2 = s ∨
  ∃ a F, s.(a_free) = a :: F ∧ ¬ (size = 0 ∨ bs < size) ∧
         a_alloc bs size s = (get_block_data a, APool F (a :: s.(a_used))).
Proof.
  unfold a_alloc. case_decide; [by left|]. destruct (a_free s) as [|a F]; [by left|].
  right. eauto.
Qed.

Lemma calloc_refines w pool p s size :
  inv w pool p s → 0 ≤ size →
  ∃ w' p', mempool_calloc pool size w = Ret ((a_alloc p.(block_size) size s).1, w') ∧
           inv w' pool p' (a_alloc p.(block_size) size s).2 ∧ same_shape p p' ∧
           frame w w' pool p ∧
           (∀ a F, s.(a_free) = a :: F → 0 < size ≤ p.(block_size) →
              ∃ d, w'.(data) !! get_block_data a = Some d ∧
                   take (Z.to_nat size) d = replicate (Z.to_nat size) x00).
Proof.
  intros HI Hs. destruct (alloc_refines w pool p s size HI Hs) as (w1 & p1 & Hr & HI1 & Hsh & Hfr & Hd).
  unfold mempool_calloc. rewrite (bind_Ret _ _ _ _ _ Hr).
  destruct (a_alloc_cases p.(block_size) size s) as [[E1 E2]|(a & F & EF & Hok & E)].
  - rewrite E1. simpl. exists w1, p1. split_and!; try done.
    intros a F EF Hsz. unfold a_alloc in E1. rewrite decide_False, EF in E1 by lia.
    simpl in E1. exfalso. eapply get_block_data_nn; [|done].
    apply (block_pos _ _ _ _ _ HI). rewrite EF. set_solver.
  - rewrite E in *. cbn [fst snd] in *.
    assert (Ha : a ∈ a_free s ++ a_used s) by (rewrite EF; set_solver).
    pose proof (block_pos _ _ _ _ _ HI Ha) as Hpos.
    rewrite (proj2 (Z.eqb_neq _ _) (get_block_data_nn a Hpos)).
    destruct (inv_area _ _ _ _ a HI Ha) as (d & Hda & Hlen). rewrite <- Hd in Hda.
    erewrite (bind_Ret (memset0 _ _)); cycle 1.
    { unfold memset0. rewrite Hda, Hlen, Z2Nat.id by (destruct (pi_wf _ _ _ _ _ HI); lia).
      rewrite (proj2 (Z.ltb_ge _ _)) by lia. reflexivity. }
    fold (wd w1 (<[get_block_data a := replicate (Z.to_nat size) x00 ++ drop (Z.to_nat size) d]> w1.(data))).
    exists (wd w1 (<[get_block_data a := replicate (Z.to_nat size) x00 ++ drop (Z.to_nat size) d]> w1.(data))), p1.
    split_and!; try done.
    + eapply inv_wd; [done|done|]. rewrite length_app, length_replicate, length_drop, Hlen. lia.
    + intros a' F' EF' _. rewrite EF in EF'. simplify_eq. eexists.
      split; [apply lookup_insert_eq|]. rewrite take_app_le by (rewrite length_replicate; lia).
      by rewrite take_ge by (rewrite length_replicate; lia).
Qed.

Definition a_realloc (bs ptr size : Z) (s : apool) : Z * apool :=
  if decide (ptr = NULL) then a_alloc bs size s
  else if decide (size = 0) then (NULL, (a_dealloc ptr s).2)
  else if decide (bs < size) then (NULL, s)
  else let r := a_alloc bs size s in
       if decide (r.1 = NULL) then (NULL, r.2) else (r.1, (a_dealloc ptr r.2).2).

Lemma a_alloc_known bs size ptr s : a_known ptr s → a_known ptr (a_alloc bs size s).2.
Proof.
  destruct (a_alloc_cases bs size s) as [[_ ->]|(a & F & EF & _ & ->)]; [done|].
  intros [->|Hk]; [by left|right]. rewrite EF in Hk. simpl. set_solver.
Qed.

Lemma a_alloc_members bs size s :
  (a_alloc bs size s).2.(a_free) ++ (a_alloc bs size s).2.(a_used) ≡ₚ
  s.(a_free) ++ s.(a_used).
Proof.
  destruct (a_alloc_cases bs size s) as [[_ ->]|(a & F & EF & _ & ->)]; [done|].
  rewrite EF. simpl. by rewrite <- Permutation_middle.
Qed.

Lemma inv_bsize w pool p s a :
  inv w pool p s → a ∈ s.(a_free) ++ s.(a_used) →
  ∃ b, w.(blocks) !! a = Some b ∧ b.(bsize) = p.(block_size).
Proof.
  intros HI Ha. destruct (inv_member _ _ _ _ _ HI Ha) as [_ [b Hb]]. exists b. split; [done|].
  assert (Hk : hk (blocks w) a = Some (b.(magic), b.(is_free), b.(bsize)))
    by (unfold hk; by rewrite Hb).
  apply elem_of_app in Ha as [Ha|Ha];
    [apply (proj1 (Forall_forall _ _) (pi_hfree _ _ _ _ _ HI)) in Ha|
     apply (proj1 (Forall_forall _ _) (pi_hused _ _ _ _ _ HI)) in Ha]; congruence.
Qed.

Lemma same_shape_trans p p' p'' : same_shape p p' → same_shape p' p'' → same_shape p p''.
Proof. intros (? & ? & ? & ? & ? & ?) (? & ? & ? & ? & ? & ?). split_and!; congruence. Qed.

Lemma realloc_refines w pool p s ptr size :
  inv w pool p s → 0 ≤ size → a_known ptr s →
  ∃ w' p', mempool_realloc pool ptr size w =
             Ret ((a_realloc p.(block_size) ptr size s).1, w') ∧
           inv w' pool p' (a_realloc p.(block_size) ptr size s).2 ∧ same_shape p p' ∧
           frame w w' pool p ∧
           (∀ a F old, s.(a_free) = a :: F → 0 < size ≤ p.(block_size) → ptr ≠ NULL →
              w.(data) !! ptr = Some old →
              ∃ d, w'.(data) !! get_block_data a = Some d ∧
                   take (Z.to_nat size) d = take (Z.to_nat size) old).
Proof.
  intros HI Hs Hk. pose proof (pi_nn _ _ _ _ _ HI) as Hpn. pose proof (pi_pool _ _ _ _ _ HI) as Hp.
  unfold mempool_realloc, a_realloc. rewrite (proj2 (Z.eqb_neq _ _) Hpn).
  destruct (Z.eqb_spec ptr NULL) as [->|Hptr].
  { rewrite decide_True by done.
    destruct (alloc_refines w pool p s size HI Hs) as (w' & p' & ? & ? & ? & ? & ?).
    exists w', p'. split_and!; try done. }
  rewrite (decide_False (P := ptr = NULL)) by done.
  destruct (Z.eqb_spec size 0) as [->|Hsz].
  { rewrite decide_True by done. destruct (free_refines w pool p s ptr HI Hk)
      as (w' & p' & Hr & ? & ? & ? & ?).
    rewrite (bind_Ret _ _ _ _ _ Hr). exists w', p'. split_and!; try done. lia. }
  rewrite (decide_False (P := size = 0)) by done. c_step (rd_pool_ret _ _ _ Hp).
  destruct (Z.ltb_spec p.(block_size) size) as [Hbig|Hfit].
  { rewrite decide_True by done. exists w, p. split_and!; try done; lia. }
  rewrite (decide_False (P := _ < _)) by lia.
  destruct (alloc_refines w pool p s size HI Hs) as (w1 & p1 & Hr & HI1 & Hsh & Hfr & Hd).
  rewrite (bind_Ret _ _ _ _ _ Hr).
  pose proof (a_alloc_known p.(block_size) size ptr s Hk) as Hk1.
  destruct (a_alloc_cases p.(block_size) size s) as [[E1 E2]|(a & F & EF & Hok & E)].
  { rewrite E1, E2. simpl. exists w1, p1. rewrite E2 in HI1. split_and!; try done.
    intros a F old EF _ _ _. unfold a_alloc in E1. rewrite decide_False, EF in E1 by lia.
    simpl in E1. exfalso. eapply get_block_data_nn; [|done].
    apply (block_pos _ _ _ _ _ HI). rewrite EF. set_solver. }
  rewrite E in *. cbn [fst snd] in *.
  assert (Ha : a ∈ a_free s ++ a_used s) by (rewrite EF; set_solver).
  pose proof (get_block_data_nn a (block_pos _ _ _ _ _ HI Ha)) as Hnn.
  rewrite (proj2 (Z.eqb_neq _ _) Hnn), (decide_False (P := _ = NULL)) by done.
  destruct Hk as [|Hk]; [done|].
  (* the old header and both user areas *)
  assert (Hk2 : get_block_header ptr ∈ F ++ a :: a_used s) by (destruct Hk1; done).
  destruct (inv_bsize _ _ _ _ _ HI1 Hk2) as (ob & Hob & Hobs).
  rewrite (proj1 (proj2 (proj2 Hsh))) in Hobs.
  destruct (inv_area _ _ _ _ a HI Ha) as (d & Hda & Hlen). rewrite <- Hd in Hda.
  destruct (inv_area _ _ _ _ _ HI Hk) as (old & Hold & Hlo).
  rewrite data_header, <- Hd in Hold.
  c_step (rd_block_ret w1 _ _ Hob). rewrite Hobs.
  assert ((if size <? p.(block_size) then size else p.(block_size)) = size) as ->
    by (case_match; lia).
  assert (Hbs0 : 8 ≤ p.(block_size)) by (destruct (pi_wf _ _ _ _ _ HI); lia).
  set (nd := take (Z.to_nat size) old ++ drop (Z.to_nat size) d).
  erewrite (bind_Ret (memcpy_area _ _ _)); cycle 1.
  { unfold memcpy_area. rewrite Hda, Hold, Hlen, Hlo, Z2Nat.id by lia.
    rewrite (proj2 (Z.ltb_ge _ _)) by lia. reflexivity. }
  fold (wd w1 (<[get_block_data a := nd]> w1.(data))).
  assert (HI2 : inv (wd w1 (<[get_block_data a := nd]> w1.(data))) pool p1
                  (APool F (a :: a_used s))).
  { eapply inv_wd; [done|done|]. unfold nd. rewrite length_app, length_take, length_drop. lia. }
  destruct (free_refines _ pool p1 _ ptr HI2 (or_intror Hk2))
    as (w3 & p3 & Hr3 & HI3 & Hsh3 & Hfr3 & Hd3).
  rewrite (bind_Ret _ _ _ _ _ Hr3). exists w3, p3. split_and!; try done.
  - by eapply same_shape_trans.
  - eapply frame_trans; [done|done|]. done.
  - intros a' F' old' EF' _ _ Hold'. rewrite EF in EF'. simplify_eq.
    rewrite <- Hd, Hold in Hold'. simplify_eq. exists nd. rewrite Hd3. simpl.
    rewrite lookup_insert_eq. split; [done|]. unfold nd.
    rewrite take_app_le by (rewrite length_take; lia). by rewrite take_take, Nat.min_id.
Qed.

(** ** Runs of client operations *)

Inductive op :=
  | OpAlloc (size : Z)
  | OpCalloc (size : Z)
  | OpFree (ptr : Z)
  | OpRealloc (ptr size : Z)
  | OpCheck
  | OpStats
  | OpReset.

Inductive reply :=
  | RPtr (ptr : Z)
  | RErr (e : mempool_err_t)
  | RCounts (used free : Z)
  | RNone.

Definition run_op (fuel : nat) (pool : Z) (o : op) : C world reply :=
  match o with
  | OpAlloc size => r ← mempool_alloc pool size; mret (RPtr r)
  | OpCalloc size => r ← mempool_calloc pool size; mret (RPtr r)
  | OpFree ptr => e ← mempool_free pool ptr; mret (RErr e)
  | OpRealloc ptr size => r ← mempool_realloc pool ptr size; mret (RPtr r)
  | OpCheck => e ← mempool_check fuel pool; mret (RErr e)
  | OpStats => r ← mempool_get_stats pool false;
      mret (match r.2 with
            | Some st => RCounts st.(s_used_blocks) st.(s_free_blocks)
            | None => RErr r.1
            end)
  | OpReset => mempool_reset pool;; mret RNone
  end.

Fixpoint run_ops (fuel : nat) (pool : Z) (os : list op) : C world (list reply) :=
  match os with
  | [] => mret []
  | o :: os' => r ← run_op fuel pool o; rs ← run_ops fuel pool os'; mret (r :: rs)
  end.

(** The same operations on the abstract pool. *)
Definition a_op (bs : Z) (addrs : list Z) (o : op) (s : apool) : reply * apool :=
  match o with
  | OpAlloc size | OpCalloc size =>
      (RPtr (a_alloc bs size s).1, (a_alloc bs size s).2)
  | OpFree ptr => (RErr (a_dealloc ptr s).1, (a_dealloc ptr s).2)
  | OpRealloc ptr size => (RPtr (a_realloc bs ptr size s).1, (a_realloc bs ptr size s).2)
  | OpCheck => (RErr MEMPOOL_OK, s)
  | OpStats => (RCounts (Z.of_nat (length s.(a_used))) (Z.of_nat (length s.(a_free))), s)
  | OpReset => (RNone, APool addrs [])
  end.

Fixpoint a_ops (bs : Z) (addrs : list Z) (os : list op) (s : apool) : list reply * apool :=
  match os with
  | [] => ([], s)
  | o :: os' => let r := a_op bs addrs o s in
                let rs := a_ops bs addrs os' r.2 in (r.1 :: rs.1, rs.2)
  end.

(** Well-behaved clients: sizes are [size_t] values and every pointer handed
    back is null or a block of the pool (in use or not: double frees are
    allowed). *)
Definition op_ok (o : op) (s : apool) : Prop :=
  match o with
  | OpAlloc size | OpCalloc size => 0 ≤ size
  | OpFree ptr => a_known ptr s
  | OpRealloc ptr size => 0 ≤ size ∧ a_known ptr s
  | _ => True
  end.

Fixpoint ops_ok (bs : Z) (addrs : list Z) (os : list op) (s : apool) : Prop :=
  match os with
  | [] => True
  | o :: os' => op_ok o s ∧ ops_ok bs addrs os' (a_op bs addrs o s).2
  end.

Lemma get_stats_run w pool p s :
  inv w pool p s → mempool_get_stats pool false w = Ret ((MEMPOOL_OK, Some p.(stats)), w).
Proof.
  intros []. unfold mempool_get_stats. rewrite (proj2 (Z.eqb_neq _ _) pi_nn0). simpl.
  erewrite (bind_Ret (lock_if pool)) by (by apply lock_if_ret).
  erewrite (bind_Ret (rd_pool pool)) by (apply rd_pool_ret, wp_lookup).
  erewrite bind_Ret by (apply unlock_if_ret, wp_lookup).
  rewrite lk_stats, wp_wp, unlk_lk, wp_id by done. done.
Qed.

Lemma frame_refl w pool p : frame w w pool p.
Proof. by split_and!. Qed.
Lemma same_shape_refl p : same_shape p p.
Proof. by split_and!. Qed.

Lemma op_refines fuel w pool p s o :
  inv w pool p s → op_ok o s → (Z.to_nat p.(block_count) < fuel)%nat →
  ∃ w' p', run_op fuel pool o w = Ret ((a_op p.(block_size) (block_addrs p) o s).1, w') ∧
           inv w' pool p' (a_op p.(block_size) (block_addrs p) o s).2 ∧
           same_shape p p' ∧ frame w w' pool p.
Proof.
  intros HI Hok Hf. destruct o as [size|size|ptr|ptr size| | |]; simpl in *.
  - destruct (alloc_refines w pool p s size HI Hok) as (w' & p' & Hr & ? & ? & ? & ?).
    rewrite (bind_Ret _ _ _ _ _ Hr). exists w', p'. by split_and!.
  - destruct (calloc_refines w pool p s size HI Hok) as (w' & p' & Hr & ? & ? & ? & ?).
    rewrite (bind_Ret _ _ _ _ _ Hr). exists w', p'. by split_and!.
  - destruct (free_refines w pool p s ptr HI Hok) as (w' & p' & Hr & ? & ? & ? & ?).
    rewrite (bind_Ret _ _ _ _ _ Hr). exists w', p'. by split_and!.
  - destruct Hok as [Hs Hk].
    destruct (realloc_refines w pool p s ptr size HI Hs Hk) as (w' & p' & Hr & ? & ? & ? & ?).
    rewrite (bind_Ret _ _ _ _ _ Hr). exists w', p'. by split_and!.
  - rewrite (bind_Ret _ _ _ _ _ (check_ok w pool p s fuel HI Hf)).
    exists w, p. split_and!; auto using frame_refl, same_shape_refl.
  - rewrite (bind_Ret _ _ _ _ _ (get_stats_run w pool p s HI)). simpl.
    destruct (pi_stats _ _ _ _ _ HI) as [_ _ _ -> -> _].
    exists w, p. split_and!; auto using frame_refl, same_shape_refl.
  - destruct (reset_refines w pool p s HI) as (w' & p' & Hr & ? & ? & ? & ?).
    rewrite (bind_Ret _ _ _ _ _ Hr). exists w', p'. by split_and!.
Qed.

Lemma ops_refine fuel pool bs addrs os : ∀ w p s,
  p.(block_size) = bs → block_addrs p = addrs →
  inv w pool p s → ops_ok bs addrs os s → (Z.to_nat p.(block_count) < fuel)%nat →
  ∃ w' p', run_ops fuel pool os w = Ret ((a_ops bs addrs os s).1, w') ∧
           inv w' pool p' (a_ops bs addrs os s).2 ∧ same_shape p p' ∧ frame w w' pool p.
Proof.
  induction os as [|o os IH]; intros w p s Hbs Haddrs HI Hok Hf.
  { exists w, p. split_and!; auto using frame_refl, same_shape_refl. }
  destruct Hok as [Ho Hos].
  destruct (op_refines fuel w pool p s o HI Ho Hf) as (w1 & p1 & Hr & HI1 & Hsh & Hfr).
  rewrite Hbs, Haddrs in Hr, HI1. cbn [run_ops a_ops]. rewrite (bind_Ret _ _ _ _ _ Hr). cbv zeta.
  pose proof Hsh as (_ & _ & Hb & Hc & _).
  destruct (IH w1 p1 _ ltac:(congruence) ltac:(rewrite (same_shape_addrs _ _ Hsh); done)
              HI1 Hos ltac:(by rewrite Hc)) as (w2 & p2 & Hr2 & HI2 & Hsh2 & Hfr2).
  rewrite (bind_Ret _ _ _ _ _ Hr2). exists w2, p2. split_and!; try done.
  - by eapply same_shape_trans.
  - by eapply frame_trans.
Qed.

(** ** A second release that slips past the unlocked checks *)

(** Running the critical section of [mempool_free] on the block at the head of
    the free list. *)
Lemma refree_run w pool p F U a :
  pool_inv w pool p (a :: F) U →
  ∃ w' p' b', mempool_free_locked pool (get_block_data a) w = Ret (MEMPOOL_OK, w') ∧
    w'.(pools) !! pool = Some p' ∧ p'.(lock) = false ∧ p'.(free_list) = a ∧
    w'.(blocks) !! a = Some b' ∧ check_magic b' = true ∧ b'.(is_free) = 1 ∧ b'.(next) = a.
Proof.
  intros HI. pose proof (inv_nonnull HI) as [Hna Hnn]%Forall_cons.
  pose proof (inv_nodup HI) as [Hax _]%NoDup_cons.
  destruct HI as [Hpn Hp Hwf Hl Hf Hu Hperm Hhf Hhu Hst Hd].
  apply Forall_cons in Hhf as [Hha Hhf]. destruct Hf as (q & Hfl & b & Hb & Hprev & Hs).
  pose proof (neighbour_some _ _ _ _ _ _ Hhf Hs) as Hnx.
  unfold mempool_free_locked. rewrite header_data.
  erewrite (bind_Ret (lock_if pool)) by (by apply lock_if_ret).
  c_step (rd_block_ret (wp w pool (lk p)) _ _ Hb). rewrite Hprev. simpl.
  erewrite bind_Ret by (apply wr_pool_ret, wp_lookup). rewrite wp_wp.
  erewrite bind_Ret by (by apply link_prev_ret). rewrite wb_wp. simpl blocks.
  erewrite (bind_Ret (rd_pool pool)) by (apply rd_pool_ret, wp_lookup).
  cbn [free_list set_used_list block_size]. rewrite lk_fl, lk_bs, Hfl.
  rewrite push_run; cbn [blocks wp wb]; rewrite <- ?hk_is_Some, ?hk_link_prev, ?hk_is_Some; eauto.
  rewrite wb_wp, wb_wb.
  erewrite bind_Ret by (apply wr_pool_ret, wp_lookup). rewrite wp_wp.
  erewrite bind_Ret by (apply wr_pool_ret, wp_lookup). rewrite wp_wp.
  erewrite bind_Ret by (apply unlock_if_ret, wp_lookup). rewrite wp_wp.
  assert (Hne : a ≠ b.(next)).
  { intros E. destruct (dseg_first_in _ _ _ _ _ _ Hs) as [[? _]|?]; [congruence|].
    apply Hax, elem_of_app. left. congruence. }
  eexists _, _, _. split; [reflexivity|]. split; [apply wp_lookup|].
  split; [unfold unlk, lk; destruct (is_thread_safe p =? 0) eqn:E; simpl; rewrite E; done|].
  split; [unfold unlk, lk; destruct (is_thread_safe p =? 0) eqn:E; simpl; rewrite E; done|].
  unfold hk in Hha. rewrite Hb in Hha. simpl in Hha. injection Hha as E1 E2 E3.
  split.
  { simpl. unfold h_push, h_link_prev at 1. rewrite (proj2 (Z.eqb_neq _ _) Hna).
    rewrite !lookup_alter_eq, lookup_link_prev_ne, Hb by done. reflexivity. }
  unfold check_magic. simpl. rewrite E1. done.
Qed.

(** A self-loop on the free list is walked for ever. *)
Lemma check_list_loop w a b count fuel :
  a ≠ NULL → w.(blocks) !! a = Some b → check_magic b = true → b.(is_free) = 1 → b.(next) = a →
  check_list fuel true a count w = Fuel.
Proof.
  intros Hn Hb Hm Hf Hnx. revert count. induction fuel as [|fuel IH]; intros count; [done|].
  cbn [check_list]. rewrite (proj2 (Z.eqb_neq _ _) Hn). c_step (rd_block_ret w _ _ Hb).
  rewrite Hm, Hf, Hnx. apply IH.
Qed.

(** ** Size computation of [mempool_create] *)

Lemma c_for_ub {S} (body : Z → C S unit) (k : nat) : ∀ n i s,
  (k < n)%nat → (∀ j s, ∃ s', body j s = Ret (tt, s') ∨ body j s = UB) →
  (∀ s, body (i + Z.of_nat k) s = UB) → c_for n i body s = UB.
Proof.
  induction k as [|k IH]; intros n i s Hn Hb Hk; (destruct n as [|n]; [lia|]); cbn [c_for].
  - unfold mbind, C_bind. specialize (Hk s). rewrite Z.add_0_r in Hk. by rewrite Hk.
  - destruct (Hb i s) as [s' [E|E]]; unfold mbind, C_bind; rewrite E; [|done].
    apply IH; [lia|done|]. intros s0. rewrite <- (Hk s0). f_equal. lia.
Qed.

Lemma create_overflow w a_pool a_mem n count ts :
  a_pool ≠ NULL → a_mem ≠ NULL → 0 ≤ n → n + 48 < 2 ^ 64 → 0 < count →
  2 ^ 64 ≤ (bs_of n + 32) * count →
  mempool_create a_pool a_mem n count ts w = UB.
Proof.
  intros Hpn Hmn Hn Hn7 Hc Hover. pose proof (bs_of_spec n Hn ltac:(lia)) as [Hb8 Hbn].
  unfold mempool_create. rewrite (proj2 (Z.eqb_neq count 0)) by lia. cbv zeta.
  rewrite (proj2 (Z.eqb_neq _ _) Hpn), (proj2 (Z.eqb_neq _ _) Hmn).
  change MEMPOOL_ALIGNMENT with 8. fold (bs_of n). rewrite BHS, (u64_small (bs_of n + 32)) by lia.
  destruct (zero_loop_run a_mem (bs_of n + 32) (bs_of n) ltac:(lia) (Z.to_nat count) 0 w)
    as (d & Hr & _ & _).
  c_step Hr. unfold c_mod at 1. erewrite bind_Ret by done.
  unfold mbind at 1, C_bind at 1. unfold init_blocks.
  erewrite (bind_Ret (rd_pool a_pool)) by (apply rd_pool_ret, lookup_insert_eq).
  unfold mbind at 1, C_bind at 1. rewrite (c_for_ub _ (Z.to_nat (count - 1))); [done|simpl; lia| |].
  - intros j s. unfold init_block. cbv zeta. case_match; [exists s; by right|].
    eexists. by left.
  - intros s. unfold init_block. cbn [block_size total_size]. cbv zeta.
    rewrite BHS, (u64_small (bs_of n + 32)) by lia.
    rewrite (proj2 (Z.ltb_lt _ _)); [done|]. rewrite Z2Nat.id by lia. unfold sizeof_block.
    assert (u64 ((bs_of n + 32) * count) ≤ (bs_of n + 32) * count - 2 ^ 64).
    { unfold u64. rewrite <- (Z_mod_plus_full _ (-1) (2 ^ 64)). apply Z.mod_le; lia. }
    nia.
Qed.

(** ** A concrete pool: three 8-byte blocks at address 4096 *)

Definition empty_world : world := World ∅ ∅ ∅ [].
Definition demo_world : world :=
  match mempool_create 16 4096 8 3 1 empty_world with Ret (_, w) => w | _ => empty_world end.
Definition demo_pool : mempool_t :=
  default (Pool 0 0 0 0 0 0 false (Stats 0 0 0 0 0 0 0 0 0 0 0) 0) (demo_world.(pools) !! 16).
Definition demo_addrs : list Z := [4096; 4136; 4176].

Lemma demo_inv : inv demo_world 16 demo_pool (APool demo_addrs []).
Proof.
  destruct (create_run empty_world 16 4096 8 3 1) as (w' & p & Hr & HI & _);
    [done|lia|lia|lia|lia|vm_compute; done|].
  assert (E : demo_world = w') by (unfold demo_world; by rewrite Hr).
  assert (Ep : demo_pool = p).
  { unfold demo_pool. rewrite E. by rewrite (pi_pool _ _ _ _ _ HI). }
  rewrite <- E, <- Ep in HI. exact HI.
Qed.

(** The demo pool after one allocation: block 4096 is in use. *)
Definition demo_world1 : world :=
  match mempool_alloc 16 8 demo_world with Ret (_, w) => w | _ => empty_world end.
Definition demo_pool1 : mempool_t := default demo_pool (demo_world1.(pools) !! 16).

Lemma demo_inv1 : inv demo_world1 16 demo_pool1 (APool [4136; 4176] [4096]).
Proof.
  destruct (alloc_refines _ _ _ _ 8 demo_inv ltac:(lia)) as (w' & p & Hr & HI & _).
  assert (E : demo_world1 = w') by (unfold demo_world1; by rewrite Hr).
  assert (Ep : demo_pool1 = p).
  { unfold demo_pool1. rewrite E. by rewrite (pi_pool _ _ _ _ _ HI). }
  rewrite <- E, <- Ep in HI. exact HI.
Qed.

(** ** Properties *)

(** C1. A pool made by [mempool_create] (whose size computation does not wrap),
    followed by any sequence of client calls whose pointers are null or blocks
    of the pool, returns exactly what the abstract pool returns: allocation is
    LIFO over the free blocks and fails only for a bad size or an empty list,
    double frees are reported, [mempool_check] answers OK, the statistics count
    the blocks, no run blocks on the mutex or dereferences a bad pointer, and the
    pool invariant holds at the end. *)
Theorem mempool_run_refines w a_pool a_mem n count ts os fuel :
  a_pool ≠ NULL → 0 < a_mem → 0 ≤ n → 0 < count → n + 7 < 2 ^ 64 →
  (bs_of n + 32) * count < 2 ^ 64 → (Z.to_nat count < fuel)%nat →
  let addrs := (λ i, a_mem + i * (bs_of n + 32)) <$> seqZ 0 count in
  ops_ok (bs_of n) addrs os (APool addrs []) →
  ∃ w' p', (pool ← mempool_create a_pool a_mem n count ts; run_ops fuel pool os) w =
             Ret ((a_ops (bs_of n) addrs os (APool addrs [])).1, w') ∧
           inv w' a_pool p' (a_ops (bs_of n) addrs os (APool addrs [])).2.
Proof.
  intros Hpn Hm Hn Hc Hn7 Hfit Hf addrs Hok.
  destruct (create_run w a_pool a_mem n count ts) as (w1 & p & Hr & HI & Em & Eb & Ec & _); auto.
  assert (Ea : block_addrs p = addrs).
  { unfold block_addrs, tbs. by rewrite Em, Eb, Ec. }
  rewrite Ea in HI. rewrite (bind_Ret _ _ _ _ _ Hr).
  destruct (ops_refine fuel a_pool (bs_of n) addrs os w1 p _ Eb Ea HI Hok) as (w2 & p2 & H & ? & _);
    [by rewrite Ec|]. by exists w2, p2.
Qed.

Lemma mempool_run_refines_witness :
  ∃ w' p', (pool ← mempool_create 16 4096 8 3 1;
            run_ops 5 pool [OpAlloc 8; OpCalloc 4; OpFree 4128; OpFree 4128; OpCheck; OpStats])
             empty_world =
             Ret ([RPtr 4128; RPtr 4168; RErr MEMPOOL_OK; RErr MEMPOOL_ERR_DOUBLE_FREE;
                   RErr MEMPOOL_OK; RCounts 1 2], w') ∧
           inv w' 16 p' (APool [4096; 4176] [4136]).
Proof.
  apply (mempool_run_refines empty_world 16 4096 8 3 1
           [OpAlloc 8; OpCalloc 4; OpFree 4128; OpFree 4128; OpCheck; OpStats] 5);
    [done|lia|lia|lia|lia|vm_compute; done|vm_compute; lia|].
  simpl. split_and!; try lia; right; vm_compute; set_solver.
Defined.

(** In every state of the invariant, the user areas of two different blocks
    in use do not overlap each other's header or data, and all of them lie inside
    the memory the pool obtained. *)
Theorem mempool_live_disjoint w pool p s i j a b :
  inv w pool p s → s.(a_used) !! i = Some a → s.(a_used) !! j = Some b → i ≠ j →
  (get_block_data a + p.(block_size) ≤ b ∨ get_block_data b + p.(block_size) ≤ a) ∧
  p.(memory) ≤ a ∧ get_block_data a + p.(block_size) ≤ p.(memory) + p.(total_size).
Proof.
  intros HI Ha Hb Hij.
  destruct (inv_member _ _ _ _ a HI) as [(x & Hx & Ex)%elem_block_addrs _];
    [apply elem_of_app; right; by eapply list_elem_of_lookup_2|].
  destruct (inv_member _ _ _ _ b HI) as [(y & Hy & Ey)%elem_block_addrs _];
    [apply elem_of_app; right; by eapply list_elem_of_lookup_2|].
  pose proof (inv_nodup HI) as (_ & _ & Hnd)%NoDup_app.
  assert (x ≠ y).
  { intros <-. apply Hij. eapply NoDup_lookup; [exact Hnd|exact Ha|]. congruence. }
  pose proof (tbs_pos p (pi_wf _ _ _ _ _ HI)). destruct (pi_wf _ _ _ _ _ HI) as [_ ? ? -> _].
  unfold get_block_data. subst a b. unfold tbs in *. rewrite BHS in *. nia.
Qed.

Lemma mempool_live_disjoint_witness :
  ∃ w p, inv w 16 p (APool [4176] [4136; 4096]) ∧
  ((get_block_data 4136 + p.(block_size) ≤ 4096 ∨ get_block_data 4096 + p.(block_size) ≤ 4136) ∧
   p.(memory) ≤ 4136 ∧ get_block_data 4136 + p.(block_size) ≤ p.(memory) + p.(total_size)).
Proof.
  destruct (alloc_refines _ _ _ _ 8 demo_inv1 ltac:(lia)) as (w & p & _ & HI & _).
  exists w, p. split; [exact HI|].
  apply (mempool_live_disjoint w 16 p (APool [4176] [4136; 4096]) 0 1 4136 4096 HI);
    [reflexivity|reflexivity|lia].
Defined.

(** Releasing a block in use succeeds, and releasing the same pointer again
    is reported as a double free without changing anything; a pointer whose header
    has lost its magic number is reported as corrupted without changing anything. *)
Theorem mempool_double_free_detected w pool p s ptr :
  inv w pool p s → get_block_header ptr ∈ s.(a_used) →
  (∃ w1, mempool_free pool ptr w = Ret (MEMPOOL_OK, w1) ∧
         mempool_free pool ptr w1 = Ret (MEMPOOL_ERR_DOUBLE_FREE, w1)) ∧
  (∀ v, v ≠ MEMPOOL_MAGIC →
     let bad := wb w (alter (λ b, Block v b.(is_free) b.(bsize) b.(next) b.(prev))
                        (get_block_header ptr) w.(blocks)) in
     mempool_free pool ptr bad = Ret (MEMPOOL_ERR_CORRUPTED, bad)).
Proof.
  intros HI Hin.
  assert (Hmem : get_block_header ptr ∈ a_free s ++ a_used s) by set_solver.
  assert (Hptr : ptr ≠ NULL).
  { pose proof (block_pos _ _ _ _ _ HI Hmem) as Hpos. unfold get_block_header in Hpos.
    rewrite BHS in Hpos. unfold NULL. lia. }
  split.
  - destruct (free_refines w pool p s ptr HI (or_intror Hmem)) as (w1 & p1 & Hr & HI1 & _).
    unfold a_dealloc in Hr, HI1. rewrite !decide_False, !decide_True in Hr by done.
    rewrite !decide_False, !decide_True in HI1 by done. exists w1. split; [done|].
    unfold mempool_free. erewrite bind_Ret by (eapply free_checks_run; [exact HI1|simpl; set_solver]).
    rewrite bool_decide_eq_false_2; [done|]. simpl. rewrite list_elem_of_filter. naive_solver.
  - intros v Hv bad. destruct (inv_member _ _ _ _ _ HI Hmem) as [_ [b Hb]].
    unfold mempool_free, mempool_free_checks.
    rewrite (proj2 (Z.eqb_neq _ _) (pi_nn _ _ _ _ _ HI)), (proj2 (Z.eqb_neq _ _) Hptr).
    unfold mbind, C_bind. unfold rd_block, bad. simpl. rewrite lookup_alter_eq, Hb. simpl.
    unfold check_magic. simpl. by rewrite (proj2 (Z.eqb_neq _ _) Hv).
Qed.

Lemma mempool_double_free_detected_witness :
  (∃ w1, mempool_free 16 4128 demo_world1 = Ret (MEMPOOL_OK, w1) ∧
         mempool_free 16 4128 w1 = Ret (MEMPOOL_ERR_DOUBLE_FREE, w1)) ∧
  (∀ v, v ≠ MEMPOOL_MAGIC →
     let bad := wb demo_world1 (alter (λ b, Block v b.(is_free) b.(bsize) b.(next) b.(prev))
                        (get_block_header 4128) demo_world1.(blocks)) in
     mempool_free 16 4128 bad = Ret (MEMPOOL_ERR_CORRUPTED, bad)).
Proof.
  apply (mempool_double_free_detected demo_world1 16 demo_pool1 _ 4128 demo_inv1).
  vm_compute. set_solver.
Defined.

(** [mempool_check] finds a corrupted free list: when the walk reaches a
    header with a wrong magic number or one marked in use (the headers before it
    being sound), it answers CORRUPTED, leaves the headers alone and releases the
    mutex. *)
Theorem mempool_check_detects w pool p bs xs a b ys q fuel :
  pool ≠ NULL → w.(pools) !! pool = Some p → p.(lock) = false →
  dseg w.(blocks) NULL p.(free_list) q NULL (xs ++ a :: ys) → nonnull (xs ++ [a]) →
  Forall (λ x, hk w.(blocks) x = Some (MEMPOOL_MAGIC, 1, bs)) xs →
  w.(blocks) !! a = Some b → b.(magic) ≠ MEMPOOL_MAGIC ∨ b.(is_free) = 0 →
  (length xs < fuel)%nat →
  mempool_check fuel pool w = Ret (MEMPOOL_ERR_CORRUPTED, w).
Proof.
  intros Hpn Hp Hl Hs Hnn Hall Ha Hbad Hf. unfold mempool_check.
  rewrite (proj2 (Z.eqb_neq _ _) Hpn).
  erewrite (bind_Ret (lock_if pool)) by (by apply lock_if_ret).
  erewrite (bind_Ret (rd_pool pool)) by (apply rd_pool_ret, wp_lookup).
  rewrite lk_fl. erewrite bind_Ret by (eapply (check_list_bad (wp w pool (lk p)) bs true); eauto;
    destruct Hbad as [?| ->]; eauto).
  cbv iota. erewrite bind_Ret by (apply unlock_if_ret, wp_lookup).
  rewrite wp_wp, unlk_lk, wp_id by done. done.
Qed.

Lemma mempool_check_detects_witness :
  let h := <[4096 := Block 7 1 8 4136 0]> demo_world.(blocks) in
  mempool_check 5 16 (wb demo_world h) = Ret (MEMPOOL_ERR_CORRUPTED, wb demo_world h).
Proof.
  intros h. apply (mempool_check_detects (wb demo_world h) 16 demo_pool 8 [] 4096
    (Block 7 1 8 4136 0) [4136; 4176] 4176 5).
  - done.
  - reflexivity.
  - reflexivity.
  - simpl app. cbn [dseg]. repeat first [reflexivity | split | eexists].
  - repeat constructor; done.
  - constructor.
  - reflexivity.
  - left. done.
  - simpl. lia.
Defined.

(** [mempool_realloc] of a block in use to a size that fits returns a new
    block whose first [size] bytes are those of the old one, and releases the old
    block; when no block is free it returns NULL and keeps the old block. *)
Theorem mempool_realloc_copies w pool p F U ptr size old :
  inv w pool p (APool F U) → get_block_header ptr ∈ U → 0 < size ≤ p.(block_size) →
  w.(data) !! ptr = Some old →
  ∃ w' p', match F with
  | [] => mempool_realloc pool ptr size w = Ret (NULL, w') ∧ inv w' pool p' (APool F U)
  | a :: F' =>
      mempool_realloc pool ptr size w = Ret (get_block_data a, w') ∧
      inv w' pool p' (APool (get_block_header ptr :: F')
                        (filter (λ x, x ≠ get_block_header ptr) (a :: U))) ∧
      ∃ d, w'.(data) !! get_block_data a = Some d ∧
           take (Z.to_nat size) d = take (Z.to_nat size) old
  end.
Proof.
  intros HI Hin Hs Hold.
  assert (Hmem : get_block_header ptr ∈ F ++ U) by set_solver.
  assert (Hptr : ptr ≠ NULL).
  { pose proof (block_pos _ _ _ _ _ HI Hmem) as Hpos. unfold get_block_header in Hpos.
    rewrite BHS in Hpos. unfold NULL. lia. }
  destruct (realloc_refines w pool p _ ptr size HI ltac:(lia) (or_intror Hmem))
    as (w' & p' & Hr & HI' & _ & _ & Hd).
  exists w', p'. unfold a_realloc in Hr, HI'.
  rewrite !(decide_False (P := ptr = NULL)), !(decide_False (P := size = 0)),
    !(decide_False (P := block_size p < size)) in Hr, HI' by lia.
  unfold a_alloc in Hr, HI'. rewrite (decide_False (P := size = 0 ∨ _)) in Hr, HI' by lia.
  cbn [a_free a_used] in *. destruct F as [|a F']; [by split|]. cbn [fst snd] in *.
  assert (Hna : get_block_data a ≠ NULL).
  { apply get_block_data_nn, (block_pos _ _ _ _ _ HI). simpl. set_solver. }
  rewrite (decide_False (P := get_block_data a = NULL)) in Hr, HI' by done.
  cbn [fst snd] in *. unfold a_dealloc in HI'.
  rewrite decide_False, decide_True in HI' by (try done; simpl; set_solver).
  split_and!; [exact Hr|exact HI'|]. by eapply Hd.
Qed.

Lemma mempool_realloc_copies_witness :
  ∃ w' p',
      mempool_realloc 16 4128 8 demo_world1 = Ret (get_block_data 4136, w') ∧
      inv w' 16 p' (APool [4096; 4176] (filter (λ x, x ≠ 4096) [4136; 4096])) ∧
      ∃ d, w'.(data) !! get_block_data 4136 = Some d ∧
           take 8 d = take 8 (replicate 8 x00).
Proof.
  apply (mempool_realloc_copies demo_world1 16 demo_pool1 [4136; 4176] [4096] 4128 8
           (replicate 8 x00) demo_inv1); [vm_compute; set_solver|vm_compute; split; done|
           vm_compute; reflexivity].
Defined.

(** [mempool_free] tests [is_free] before it takes the mutex.  Two threads
    that release the same block can both pass the test; running both critical
    sections then reports success twice and leaves the free list with a block that
    is its own successor, so that a later [mempool_check] never returns. *)
Theorem mempool_free_race w pool p s ptr :
  inv w pool p s → get_block_header ptr ∈ s.(a_used) →
  ∃ w1 w2,
    mempool_free_checks pool ptr w = Ret (None, w) ∧
    mempool_free_locked pool ptr w = Ret (MEMPOOL_OK, w1) ∧
    mempool_free_locked pool ptr w1 = Ret (MEMPOOL_OK, w2) ∧
    ∀ fuel, mempool_check fuel pool w2 = Fuel.
Proof.
  intros HI Hin.
  assert (Hmem : get_block_header ptr ∈ a_free s ++ a_used s) by set_solver.
  pose proof (free_checks_run _ _ _ _ _ _ HI Hmem) as Hc.
  rewrite bool_decide_eq_true_2 in Hc by done.
  set (a := get_block_header ptr) in *. destruct s as [F U]. cbn [a_free a_used] in *.
  apply list_elem_of_split in Hin as (l1 & l2 & ->).
  destruct (inv_member _ _ _ _ _ HI Hmem) as [_ [b Hb]].
  pose proof (free_run _ _ _ _ _ _ _ _ HI Hb) as Hr1.
  pose proof (free_inv _ _ _ _ _ _ _ _ HI Hb) as HI1.
  destruct (refree_run _ _ _ _ _ _ HI1) as (w2 & p2 & b2 & Hr2 & Hp2 & Hl2 & Hf2 & Hb2 & Hm2 & Hi2 & Hn2).
  unfold a in *. rewrite data_header in Hr1, Hr2.
  eexists _, w2. split_and!; [exact Hc|exact Hr1|exact Hr2|].
  intros fuel. unfold mempool_check. rewrite (proj2 (Z.eqb_neq _ _) (pi_nn _ _ _ _ _ HI)).
  erewrite (bind_Ret (lock_if pool)) by (by apply lock_if_ret).
  erewrite (bind_Ret (rd_pool pool)) by (apply rd_pool_ret, wp_lookup).
  rewrite lk_fl, Hf2. unfold mbind, C_bind.
  rewrite (check_list_loop (wp w2 pool (lk p2)) _ b2); try done.
  pose proof (block_pos _ _ _ _ _ HI Hmem). unfold NULL. lia.
Qed.

Lemma mempool_free_race_witness :
  ∃ w1 w2,
    mempool_free_checks 16 4128 demo_world1 = Ret (None, demo_world1) ∧
    mempool_free_locked 16 4128 demo_world1 = Ret (MEMPOOL_OK, w1) ∧
    mempool_free_locked 16 4128 w1 = Ret (MEMPOOL_OK, w2) ∧
    ∀ fuel, mempool_check fuel 16 w2 = Fuel.
Proof.
  apply (mempool_free_race demo_world1 16 demo_pool1 _ 4128 demo_inv1). vm_compute. set_solver.
Defined.

(** [mempool_create] multiplies block size and count in [size_t] without an
    overflow check: whenever the product does not fit in 64 bits and the
    allocations succeed, the initialisation writes a header outside the memory it
    obtained. *)
Theorem mempool_create_overflow w a_pool a_mem n count ts :
  a_pool ≠ NULL → a_mem ≠ NULL → 0 ≤ n → n + 48 < 2 ^ 64 → 0 < count →
  2 ^ 64 ≤ (bs_of n + BLOCK_HEADER_SIZE) * count →
  mempool_create a_pool a_mem n count ts w = UB.
Proof. rewrite BHS. apply create_overflow. Qed.

Lemma mempool_create_overflow_witness :
  mempool_create 16 4096 8 (2 ^ 61) 0 empty_world = UB.
Proof.
  apply (mempool_create_overflow empty_world 16 4096 8 (2 ^ 61) 0);
    [done|done|lia|lia|lia|vm_compute; done].
Defined.

End MemPoolSpec.
