(* ===== verification/KvDb.v ===== *)
(** * kv-database: the hash-table store and its file (kv-database/src/kvdb.c)

    Chained hash table, the database handle, the data file and the write-ahead
    log.  Strings are the bytes before the NUL; [malloc] draws its outcomes from
    a script so that every out-of-memory branch is expressible; the sign of a
    plain [char], which the C standard leaves to the implementation, is a
    parameter of the hash function. *)

From S2P Require Import Prelude.

Module KvDb.

(** ** Data *)

Definition KVDB_MAX_KEY_SIZE : Z := 256.
Definition KVDB_MAX_VALUE_SIZE : Z := 65536.
Definition KVDB_DEFAULT_CAPACITY : Z := 1024.

Inductive kvdb_err_t :=
  | KVDB_OK
  | KVDB_ERR_NOT_FOUND
  | KVDB_ERR_KEY_TOO_LONG
  | KVDB_ERR_VALUE_TOO_LONG
  | KVDB_ERR_DISK_FULL
  | KVDB_ERR_CORRUPTED
  | KVDB_ERR_LOCK
  | KVDB_ERR_READONLY
  | KVDB_ERR_OUT_OF_MEMORY.
#[global] Instance kvdb_err_eq_dec : EqDecision kvdb_err_t.
Proof. solve_decision. Defined.

Inductive kvdb_mode_t := KVDB_MODE_READWRITE | KVDB_MODE_READONLY | KVDB_MODE_CREATE.
#[global] Instance kvdb_mode_eq_dec : EqDecision kvdb_mode_t.
Proof. solve_decision. Defined.

(** The fields of [kvdb_config_t] the code reads. *)
Record kvdb_config_t := Config {
  db_path : list byte;
  mode : kvdb_mode_t;
  enable_wal : bool
}.

Record kv_node_t := Node {
  key : list byte;
  value : list byte;
  value_size : Z;
  created : Z;
  modified : Z
}.

(** [next] links are the order of the chain. *)
Record hashmap_t := HashMap {
  buckets : list (list kv_node_t);
  capacity : Z;
  size : Z;
  lock : rwlock
}.

Inductive wal_op_t := WAL_OP_SET | WAL_OP_DELETE | WAL_OP_COMMIT | WAL_OP_ROLLBACK.

Record kvdb_t := Kvdb {
  config : kvdb_config_t;
  hashmap : hashmap_t;
  data_file : bool;           (* an open FILE on [db_path], or NULL *)
  wal_file : bool;            (* an open FILE on [db_path].wal, or NULL *)
  cache_hits : Z;
  cache_misses : Z;
  read_ops : Z;
  write_ops : Z;
  created_at : Z;
  last_modified : Z;
  next_txn_id : Z
}.

(** The process: file contents, the paths that cannot be opened for writing,
    the outcomes of the next [malloc]s (all later ones succeed), the clock, and
    the database handle ([None] is NULL). *)
Record world := World {
  fs : gmap (list byte) (list byte);
  unwritable : gset (list byte);
  mallocs : list bool;
  now : Z;
  handle : option kvdb_t
}.

Definition set_handle (d : option kvdb_t) (w : world) : world :=
  World w.(fs) w.(unwritable) w.(mallocs) w.(now) d.
Definition set_fs (f : gmap (list byte) (list byte)) (w : world) : world :=
  World f w.(unwritable) w.(mallocs) w.(now) w.(handle).

(** [malloc]: whether the next allocation succeeds. *)
Definition malloc : C world bool := λ w,
  match w.(mallocs) with
  | [] => Ret (true, w)
  | b :: bs => Ret (b, World w.(fs) w.(unwritable) bs w.(now) w.(handle))
  end.

Section hash.
Context (char_val : byte → Z).   (* the value of a plain char *)

(** ** Hash table *)

Fixpoint hash_bytes (h : Z) (s : list byte) : Z :=
  match s with
  | [] => h
  | c :: s' => hash_bytes (u32 (u32 (u32 (Z.shiftl h 5) + h) + char_val c)) s'
  end.
Definition hash_string (s : list byte) : Z := hash_bytes 5381 s.

Definition hashmap_create (cap : Z) : C world (option hashmap_t) :=
  ok ← malloc;
  if (ok : bool) then
    ok2 ← malloc;
    if (ok2 : bool)
    then mret (Some (HashMap (replicate (Z.to_nat cap) []) cap 0 RwFree))
    else mret None
  else mret None.

Definition bucket_index (m : hashmap_t) (k : list byte) : nat :=
  Z.to_nat (hash_string k `mod` m.(capacity)).

Fixpoint chain_find (k : list byte) (c : list kv_node_t) : option kv_node_t :=
  match c with
  | [] => None
  | n :: c' => if decide (n.(key) = k) then Some n else chain_find k c'
  end.
Definition hashmap_find (m : hashmap_t) (k : list byte) : option kv_node_t :=
  chain_find k (default [] (m.(buckets) !! bucket_index m k)).

(** Assignments through the node pointer that [hashmap_find] returned. *)
Fixpoint chain_update (k : list byte) (f : kv_node_t → kv_node_t) (c : list kv_node_t)
    : list kv_node_t :=
  match c with
  | [] => []
  | n :: c' => if decide (n.(key) = k) then f n :: c' else n :: chain_update k f c'
  end.

Definition upd_bucket (m : hashmap_t) (i : nat) (c : list kv_node_t) (sz : Z) : hashmap_t :=
  HashMap (<[i := c]> m.(buckets)) m.(capacity) sz m.(lock).

(** [memcpy] of [n] bytes out of the caller's buffer. *)
Definition copy_in (v : list byte) (n : Z) : C world (list byte) :=
  if Z.of_nat (length v) <? n then c_ub else mret (take (Z.to_nat n) v).

(** [hashmap_insert]: the result code and the table; [v] is the caller's buffer
    and [vsize] the size it claims. *)
Definition hashmap_insert (m : hashmap_t) (k v : list byte) (vsize : Z)
    : C world (Z * hashmap_t) :=
  let i := bucket_index m k in
  match hashmap_find m k with
  | Some _ =>
      ok ← malloc;
      if negb ok then mret (-1, m) else
      stored ← copy_in v vsize;
      w ← c_get;
      mret (0, upd_bucket m i
                 (chain_update k (λ n, Node n.(key) stored vsize n.(created) w.(now))
                    (default [] (m.(buckets) !! i))) m.(size))
  | None =>
      ok1 ← malloc;
      if negb ok1 then mret (-1, m) else
      ok2 ← malloc;
      if negb ok2 then mret (-1, m) else
      ok3 ← malloc;
      if negb ok3 then mret (-1, m) else
      stored ← copy_in v vsize;
      w ← c_get;
      mret (0, upd_bucket m i
                 (Node k stored vsize w.(now) w.(now) :: default [] (m.(buckets) !! i))
                 (u64 (m.(size) + 1)))
  end.

Fixpoint chain_remove (k : list byte) (c : list kv_node_t) : option (list kv_node_t) :=
  match c with
  | [] => None
  | n :: c' => if decide (n.(key) = k) then Some c' else (n ::.) <$> chain_remove k c'
  end.
Definition hashmap_remove (m : hashmap_t) (k : list byte) : Z * hashmap_t :=
  let i := bucket_index m k in
  match chain_remove k (default [] (m.(buckets) !! i)) with
  | Some c => (0, upd_bucket m i c (u64 (m.(size) - 1)))
  | None => (-1, m)
  end.

(** ** Files *)

Inductive fmode := RB | RBp | WB | WBp | ABp.

(** [fopen]: whether it succeeds, and its effect on the file. *)
Definition fopen (path : list byte) (m : fmode) : C world bool := λ w,
  let ex := bool_decide (is_Some (w.(fs) !! path)) in
  let wr := negb (bool_decide (path ∈ w.(unwritable))) in
  match m with
  | RB => Ret (ex, w)
  | RBp => Ret (ex && wr, w)
  | WB | WBp => if wr then Ret (true, set_fs (<[path := []]> w.(fs)) w) else Ret (false, w)
  | ABp => if wr
           then Ret (true, set_fs (<[path := default [] (w.(fs) !! path)]> w.(fs)) w)
           else Ret (false, w)
  end.

Definition file (path : list byte) (w : world) : list byte := default [] (w.(fs) !! path).
Definition append (path bs : list byte) : C world unit :=
  c_mod (λ w, set_fs (<[path := file path w ++ bs]> w.(fs)) w).

(** [fread] of [n] bytes from the rest of a stream. *)
Definition fread (n : nat) (rest : list byte) : option (list byte * list byte) :=
  if decide (n ≤ length rest)%nat then Some (take n rest, drop n rest) else None.

(** The record loop of [kvdb_open] on the rest of the data file. *)
Fixpoint load (fuel : nat) (rest : list byte) (m : hashmap_t) : C world hashmap_t :=
  match fuel with
  | O => c_fuel
  | S fuel' =>
    match fread 4 rest with
    | None => mret m
    | Some (kl, rest) =>
      let key_len := le_combine kl in
      if KVDB_MAX_KEY_SIZE <? key_len then mret m else
      match fread (Z.to_nat key_len) rest with
      | None => mret m
      | Some (kb, rest) =>
        (* key[key_len] = 0 in a buffer of KVDB_MAX_KEY_SIZE bytes *)
        if KVDB_MAX_KEY_SIZE <=? key_len then c_ub else
        match fread 4 rest with
        | None => mret m
        | Some (vl, rest) =>
          let value_len := le_combine vl in
          if KVDB_MAX_VALUE_SIZE <? value_len then mret m else
          ok ← malloc;
          if negb ok then mret m else
          match fread (Z.to_nat value_len) rest with
          | None => mret m
          | Some (vb, rest) =>
            r ← hashmap_insert m (cstr kb) vb value_len;
            load fuel' rest r.2
          end
        end
      end
    end
  end.

Definition wal_path (p : list byte) : list byte := take 511 (p ++ str ".wal").

(** [kvdb_open]: whether a handle is returned. *)
Definition kvdb_open (cfg : kvdb_config_t) : C world bool :=
  ok ← malloc;
  if negb ok then mret false else
  hm ← hashmap_create KVDB_DEFAULT_CAPACITY;
  match hm with
  | None => mret false
  | Some m =>
    f ← fopen cfg.(db_path) (match cfg.(mode) with
                             | KVDB_MODE_CREATE => WBp
                             | KVDB_MODE_READONLY => RB
                             | KVDB_MODE_READWRITE => RBp
                             end);
    f ← (if negb f && negb (bool_decide (cfg.(mode) = KVDB_MODE_CREATE))
         then fopen cfg.(db_path) WBp else mret f);
    if negb f then mret false else
    wal ← (if cfg.(enable_wal) then fopen (wal_path cfg.(db_path)) ABp else mret false);
    w ← c_get;
    m ← (if bool_decide (cfg.(mode) = KVDB_MODE_CREATE) then mret m
         else let content := file cfg.(db_path) w in load (S (length content)) content m);
    c_mod (set_handle (Some (Kvdb cfg m true wal 0 0 0 0 w.(now) w.(now) 1)));;
    mret true
  end.

(** One record of the data file. *)
Definition encode_node (n : kv_node_t) : list byte :=
  let key_len := u32 (strlen n.(key)) in
  let value_len := u32 n.(value_size) in
  le_split 4 key_len ++ take (Z.to_nat key_len) n.(key) ++
  le_split 4 value_len ++ take (Z.to_nat value_len) n.(value).

Definition encode_buckets (bs : list (list kv_node_t)) : list byte :=
  mjoin (encode_node <$> mjoin bs).

Definition kvdb_close : C world unit :=
  w ← c_get;
  match w.(handle) with
  | None => mret tt
  | Some db =>
    if db.(data_file) && negb (bool_decide (db.(config).(mode) = KVDB_MODE_READONLY)) then
      f ← fopen db.(config).(db_path) WB;
      if negb f then c_mod (set_handle (Some (Kvdb db.(config) db.(hashmap) false db.(wal_file)
          db.(cache_hits) db.(cache_misses) db.(read_ops) db.(write_ops) db.(created_at)
          db.(last_modified) db.(next_txn_id))))
      else
        append db.(config).(db_path) (encode_buckets db.(hashmap).(buckets));;
        c_mod (set_handle None)
    else c_mod (set_handle None)
  end.

(** ** Operations on the handle *)

Definition rw_rdlock (m : hashmap_t) : C world hashmap_t :=
  match m.(lock) with
  | RwWrite => c_blocked
  | _ => mret (HashMap m.(buckets) m.(capacity) m.(size) RwRead)
  end.
Definition rw_wrlock (m : hashmap_t) : C world hashmap_t :=
  match m.(lock) with
  | RwFree => mret (HashMap m.(buckets) m.(capacity) m.(size) RwWrite)
  | _ => c_blocked
  end.
Definition rw_unlock (m : hashmap_t) : hashmap_t :=
  HashMap m.(buckets) m.(capacity) m.(size) RwFree.

Definition with_map (m : hashmap_t) (d : kvdb_t) : kvdb_t :=
  Kvdb d.(config) m d.(data_file) d.(wal_file) d.(cache_hits) d.(cache_misses) d.(read_ops)
    d.(write_ops) d.(created_at) d.(last_modified) d.(next_txn_id).
Definition miss (d : kvdb_t) : kvdb_t :=
  Kvdb d.(config) d.(hashmap) d.(data_file) d.(wal_file) d.(cache_hits)
    (u64 (d.(cache_misses) + 1)) d.(read_ops) d.(write_ops) d.(created_at) d.(last_modified)
    d.(next_txn_id).
Definition hit (d : kvdb_t) : kvdb_t :=
  Kvdb d.(config) d.(hashmap) d.(data_file) d.(wal_file) (u64 (d.(cache_hits) + 1))
    d.(cache_misses) (u64 (d.(read_ops) + 1)) d.(write_ops) d.(created_at) d.(last_modified)
    d.(next_txn_id).
Definition written (t : Z) (d : kvdb_t) : kvdb_t :=
  Kvdb d.(config) d.(hashmap) d.(data_file) d.(wal_file) d.(cache_hits) d.(cache_misses)
    d.(read_ops) (u64 (d.(write_ops) + 1)) d.(created_at) t d.(next_txn_id).
Definition touched (t : Z) (d : kvdb_t) : kvdb_t :=
  Kvdb d.(config) d.(hashmap) d.(data_file) d.(wal_file) d.(cache_hits) d.(cache_misses)
    d.(read_ops) d.(write_ops) d.(created_at) t d.(next_txn_id).

(** [kvdb_get]: [key] and [buf] may be NULL; the result carries the caller's
    buffer after the call and the reported size. *)
Definition kvdb_get (k : option (list byte)) (buf : option (list byte)) (value_size_arg : Z)
    : C world (kvdb_err_t * option (list byte) * option Z) :=
  w ← c_get;
  match w.(handle), k, buf with
  | Some db, Some k, Some b =>
    if KVDB_MAX_KEY_SIZE <? strlen k then mret (KVDB_ERR_KEY_TOO_LONG, Some b, None) else
    m ← rw_rdlock db.(hashmap);
    match hashmap_find m k with
    | None =>
        c_mod (set_handle (Some (miss (with_map (rw_unlock m) db))));;
        mret (KVDB_ERR_NOT_FOUND, Some b, None)
    | Some n =>
        let copy_size := if n.(value_size) <? value_size_arg
                         then n.(value_size) else value_size_arg in
        if (Z.of_nat (length b) <? copy_size) || (Z.of_nat (length n.(value)) <? copy_size)
        then c_ub else
        c_mod (set_handle (Some (hit (with_map (rw_unlock m) db))));;
        mret (KVDB_OK,
              Some (take (Z.to_nat copy_size) n.(value) ++ drop (Z.to_nat copy_size) b),
              Some n.(value_size))
    end
  | _, _, _ => mret (KVDB_ERR_CORRUPTED, buf, None)
  end.

Definition wal_op_code (o : wal_op_t) : Z :=
  match o with
  | WAL_OP_SET => 1 | WAL_OP_DELETE => 2 | WAL_OP_COMMIT => 3 | WAL_OP_ROLLBACK => 4
  end.

(** The bytes of a [wal_entry_t] with a NULL value pointer, LP64 layout. *)
Definition wal_entry (o : wal_op_t) (txn : Z) (k : list byte) (vsize : Z) : list byte :=
  le_split 4 (wal_op_code o) ++ le_split 4 txn ++ strncpy_zeroed 256 255 k ++
  le_split 8 0 ++ le_split 8 vsize.

Definition kvdb_set (k v : option (list byte)) (vsize : Z) : C world kvdb_err_t :=
  w ← c_get;
  match w.(handle), k, v with
  | Some db, Some k, Some v =>
    if KVDB_MAX_KEY_SIZE <? strlen k then mret KVDB_ERR_KEY_TOO_LONG else
    if KVDB_MAX_VALUE_SIZE <? vsize then mret KVDB_ERR_VALUE_TOO_LONG else
    if bool_decide (db.(config).(mode) = KVDB_MODE_READONLY) then mret KVDB_ERR_READONLY else
    m ← rw_wrlock db.(hashmap);
    r ← hashmap_insert m k v vsize;
    if negb (r.1 =? 0) then
      c_mod (set_handle (Some (with_map (rw_unlock r.2) db)));;
      mret KVDB_ERR_OUT_OF_MEMORY
    else
    (if db.(wal_file)
     then append (wal_path db.(config).(db_path))
            (wal_entry WAL_OP_SET 0 k vsize ++ take (Z.to_nat vsize) v)
     else mret tt);;
    c_mod (set_handle (Some (written w.(now) (with_map (rw_unlock r.2) db))));;
    mret KVDB_OK
  | _, _, _ => mret KVDB_ERR_CORRUPTED
  end.

Definition kvdb_delete (k : option (list byte)) : C world kvdb_err_t :=
  w ← c_get;
  match w.(handle), k with
  | Some db, Some k =>
    if KVDB_MAX_KEY_SIZE <? strlen k then mret KVDB_ERR_KEY_TOO_LONG else
    if bool_decide (db.(config).(mode) = KVDB_MODE_READONLY) then mret KVDB_ERR_READONLY else
    m ← rw_wrlock db.(hashmap);
    let r := hashmap_remove m k in
    if negb (r.1 =? 0) then
      c_mod (set_handle (Some (with_map (rw_unlock r.2) db)));;
      mret KVDB_ERR_NOT_FOUND
    else
    (if db.(wal_file)
     then append (wal_path db.(config).(db_path)) (wal_entry WAL_OP_DELETE 0 k 0)
     else mret tt);;
    c_mod (set_handle (Some (written w.(now) (with_map (rw_unlock r.2) db))));;
    mret KVDB_OK
  | _, _ => mret KVDB_ERR_CORRUPTED
  end.

Definition kvdb_exists (k : option (list byte)) : C world bool :=
  w ← c_get;
  match w.(handle), k with
  | Some db, Some k =>
    m ← rw_rdlock db.(hashmap);
    let ex := bool_decide (is_Some (hashmap_find m k)) in
    c_mod (set_handle (Some (with_map (rw_unlock m) db)));;
    mret ex
  | _, _ => mret false
  end.

Definition kvdb_count : C world Z :=
  w ← c_get;
  match w.(handle) with
  | Some db =>
    m ← rw_rdlock db.(hashmap);
    c_mod (set_handle (Some (with_map (rw_unlock m) db)));;
    mret m.(size)
  | None => mret 0
  end.

Definition kvdb_clear : C world kvdb_err_t :=
  w ← c_get;
  match w.(handle) with
  | Some db =>
    if bool_decide (db.(config).(mode) = KVDB_MODE_READONLY) then mret KVDB_ERR_READONLY else
    m ← rw_wrlock db.(hashmap);
    let m' := HashMap ((λ _, []) <$> m.(buckets)) m.(capacity) 0 m.(lock) in
    c_mod (set_handle (Some (touched w.(now) (with_map (rw_unlock m') db))));;
    mret KVDB_OK
  | None => mret KVDB_ERR_CORRUPTED
  end.

(** The output structure of [kvdb_stats]. *)
Record kvdb_stats_t := KStats {
  total_keys : Z; total_size : Z; file_size : Z; st_hits : Z; st_misses : Z;
  st_reads : Z; st_writes : Z; st_created : Z; st_modified : Z
}.
Definition kvdb_stats (null_out : bool) : C world (kvdb_err_t * option kvdb_stats_t) :=
  w ← c_get;
  match w.(handle), null_out with
  | Some db, false =>
    if negb db.(data_file) then c_ub else
    mret (KVDB_OK, Some (KStats db.(hashmap).(size) (u64 (db.(hashmap).(size) * 100))
      (Z.of_nat (length (file db.(config).(db_path) w))) db.(cache_hits) db.(cache_misses)
      db.(read_ops) db.(write_ops) db.(created_at) db.(last_modified)))
  | _, _ => mret (KVDB_ERR_CORRUPTED, None)
  end.

Definition err_code (e : kvdb_err_t) : Z :=
  match e with
  | KVDB_OK => 0 | KVDB_ERR_NOT_FOUND => 1 | KVDB_ERR_KEY_TOO_LONG => 2
  | KVDB_ERR_VALUE_TOO_LONG => 3 | KVDB_ERR_DISK_FULL => 4 | KVDB_ERR_CORRUPTED => 5
  | KVDB_ERR_LOCK => 6 | KVDB_ERR_READONLY => 7 | KVDB_ERR_OUT_OF_MEMORY => 8
  end.
Definition messages : list (list byte) :=
  [str "Success"; str "Key not found"; str "Key too long"; str "Value too long";
   str "Disk full"; str "Database corrupted"; str "Lock error"; str "Read-only database";
   str "Out of memory"].
Definition kvdb_strerror (err : Z) : list byte :=
  if (err <? 0) || (err_code KVDB_ERR_OUT_OF_MEMORY <? err) then str "Unknown error"
  else default [] (messages !! Z.to_nat err).

End hash.
End KvDb.
