(* ===== verification/KvDbSpec.v ===== *)
(** * kv-database: the store refines a finite map, and its properties *)

From S2P Require Import Prelude KvDb.
Import KvDb.

Module KvDbSpec.
Section spec.
Context (cv : byte → Z).   (* the value of a plain char *)

(** ** Chains *)

Lemma chain_find_key k c n : chain_find k c = Some n → n.(key) = k ∧ n ∈ c.
Proof.
  induction c as [|x c IH]; simpl; [done|]. case_decide; [intros [= <-]; set_solver|].
  intros [? ?]%IH. set_solver.
Qed.
Lemma chain_find_None k c : chain_find k c = None ↔ k ∉ key <$> c.
Proof.
  induction c as [|x c IH]; simpl; [set_solver|]. case_decide; subst; [set_solver|].
  rewrite IH. set_solver.
Qed.
Lemma chain_find_NoDup k c n :
  NoDup (key <$> c) → n ∈ c → n.(key) = k → chain_find k c = Some n.
Proof.
  induction c as [|x c IH]; simpl; [set_solver|].
  intros [Hx Hnd]%NoDup_cons [->|Hin]%elem_of_cons Hk; [by rewrite decide_True|].
  rewrite decide_False; [by apply IH|]. intros E. apply Hx.
  apply list_elem_of_fmap. exists n. split; congruence.
Qed.

Lemma chain_update_keys k f c : (∀ n, (f n).(key) = n.(key)) →
  key <$> chain_update k f c = key <$> c.
Proof.
  intros Hf. induction c as [|x c IH]; simpl; [done|].
  case_decide; simpl; f_equal; [apply Hf|exact IH].
Qed.
Lemma chain_update_find k k' f c : (∀ n, (f n).(key) = n.(key)) →
  chain_find k' (chain_update k f c) =
    if decide (k' = k) then f <$> chain_find k c else chain_find k' c.
Proof.
  intros Hf. induction c as [|x c IH]; simpl; [by case_decide|].
  destruct (decide (key x = k)) as [<-|Hne]; simpl.
  - rewrite Hf. repeat case_decide; subst; try done; congruence.
  - rewrite IH. repeat case_decide; subst; try done; congruence.
Qed.
Lemma chain_update_elem k f c n : n ∈ chain_update k f c → n ∈ c ∨ ∃ n0, n0 ∈ c ∧ n = f n0.
Proof.
  induction c as [|x c IH]; simpl; [set_solver|]. case_decide; set_solver.
Qed.

Lemma chain_remove_None k c : chain_remove k c = None ↔ chain_find k c = None.
Proof.
  induction c as [|x c IH]; simpl; [done|]. case_decide; [done|].
  by rewrite fmap_None, IH.
Qed.
Lemma chain_remove_Some k c c' :
  chain_remove k c = Some c' → ∃ l1 n l2, c = l1 ++ n :: l2 ∧ c' = l1 ++ l2 ∧ n.(key) = k ∧
  k ∉ key <$> l1.
Proof.
  revert c'. induction c as [|x c IH]; intros c'; simpl; [done|]. case_decide.
  - intros [= <-]. exists [], x, c. by set_solver.
  - intros (c0 & Hc & ->)%fmap_Some. destruct (IH _ Hc) as (l1 & n & l2 & -> & -> & Hk & Hl).
    exists (x :: l1), n, l2. split_and!; try done. simpl. set_solver.
Qed.
Lemma chain_find_app k c1 c2 :
  chain_find k (c1 ++ c2) = match chain_find k c1 with Some n => Some n | None => chain_find k c2 end.
Proof. induction c1 as [|x c1 IH]; simpl; [done|]. by case_decide. Qed.

(** ** The table represents a finite map *)

Record node_ok (n : kv_node_t) : Prop := {
  no_nonul : nonul n.(key);
  no_klen : strlen n.(key) ≤ KVDB_MAX_KEY_SIZE;
  no_vsize : n.(value_size) = Z.of_nat (length n.(value));
  no_vlen : n.(value_size) ≤ KVDB_MAX_VALUE_SIZE
}.

Record hm_ok (m : hashmap_t) : Prop := {
  ho_cap : 0 < m.(capacity);
  ho_len : length m.(buckets) = Z.to_nat m.(capacity);
  ho_chain : ∀ i c, m.(buckets) !! i = Some c →
    NoDup (key <$> c) ∧
    Forall (λ n, bucket_index cv m n.(key) = i ∧ node_ok n) c
}.

(** The table holds exactly the bindings of [g]. *)
Record hm_repr (m : hashmap_t) (g : gmap (list byte) (list byte)) : Prop := {
  hr_ok : hm_ok m;
  hr_find : ∀ k, value <$> hashmap_find cv m k = g !! k;
  hr_size : m.(size) = Z.of_nat (base.size g)
}.

Lemma bucket_index_lt m k : hm_ok m → (bucket_index cv m k < length m.(buckets))%nat.
Proof.
  intros []. unfold bucket_index. rewrite ho_len0.
  pose proof (Z.mod_pos_bound (hash_string cv k) (capacity m) ho_cap0). lia.
Qed.
Lemma bucket_lookup m k : hm_ok m → ∃ c, m.(buckets) !! bucket_index cv m k = Some c.
Proof. intros H. apply lookup_lt_is_Some, bucket_index_lt, H. Qed.

Lemma hm_find_node_ok m k n : hm_ok m → hashmap_find cv m k = Some n → n.(key) = k ∧ node_ok n.
Proof.
  intros Hok. destruct (bucket_lookup m k Hok) as [c Hc]. unfold hashmap_find. rewrite Hc. simpl.
  intros [Hk Hin]%chain_find_key. split; [done|].
  destruct Hok as [_ _ Hch]. destruct (Hch _ _ Hc) as [_ Hall].
  by apply (proj1 (Forall_forall _ _) Hall _ Hin).
Qed.

(** Replacing the chain of one bucket. *)
Lemma upd_bucket_index m i c sz k : bucket_index cv (upd_bucket m i c sz) k = bucket_index cv m k.
Proof. done. Qed.
Lemma upd_bucket_find m k c sz k' : hm_ok m →
  hashmap_find cv (upd_bucket m (bucket_index cv m k) c sz) k' =
    if decide (bucket_index cv m k' = bucket_index cv m k) then chain_find k' c
    else hashmap_find cv m k'.
Proof.
  intros Hok. unfold hashmap_find. rewrite upd_bucket_index. unfold upd_bucket. simpl.
  case_decide as E.
  - rewrite E, list_lookup_insert_eq by (by apply bucket_index_lt). done.
  - by rewrite list_lookup_insert_ne.
Qed.
Lemma upd_bucket_ok m k c sz : hm_ok m → NoDup (key <$> c) →
  Forall (λ n, bucket_index cv m n.(key) = bucket_index cv m k ∧ node_ok n) c →
  hm_ok (upd_bucket m (bucket_index cv m k) c sz).
Proof.
  intros Hok Hnd Hall. pose proof (bucket_index_lt m k Hok) as Hlt. destruct Hok as [Hc Hl Hch].
  split; simpl; [done|by rewrite length_insert|].
  intros i c' Hi. destruct (decide (i = bucket_index cv m k)) as [->|Hne].
  - rewrite list_lookup_insert_eq in Hi by done. injection Hi as <-. done.
  - rewrite list_lookup_insert_ne in Hi by done. by apply Hch.
Qed.

(** [hashmap_insert] with enough memory. *)
Definition no_oom (w : world) : Prop := w.(mallocs) = [].

Lemma malloc_ok w : no_oom w → malloc w = Ret (true, w).
Proof. unfold malloc. by intros ->. Qed.

Lemma insert_repr w m g k v vsize :
  no_oom w → hm_repr m g → nonul k → strlen k ≤ KVDB_MAX_KEY_SIZE →
  0 ≤ vsize ≤ KVDB_MAX_VALUE_SIZE → vsize ≤ Z.of_nat (length v) → m.(size) + 1 < 2 ^ 64 →
  ∃ m', hashmap_insert cv m k v vsize w = Ret ((0, m'), w) ∧
        hm_repr m' (<[k := take (Z.to_nat vsize) v]> g) ∧ m'.(lock) = m.(lock).
Proof.
  intros Hw [Hok Hfind Hsz] Hk Hkl Hv Hvl Hlt. unfold hashmap_insert.
  destruct (bucket_lookup m k Hok) as [c Hc]. rewrite Hc. cbn [from_option id].
  pose proof (ho_chain _ Hok _ _ Hc) as [Hnd Hall].
  set (sv := take (Z.to_nat vsize) v).
  assert (Hcopy : copy_in v vsize w = Ret (sv, w)).
  { unfold copy_in. by rewrite (proj2 (Z.ltb_ge _ _)) by lia. }
  assert (Hsv : Z.of_nat (length sv) = vsize) by (unfold sv; rewrite length_take; lia).
  destruct (hashmap_find cv m k) as [n|] eqn:Ef.
  - c_step (malloc_ok w Hw). simpl. c_step Hcopy. unfold c_get at 1, mbind, C_bind.
    eexists. split; [reflexivity|]. split; [|done].
    set (f := λ n0 : kv_node_t, Node (key n0) sv vsize (created n0) (now w)).
    assert (Hfk : ∀ n0, key (f n0) = key n0) by done.
    split.
    + apply upd_bucket_ok; [done|by rewrite chain_update_keys|].
      apply Forall_forall. intros x [Hx|(x0 & Hx & ->)]%chain_update_elem.
      * by apply (proj1 (Forall_forall _ _) Hall).
      * destruct (proj1 (Forall_forall _ _) Hall _ Hx) as [Hi [? ? _ _]].
        split; [done|]. split; simpl; try done; lia.
    + intros k'. rewrite upd_bucket_find, chain_update_find by done.
      pose proof (Hfind k') as Hf'. pose proof Ef as Ef'. unfold hashmap_find in Ef', Hf'.
      rewrite Hc in Ef'. simpl in Ef'.
      destruct (decide (k' = k)) as [->|Hne].
      * rewrite decide_True, Ef', lookup_insert_eq by done. done.
      * rewrite lookup_insert_ne by done. case_decide as E; [|apply Hfind].
        rewrite <- E in Hc. rewrite Hc in Hf'. exact Hf'.
    + simpl. rewrite Hsz, map_size_insert. pose proof (Hfind k) as Hg. rewrite Ef in Hg.
      simpl in Hg. by rewrite <- Hg.
  - do 3 (c_step (malloc_ok w Hw); simpl). c_step Hcopy. unfold c_get at 1, mbind, C_bind.
    assert (Hkc : k ∉ key <$> c).
    { apply chain_find_None. unfold hashmap_find in Ef. by rewrite Hc in Ef. }
    eexists. split; [reflexivity|]. split; [|done].
    split.
    + apply upd_bucket_ok; [done|by constructor|]. constructor; [|done].
      split; [done|]. split; simpl; try done; lia.
    + intros k'. rewrite upd_bucket_find by done. simpl.
      pose proof (Hfind k') as Hf'. unfold hashmap_find in Hf'.
      destruct (decide (k' = k)) as [->|Hne].
      * rewrite decide_True, decide_True, lookup_insert_eq by done. done.
      * rewrite lookup_insert_ne by done. case_decide as E; [|apply Hfind].
        rewrite decide_False by done. rewrite <- E in Hc. rewrite Hc in Hf'. exact Hf'.
    + simpl. rewrite map_size_insert_None, Hsz, u64_small by (try (by rewrite <- Hfind, Ef); lia).
      lia.
Qed.

Lemma remove_repr m g k :
  hm_repr m g → m.(size) < 2 ^ 64 →
  match g !! k with
  | Some _ => (hashmap_remove cv m k).1 = 0 ∧
              hm_repr (hashmap_remove cv m k).2 (delete k g)
  | None => hashmap_remove cv m k = (-1, m)
  end ∧ (hashmap_remove cv m k).2.(lock) = m.(lock).
Proof.
  intros [Hok Hfind Hsz] Hlt. unfold hashmap_remove.
  destruct (bucket_lookup m k Hok) as [c Hc]. rewrite Hc. cbn [from_option id].
  pose proof (ho_chain _ Hok _ _ Hc) as [Hnd Hall].
  pose proof (Hfind k) as Hk. unfold hashmap_find in Hk. rewrite Hc in Hk. simpl in Hk.
  destruct (chain_remove k c) as [c'|] eqn:Er.
  2: { apply chain_remove_None in Er. rewrite Er in Hk. by destruct (g !! k). }
  destruct (chain_remove_Some _ _ _ Er) as (l1 & n & l2 & -> & -> & Hnk & Hl1).
  rewrite chain_find_app, (proj2 (chain_find_None _ _) Hl1) in Hk. simpl in Hk.
  rewrite decide_True in Hk by done. simpl in Hk. rewrite <- Hk. split; [|done]. split; [done|].
  rewrite fmap_app, fmap_cons in Hnd. apply NoDup_app in Hnd as (Hn1 & Hdis & [Hn Hn2]%NoDup_cons).
  apply Forall_app in Hall as [Ha1 [_ Ha2]%Forall_cons]. rewrite Hnk in Hn.
  split.
  - apply upd_bucket_ok; [done| |by apply Forall_app]. rewrite fmap_app. apply NoDup_app.
    split_and!; [done| |done]. intros x Hx Hx2. apply (Hdis x Hx). set_solver.
  - intros k'. simpl snd. rewrite upd_bucket_find by done. pose proof (Hfind k') as Hf'.
    unfold hashmap_find in Hf'. destruct (decide (k' = k)) as [->|Hne].
    + rewrite decide_True, lookup_delete_eq by done. rewrite chain_find_app.
      rewrite (proj2 (chain_find_None _ _) Hl1), (proj2 (chain_find_None _ _) Hn). done.
    + rewrite lookup_delete_ne by done. case_decide as E; [|apply Hfind].
      rewrite <- E in Hc. rewrite Hc in Hf'. simpl in Hf'. rewrite <- Hf', !chain_find_app. simpl.
      by rewrite (decide_False (P := key n = k')) by congruence.
  - simpl. assert (Hg : is_Some (g !! k)) by (rewrite <- Hk; by eexists).
    rewrite map_size_delete_Some by done. pose proof (map_size_ne_0_lookup_2 g k Hg).
    rewrite Hsz, u64_small; lia.
Qed.

(** ** The handle represents a map *)

Definition is_ro (db : kvdb_t) : bool := bool_decide (db.(config).(mode) = KVDB_MODE_READONLY).

Record kv_inv (w : world) (db : kvdb_t) (g : gmap (list byte) (list byte)) : Prop := {
  ki_handle : w.(handle) = Some db;
  ki_repr : hm_repr db.(hashmap) g;
  ki_lock : db.(hashmap).(lock) = RwFree;
  ki_oom : no_oom w;
  ki_size : Z.of_nat (base.size g) + 1 < 2 ^ 64;
  ki_file : db.(data_file) = true;
  ki_wr : is_ro db = false → db.(config).(db_path) ∉ w.(unwritable)
}.

(** Changes of the handle the representation does not see. *)
Definition set_lk (l : rwlock) (m : hashmap_t) : hashmap_t :=
  HashMap m.(buckets) m.(capacity) m.(size) l.

Lemma repr_lock m g l : hm_repr m g ↔ hm_repr (set_lk l m) g.
Proof.
  split; intros [[Hc Hl Hch] Hf Hs]; split; try done; split; done.
Qed.

Lemma repr_unlock m g : hm_repr m g → hm_repr (rw_unlock m) g.
Proof. apply (repr_lock m g RwFree). Qed.

Lemma find_lock m k l : hashmap_find cv (set_lk l m) k = hashmap_find cv m k.
Proof. done. Qed.

Inductive kop :=
  | KSet (k v : list byte) (n : Z)
  | KGet (k buf : list byte) (n : Z)
  | KDel (k : list byte)
  | KExists (k : list byte)
  | KCount
  | KClear.

Inductive kreply :=
  | KErr (e : kvdb_err_t)
  | KGot (e : kvdb_err_t) (buf : list byte) (actual : option Z)
  | KBool (b : bool)
  | KNum (n : Z).

Definition krun_op (o : kop) : C world kreply :=
  match o with
  | KSet k v n => e ← kvdb_set cv (Some k) (Some v) n; mret (KErr e)
  | KGet k buf n => r ← kvdb_get cv (Some k) (Some buf) n;
                    mret (KGot r.1.1 (default [] r.1.2) r.2)
  | KDel k => e ← kvdb_delete cv (Some k); mret (KErr e)
  | KExists k => b ← kvdb_exists cv (Some k); mret (KBool b)
  | KCount => n ← kvdb_count; mret (KNum n)
  | KClear => e ← kvdb_clear; mret (KErr e)
  end.

(** The contract of the store on a finite map; [ro] is read-only mode. *)
Definition a_kop (ro : bool) (o : kop) (g : gmap (list byte) (list byte))
    : kreply * gmap (list byte) (list byte) :=
  match o with
  | KSet k v n =>
      if decide (KVDB_MAX_KEY_SIZE < strlen k) then (KErr KVDB_ERR_KEY_TOO_LONG, g)
      else if decide (KVDB_MAX_VALUE_SIZE < n) then (KErr KVDB_ERR_VALUE_TOO_LONG, g)
      else if ro then (KErr KVDB_ERR_READONLY, g)
      else (KErr KVDB_OK, <[k := take (Z.to_nat n) v]> g)
  | KGet k buf n =>
      if decide (KVDB_MAX_KEY_SIZE < strlen k) then (KGot KVDB_ERR_KEY_TOO_LONG buf None, g)
      else match g !! k with
           | None => (KGot KVDB_ERR_NOT_FOUND buf None, g)
           | Some v => let c := Nat.min (length v) (Z.to_nat n) in
                       (KGot KVDB_OK (take c v ++ drop c buf) (Some (Z.of_nat (length v))), g)
           end
  | KDel k =>
      if decide (KVDB_MAX_KEY_SIZE < strlen k) then (KErr KVDB_ERR_KEY_TOO_LONG, g)
      else if ro then (KErr KVDB_ERR_READONLY, g)
      else match g !! k with
           | None => (KErr KVDB_ERR_NOT_FOUND, g)
           | Some _ => (KErr KVDB_OK, delete k g)
           end
  | KExists k => (KBool (bool_decide (is_Some (g !! k))), g)
  | KCount => (KNum (Z.of_nat (base.size g)), g)
  | KClear => if ro then (KErr KVDB_ERR_READONLY, g) else (KErr KVDB_OK, ∅)
  end.

(** Callers pass NUL-free keys and buffers at least as long as they claim. *)
Definition kop_ok (o : kop) : Prop :=
  match o with
  | KSet k v n => nonul k ∧ 0 ≤ n ≤ Z.of_nat (length v)
  | KGet k buf n => 0 ≤ n ≤ Z.of_nat (length buf)
  | _ => True
  end.

Lemma append_run p bs w : append p bs w = Ret (tt, set_fs (<[p := file p w ++ bs]> w.(fs)) w).
Proof. done. Qed.

(** The WAL write never changes the handle. *)
Lemma wal_run (b : bool) p bs w :
  ∃ f, (if b then append p bs else mret tt) w = Ret (tt, set_fs f w).
Proof. destruct b; [by eexists|]. exists w.(fs). by destruct w. Qed.

Lemma set_run w db g k v n :
  kv_inv w db g → nonul k → 0 ≤ n ≤ Z.of_nat (length v) →
  Z.of_nat (base.size g) + 2 < 2 ^ 64 →
  ∃ w' db', kvdb_set cv (Some k) (Some v) n w =
      Ret (match (a_kop (is_ro db) (KSet k v n) g).1 with KErr e => e | _ => KVDB_OK end, w') ∧
    kv_inv w' db' (a_kop (is_ro db) (KSet k v n) g).2 ∧ db'.(config) = db.(config).
Proof.
  intros HI Hk Hn Hsz. pose proof HI as [Hh Hr Hl Ho Hs]. unfold kvdb_set.
  unfold c_get at 1, mbind at 1, C_bind at 1. rewrite Hh. simpl a_kop. unfold is_ro.
  destruct (Z.ltb_spec KVDB_MAX_KEY_SIZE (strlen k)).
  { rewrite decide_True by done. by exists w, db. }
  rewrite decide_False by lia. destruct (Z.ltb_spec KVDB_MAX_VALUE_SIZE n).
  { rewrite decide_True by done. by exists w, db. }
  rewrite decide_False by lia. case_bool_decide as Hro; [by exists w, db|].
  unfold rw_wrlock. rewrite Hl. erewrite bind_Ret by done.
  fold (set_lk RwWrite (hashmap db)).
  destruct (insert_repr w (set_lk RwWrite (hashmap db)) g k v n) as (m' & Hi & Hr' & Hl');
    try done; try lia. { by apply repr_lock. } { simpl. rewrite (hr_size _ _ Hr). lia. }
  c_step Hi. simpl.
  destruct (wal_run (wal_file db) (wal_path (db_path (config db)))
    (wal_entry WAL_OP_SET 0 k n ++ take (Z.to_nat n) v) w) as [f Hf].
  c_step Hf. eexists _, _. split; [reflexivity|]. split; [split; [reflexivity|..]|done]; simpl; try done.
  - by apply repr_unlock.
  - rewrite map_size_insert. destruct (g !! k); simpl; lia.
Qed.

Lemma del_run w db g k :
  kv_inv w db g →
  ∃ w' db', kvdb_delete cv (Some k) w =
      Ret (match (a_kop (is_ro db) (KDel k) g).1 with KErr e => e | _ => KVDB_OK end, w') ∧
    kv_inv w' db' (a_kop (is_ro db) (KDel k) g).2 ∧ db'.(config) = db.(config).
Proof.
  intros HI. pose proof HI as [Hh Hr Hl Ho Hs]. unfold kvdb_delete.
  unfold c_get at 1, mbind at 1, C_bind at 1. rewrite Hh. simpl a_kop. unfold is_ro.
  destruct (Z.ltb_spec KVDB_MAX_KEY_SIZE (strlen k)).
  { rewrite decide_True by done. by exists w, db. }
  rewrite decide_False by lia. case_bool_decide as Hro; [by exists w, db|].
  unfold rw_wrlock. rewrite Hl. erewrite bind_Ret by done.
  fold (set_lk RwWrite (hashmap db)).
  destruct (remove_repr (set_lk RwWrite (hashmap db)) g k) as [Hm Hlk].
  { by apply repr_lock. } { simpl. rewrite (hr_size _ _ Hr). lia. }
  destruct (g !! k) as [v|] eqn:Hg.
  - destruct Hm as [Hz Hr']. rewrite Hz. simpl.
    destruct (wal_run (wal_file db) (wal_path (db_path (config db)))
      (wal_entry WAL_OP_DELETE 0 k 0) w) as [f Hf].
    c_step Hf. eexists _, _. split; [reflexivity|]. split; [split; [reflexivity|..]|done]; simpl; try done.
    + by apply repr_unlock.
    + rewrite map_size_delete. destruct (g !! k); simpl; lia.
  - rewrite Hm. simpl. eexists _, _. split; [reflexivity|]. split; [split; [reflexivity|..]|done]; simpl; try done. exact (repr_unlock _ _ Hr).
Qed.

Lemma get_run w db g k buf n :
  kv_inv w db g → 0 ≤ n ≤ Z.of_nat (length buf) →
  ∃ r w' db', kvdb_get cv (Some k) (Some buf) n w = Ret (r, w') ∧
    KGot r.1.1 (default [] r.1.2) r.2 = (a_kop (is_ro db) (KGet k buf n) g).1 ∧
    kv_inv w' db' g ∧ db'.(config) = db.(config).
Proof.
  intros HI Hn. pose proof HI as [Hh Hr Hl Ho Hs]. unfold kvdb_get.
  unfold c_get at 1, mbind at 1, C_bind at 1. rewrite Hh. simpl a_kop.
  destruct (Z.ltb_spec KVDB_MAX_KEY_SIZE (strlen k)).
  { rewrite decide_True by done. by eexists _, w, db. }
  rewrite decide_False by lia. unfold rw_rdlock. rewrite Hl. erewrite bind_Ret by done.
  fold (set_lk RwRead (hashmap db)). rewrite find_lock.
  pose proof (hr_find _ _ Hr k) as Hf. destruct (hashmap_find cv (hashmap db) k) as [nd|] eqn:Ef;
    simpl in Hf; rewrite <- Hf.
  - destruct (hm_find_node_ok _ _ _ (hr_ok _ _ Hr) Ef) as [_ Hno].
    pose proof (no_vsize _ Hno) as Hvs.
    set (c := if value_size nd <? n then value_size nd else n).
    assert (Hc : c = Z.of_nat (Nat.min (length (value nd)) (Z.to_nat n))).
    { unfold c. case_match; lia. }
    rewrite (proj2 (Z.ltb_ge _ c)), (proj2 (Z.ltb_ge _ c)) by lia. simpl.
    eexists _, _, _. split; [reflexivity|]. rewrite Hvs, Hc, Nat2Z.id. split; [done|].
    split; [split; [reflexivity|..]|done]; simpl; try done. exact (repr_unlock _ _ Hr).
  - eexists _, _, _. split; [reflexivity|]. split; [done|].
    split; [split; [reflexivity|..]|done]; simpl; try done. exact (repr_unlock _ _ Hr).
Qed.

Lemma exists_run w db g k :
  kv_inv w db g →
  ∃ w' db', kvdb_exists cv (Some k) w = Ret (bool_decide (is_Some (g !! k)), w') ∧
    kv_inv w' db' g ∧ db'.(config) = db.(config).
Proof.
  intros HI. pose proof HI as [Hh Hr Hl Ho Hs]. unfold kvdb_exists.
  unfold c_get at 1, mbind at 1, C_bind at 1. rewrite Hh.
  unfold rw_rdlock. rewrite Hl. erewrite bind_Ret by done.
  fold (set_lk RwRead (hashmap db)). rewrite find_lock.
  eexists _, _. split.
  { rewrite <- (hr_find _ _ Hr k).
    rewrite (bool_decide_ext _ (is_Some (value <$> hashmap_find cv (hashmap db) k)))
      by (by rewrite fmap_is_Some). reflexivity. }
  split; [split; [reflexivity|..]|done]; simpl; try done. exact (repr_unlock _ _ Hr).
Qed.

Lemma count_run w db g :
  kv_inv w db g →
  ∃ w' db', kvdb_count w = Ret (Z.of_nat (base.size g), w') ∧
    kv_inv w' db' g ∧ db'.(config) = db.(config).
Proof.
  intros HI. pose proof HI as [Hh Hr Hl Ho Hs]. unfold kvdb_count.
  unfold c_get at 1, mbind at 1, C_bind at 1. rewrite Hh.
  unfold rw_rdlock. rewrite Hl. erewrite bind_Ret by done.
  eexists _, _. split; [rewrite <- (hr_size _ _ Hr); reflexivity|].
  split; [split; [reflexivity|..]|done]; simpl; try done. exact (repr_unlock _ _ Hr).
Qed.

Lemma empty_repr n cap l : 0 < cap → n = Z.to_nat cap →
  hm_repr (HashMap (replicate n []) cap 0 l) ∅.
Proof.
  intros Hc ->. split; [split; simpl; [done|by rewrite length_replicate|]| |done].
  - intros i c [-> _]%lookup_replicate. split; constructor.
  - intros k. rewrite lookup_empty. unfold hashmap_find. simpl.
    destruct (replicate _ _ !! _) as [c|] eqn:E; [|done].
    by apply lookup_replicate in E as [-> _].
Qed.

Lemma const_fmap {A B} (b : B) (l : list A) : (λ _, b) <$> l = replicate (length l) b.
Proof. induction l; simpl; by f_equal. Qed.

Lemma clear_run w db g :
  kv_inv w db g →
  ∃ w' db', kvdb_clear w =
      Ret (match (a_kop (is_ro db) KClear g).1 with KErr e => e | _ => KVDB_OK end, w') ∧
    kv_inv w' db' (a_kop (is_ro db) KClear g).2 ∧ db'.(config) = db.(config).
Proof.
  intros HI. pose proof HI as [Hh Hr Hl Ho Hs]. unfold kvdb_clear.
  unfold c_get at 1, mbind at 1, C_bind at 1. rewrite Hh. simpl a_kop. unfold is_ro.
  case_bool_decide as Hro; [by exists w, db|].
  unfold rw_wrlock. rewrite Hl. erewrite bind_Ret by done.
  eexists _, _. split; [reflexivity|].
  split; [split; [reflexivity|..]|done]; simpl; try done. apply repr_unlock.
  rewrite const_fmap. destruct (hr_ok _ _ Hr). by apply empty_repr.
Qed.

(** ** Runs *)

Lemma krun_op_refines w db g o :
  kv_inv w db g → kop_ok o → Z.of_nat (base.size g) + 2 < 2 ^ 64 →
  ∃ w' db', krun_op o w = Ret ((a_kop (is_ro db) o g).1, w') ∧
    kv_inv w' db' (a_kop (is_ro db) o g).2 ∧ db'.(config) = db.(config).
Proof.
  intros HI Hok Hs. destruct o as [k v n|k buf n|k|k| |]; simpl krun_op.
  - destruct Hok as [Hk Hn]. destruct (set_run w db g k v n HI Hk Hn Hs) as (w' & db' & E & ?).
    exists w', db'. split; [|done]. c_step E. simpl. by repeat case_match.
  - destruct (get_run w db g k buf n HI Hok) as (r & w' & db' & E & Hr & HI' & Hc).
    exists w', db'. split_and!; [|by simpl; repeat case_match|done]. c_step E. by rewrite <- Hr.
  - destruct (del_run w db g k HI) as (w' & db' & E & ?).
    exists w', db'. split; [|done]. c_step E. simpl. by repeat case_match.
  - destruct (exists_run w db g k HI) as (w' & db' & E & ?).
    exists w', db'. split; [|done]. by c_step E.
  - destruct (count_run w db g HI) as (w' & db' & E & ?).
    exists w', db'. split; [|done]. by c_step E.
  - destruct (clear_run w db g HI) as (w' & db' & E & ?).
    exists w', db'. split; [|done]. c_step E. simpl. by repeat case_match.
Qed.

Fixpoint krun (os : list kop) : C world (list kreply) :=
  match os with
  | [] => mret []
  | o :: os' => r ← krun_op o; rs ← krun os'; mret (r :: rs)
  end.
Fixpoint a_krun (ro : bool) (os : list kop) (g : gmap (list byte) (list byte))
    : list kreply * gmap (list byte) (list byte) :=
  match os with
  | [] => ([], g)
  | o :: os' => let (r, g1) := a_kop ro o g in
                let (rs, g2) := a_krun ro os' g1 in (r :: rs, g2)
  end.

Lemma a_kop_size ro o g :
  (base.size (a_kop ro o g).2 ≤ S (base.size g))%nat.
Proof.
  destruct o as [k v n|k buf n|k|k| |]; simpl; try lia.
  - repeat case_match; simpl; try lia. rewrite map_size_insert. destruct (g !! k); simpl; lia.
  - repeat case_match; simpl; lia.
  - repeat case_match; simpl; try lia. rewrite map_size_delete. destruct (g !! k); simpl; lia.
  - destruct ro; simpl; [lia|]. rewrite map_size_empty. lia.
Qed.

Lemma a_krun_size ro os : ∀ g,
  (base.size (a_krun ro os g).2 ≤ base.size g + length os)%nat.
Proof.
  induction os as [|o os IH]; intros g; simpl; [lia|].
  pose proof (a_kop_size ro o g). destruct (a_kop ro o g) as [r g1]. simpl in *.
  specialize (IH g1). destruct (a_krun ro os g1). simpl in *. lia.
Qed.

Lemma krun_refines os : ∀ w db g,
  kv_inv w db g → Forall kop_ok os →
  Z.of_nat (base.size g) + Z.of_nat (length os) + 1 < 2 ^ 64 →
  ∃ w' db', krun os w = Ret ((a_krun (is_ro db) os g).1, w') ∧
    kv_inv w' db' (a_krun (is_ro db) os g).2 ∧ db'.(config) = db.(config).
Proof.
  induction os as [|o os IH]; intros w db g HI Hall Hs; simpl krun.
  { by exists w, db. }
  apply Forall_cons in Hall as [Ho Hall]. simpl length in Hs.
  destruct (krun_op_refines w db g o HI Ho) as (w1 & db1 & E & HI1 & Hc1); [lia|].
  pose proof (a_kop_size (is_ro db) o g).
  destruct (IH w1 db1 _ HI1 Hall) as (w2 & db2 & E2 & HI2 & Hc2); [lia|].
  exists w2, db2. assert (Hro : is_ro db1 = is_ro db) by (unfold is_ro; by rewrite Hc1).
  rewrite Hro in E2, HI2.
  c_step E. c_step E2. simpl. destruct (a_kop (is_ro db) o g) as [r g1]. simpl in *.
  destruct (a_krun (is_ro db) os g1) as [rs g2]. simpl in *. split_and!; try done. congruence.
Qed.

(** ** Opening, closing and the file format *)

Lemma fread_app n bs rest : length bs = n → fread n (bs ++ rest) = Some (bs, rest).
Proof.
  intros <-. unfold fread. rewrite decide_True by (rewrite length_app; lia).
  by rewrite take_app_length, drop_app_length.
Qed.

Lemma hashmap_create_run w cap : no_oom w →
  hashmap_create cap w = Ret (Some (HashMap (replicate (Z.to_nat cap) []) cap 0 RwFree), w).
Proof. intros Hw. unfold hashmap_create. c_step (malloc_ok w Hw). by c_step (malloc_ok w Hw). Qed.

Lemma encode_node_eq n : node_ok n →
  encode_node n = le_split 4 (strlen n.(key)) ++ n.(key) ++
                  le_split 4 n.(value_size) ++ n.(value).
Proof.
  intros [_ Hk Hv Hvl]. unfold KVDB_MAX_KEY_SIZE, KVDB_MAX_VALUE_SIZE, encode_node in *.
  unfold strlen in *.
  rewrite !u32_small by lia. rewrite Hv, !Nat2Z.id, !take_ge by lia. done.
Qed.

Lemma le_word z : 0 ≤ z < 2 ^ 32 → le_combine (le_split 4 z) = z.
Proof. intros. rewrite le_combine_split. apply Z.mod_small. simpl. lia. Qed.

(** The records of stored nodes load back, whatever follows them. *)
Lemma load_nodes ns : ∀ w m g f rest,
  no_oom w → hm_repr m g → Forall (λ n, node_ok n ∧ strlen n.(key) < KVDB_MAX_KEY_SIZE) ns →
  Z.of_nat (base.size g) + Z.of_nat (length ns) + 1 < 2 ^ 64 →
  ∃ m', load cv (length ns + f) (mjoin (encode_node <$> ns) ++ rest) m w = load cv f rest m' w ∧
        hm_repr m' (foldl (λ g n, <[n.(key) := n.(value)]> g) g ns) ∧ m'.(lock) = m.(lock).
Proof.
  induction ns as [|n ns IH]; intros w m g f rest Hw Hr Hall Hs; [by exists m|].
  apply Forall_cons in Hall as [[Hn Hk] Hall]. simpl in Hs.
  pose proof Hn as [Hnn Hkl Hv Hvl].
  change (mjoin (encode_node <$> n :: ns)) with (encode_node n ++ mjoin (encode_node <$> ns)).
  rewrite encode_node_eq, <- !(assoc_L (++)) by done.
  change (length (n :: ns) + f)%nat with (S (length ns + f)). cbn [load].
  unfold KVDB_MAX_KEY_SIZE, KVDB_MAX_VALUE_SIZE, strlen in *.
  rewrite fread_app by apply length_le_split. rewrite le_word by lia.
  rewrite (proj2 (Z.ltb_ge _ _)) by lia. rewrite Nat2Z.id, fread_app by done.
  rewrite (proj2 (Z.leb_gt _ _)) by lia.
  rewrite fread_app by apply length_le_split. rewrite le_word by lia.
  rewrite (proj2 (Z.ltb_ge _ _)) by lia. c_step (malloc_ok w Hw). cbn [negb].
  rewrite fread_app by lia.
  rewrite cstr_id by done.
  destruct (insert_repr w m g (key n) (value n) (value_size n)) as (m1 & Hi & Hr1 & Hl1);
    try done; try lia.
  { unfold KVDB_MAX_VALUE_SIZE. lia. } { rewrite (hr_size _ _ Hr). lia. }
  c_step Hi. simpl. rewrite take_ge in Hr1 by lia.
  destruct (IH w m1 _ f rest Hw Hr1 Hall) as (m2 & HE & Hr2 & Hl2).
  { rewrite map_size_insert. destruct (g !! key n); simpl; lia. }
  exists m2. split_and!; [done|done|congruence].
Qed.

Lemma foldl_lookup ns : ∀ (g : gmap (list byte) (list byte)) k, NoDup (key <$> ns) →
  foldl (λ g n, <[n.(key) := n.(value)]> g) g ns !! k =
    match chain_find k ns with Some n => Some n.(value) | None => g !! k end.
Proof.
  induction ns as [|n ns IH]; intros g k; simpl; [done|].
  intros [Hn Hnd]%NoDup_cons. rewrite IH by done. case_decide; subst.
  - rewrite (proj2 (chain_find_None _ _) Hn). by rewrite lookup_insert_eq.
  - by rewrite lookup_insert_ne.
Qed.

Lemma mjoin_keys_NoDup (f : list byte → nat) bs : ∀ j,
  (∀ i c, bs !! i = Some c →
     NoDup (key <$> c) ∧ Forall (λ n, f n.(key) = (j + i)%nat) c) →
  NoDup (key <$> mjoin bs).
Proof.
  induction bs as [|c bs IH]; intros j H; simpl; [constructor|].
  rewrite fmap_app. apply NoDup_app. split_and!.
  - by apply (H 0%nat c).
  - intros k (n & -> & Hn)%list_elem_of_fmap (n' & Hkk & Hn')%list_elem_of_fmap.
    destruct (H 0%nat c eq_refl) as [_ H0]. rewrite Forall_forall in H0. pose proof (H0 _ Hn) as Hj0.
    apply list_elem_of_join in Hn' as (c' & Hnc & Hc').
    apply list_elem_of_lookup in Hc' as [i Hi].
    destruct (H (S i) c' Hi) as [_ H1]. rewrite Forall_forall in H1. pose proof (H1 _ Hnc).
    rewrite Hkk in *. lia.
  - apply (IH (S j)). intros i c' Hi. destruct (H (S i) c' Hi) as [? H1].
    split; [done|]. eapply Forall_impl; [exact H1|]. simpl. intros. lia.
Qed.

Lemma nodes_find m k : hm_ok m →
  chain_find k (mjoin m.(buckets)) = hashmap_find cv m k.
Proof.
  intros Hok. destruct (bucket_lookup m k Hok) as [c Hc]. pose proof Hok as [_ _ Hch].
  assert (Hnd : NoDup (key <$> mjoin (buckets m))).
  { apply (mjoin_keys_NoDup (bucket_index cv m) _ 0). intros i c' Hi.
    destruct (Hch i c' Hi) as [? H1]. split; [done|]. eapply Forall_impl; [exact H1|]. by intros ? []. }
  unfold hashmap_find. rewrite Hc. simpl. destruct (chain_find k c) as [n|] eqn:E.
  - apply chain_find_key in E as [Hk Hn]. apply chain_find_NoDup; [done| |done].
    apply list_elem_of_join. exists c. split; [done|]. by eapply list_elem_of_lookup_2.
  - apply chain_find_None. apply chain_find_None in E. intros (n & -> & Hn)%list_elem_of_fmap.
    apply list_elem_of_join in Hn as (c' & Hnc & [i Hi]%list_elem_of_lookup).
    destruct (Hch i c' Hi) as [_ H1]. rewrite Forall_forall in H1.
    destruct (H1 n Hnc) as [Hb _]. apply E. apply list_elem_of_fmap. exists n. split; [done|].
    rewrite Hb in Hc. congruence.
Qed.

Lemma nodes_NoDup m : hm_ok m → NoDup (key <$> mjoin m.(buckets)).
Proof.
  intros [_ _ Hch]. apply (mjoin_keys_NoDup (bucket_index cv m) _ 0). intros i c' Hi.
  destruct (Hch i c' Hi) as [? H1]. split; [done|]. eapply Forall_impl; [exact H1|]. by intros ? [].
Qed.

Lemma nodes_ok m g n : hm_repr m g → n ∈ mjoin m.(buckets) → node_ok n ∧ is_Some (g !! n.(key)).
Proof.
  intros [Hok Hf _] Hn. pose proof (nodes_find m (key n) Hok) as E.
  rewrite (chain_find_NoDup _ _ n (nodes_NoDup m Hok) Hn eq_refl) in E. symmetry in E.
  split; [by apply (hm_find_node_ok m _ _ Hok E)|].
  rewrite <- Hf, E. by eexists.
Qed.

Lemma foldl_nodes m g : hm_repr m g →
  foldl (λ g n, <[n.(key) := n.(value)]> g) ∅ (mjoin m.(buckets)) = g.
Proof.
  intros [Hok Hf _]. apply map_eq. intros k. rewrite foldl_lookup by (by apply nodes_NoDup).
  rewrite nodes_find by done. rewrite <- Hf. by destruct (hashmap_find cv m k).
Qed.

Lemma foldl_size ns : ∀ (g : gmap (list byte) (list byte)),
  NoDup (key <$> ns) → Forall (λ n, g !! n.(key) = None) ns →
  base.size (foldl (λ g n, <[n.(key) := n.(value)]> g) g ns) = (base.size g + length ns)%nat.
Proof.
  induction ns as [|n ns IH]; intros g; simpl; [lia|].
  intros [Hn Hnd]%NoDup_cons [Hg Hall]%Forall_cons. rewrite IH; [|done|].
  - rewrite map_size_insert_None by done. lia.
  - rewrite Forall_forall in *. intros x Hx. rewrite lookup_insert_ne; [by apply Hall|].
    intros E. apply Hn. rewrite E. by apply list_elem_of_fmap_2.
Qed.
Lemma nodes_length m g : hm_repr m g → length (mjoin m.(buckets)) = base.size g.
Proof.
  intros Hr. rewrite <- (foldl_nodes m g Hr). rewrite foldl_size.
  - by rewrite map_size_empty.
  - apply nodes_NoDup, Hr.
  - apply Forall_forall. intros. apply lookup_empty.
Qed.

Lemma encode_length ns : Forall node_ok ns →
  (length ns ≤ length (mjoin (encode_node <$> ns)))%nat.
Proof.
  induction 1 as [|n ns Hn _ IH]; [done|].
  change (mjoin (encode_node <$> n :: ns)) with (encode_node n ++ mjoin (encode_node <$> ns)).
  rewrite encode_node_eq, !length_app, !length_le_split by done. simpl. lia.
Qed.

Lemma close_run w db g : kv_inv w db g → is_ro db = false →
  kvdb_close w = Ret (tt, set_handle None (set_fs
    (<[db.(config).(db_path) := encode_buckets db.(hashmap).(buckets)]> w.(fs)) w)).
Proof.
  intros [Hh Hr Hl Ho Hs Hf Hu] Hro. specialize (Hu Hro). unfold kvdb_close. erewrite bind_Ret by done.
  rewrite Hh, Hf. unfold is_ro in Hro. rewrite Hro. cbn [andb negb].
  assert (Hopen : fopen (db_path (config db)) WB w =
    Ret (true, set_fs (<[db_path (config db) := []]> (fs w)) w)).
  { unfold fopen. by rewrite (bool_decide_eq_false_2 (_ ∈ _)) by done. }
  c_step Hopen. cbn [negb]. c_step (append_run (db_path (config db))
    (encode_buckets (buckets (hashmap db)))
    (set_fs (<[db_path (config db) := []]> (fs w)) w)).
  unfold c_mod, set_handle, set_fs, file. simpl. rewrite lookup_insert_eq. simpl.
  by rewrite insert_insert_eq.
Qed.

(** What [kvdb_open] does on an existing file. *)
Lemma open_existing w cfg content :
  no_oom w → w.(fs) !! cfg.(db_path) = Some content → cfg.(mode) ≠ KVDB_MODE_CREATE →
  (cfg.(mode) = KVDB_MODE_READWRITE → cfg.(db_path) ∉ w.(unwritable)) →
  ∃ w1 b, no_oom w1 ∧ w1.(unwritable) = w.(unwritable) ∧
    kvdb_open cv cfg w =
      (m ← load cv (S (length content)) content
             (HashMap (replicate (Z.to_nat KVDB_DEFAULT_CAPACITY) []) KVDB_DEFAULT_CAPACITY 0 RwFree);
       c_mod (set_handle (Some (Kvdb cfg m true b 0 0 0 0 w.(now) w.(now) 1)));; mret true) w1.
Proof.
  intros Hw Hc Hm Hu. unfold kvdb_open. c_step (malloc_ok w Hw). cbn [negb].
  c_step (hashmap_create_run w KVDB_DEFAULT_CAPACITY Hw).
  assert (Hopen : fopen cfg.(db_path) (match cfg.(mode) with
      | KVDB_MODE_CREATE => WBp | KVDB_MODE_READONLY => RB | KVDB_MODE_READWRITE => RBp end) w
      = Ret (true, w)).
  { unfold fopen. rewrite bool_decide_eq_true_2 by (rewrite Hc; by eexists).
    destruct (mode cfg); [|done|done]. by rewrite bool_decide_eq_false_2 by auto. }
  c_step Hopen. cbn [negb andb]. erewrite bind_Ret by done. cbn [negb].
  assert (∃ b w1, (if enable_wal cfg then fopen (wal_path (db_path cfg)) ABp else mret false) w =
    Ret (b, w1) ∧ no_oom w1 ∧ file (db_path cfg) w1 = content ∧ now w1 = now w ∧
    w1.(unwritable) = w.(unwritable)) as (b & w1 & Hwal & Hw1 & Hf1 & Hn1 & Hu1).
  { unfold file. destruct (enable_wal cfg); [|exists false, w; by rewrite Hc].
    unfold fopen. case_bool_decide; simpl; [exists false, w; by rewrite Hc|].
    eexists _, _. split; [done|]. split; [done|]. simpl. split; [|done].
    destruct (decide (wal_path (db_path cfg) = db_path cfg)) as [->|].
    - rewrite lookup_insert_eq, Hc. done.
    - rewrite lookup_insert_ne, Hc by done. done. }
  exists w1, b. split; [done|]. split; [done|]. c_step Hwal. erewrite bind_Ret by done.
  rewrite bool_decide_eq_false_2 by done. rewrite Hf1, Hn1. done.
Qed.

Lemma reopen_load w db g cfg : kv_inv w db g → is_ro db = false →
  cfg.(db_path) = db.(config).(db_path) → cfg.(mode) ≠ KVDB_MODE_CREATE →
  ∃ w1 b, no_oom w1 ∧ w1.(unwritable) = w.(unwritable) ∧
    (kvdb_close;; kvdb_open cv cfg) w =
      (m ← load cv (S (length (encode_buckets db.(hashmap).(buckets))))
             (encode_buckets db.(hashmap).(buckets))
             (HashMap (replicate (Z.to_nat KVDB_DEFAULT_CAPACITY) []) KVDB_DEFAULT_CAPACITY 0 RwFree);
       c_mod (set_handle (Some (Kvdb cfg m true b 0 0 0 0 w.(now) w.(now) 1)));; mret true) w1.
Proof.
  intros HI Hro Hp Hm. c_step (close_run w db g HI Hro). pose proof (ki_wr _ _ _ HI Hro) as Hu.
  apply (open_existing (set_handle None (set_fs (<[db.(config).(db_path) :=
    encode_buckets db.(hashmap).(buckets)]> w.(fs)) w))); try done.
  - exact (ki_oom _ _ _ HI).
  - simpl. by rewrite Hp, lookup_insert_eq.
  - simpl. intros _. by rewrite Hp.
Qed.

Lemma load_end f m w : load cv (S f) [] m w = Ret (m, w).
Proof. done. Qed.

Lemma reopen_keeps w db g cfg : kv_inv w db g → is_ro db = false →
  (∀ k, is_Some (g !! k) → strlen k < KVDB_MAX_KEY_SIZE) →
  cfg.(db_path) = db.(config).(db_path) → cfg.(mode) ≠ KVDB_MODE_CREATE →
  ∃ w' db', (kvdb_close;; kvdb_open cv cfg) w = Ret (true, w') ∧
    kv_inv w' db' g ∧ db'.(config) = cfg.
Proof.
  intros HI Hro Hk Hp Hm. destruct (reopen_load w db g cfg HI Hro Hp Hm) as (w1 & b & Hw1 & Hu1 & ->).
  pose proof (ki_repr _ _ _ HI) as Hr. set (ns := mjoin (buckets (hashmap db))).
  assert (Hns : Forall (λ n, node_ok n ∧ strlen n.(key) < KVDB_MAX_KEY_SIZE) ns).
  { apply Forall_forall. intros n Hn. destruct (nodes_ok _ _ n Hr Hn) as [? ?].
    split; [done|]. by apply Hk. }
  pose proof (encode_length ns) as Hlen.
  unfold encode_buckets. fold ns. set (bytes := mjoin (encode_node <$> ns)) in *.
  assert (Hge : (length ns ≤ length bytes)%nat).
  { apply Hlen. eapply Forall_impl; [exact Hns|]. by intros ? []. }
  destruct (load_nodes ns w1 (HashMap (replicate (Z.to_nat KVDB_DEFAULT_CAPACITY) [])
    KVDB_DEFAULT_CAPACITY 0 RwFree) ∅ (S (length bytes - length ns)) [] Hw1) as (m' & HE & Hr' & Hl').
  { by apply empty_repr. } { done. }
  { rewrite map_size_empty. unfold ns. rewrite (nodes_length _ _ Hr).
    pose proof (ki_size _ _ _ HI). lia. }
  replace (length ns + S (length bytes - length ns))%nat with (S (length bytes)) in HE by lia.
  rewrite app_nil_r in HE. fold bytes in HE. rewrite load_end in HE.
  c_step HE. eexists _, _. split; [reflexivity|].
  split; [split; [reflexivity|..]|done]; simpl; try done.
  - unfold ns in Hr'. by rewrite (foldl_nodes _ _ Hr) in Hr'.
  - exact (ki_size _ _ _ HI).
  - intros _. rewrite Hu1, Hp. by apply (ki_wr _ _ _ HI).
Qed.

(** A stored key of the full 256 bytes makes the next load write past [key]. *)
Lemma nodes_split (ns : list kv_node_t) n : n ∈ ns → strlen n.(key) = KVDB_MAX_KEY_SIZE →
  Forall node_ok ns →
  ∃ l1 x l2, ns = l1 ++ x :: l2 ∧ strlen x.(key) = KVDB_MAX_KEY_SIZE ∧
    Forall (λ n, node_ok n ∧ strlen n.(key) < KVDB_MAX_KEY_SIZE) l1.
Proof.
  intros Hn Hk Hall. induction Hall as [|x ns Hx Hall IH]; [set_solver|].
  destruct (decide (strlen (key x) = KVDB_MAX_KEY_SIZE)) as [E|E]; [by exists [], x, ns|].
  apply elem_of_cons in Hn as [->|Hn]; [done|].
  destruct (IH Hn) as (l1 & y & l2 & -> & Hy & Hl1). exists (x :: l1), y, l2.
  split_and!; [done|done|]. constructor; [|done]. split; [done|].
  pose proof (no_klen _ Hx). lia.
Qed.

Lemma load_max_key f n rest m w : node_ok n → strlen n.(key) = KVDB_MAX_KEY_SIZE →
  load cv (S f) (encode_node n ++ rest) m w = UB.
Proof.
  intros Hn Hk. rewrite encode_node_eq, <- !(assoc_L (++)) by done. cbn [load].
  rewrite fread_app by apply length_le_split. unfold KVDB_MAX_KEY_SIZE, strlen in *.
  rewrite le_word by lia. rewrite (proj2 (Z.ltb_ge _ _)) by lia.
  rewrite Nat2Z.id, fread_app by done. by rewrite (proj2 (Z.leb_le _ _)) by lia.
Qed.

Lemma reopen_max_key w db g cfg k : kv_inv w db g → is_ro db = false →
  is_Some (g !! k) → strlen k = KVDB_MAX_KEY_SIZE →
  cfg.(db_path) = db.(config).(db_path) → cfg.(mode) ≠ KVDB_MODE_CREATE →
  (kvdb_close;; kvdb_open cv cfg) w = UB.
Proof.
  intros HI Hro [v Hg] Hk Hp Hm.
  destruct (reopen_load w db g cfg HI Hro Hp Hm) as (w1 & b & Hw1 & Hu1 & ->).
  pose proof (ki_repr _ _ _ HI) as Hr. unfold encode_buckets. set (ns := mjoin (buckets (hashmap db))).
  assert (Hall : Forall node_ok ns).
  { apply Forall_forall. intros n Hn. by apply (nodes_ok _ _ n Hr Hn). }
  assert (∃ n, n ∈ ns ∧ key n = k) as (n & Hn & Hnk).
  { pose proof (hr_find _ _ Hr k) as Hf. rewrite Hg, <- nodes_find in Hf by apply Hr.
    apply fmap_Some in Hf as (n & [? ?]%chain_find_key & _). by exists n. }
  rewrite <- Hnk in Hk. destruct (nodes_split ns n Hn Hk Hall) as (l1 & x & l2 & Hns & Hx & Hl1).
  pose proof (encode_length ns Hall) as Hlen. pose proof (nodes_length _ _ Hr) as Hsz.
  fold ns in Hsz. rewrite Hns in *. apply Forall_app in Hall as [_ [Hxo _]%Forall_cons].
  rewrite length_app in Hsz, Hlen. simpl length in Hsz, Hlen at 1.
  set (tot := length (mjoin (encode_node <$> l1 ++ x :: l2))) in *.
  destruct (load_nodes l1 w1 (HashMap (replicate (Z.to_nat KVDB_DEFAULT_CAPACITY) [])
    KVDB_DEFAULT_CAPACITY 0 RwFree) ∅ (S (tot - length l1))
    (encode_node x ++ mjoin (encode_node <$> l2)) Hw1) as (m' & HE & _ & _).
  { by apply empty_repr. } { done. }
  { rewrite map_size_empty. pose proof (ki_size _ _ _ HI). lia. }
  rewrite load_max_key in HE by done.
  replace (length l1 + S (tot - length l1))%nat with (S tot) in HE by lia.
  assert (Hb : mjoin (encode_node <$> l1 ++ x :: l2) = mjoin (encode_node <$> l1) ++
    encode_node x ++ mjoin (encode_node <$> l2)) by (rewrite fmap_app, join_app; done).
  rewrite Hb. unfold mbind, C_bind. by rewrite HE.
Qed.

(** ** Arbitrary files *)

Lemma fread_Some n r a b : fread n r = Some (a, b) → r = a ++ b ∧ length a = n.
Proof.
  unfold fread. case_decide; [|done]. intros [= <- <-].
  split; [by rewrite take_drop|rewrite length_take; lia].
Qed.

Lemma cstr_length l : (length (cstr l) ≤ length l)%nat.
Proof. induction l; simpl; [lia|]. case_decide; simpl; lia. Qed.

(** ** Any file *)

(** A record that fits, as bytes: the lengths are 32-bit little-endian words. *)
Definition record (r : list byte * list byte) : list byte :=
  le_split 4 (strlen r.1) ++ r.1 ++ le_split 4 (strlen r.2) ++ r.2.
Definition record_ok (r : list byte * list byte) : Prop := strlen r.1 < KVDB_MAX_KEY_SIZE ∧ strlen r.2 ≤ KVDB_MAX_VALUE_SIZE.
(** A record whose key has exactly 256 bytes begins here. *)
Definition long_record (rest : list byte) : Prop :=
  ∃ k more, strlen k = KVDB_MAX_KEY_SIZE ∧ rest = le_split 4 KVDB_MAX_KEY_SIZE ++ k ++ more.
(** Neither kind of record begins here: the file ends, is cut, or a length is too large. *)
Definition no_record (rest : list byte) : Prop := ¬ long_record rest ∧ ∀ r more, record_ok r → rest ≠ record r ++ more.
(** A key ends at its first NUL; later records win. *)
Definition stored (g : gmap (list byte) (list byte)) (rs : list (list byte * list byte)) : gmap (list byte) (list byte) :=
  foldl (λ g r, <[cstr r.1 := r.2]> g) g rs.

(** What a record that begins with these bytes must be. *)
Lemma fread_record r more : record_ok r → ∃ r1 r2, fread 4 (record r ++ more) = Some (le_split 4 (strlen r.1), r1) ∧ le_combine (le_split 4 (strlen r.1)) = strlen r.1 ∧
  fread (length r.1) r1 = Some (r.1, r2) ∧ ∃ r3, fread 4 r2 = Some (le_split 4 (strlen r.2), r3) ∧ le_combine (le_split 4 (strlen r.2)) = strlen r.2 ∧
  fread (length r.2) r3 = Some (r.2, more).
Proof.
  intros [H1 H2]. unfold record, strlen, KVDB_MAX_KEY_SIZE, KVDB_MAX_VALUE_SIZE in *. rewrite <- !(assoc_L (++)). rewrite fread_app by apply length_le_split.
  do 2 eexists. split; [done|]. split; [apply le_word; lia|]. split; [by apply fread_app|]. rewrite fread_app by apply length_le_split.
  eexists. split; [done|]. split; [apply le_word; lia|]. by apply fread_app.
Qed.
Lemma fread_long k more : strlen k = KVDB_MAX_KEY_SIZE →
  fread 4 (le_split 4 KVDB_MAX_KEY_SIZE ++ k ++ more) = Some (le_split 4 KVDB_MAX_KEY_SIZE, k ++ more) ∧ fread (Z.to_nat KVDB_MAX_KEY_SIZE) (k ++ more) = Some (k, more).
Proof. intros H. split; [apply fread_app, length_le_split|]. apply fread_app. unfold strlen in H. lia. Qed.
Lemma le_split_word l : length l = 4%nat → le_split 4 (le_combine l) = l.
Proof. intros H. rewrite <- (le_split_combine l) at 2. by rewrite H. Qed.

(** The loader stops where no record begins. *)
Lemma stop_no_record rest :
  match fread 4 rest with
  | None => True
  | Some (kl, r1) =>
      KVDB_MAX_KEY_SIZE < le_combine kl ∨
      match fread (Z.to_nat (le_combine kl)) r1 with
      | None => True
      | Some (_, r2) =>
          le_combine kl < KVDB_MAX_KEY_SIZE ∧
          match fread 4 r2 with
          | None => True
          | Some (vl, r3) => KVDB_MAX_VALUE_SIZE < le_combine vl ∨ fread (Z.to_nat (le_combine vl)) r3 = None
          end
      end
  end → no_record rest.
Proof.
  intros H. split.
  - intros (k & more & Hk & ->). destruct (fread_long k more Hk) as [E1 E2]. rewrite E1 in H. rewrite le_word in H by (unfold KVDB_MAX_KEY_SIZE; lia).
    rewrite E2 in H. destruct H as [H|[H _]]; lia.
  - intros r more Hr ->. destruct (fread_record r more Hr) as (r1 & r2 & E1 & L1 & E2 & r3 & E3 & L3 & E4). rewrite E1, L1 in H.
    unfold strlen in H at 2. rewrite Nat2Z.id, E2, E3, L3 in H. unfold strlen in H at 4. destruct Hr as [H1 H2].
    destruct H as [H|[_ [H|H]]]; [lia|lia|]. unfold strlen in H. rewrite Nat2Z.id, E4 in H. done.
Qed.

Lemma load_any fuel : ∀ w m g rest,
  no_oom w → hm_repr m g → (length rest < fuel)%nat →
  Z.of_nat (base.size g) + Z.of_nat (length rest) + 1 < 2 ^ 64 →
  ∃ rs last, rest = mjoin (record <$> rs) ++ last ∧ Forall record_ok rs ∧
    (long_record last ∧ load cv fuel rest m w = UB ∨
     no_record last ∧ ∃ m', load cv fuel rest m w = Ret (m', w) ∧ hm_repr m' (stored g rs) ∧ m'.(lock) = m.(lock) ∧
       (base.size (stored g rs) ≤ base.size g + length rest)%nat).
Proof.
  induction fuel as [|fuel IH]; intros w m g rest Hw Hr Hf Hs; [lia|].
  assert (Hstop : load cv (S fuel) rest m w = Ret (m, w) → no_record rest → ∃ rs last, rest = mjoin (record <$> rs) ++ last ∧ Forall record_ok rs ∧
    (long_record last ∧ load cv (S fuel) rest m w = UB ∨
     no_record last ∧ ∃ m', load cv (S fuel) rest m w = Ret (m', w) ∧ hm_repr m' (stored g rs) ∧ m'.(lock) = m.(lock) ∧
       (base.size (stored g rs) ≤ base.size g + length rest)%nat)).
  { intros E Hn. exists [], rest. split_and!; [done|constructor|]. right. split; [done|]. exists m. split_and!; try done. cbn. lia. }
  pose proof (stop_no_record rest) as Hn. revert Hstop Hn. cbn [load].
  destruct (fread 4 rest) as [[kl r1]|] eqn:E1; [|intros Hstop Hn; by apply Hstop, Hn].
  destruct (Z.ltb_spec KVDB_MAX_KEY_SIZE (le_combine kl)) as [?|Hkl];
    [intros Hstop Hn; apply Hstop, Hn; [done|by left]|].
  destruct (fread (Z.to_nat (le_combine kl)) r1) as [[kb r2]|] eqn:E2;
    [|intros Hstop Hn; apply Hstop, Hn; [done|by right]].
  destruct (Z.leb_spec KVDB_MAX_KEY_SIZE (le_combine kl)) as [Hk'|Hkl'].
  { intros _ _. apply fread_Some in E1 as [-> L1], E2 as [-> L2]. exists [], (kl ++ kb ++ r2). split_and!; [done|constructor|]. left. split; [|done].
    exists kb, r2. assert (le_combine kl = KVDB_MAX_KEY_SIZE) as E by lia. rewrite <- E, le_split_word by done. split; [|done]. unfold strlen. pose proof (le_combine_range kl). lia. }
  destruct (fread 4 r2) as [[vl r3]|] eqn:E3; [|intros Hstop Hn; apply Hstop, Hn; [done|by right]].
  destruct (Z.ltb_spec KVDB_MAX_VALUE_SIZE (le_combine vl)) as [?|Hvl];
    [intros Hstop Hn; apply Hstop, Hn; [done|right; split; [done|by left]]|].
  c_step (malloc_ok w Hw). cbn [negb].
  destruct (fread (Z.to_nat (le_combine vl)) r3) as [[vb r4]|] eqn:E4;
    [|intros Hstop Hn; apply Hstop, Hn; [done|right; split; [done|by right]]].
  intros _ _. apply fread_Some in E1 as [-> L1], E2 as [-> L2], E3 as [-> L3], E4 as [-> L4].
  pose proof (le_combine_range kl). pose proof (le_combine_range vl).
  rewrite !length_app in *. pose proof (cstr_length kb).
  destruct (insert_repr w m g (cstr kb) vb (le_combine vl)) as (m1 & Hi & Hr1 & Hl1);
    try done; try (unfold strlen; lia).
  { apply cstr_nonul. } { rewrite (hr_size _ _ Hr). lia. }
  c_step Hi. simpl snd. rewrite take_ge in Hr1 by lia.
  set (g1 := <[cstr kb := vb]> g) in *.
  assert (Hg1 : (base.size g1 ≤ S (base.size g))%nat).
  { unfold g1. rewrite map_size_insert. destruct (g !! cstr kb); simpl; lia. }
  destruct (IH w m1 g1 r4 Hw Hr1) as (rs & last & Er & Hok & H'); try lia.
  assert (Erec : record (kb, vb) = kl ++ kb ++ vl ++ vb).
  { unfold record, strlen. cbn [fst snd]. rewrite L2, L4, !Z2Nat.id, !le_split_word by lia. done. }
  exists ((kb, vb) :: rs), last. split; [|split].
  - rewrite Er. change (mjoin (record <$> (kb, vb) :: rs)) with (record (kb, vb) ++ mjoin (record <$> rs)). rewrite Erec, <- !(assoc_L (++)). done.
  - constructor; [|done]. unfold record_ok, strlen. cbn [fst snd]. lia.
  - destruct H' as [[Hlr E]|(Hn & m' & E & Hr' & Hl' & Hg')]; [by left|]. right. split; [done|]. exists m'. change (stored g ((kb, vb) :: rs)) with (stored g1 rs).
    split_and!; [done|done|congruence|lia].
Qed.

(** ** Running out of memory *)

Definition set_mallocs (ms : list bool) (w : world) : world :=
  World w.(fs) w.(unwritable) ms w.(now) w.(handle).

Lemma malloc_any w : ∃ b ms, malloc w = Ret (b, set_mallocs ms w).
Proof. destruct w as [? ? [|b ms] ? ?]; by eexists _, _. Qed.

(** Under any schedule of allocation failures an insertion either fails and
    leaves the table alone or is the insertion of an unlimited heap. *)
Lemma insert_any m k v n w : n ≤ Z.of_nat (length v) →
  ∃ r ms, hashmap_insert cv m k v n w = Ret (r, set_mallocs ms w) ∧
    (r = (-1, m) ∨
     (r.1 = 0 ∧ hashmap_insert cv m k v n (set_mallocs [] w) = Ret (r, set_mallocs [] w))).
Proof.
  intros Hn. unfold hashmap_insert.
  assert (Hcopy : ∀ w, copy_in v n w = Ret (take (Z.to_nat n) v, w)).
  { intros. unfold copy_in. by rewrite (proj2 (Z.ltb_ge _ _)) by lia. }
  destruct (hashmap_find cv m k) as [nd|].
  - destruct (malloc_any w) as (b & ms & Hm). c_step Hm. destruct b; simpl; [|by eexists _, _; eauto].
    c_step (Hcopy (set_mallocs ms w)). eexists _, _. split; [reflexivity|]. right. split; [done|].
    erewrite (bind_Ret malloc) by done. simpl. by c_step (Hcopy (set_mallocs [] w)).
  - destruct (malloc_any w) as (b & ms & Hm). c_step Hm. destruct b; simpl; [|by eexists _, _; eauto].
    destruct (malloc_any (set_mallocs ms w)) as (b & ms1 & Hm1). c_step Hm1.
    destruct b; simpl; [|by eexists _, _; eauto].
    destruct (malloc_any (set_mallocs ms1 w)) as (b & ms2 & Hm2).
    erewrite (bind_Ret malloc) by exact Hm2. destruct b; simpl; [|by eexists _, _; eauto].
    erewrite (bind_Ret (copy_in v n)) by apply Hcopy.
    eexists _, _. split; [reflexivity|]. right. split; [done|].
    do 3 (erewrite (bind_Ret malloc) by done; simpl).
    by erewrite (bind_Ret (copy_in v n)) by apply Hcopy.
Qed.

Lemma open_create w cfg :
  no_oom w → cfg.(db_path) ∉ w.(unwritable) → cfg.(mode) = KVDB_MODE_CREATE →
  ∃ w' db, kvdb_open cv cfg w = Ret (true, w') ∧ kv_inv w' db ∅ ∧ db.(config) = cfg.
Proof.
  intros Hw Hu Hm. unfold kvdb_open. c_step (malloc_ok w Hw). cbn [negb].
  c_step (hashmap_create_run w KVDB_DEFAULT_CAPACITY Hw). rewrite Hm.
  assert (Hopen : fopen (db_path cfg) WBp w = Ret (true, set_fs (<[db_path cfg := []]> (fs w)) w)).
  { unfold fopen. by rewrite (bool_decide_eq_false_2 (_ ∈ _)) by done. }
  c_step Hopen. cbn [negb andb]. erewrite bind_Ret by done. cbn [negb].
  assert (∃ b w1, (if enable_wal cfg then fopen (wal_path (db_path cfg)) ABp else mret false)
    (set_fs (<[db_path cfg := []]> (fs w)) w) = Ret (b, w1) ∧ no_oom w1 ∧
    w1.(unwritable) = w.(unwritable)) as (b & w1 & Hwal & Hw1 & Hu1).
  { destruct (enable_wal cfg); [|by eexists _, _]. unfold fopen.
    case_bool_decide; simpl; by eexists _, _. }
  c_step Hwal. erewrite bind_Ret by done. rewrite bool_decide_eq_true_2 by done.
  eexists _, _. split; [reflexivity|]. split; [split; [reflexivity|..]|done]; try done.
  - by apply empty_repr.
  - intros _. simpl. by rewrite Hu1.
Qed.

(** ** Properties *)

(** C2. The store refines a finite map: a database opened in create mode and
    driven by any sequence of set, get, delete, exists, count and clear calls
    answers every call as the map does (errors and partial reads into short
    buffers included), without undefined behaviour or blocking, and the table
    keeps representing the map. *)
Theorem kvdb_run_refines w cfg os :
  no_oom w → cfg.(db_path) ∉ w.(unwritable) → cfg.(mode) = KVDB_MODE_CREATE →
  Forall kop_ok os → Z.of_nat (length os) + 1 < 2 ^ 64 →
  ∃ w' db', (kvdb_open cv cfg;; krun os) w = Ret ((a_krun false os ∅).1, w') ∧
    kv_inv w' db' (a_krun false os ∅).2.
Proof.
  intros Hw Hu Hm Hok Hlen. destruct (open_create w cfg Hw Hu Hm) as (w1 & db1 & E & HI & Hc).
  assert (Hro : is_ro db1 = false) by (unfold is_ro; by rewrite Hc, Hm).
  destruct (krun_refines os w1 db1 ∅ HI Hok) as (w2 & db2 & E2 & HI2 & _).
  { rewrite map_size_empty. lia. }
  rewrite Hro in *. exists w2, db2. by c_step E.
Qed.

(** C3. Persistence: after any session on a created database, closing it and
    opening the file again (read-write or read-only) finds exactly the map the
    session left, so the second session is answered from it, provided no stored
    key has the full 256 bytes. *)
Theorem kvdb_persists w cfg os cfg2 os2 :
  no_oom w → cfg.(db_path) ∉ w.(unwritable) → cfg.(mode) = KVDB_MODE_CREATE →
  Forall kop_ok os → Forall kop_ok os2 →
  Z.of_nat (length os) + Z.of_nat (length os2) + 1 < 2 ^ 64 →
  (∀ k, is_Some ((a_krun false os ∅).2 !! k) → strlen k < KVDB_MAX_KEY_SIZE) →
  cfg2.(db_path) = cfg.(db_path) → cfg2.(mode) ≠ KVDB_MODE_CREATE →
  ∃ w', (kvdb_open cv cfg;; rs ← krun os; kvdb_close;;
         ok ← kvdb_open cv cfg2; rs2 ← krun os2; mret (rs, ok, rs2)) w =
    Ret ((a_krun false os ∅).1, true,
         (a_krun (bool_decide (cfg2.(mode) = KVDB_MODE_READONLY)) os2 (a_krun false os ∅).2).1, w').
Proof.
  intros Hw Hu Hm Hok Hok2 Hlen Hk Hp Hm2.
  destruct (open_create w cfg Hw Hu Hm) as (w1 & db1 & E & HI & Hc).
  assert (Hro : is_ro db1 = false) by (unfold is_ro; by rewrite Hc, Hm).
  destruct (krun_refines os w1 db1 ∅ HI Hok) as (w2 & db2 & E2 & HI2 & Hc2).
  { rewrite map_size_empty. lia. }
  assert (Hro2 : is_ro db2 = false) by (unfold is_ro in *; by rewrite Hc2).
  rewrite Hro in *. c_step E. c_step E2.
  pose proof (a_krun_size false os ∅) as Hsz. rewrite map_size_empty in Hsz.
  destruct (reopen_keeps w2 db2 _ cfg2 HI2 Hro2 Hk) as (w3 & db3 & E3 & HI3 & Hc3);
    [by rewrite Hc2, Hc|done|].
  destruct (krun_refines os2 w3 db3 _ HI3 Hok2) as (w4 & db4 & E4 & _ & _); [lia|].
  assert (Hro3 : is_ro db3 = bool_decide (mode cfg2 = KVDB_MODE_READONLY))
    by (unfold is_ro; by rewrite Hc3).
  rewrite Hro3 in E4. exists w4.
  apply bind_inv in E3 as ([] & w5 & E5 & E6). c_step E5. c_step E6. by c_step E4.
Qed.

(** A key of exactly 256 bytes is accepted by [kvdb_set], but once such a
    key is stored, closing the database and opening its file again writes the
    terminating NUL one byte past the 256-byte [key] buffer of [kvdb_open]. *)
Theorem kvdb_max_key_reopen w db g k v cfg :
  kv_inv w db g → is_ro db = false → Z.of_nat (base.size g) + 2 < 2 ^ 64 →
  nonul k → strlen k = KVDB_MAX_KEY_SIZE → strlen v ≤ KVDB_MAX_VALUE_SIZE →
  cfg.(db_path) = db.(config).(db_path) → cfg.(mode) ≠ KVDB_MODE_CREATE →
  ∃ w', kvdb_set cv (Some k) (Some v) (strlen v) w = Ret (KVDB_OK, w') ∧
        (kvdb_close;; kvdb_open cv cfg) w' = UB.
Proof.
  intros HI Hro Hs Hk Hkl Hvl Hp Hm. unfold strlen in Hvl.
  destruct (set_run w db g k v (strlen v) HI Hk) as (w' & db' & E & HI' & Hc);
    [unfold strlen; lia|done|].
  simpl in E, HI'. unfold strlen in E, HI'. rewrite Hro in *.
  rewrite !decide_False in E, HI' by (unfold strlen in *; lia). simpl in E, HI'.
  exists w'. split; [done|]. eapply (reopen_max_key w' db' _ cfg k HI');
    [unfold is_ro in *; by rewrite Hc| |done|by rewrite Hc|done].
  rewrite lookup_insert_eq. by eexists.
Qed.

(** C4. Opening an arbitrary, possibly truncated or corrupt, file terminates: the file is a
    sequence of records, of keys below 256 bytes and values up to 65536, and a rest where no
    such record begins.  If a record with a 256-byte key begins there, opening overflows the
    key buffer; in every other case it succeeds, and the handle holds exactly those records,
    the later ones winning.  No allocation fails. *)
Theorem kvdb_open_any_file w cfg content :
  no_oom w → w.(fs) !! cfg.(db_path) = Some content → cfg.(mode) ≠ KVDB_MODE_CREATE →
  (cfg.(mode) = KVDB_MODE_READWRITE → cfg.(db_path) ∉ w.(unwritable)) →
  Z.of_nat (length content) + 2 < 2 ^ 64 →
  ∃ rs last, content = mjoin (record <$> rs) ++ last ∧ Forall record_ok rs ∧
    (long_record last ∧ kvdb_open cv cfg w = UB ∨
     no_record last ∧ ∃ w' db, kvdb_open cv cfg w = Ret (true, w') ∧ kv_inv w' db (stored ∅ rs)).
Proof.
  intros Hw Hc Hm Hu Hlen. destruct (open_existing w cfg content Hw Hc Hm Hu)
    as (w1 & b & Hw1 & Hu1 & ->).
  destruct (load_any (S (length content)) w1 (HashMap (replicate (Z.to_nat KVDB_DEFAULT_CAPACITY) [])
    KVDB_DEFAULT_CAPACITY 0 RwFree) ∅ content Hw1) as (rs & last & Er & Hok & H);
    [by apply empty_repr|lia|rewrite map_size_empty; lia|]. exists rs, last. split; [done|]. split; [done|].
  destruct H as [[Hlr E]|(Hn & m' & E & Hr' & Hl' & Hs')]; [left|right].
  - split; [done|]. unfold mbind, C_bind. by rewrite E.
  - split; [done|]. rewrite map_size_empty in Hs'. c_step E. eexists _, _. split; [reflexivity|].
    split; [reflexivity|exact Hr'|done|done|lia|done|].
    unfold is_ro. simpl. rewrite bool_decide_eq_false. intros. rewrite Hu1. apply Hu.
    by destruct (mode cfg).
Qed.

(** Under any schedule of allocation failures [kvdb_set] is atomic: it
    either stores the value or reports OUT_OF_MEMORY, and then the map and all
    files (the write-ahead log too) are unchanged and the lock is free. *)
Theorem kvdb_set_oom w db g k v n :
  kv_inv (set_mallocs [] w) db g → is_ro db = false → nonul k →
  strlen k ≤ KVDB_MAX_KEY_SIZE → 0 ≤ n ≤ KVDB_MAX_VALUE_SIZE → n ≤ Z.of_nat (length v) →
  Z.of_nat (base.size g) + 2 < 2 ^ 64 →
  ∃ e w' db' g', kvdb_set cv (Some k) (Some v) n w = Ret (e, w') ∧
    kv_inv (set_mallocs [] w') db' g' ∧
    ((e = KVDB_ERR_OUT_OF_MEMORY ∧ g' = g ∧ w'.(fs) = w.(fs)) ∨
     (e = KVDB_OK ∧ g' = <[k := take (Z.to_nat n) v]> g)).
Proof.
  intros HI Hro Hk Hkl Hn Hnl Hs. pose proof HI as [Hh Hr Hl Ho _ Hf Hwr]. unfold kvdb_set.
  erewrite (bind_Ret c_get) by done. simpl in Hh. rewrite Hh.
  rewrite !(proj2 (Z.ltb_ge _ _)) by lia. unfold is_ro in Hro. rewrite Hro.
  unfold rw_wrlock. rewrite Hl. erewrite bind_Ret by done.
  fold (set_lk RwWrite (hashmap db)).
  destruct (insert_any (set_lk RwWrite (hashmap db)) k v n w Hnl) as (r & ms & E & [->|[Hr0 Hins]]).
  - c_step E. simpl. eexists _, _, _, g. split; [reflexivity|].
    split; [split; [reflexivity|..]|by left]; simpl; try done; [exact (repr_unlock _ _ Hr)|lia].
  - destruct (insert_repr (set_mallocs [] w) (set_lk RwWrite (hashmap db)) g k v n)
      as (m' & Hi & Hr' & Hl'); try done.
    { by apply repr_lock. } { simpl. rewrite (hr_size _ _ Hr). lia. }
    rewrite Hi in Hins. injection Hins as <-. c_step E. simpl.
    destruct (wal_run (wal_file db) (wal_path (db_path (config db)))
      (wal_entry WAL_OP_SET 0 k n ++ take (Z.to_nat n) v) (set_mallocs ms w)) as [f Hff].
    c_step Hff. eexists _, _, _, _. split; [reflexivity|].
    split; [split; [reflexivity|..]|by right]; simpl; try done; [by apply repr_unlock|].
    rewrite map_size_insert. destruct (g !! k); simpl; lia.
Qed.

End spec.

(** ** Witnesses *)

Definition wit_world : world := World ∅ ∅ [] 1700000000 None.
Definition wit_cfg (m : kvdb_mode_t) : kvdb_config_t := Config (str "test.db") m true.
Definition wit_ops : list kop :=
  [KSet (str "a") (str "hello") 5; KSet (str "b") (str "x") 1; KDel (str "b");
   KGet (str "a") (str "____") 4; KCount].

Lemma wit_ops_ok : Forall kop_ok wit_ops.
Proof. repeat constructor; simpl; try done; lia. Qed.

Lemma wit_ops_run : a_krun false wit_ops ∅ =
  ([KErr KVDB_OK; KErr KVDB_OK; KErr KVDB_OK; KGot KVDB_OK (str "hell") (Some 5); KNum 1],
   {[ str "a" := str "hello" ]}).
Proof. reflexivity. Qed.

Lemma kvdb_run_refines_witness :
  no_oom wit_world ∧
  ∃ w' db', (kvdb_open schar (wit_cfg KVDB_MODE_CREATE);; krun schar wit_ops) wit_world =
    Ret ([KErr KVDB_OK; KErr KVDB_OK; KErr KVDB_OK; KGot KVDB_OK (str "hell") (Some 5); KNum 1], w') ∧
    kv_inv schar w' db' {[ str "a" := str "hello" ]}.
Proof.
  split; [done|].
  pose proof (kvdb_run_refines schar wit_world (wit_cfg KVDB_MODE_CREATE) wit_ops) as H.
  rewrite wit_ops_run in H. apply H; [done|apply not_elem_of_empty|done|exact wit_ops_ok|done].
Defined.

Lemma kvdb_persists_witness :
  ∃ w', (kvdb_open schar (wit_cfg KVDB_MODE_CREATE);; rs ← krun schar wit_ops; kvdb_close;;
         ok ← kvdb_open schar (wit_cfg KVDB_MODE_READONLY);
         rs2 ← krun schar [KExists (str "a"); KExists (str "b"); KClear];
         mret (rs, ok, rs2)) wit_world =
    Ret ([KErr KVDB_OK; KErr KVDB_OK; KErr KVDB_OK; KGot KVDB_OK (str "hell") (Some 5); KNum 1],
         true, [KBool true; KBool false; KErr KVDB_ERR_READONLY], w').
Proof.
  pose proof (kvdb_persists schar wit_world (wit_cfg KVDB_MODE_CREATE) wit_ops
    (wit_cfg KVDB_MODE_READONLY) [KExists (str "a"); KExists (str "b"); KClear]) as H.
  assert (E2 : (a_krun (bool_decide (mode (wit_cfg KVDB_MODE_READONLY) = KVDB_MODE_READONLY))
    [KExists (str "a"); KExists (str "b"); KClear] {[ str "a" := str "hello" ]}).1 =
    [KBool true; KBool false; KErr KVDB_ERR_READONLY]) by (vm_compute; done).
  rewrite wit_ops_run in H. cbn [fst snd] in H. rewrite E2 in H.
  apply H; [reflexivity|apply not_elem_of_empty|reflexivity|exact wit_ops_ok|by repeat constructor
           |by vm_compute| |reflexivity|by intros ?].
  intros k [v Hk]. apply lookup_singleton_Some in Hk as [<- _]. done.
Defined.

Lemma kvdb_max_key_reopen_witness :
  ∃ w db w', kv_inv schar w db ∅ ∧
    kvdb_set schar (Some (replicate 256 x61)) (Some (str "v")) (strlen (str "v")) w =
      Ret (KVDB_OK, w') ∧
    (kvdb_close;; kvdb_open schar (wit_cfg KVDB_MODE_READWRITE)) w' = UB.
Proof.
  destruct (open_create schar wit_world (wit_cfg KVDB_MODE_CREATE)) as (w & db & _ & HI & Hc);
    [done|apply not_elem_of_empty|done|].
  destruct (kvdb_max_key_reopen schar w db ∅ (replicate 256 x61) (str "v")
    (wit_cfg KVDB_MODE_READWRITE) HI) as (w' & Hs & Hu);
    [unfold is_ro; by rewrite Hc|by vm_compute|by apply Forall_replicate|by vm_compute
    |by vm_compute|by rewrite Hc|by intros ?|].
  exists w, db, w'. split; [exact HI|]. split; [exact Hs|exact Hu].
Defined.

(** A file with one record and a truncated one. *)
Definition wit_file : list byte := [x01; x00; x00; x00; x61; x01; x00; x00; x00; x76; x05].
Lemma kvdb_open_any_file_witness :
  ∃ rs last, wit_file = mjoin (record <$> rs) ++ last ∧ Forall record_ok rs ∧
    (long_record last ∧ kvdb_open schar (wit_cfg KVDB_MODE_READONLY) (set_fs {[ str "test.db" := wit_file ]} wit_world) = UB ∨
     no_record last ∧ ∃ w' db, kvdb_open schar (wit_cfg KVDB_MODE_READONLY) (set_fs {[ str "test.db" := wit_file ]} wit_world) = Ret (true, w') ∧
       kv_inv schar w' db (stored ∅ rs)).
Proof.
  apply (kvdb_open_any_file schar _ (wit_cfg KVDB_MODE_READONLY) wit_file); [reflexivity|reflexivity|by intros ?|by intros ?|by vm_compute].
Defined.

Lemma kvdb_set_oom_witness :
  ∃ w db, kv_inv schar (set_mallocs [] w) db ∅ ∧ w.(mallocs) = [true; false] ∧
  ∃ e w' db' g', kvdb_set schar (Some (str "k")) (Some (str "v")) 1 w = Ret (e, w') ∧
    kv_inv schar (set_mallocs [] w') db' g' ∧
    ((e = KVDB_ERR_OUT_OF_MEMORY ∧ g' = ∅ ∧ w'.(fs) = w.(fs)) ∨
     (e = KVDB_OK ∧ g' = <[str "k" := take (Z.to_nat 1) (str "v")]> ∅)).
Proof.
  destruct (open_create schar wit_world (wit_cfg KVDB_MODE_CREATE)) as (w & db & _ & HI & Hc);
    [done|apply not_elem_of_empty|done|].
  assert (Hw : set_mallocs [] (set_mallocs [true; false] w) = w).
  { pose proof (ki_oom _ _ _ _ HI) as Ho. destruct w. unfold no_oom in Ho. simpl in Ho. by subst. }
  exists (set_mallocs [true; false] w), db. rewrite Hw. split; [done|]. split; [done|].
  apply (kvdb_set_oom schar (set_mallocs [true; false] w) db ∅ (str "k") (str "v") 1).
  - rewrite Hw. exact HI.
  - unfold is_ro. by rewrite Hc.
  - by repeat constructor.
  - by vm_compute.
  - by vm_compute.
  - by vm_compute.
  - by vm_compute.
Defined.

End KvDbSpec.
