(* ===== verification/Simulation.v ===== *)
(** * Sequences of calls and their specification

    A component's calls [f] simulate a specification [g] when every call the client
    may make returns what [g] returns and keeps the two states related; then so does
    every sequence of calls.  The theorems on the module table and the slab
    allocator are instances. *)

From S2P Require Import Prelude.

Module Simulation.

Section simulation.
Context {S A Op Res : Type}.

Fixpoint run (f : Op → C S Res) (ops : list Op) : C S (list Res) :=
  match ops with
  | [] => mret []
  | op :: ops' => r ← f op; rs ← run f ops'; mret (r :: rs)
  end.
Fixpoint run_spec (g : Op → A → A * Res) (ops : list Op) (a : A) : A * list Res :=
  match ops with
  | [] => (a, [])
  | op :: ops' => let '(a1, r) := g op a in let '(a2, rs) := run_spec g ops' a1 in (a2, r :: rs)
  end.
(** The client keeps to the calls that are allowed. *)
Fixpoint allowed (g : Op → A → A * Res) (ok : A → Op → Prop) (ops : list Op) (a : A) : Prop :=
  match ops with
  | [] => True
  | op :: ops' => ok a op ∧ allowed g ok ops' (g op a).1
  end.

Class Simulates (f : Op → C S Res) (g : Op → A → A * Res) (ok : A → Op → Prop) (R : S → A → Prop) : Prop :=
  sim_call : ∀ op s a, R s a → ok a op → ∃ s', f op s = Ret ((g op a).2, s') ∧ R s' (g op a).1.

Lemma sim_run f g ok R `{!Simulates f g ok R} ops : ∀ s a, R s a → allowed g ok ops a → ∃ s',
  run f ops s = Ret ((run_spec g ops a).2, s') ∧ R s' (run_spec g ops a).1.
Proof.
  induction ops as [|op ops IH]; intros s a HR Hok; [by exists s|]. destruct Hok as [Hop Hok].
  destruct (sim_call op s a HR Hop) as (s1 & E1 & HR1).
  destruct (IH s1 (g op a).1 HR1 Hok) as (s2 & E2 & HR2). cbn [run run_spec].
  destruct (g op a) as [a1 r]. cbn [fst snd] in *. destruct (run_spec g ops a1) as [a2 rs]. cbn [fst snd] in *.
  exists s2. split; [|done]. c_step E1. by c_step E2.
Qed.

End simulation.
End Simulation.
