(* ===== verification/Modules.v ===== *)
(** * linux-file-server: the module manager (linux-file-server/src/module.c)

    The shared objects are not part of the sources: what dlopen and dlsym find at a
    path, and what the functions found there return, is the parameter [dlopen].  The
    state is the manager with the trace of calls into the objects.  Messages on
    standard error are not modelled; the manager pointer is not NULL. *)

From S2P Require Import Prelude Simulation.
Import Simulation.

Module Modules.
#[local] Arguments Z.to_nat : simpl never.

Definition MAX_MODULES : Z := 16.

(** ** Data *)

(** The functions dlsym finds, with their results. *)
Record plugin := Plugin {
  p_init : option Z; p_cleanup : bool; p_command : option (Z → Z → list byte → Z)
}.
Record module_t := Mod {
  name : list byte; path : list byte; handle : option (list byte);
  init : option Z; cleanup : bool; on_command : option (Z → Z → list byte → Z); loaded : bool
}.
Definition zeroed : module_t := Mod [] [] None None false None false.
(** Calls into a shared object, named by its path. *)
Inductive call := Opened (p : list byte) | Inited (p : list byte) | Cleaned (p : list byte) | Closed (p : list byte).
Record module_manager := Mgr { modules : list module_t; count : Z; calls : list call }.

Definition set_slot (i : Z) (m : module_t) (s : module_manager) : module_manager :=
  Mgr (<[Z.to_nat i := m]> s.(modules)) s.(count) s.(calls).
Definition set_count (n : Z) (s : module_manager) : module_manager := Mgr s.(modules) n s.(calls).
Definition log_call (c : call) : C module_manager unit := c_mod (λ s,
  Mgr s.(modules) s.(count) (s.(calls) ++ [c])).
(** [mgr->modules[i]]. *)
Definition slot (i : Z) : C module_manager module_t :=
  s ← c_get; match s.(modules) !! Z.to_nat i with Some m => mret m | None => c_ub end.
Definition store (i : Z) (m : module_t) : C module_manager unit := slot i;; c_mod (set_slot i m).

(** ** Operations *)

Section operations.
Context (dlopen : list byte → option plugin).

Definition module_manager_init (s : module_manager) : module_manager :=
  Mgr (replicate (Z.to_nat MAX_MODULES) zeroed) 0 s.(calls).

(** The first loaded slot of that name from slot [i] on. *)
Fixpoint find_from (fuel : nat) (i : Z) (n : list byte) : C module_manager (option Z) :=
  s ← c_get;
  if i <? s.(count) then
    match fuel with
    | O => c_fuel
    | S fuel' =>
        m ← slot i;
        if m.(loaded) && bool_decide (m.(name) = n) then mret (Some i) else find_from fuel' (i + 1) n
    end
  else mret None.
Definition find_module (n : list byte) : C module_manager (option Z) :=
  s ← c_get; find_from (Z.to_nat s.(count)) 0 n.

(** NULL arguments are [None]. *)
Definition module_load (n p : option (list byte)) : C module_manager Z :=
  match n, p with
  | Some n, Some p =>
      s ← c_get;
      if MAX_MODULES <=? s.(count) then mret (-1) else
      dup ← find_module n;
      match dup with
      | Some _ => mret (-1)
      | None =>
          match dlopen p with
          | None => mret (-1)
          | Some pl =>
              log_call (Opened p);;
              let m := Mod (take 63 n) (take 255 p) (Some p) pl.(p_init) pl.(p_cleanup) pl.(p_command) false in
              store s.(count) m;;
              r ← match pl.(p_init) with
                  | Some r => log_call (Inited p);; mret r
                  | None => mret 0
                  end;
              if negb (r =? 0) then log_call (Closed p);; mret (-1) else
              store s.(count) (Mod m.(name) m.(path) m.(handle) m.(init) m.(cleanup) m.(on_command) true);;
              c_mod (set_count (s.(count) + 1));;
              mret 0
          end
      end
  | _, _ => mret (-1)
  end.

(** cleanup, dlclose and the flag. *)
Definition unload_slot (i : Z) : C module_manager unit :=
  m ← slot i;
  let p := default [] m.(handle) in
  (if m.(cleanup) then log_call (Cleaned p) else mret tt);;
  log_call (Closed p);;
  store i (Mod m.(name) m.(path) m.(handle) m.(init) m.(cleanup) m.(on_command) false).

Definition module_unload (n : option (list byte)) : C module_manager Z :=
  match n with
  | None => mret (-1)
  | Some n =>
      found ← find_module n;
      match found with
      | None => mret (-1)
      | Some i =>
          unload_slot i;;
          s ← c_get;
          (if i <? s.(count) - 1 then
             m ← slot (s.(count) - 1);
             store i m;; store (s.(count) - 1) zeroed
           else mret tt);;
          c_mod (set_count (s.(count) - 1));;
          mret 0
      end
  end.

(** From slot [n - 1] down to 0. *)
Fixpoint unload_down (n : nat) : C module_manager unit :=
  match n with
  | O => mret tt
  | S n' =>
      m ← slot (Z.of_nat n');
      (if m.(loaded) then unload_slot (Z.of_nat n') else mret tt);;
      unload_down n'
  end.
Definition module_unload_all : C module_manager unit :=
  s ← c_get; unload_down (Z.to_nat s.(count));; c_mod (set_count 0).

Fixpoint dispatch_from (fuel : nat) (i fd cmd : Z) (arg : list byte) : C module_manager Z :=
  s ← c_get;
  if i <? s.(count) then
    match fuel with
    | O => c_fuel
    | S fuel' =>
        m ← slot i;
        match (if m.(loaded) then m.(on_command) else None) with
        | Some f => if negb (f fd cmd arg =? 0) then mret 1 else dispatch_from fuel' (i + 1) fd cmd arg
        | None => dispatch_from fuel' (i + 1) fd cmd arg
        end
    end
  else mret 0.
Definition module_dispatch (fd cmd : Z) (arg : list byte) : C module_manager Z :=
  s ← c_get; dispatch_from (Z.to_nat s.(count)) 0 fd cmd arg.

Definition list_entry (m : module_t) : list byte := padr 20 m.(name) ++ [x20] ++ m.(path) ++ [x0a].
(** The offset returned and the text in the buffer, if anything was stored there;
    a line that does not fit is stored truncated and not counted. *)
Fixpoint list_entries (ms : list module_t) (buf_size : Z) (text : option (list byte)) : Z * option (list byte) :=
  match ms with
  | [] => (strlen (default [] text), text)
  | m :: ms' =>
      if m.(loaded) then
        let t := default [] text in
        let line := list_entry m in
        if strlen t + strlen line <? buf_size then list_entries ms' buf_size (Some (t ++ line))
        else (strlen t, Some (t ++ take (Z.to_nat (buf_size - strlen t - 1)) line))
      else list_entries ms' buf_size text
  end.
Definition module_list (buf_size : Z) (s : module_manager) : Z * option (list byte) :=
  if buf_size =? 0 then (0, None) else list_entries (take (Z.to_nat s.(count)) s.(modules)) buf_size None.

End operations.
(** ** The example plugin (plugins/echo_module.c) *)

Module Echo.
Definition module_init : Z := 0.
Definition module_on_command (fd cmd : Z) (arg : list byte) : Z := if bool_decide (arg = str "echo") then 1 else 0.
Definition object : plugin := Plugin (Some module_init) true (Some module_on_command).
End Echo.
End Modules.
