(* ===== verification/ModulesSpec.v ===== *)
(** * linux-file-server: the module table is a list of loaded modules

    The specification keeps the loaded modules in a list; unloading moves the last
    one into the gap.  The manager simulates it, and whatever is opened is either
    in the table or closed again. *)

From stdpp Require Import gmultiset.
From S2P Require Import Prelude Simulation Modules.
Import Simulation Modules.

Module ModulesSpec.
#[local] Arguments Z.to_nat : simpl never.

(** ** The specification *)

Record entry := Entry { e_name : list byte; e_path : list byte; e_plugin : plugin }.
Record table := Table { entries : list entry; trace : list call }.
Inductive op :=
  | Load (n p : list byte) | Unload (n : list byte) | UnloadAll | Dispatch (fd cmd : Z) (arg : list byte).

Section spec.
Context (dlopen : list byte → option plugin).

Definition close_calls (e : entry) : list call :=
  (if e.(e_plugin).(p_cleanup) then [Cleaned e.(e_path)] else []) ++ [Closed e.(e_path)].
Definition swap_remove (i : nat) (l : list entry) : list entry :=
  match last l with Some x => take (length l - 1) (<[i := x]> l) | None => [] end.
Definition handles (fd cmd : Z) (arg : list byte) (e : entry) : bool :=
  match e.(e_plugin).(p_command) with Some f => negb (f fd cmd arg =? 0) | None => false end.
Definition load_spec (n p : list byte) (t : table) : table * Z :=
  if MAX_MODULES <=? Z.of_nat (length t.(entries)) then (t, -1)
  else if bool_decide (n ∈ e_name <$> t.(entries)) then (t, -1)
  else match dlopen p with
       | None => (t, -1)
       | Some pl =>
           match pl.(p_init) with
           | None => (Table (t.(entries) ++ [Entry n p pl]) (t.(trace) ++ [Opened p]), 0)
           | Some r =>
               if r =? 0 then (Table (t.(entries) ++ [Entry n p pl]) (t.(trace) ++ [Opened p; Inited p]), 0)
               else (Table t.(entries) (t.(trace) ++ [Opened p; Inited p; Closed p]), -1)
           end
       end.
Definition unload_spec (n : list byte) (t : table) : table * Z :=
  match list_find (λ e, e.(e_name) = n) t.(entries) with
  | None => (t, -1)
  | Some (i, e) => (Table (swap_remove i t.(entries)) (t.(trace) ++ close_calls e), 0)
  end.
Definition op_spec (o : op) (t : table) : table * Z :=
  match o with
  | Load n p => load_spec n p t
  | Unload n => unload_spec n t
  | UnloadAll => (Table [] (t.(trace) ++ mjoin (close_calls <$> reverse t.(entries))), 0)
  | Dispatch fd cmd arg => (t, if existsb (handles fd cmd arg) t.(entries) then 1 else 0)
  end.

Definition op_run (o : op) : C module_manager Z :=
  match o with
  | Load n p => module_load dlopen (Some n) (Some p)
  | Unload n => module_unload (Some n)
  | UnloadAll => module_unload_all;; mret 0
  | Dispatch fd cmd arg => module_dispatch fd cmd arg
  end.
(** Names that fit the 64-byte field. *)
Definition op_ok (_ : table) (o : op) : Prop :=
  match o with Load n _ | Unload n => strlen n ≤ 63 | _ => True end.

(** ** The relation *)

Definition mod_of (e : entry) : module_t :=
  Mod e.(e_name) (take 255 e.(e_path)) (Some e.(e_path)) e.(e_plugin).(p_init) e.(e_plugin).(p_cleanup)
    e.(e_plugin).(p_command) true.
Record holds_table (s : module_manager) (t : table) : Prop := {
  ht_len : length s.(modules) = 16%nat;
  ht_count : s.(count) = Z.of_nat (length t.(entries));
  ht_max : (length t.(entries) ≤ 16)%nat;
  ht_slots : take (length t.(entries)) s.(modules) = mod_of <$> t.(entries);
  ht_calls : s.(calls) = t.(trace)
}.

Lemma holds_lookup s t i e : holds_table s t → t.(entries) !! i = Some e → s.(modules) !! i = Some (mod_of e).
Proof.
  intros H Hi. pose proof (lookup_lt_Some _ _ _ Hi). rewrite <- (lookup_take_lt _ (length (entries t))) by done.
  rewrite (ht_slots s t H), list_lookup_fmap, Hi. done.
Qed.
Lemma slot_run s i m : s.(modules) !! Z.to_nat i = Some m → slot i s = Ret (m, s).
Proof. intros H. unfold slot. c_simpl. by rewrite H. Qed.
Lemma store_run s i m : (Z.to_nat i < length s.(modules))%nat → store i m s = Ret (tt, set_slot i m s).
Proof.
  intros H. unfold store. destruct (lookup_lt_is_Some_2 _ _ H) as [x Hx]. by c_step (slot_run s i x Hx).
Qed.

Lemma find_from_run s t n : holds_table s t → ∀ fuel i, (length t.(entries) - i ≤ fuel)%nat →
  find_from fuel (Z.of_nat i) n s =
    Ret (match list_find (λ e, e.(e_name) = n) (drop i t.(entries)) with
         | Some (j, _) => Some (Z.of_nat (i + j)) | None => None end, s).
Proof.
  intros H. induction fuel as [|fuel IH]; intros i Hf; cbn [find_from]; erewrite bind_Ret by reflexivity;
    rewrite (ht_count s t H).
  - rewrite (proj2 (Z.ltb_ge _ _)) by lia. by rewrite drop_ge by lia.
  - destruct (Z.ltb_spec (Z.of_nat i) (Z.of_nat (length (entries t)))) as [Hi|Hi].
    2:{ by rewrite drop_ge by lia. }
    destruct (lookup_lt_is_Some_2 (entries t) i ltac:(lia)) as [e He].
    rewrite (drop_S _ _ _ He). cbn [list_find].
    c_step (slot_run s (Z.of_nat i) (mod_of e) ltac:(rewrite Nat2Z.id; by apply (holds_lookup s t))).
    cbn [loaded mod_of name andb]. destruct (decide (e_name e = n)) as [Hn|Hn].
    + rewrite bool_decide_eq_true_2 by done. by rewrite Nat.add_0_r.
    + rewrite bool_decide_eq_false_2 by done.
      replace (Z.of_nat i + 1) with (Z.of_nat (S i)) by lia. rewrite IH by lia.
      destruct (list_find _ (drop (S i) (entries t))) as [[j x]|]; [|done]. cbn. do 3 f_equal. lia.
Qed.
Lemma find_module_run s t n : holds_table s t →
  find_module n s = Ret (match list_find (λ e, e.(e_name) = n) t.(entries) with
                         | Some (j, _) => Some (Z.of_nat j) | None => None end, s).
Proof.
  intros H. unfold find_module. erewrite bind_Ret by reflexivity.
  rewrite (find_from_run s t n H _ 0) by (rewrite (ht_count s t H); lia). by rewrite drop_0.
Qed.
Lemma list_find_names n (l : list entry) :
  bool_decide (n ∈ e_name <$> l) = match list_find (λ e, e.(e_name) = n) l with Some _ => true | None => false end.
Proof.
  destruct (list_find _ l) as [[i e]|] eqn:E.
  - apply list_find_Some in E as (Hi & He & _). apply bool_decide_eq_true_2. rewrite <- He.
    apply list_elem_of_fmap_2. by eapply list_elem_of_lookup_2.
  - apply list_find_None in E. apply bool_decide_eq_false_2. intros (e & -> & He)%list_elem_of_fmap.
    rewrite Forall_forall in E. by apply (E e).
Qed.

(** A slot that is not in use may change. *)
Lemma holds_set_free s t i m : holds_table s t → (length t.(entries) ≤ i)%nat → holds_table (set_slot (Z.of_nat i) m s) t.
Proof.
  intros [] Hi. unfold set_slot. rewrite Nat2Z.id. constructor; simpl; try done; [by rewrite length_insert|].
  by rewrite take_insert_ge.
Qed.
Lemma store_free s t i m : holds_table s t → (length t.(entries) ≤ i < 16)%nat →
  store (Z.of_nat i) m s = Ret (tt, set_slot (Z.of_nat i) m s).
Proof. intros [] Hi. apply store_run. rewrite Nat2Z.id. lia. Qed.
Lemma holds_call s t c : holds_table s t →
  ∃ s', log_call c s = Ret (tt, s') ∧ holds_table s' (Table t.(entries) (t.(trace) ++ [c])).
Proof. intros []. eexists. split; [reflexivity|]. constructor; simpl; try done. congruence. Qed.

(** Filling the first free slot with a loaded module. *)
Lemma holds_append s t e : holds_table s t → (length t.(entries) < 16)%nat →
  holds_table (set_count (s.(count) + 1) (set_slot (Z.of_nat (length t.(entries))) (mod_of e) s))
    (Table (t.(entries) ++ [e]) t.(trace)).
Proof.
  intros [] Hl. unfold set_count, set_slot. rewrite Nat2Z.id.
  constructor; simpl; rewrite ?length_insert, ?length_app; simpl; try done; try lia.
  rewrite Nat.add_1_r, (take_S_r _ _ (mod_of e)) by (rewrite list_lookup_insert_eq by lia; done).
  by rewrite take_insert_ge, ht_slots0, fmap_app by lia.
Qed.

Lemma load_run n p s t : holds_table s t → strlen n ≤ 63 → ∃ s',
  module_load dlopen (Some n) (Some p) s = Ret ((load_spec n p t).2, s') ∧ holds_table s' (load_spec n p t).1.
Proof.
  intros H Hn. unfold module_load, load_spec. erewrite bind_Ret by reflexivity. rewrite (ht_count s t H).
  destruct (Z.leb_spec MAX_MODULES (Z.of_nat (length (entries t)))) as [Hmax|Hmax]; [by exists s|].
  unfold MAX_MODULES in Hmax. c_step (find_module_run s t n H). rewrite list_find_names.
  destruct (list_find _ (entries t)) as [[i e]|]; [by exists s|].
  destruct (dlopen p) as [pl|]; [|by exists s].
  destruct (holds_call s t (Opened p) H) as (s1 & E1 & H1). c_step E1.
  set (l := length (entries t)) in *. rewrite take_ge by (unfold strlen in Hn; lia).
  set (m := Mod n (take 255 p) (Some p) (p_init pl) (p_cleanup pl) (p_command pl) false).
  c_step (store_free s1 _ l m H1 ltac:(simpl; lia)).
  pose proof (holds_set_free s1 _ l m H1 ltac:(simpl; lia)) as H2. set (s2 := set_slot (Z.of_nat l) m s1) in *.
  set (e := Entry n p pl).
  (* filling the slot in a state where the object has been initialised *)
  assert (Hfin : ∀ s3 tr, holds_table s3 (Table (entries t) tr) → ∃ s',
    (store (Z.of_nat l) (Mod n (take 255 p) (Some p) (p_init pl) (p_cleanup pl) (p_command pl) true);;
     c_mod (set_count (Z.of_nat l + 1));; mret 0) s3 = Ret (0, s') ∧
    holds_table s' (Table (entries t ++ [e]) tr)).
  { intros s3 tr H3. c_step (store_free s3 _ l (mod_of e) H3 ltac:(simpl; lia)). erewrite bind_Ret by reflexivity.
    eexists. split; [reflexivity|]. pose proof (holds_append s3 _ e H3 ltac:(simpl; lia)) as Ha. cbn [entries trace] in Ha.
    rewrite (ht_count s3 _ H3) in Ha. exact Ha. }
  destruct (p_init pl) as [r|] eqn:Ei.
  - edestruct (holds_call s2 _ (Inited p) H2) as (s3 & E3 & H3). cbn [entries trace] in H3.
    rewrite <- (assoc_L (++)) in H3. cbn [app] in H3. erewrite bind_Ret by (erewrite bind_Ret by exact E3; reflexivity).
    destruct (Z.eqb_spec r 0) as [->|Hr]; cbn [negb].
    + destruct (Hfin s3 _ H3) as (s' & E & H'). exists s'. exact (conj E H').
    + edestruct (holds_call s3 _ (Closed p) H3) as (s4 & E4 & H4). cbn [entries trace] in H4.
      rewrite <- (assoc_L (++)) in H4. c_step E4. by exists s4.
  - erewrite bind_Ret by reflexivity. cbn [negb]. change (0 =? 0) with true. cbv iota.
    destruct (Hfin s2 _ H2) as (s' & E & H'). exists s'. exact (conj E H').
Qed.

Lemma dispatch_from_run s t fd cmd arg : holds_table s t → ∀ fuel i, (length t.(entries) - i ≤ fuel)%nat →
  dispatch_from fuel (Z.of_nat i) fd cmd arg s =
    Ret (if existsb (handles fd cmd arg) (drop i t.(entries)) then 1 else 0, s).
Proof.
  intros H. induction fuel as [|fuel IH]; intros i Hf; cbn [dispatch_from]; erewrite bind_Ret by reflexivity;
    rewrite (ht_count s t H).
  - rewrite (proj2 (Z.ltb_ge _ _)) by lia. by rewrite drop_ge by lia.
  - destruct (Z.ltb_spec (Z.of_nat i) (Z.of_nat (length (entries t)))) as [Hi|Hi].
    2:{ by rewrite drop_ge by lia. }
    destruct (lookup_lt_is_Some_2 (entries t) i ltac:(lia)) as [e He].
    rewrite (drop_S _ _ _ He). cbn [existsb].
    c_step (slot_run s (Z.of_nat i) (mod_of e) ltac:(rewrite Nat2Z.id; by apply (holds_lookup s t))).
    replace (Z.of_nat i + 1) with (Z.of_nat (S i)) by lia. cbn [loaded mod_of on_command]. unfold handles at 1.
    destruct (p_command (e_plugin e)) as [f|]; [|by rewrite IH by lia].
    destruct (negb (f fd cmd arg =? 0)); [done|by rewrite IH by lia].
Qed.

(** Closing the object in a slot. *)
Lemma unload_slot_run s i e : s.(modules) !! i = Some (mod_of e) → ∃ s',
  unload_slot (Z.of_nat i) s = Ret (tt, s') ∧ s'.(count) = s.(count) ∧ s'.(calls) = s.(calls) ++ close_calls e ∧
  ∃ m, s'.(modules) = <[i := m]> s.(modules).
Proof.
  intros Hi. unfold unload_slot. c_step (slot_run s (Z.of_nat i) (mod_of e) ltac:(by rewrite Nat2Z.id)).
  cbn [handle mod_of default from_option cleanup].
  assert (Hlen : (i < length (modules s))%nat) by by apply lookup_lt_Some in Hi.
  unfold close_calls. destruct (p_cleanup (e_plugin e)); (erewrite bind_Ret by reflexivity); (erewrite bind_Ret by reflexivity);
    (eexists; split; [apply store_run; cbn [modules]; rewrite Nat2Z.id; exact Hlen|]); cbn [set_slot modules count calls];
    rewrite Nat2Z.id; (split; [done|]); (split; [by rewrite <- ?(assoc_L (++))|by eexists]).
Qed.

(** The last entry moves into the gap. *)
Lemma unload_run n s t : holds_table s t → ∃ s',
  module_unload (Some n) s = Ret ((unload_spec n t).2, s') ∧ holds_table s' (unload_spec n t).1.
Proof.
  intros H. unfold module_unload, unload_spec. c_step (find_module_run s t n H).
  destruct (list_find _ (entries t)) as [[i e]|] eqn:Ef; [|by exists s].
  apply list_find_Some in Ef as (Hi & _ & _). pose proof (lookup_lt_Some _ _ _ Hi) as Hlt.
  destruct (unload_slot_run s i e (holds_lookup s t i e H Hi)) as (s1 & E1 & Hc1 & Ht1 & m1 & Hm1). c_step E1.
  erewrite bind_Ret by reflexivity. rewrite Hc1, (ht_count s t H). pose proof H as [Hlen Hcount Hmax Hslots Hcalls].
  set (l := entries t) in *.
  destruct (lookup_lt_is_Some_2 l (length l - 1) ltac:(lia)) as [x Hx].
  assert (Hlast : last l = Some x) by (rewrite last_lookup, <- Hx; f_equal; lia).
  assert (Hsw : swap_remove i l = take (length l - 1) (<[i := x]> l)) by (unfold swap_remove; by rewrite Hlast).
  assert (Hres : ∀ s2 : module_manager, length s2.(modules) = 16%nat → s2.(calls) = calls s ++ close_calls e →
    take (length l - 1) s2.(modules) = mod_of <$> take (length l - 1) (<[i := x]> l) →
    holds_table (set_count (Z.of_nat (length l) - 1) s2) (Table (swap_remove i l) (trace t ++ close_calls e))).
  { intros s2 Hl2 Hc2 Hs2. rewrite Hsw. constructor; simpl; rewrite ?length_take, ?length_insert; try lia.
    - by rewrite Nat.min_l by lia.
    - by rewrite Hc2, Hcalls. }
  destruct (Z.ltb_spec (Z.of_nat i) (Z.of_nat (length l) - 1)) as [Hlt'|Hge].
  - assert (Hx1 : modules s1 !! Z.to_nat (Z.of_nat (length l) - 1) = Some (mod_of x)).
    { replace (Z.to_nat (Z.of_nat (length l) - 1)) with (length l - 1)%nat by lia. rewrite Hm1, list_lookup_insert_ne by lia.
      by apply (holds_lookup s t). }
    assert (Hl1 : length (modules s1) = 16%nat) by (by rewrite Hm1, length_insert).
    erewrite bind_Ret; [|erewrite bind_Ret by (by apply slot_run); erewrite bind_Ret by (apply store_run; rewrite Nat2Z.id; lia);
      apply store_run; cbn [set_slot modules]; rewrite length_insert; lia].
    erewrite bind_Ret by reflexivity. eexists. split; [reflexivity|]. apply Hres; unfold set_slot; cbn [modules calls].
    + by rewrite !length_insert.
    + exact Ht1.
    + rewrite Nat2Z.id, take_insert_ge, Hm1, list_insert_insert_eq by lia.
      rewrite fmap_take, list_fmap_insert, <- Hslots, !take_insert_lt, take_take by lia. do 2 f_equal. lia.
  - assert (i = length l - 1)%nat as -> by lia. erewrite bind_Ret by reflexivity. erewrite bind_Ret by reflexivity.
    eexists. split; [reflexivity|]. apply Hres; [by rewrite Hm1, length_insert|exact Ht1|].
    rewrite Hm1, !take_insert_ge, fmap_take, <- Hslots, take_take by lia. f_equal. lia.
Qed.

Lemma unload_down_run (l : list entry) n : ∀ s, (n ≤ length l)%nat → length s.(modules) = 16%nat → (length l ≤ 16)%nat →
  take n s.(modules) = mod_of <$> take n l → ∃ s', unload_down n s = Ret (tt, s') ∧ length s'.(modules) = 16%nat ∧
    s'.(calls) = s.(calls) ++ mjoin (close_calls <$> reverse (take n l)).
Proof.
  induction n as [|n IH]; intros s Hn Hl Hmax Hs; [exists s; by rewrite app_nil_r|].
  destruct (lookup_lt_is_Some_2 l n ltac:(lia)) as [e He].
  assert (Hm : modules s !! n = Some (mod_of e)).
  { rewrite <- (lookup_take_lt _ (S n)), Hs by lia. by rewrite list_lookup_fmap, lookup_take_lt, He by lia. }
  destruct (unload_slot_run s n e Hm) as (s1 & E1 & _ & Hc1 & m & Hm1).
  destruct (IH s1) as (s2 & E2 & Hl2 & Hc2); [lia|by rewrite Hm1, length_insert|done| |].
  { rewrite Hm1, take_insert_ge by lia.
    assert (E : take n (modules s) = take n (take (S n) (modules s))) by (rewrite take_take; f_equal; lia).
    rewrite E, Hs, <- fmap_take, take_take. do 2 f_equal. lia. }
  exists s2. cbn [unload_down]. c_step (slot_run s (Z.of_nat n) (mod_of e) ltac:(by rewrite Nat2Z.id)).
  cbn [loaded mod_of]. c_step E1. split; [exact E2|]. split; [done|].
  rewrite Hc2, Hc1, (take_S_r _ _ _ He), reverse_snoc, <- (assoc_L (++)). done.
Qed.
Lemma unload_all_run s t : holds_table s t → ∃ s', module_unload_all s = Ret (tt, s') ∧
  holds_table s' (Table [] (t.(trace) ++ mjoin (close_calls <$> reverse t.(entries)))).
Proof.
  intros []. unfold module_unload_all. erewrite bind_Ret by reflexivity. rewrite ht_count0, Nat2Z.id.
  destruct (unload_down_run (entries t) (length (entries t)) s) as (s' & E & Hl & Hc); [done|done|done|rewrite (take_ge (entries t)) by done; exact ht_slots0|].
  c_step E. eexists. split; [reflexivity|]. rewrite take_ge in Hc by done.
  constructor; simpl; try done; [lia|by rewrite Hc, ht_calls0].
Qed.

#[export] Instance modules_simulate : Simulates op_run op_spec op_ok holds_table.
Proof.
  intros o s t H Hok. destruct o as [n p|n| |fd cmd arg]; cbn [op_run op_spec].
  - by apply load_run.
  - by apply unload_run.
  - destruct (unload_all_run s t H) as (s' & E & H'). exists s'. by c_step E.
  - exists s. unfold module_dispatch. erewrite bind_Ret by reflexivity.
    rewrite (dispatch_from_run s t fd cmd arg H _ 0) by (rewrite (ht_count s t H); lia). by rewrite drop_0.
Qed.

(** ** Nothing is opened twice or left open *)

(** The objects that have been opened and not yet closed. *)
Definition step_open (o : gmultiset (list byte)) (c : call) : gmultiset (list byte) :=
  match c with Opened p => {[+ p +]} ⊎ o | Closed p => o ∖ {[+ p +]} | _ => o end.
Definition open_objects (cs : list call) : gmultiset (list byte) := foldl step_open ∅ cs.
Definition paths (l : list entry) : gmultiset (list byte) := list_to_set_disj (e_path <$> l).
Record table_ok (t : table) : Prop := {
  to_max : (length t.(entries) ≤ 16)%nat;
  to_names : NoDup (e_name <$> t.(entries));
  to_open : open_objects t.(trace) = paths t.(entries)
}.

Lemma swap_remove_perm i (l : list entry) e : l !! i = Some e → l ≡ₚ e :: swap_remove i l.
Proof.
  intros Hi. destruct (exists_last (l := l)) as (l' & x & ->); [by intros ->|].
  unfold swap_remove. rewrite last_snoc, length_app, Nat.add_sub. destruct (decide (i < length l')%nat).
  - rewrite lookup_app_l in Hi by done. rewrite insert_app_l, take_app_length' by (rewrite ?length_insert; done).
    rewrite <- (take_drop_middle l' i e Hi) at 1. rewrite insert_take_drop by done. solve_Permutation.
  - assert (i = length l') as -> by (apply lookup_lt_Some in Hi; rewrite length_app in Hi; simpl in Hi; lia).
    rewrite list_lookup_middle in Hi by done. injection Hi as ->. rewrite take_insert_ge, take_app_length by done.
    solve_Permutation.
Qed.
Lemma close_open (e : entry) o : foldl step_open ({[+ e.(e_path) +]} ⊎ o) (close_calls e) = o.
Proof. unfold close_calls. destruct (p_cleanup (e_plugin e)); simpl; multiset_solver. Qed.
Lemma close_all_open (l : list entry) : foldl step_open (paths l) (mjoin (close_calls <$> l)) = ∅.
Proof.
  induction l as [|e l IH]; [done|]. cbn [fmap list_fmap mjoin list_join]. rewrite foldl_app.
  unfold paths. cbn [fmap list_fmap list_to_set_disj]. rewrite close_open. exact IH.
Qed.

Lemma op_spec_ok o t : table_ok t → table_ok (op_spec o t).1.
Proof.
  intros H. pose proof H as [Hmax Hn Ho]. destruct o as [n p|n| |fd cmd arg]; cbn [op_spec]; [| | |done].
  - unfold load_spec. destruct (Z.leb_spec MAX_MODULES (Z.of_nat (length (entries t)))) as [|Hlt]; [done|].
    case_bool_decide as Hin; [done|]. destruct (dlopen p) as [pl|]; [|done].
    unfold MAX_MODULES in Hlt.
    assert (Happ : ∀ cs, foldl step_open (open_objects (trace t)) cs = {[+ p +]} ⊎ open_objects (trace t) →
      table_ok (Table (entries t ++ [Entry n p pl]) (trace t ++ cs))).
    { intros cs Hcs. constructor; simpl; [rewrite length_app; simpl; lia| |].
      - rewrite fmap_app. apply NoDup_app. split_and!; [done| |by apply NoDup_singleton].
        intros x Hx ->%list_elem_of_singleton. done.
      - unfold open_objects, paths. rewrite foldl_app, fmap_app, list_to_set_disj_app. fold (open_objects (trace t)).
        rewrite Hcs, Ho. unfold paths. simpl. multiset_solver. }
    destruct (p_init pl) as [r|]; [destruct (r =? 0)|]; [by apply Happ| |by apply Happ].
    constructor; simpl; [done|done|]. unfold open_objects. rewrite foldl_app. fold (open_objects (trace t)). rewrite <- Ho.
    simpl. multiset_solver.
  - unfold unload_spec. destruct (list_find _ _) as [[i e]|] eqn:Ef; [|done]. apply list_find_Some in Ef as (Hi & _ & _).
    pose proof (swap_remove_perm i _ e Hi) as Hp. constructor; cbn [fst entries trace].
    + apply Permutation_length in Hp. simpl in Hp. lia.
    + assert (Hp' : e_name <$> entries t ≡ₚ e_name e :: (e_name <$> swap_remove i (entries t))) by (by rewrite Hp at 1).
      rewrite Hp' in Hn. by apply NoDup_cons in Hn as [_ ?].
    + unfold open_objects. rewrite foldl_app. fold (open_objects (trace t)). rewrite Ho.
      assert (paths (entries t) = {[+ e_path e +]} ⊎ paths (swap_remove i (entries t))) as -> by (unfold paths; by rewrite Hp at 1).
      apply close_open.
  - constructor; simpl; [lia|constructor|]. unfold open_objects. rewrite foldl_app. fold (open_objects (trace t)). rewrite Ho.
    assert (paths (entries t) = paths (reverse (entries t))) as -> by (unfold paths; by rewrite reverse_Permutation).
    apply close_all_open.
Qed.
Lemma run_spec_ok ops : ∀ t, table_ok t → table_ok (run_spec op_spec ops t).1.
Proof.
  induction ops as [|o ops IH]; intros t H; [done|]. cbn [run_spec]. pose proof (op_spec_ok o t H) as H1.
  destruct (op_spec o t) as [t1 r]. pose proof (IH t1 H1) as H2. by destruct (run_spec op_spec ops t1).
Qed.

(** C22. The module manager: from [module_manager_init], any sequence of loads,
    unloads and dispatches with names of at most 63 bytes returns what the list of
    loaded modules gives, in bounds and without getting stuck; names stay
    distinct, at most 16 modules are loaded, and the shared objects opened and not
    closed are exactly those of the table. *)
Theorem modules_run_refines ops s : s.(calls) = [] → allowed op_spec op_ok ops (Table [] []) → ∃ s',
  let '(t, results) := run_spec op_spec ops (Table [] []) in
  run op_run ops (module_manager_init s) = Ret (results, s') ∧ holds_table s' t ∧
  (length t.(entries) ≤ 16)%nat ∧ NoDup (e_name <$> t.(entries)) ∧ open_objects s'.(calls) = paths t.(entries).
Proof.
  intros Hc Hok.
  assert (H0 : holds_table (module_manager_init s) (Table [] [])) by (constructor; simpl; try done; lia).
  destruct (sim_run op_run op_spec op_ok holds_table ops _ _ H0 Hok) as (s' & E & H').
  exists s'. pose proof (run_spec_ok ops (Table [] [])) as Hinv. destruct (run_spec op_spec ops _) as [t rs]. cbn [fst snd] in *.
  destruct Hinv as [Hmax Hn Ho]; [constructor; simpl; [lia|constructor|done]|].
  split_and!; [done|done|done|done|]. by rewrite (ht_calls s' t H').
Qed.

End spec.

(** The example plugin loaded alone takes the command "echo" and passes on another. *)
Example echo_takes :
  let load := module_load (λ q, if bool_decide (q = str "echo.so") then Some Echo.object else None) (Some (str "e")) (Some (str "echo.so")) in
  ∃ s1 s2 s3, load (module_manager_init (Mgr [] 0 [])) = Ret (0, s1) ∧
    module_dispatch 4 9 (str "echo") s1 = Ret (1, s2) ∧ module_dispatch 4 9 (str "list") s1 = Ret (0, s3).
Proof. do 3 eexists. split; [vm_compute; reflexivity|]. split; vm_compute; reflexivity. Qed.

(** ** A plugin like echo_module.c *)

Definition echo_plugin : plugin := Plugin (Some 0) true (Some (λ _ _ arg, if bool_decide (arg = str "echo") then 1 else 0)).
Definition echo_dl (p : list byte) : option plugin := if bool_decide (p = str "bad.so") then None else Some echo_plugin.
Definition no_modules : module_manager := Mgr [] 0 [].

(** A name of 64 bytes is stored truncated, so it is neither recognised as loaded
    nor found again. *)
Lemma long_name_loaded_twice : let n := replicate 64 x61 in ∃ s, run (op_run echo_dl) [Load n (str "a.so"); Load n (str "a.so"); Unload n] (module_manager_init no_modules) =
    Ret ([0; 0; -1], s).
Proof. eexists. vm_compute. reflexivity. Qed.

Lemma modules_run_refines_witness : ∃ s',
  run (op_run echo_dl) [Load (str "a") (str "a.so"); Load (str "a") (str "b.so"); Dispatch 1 2 (str "echo");
    Load (str "b") (str "bad.so"); Unload (str "a"); Dispatch 1 2 (str "echo")] (module_manager_init no_modules) =
    Ret ([0; -1; 1; -1; 0; 0], s') ∧ open_objects s'.(calls) = ∅.
Proof.
  destruct (modules_run_refines echo_dl [Load (str "a") (str "a.so"); Load (str "a") (str "b.so");
    Dispatch 1 2 (str "echo"); Load (str "b") (str "bad.so"); Unload (str "a"); Dispatch 1 2 (str "echo")] no_modules)
    as (s' & E & _ & _ & _ & Ho); [reflexivity|repeat split; vm_compute; discriminate|].
  exists s'. split; [exact E|exact Ho].
Defined.

End ModulesSpec.
