(* ===== verification/Slab.v ===== *)
(** * linux-file-server: the slab allocator (linux-file-server/src/mempool.c)

    Memory is a finite map from addresses to bytes, and the free list lives inside
    the free blocks as in the code: the first eight bytes of a free block are the
    address of the next one.  Access to an address that is not mapped, or to a
    pointer-sized object at an address that is not a multiple of eight, is
    undefined.  Every function holds the pool's mutex for its whole body, so a call
    is one step. *)

From S2P Require Import Prelude.

Module Slab.
#[local] Arguments Z.to_nat : simpl never.

(** ** Memory *)

Fixpoint rd (h : gmap Z byte) (a : Z) (n : nat) : option (list byte) :=
  match n with
  | O => Some []
  | S n' => b ← h !! a; l ← rd h (a + 1) n'; Some (b :: l)
  end.
Fixpoint wr (a : Z) (l : list byte) (h : gmap Z byte) : gmap Z byte :=
  match l with [] => h | b :: l' => <[a := b]> (wr (a + 1) l' h) end.

(** ** Data *)

Definition sizeof_block : Z := 8.
Record mempool := Pool {
  block_size : Z;      (* size_t *)
  total_blocks : Z;
  free_count : Z;
  free_list : Z;       (* 0 is NULL *)
  pool_base : Z
}.
Record world := World { heap : gmap Z byte; pools : gmap Z mempool }.

Definition rd_pool (a : Z) : C world mempool := λ w,
  match w.(pools) !! a with Some p => Ret (p, w) | None => UB end.
Definition set_pool (a : Z) (p : mempool) : C world unit := c_mod (λ w, World w.(heap) (<[a := p]> w.(pools))).
Definition rd_bytes (a : Z) (n : nat) : C world (list byte) := λ w,
  match rd w.(heap) a n with Some l => Ret (l, w) | None => UB end.
Definition wr_bytes (a : Z) (l : list byte) : C world unit :=
  rd_bytes a (length l);; c_mod (λ w, World (wr a l w.(heap)) w.(pools)).
(** [block->next]. *)
Definition rd_next (a : Z) : C world Z :=
  if negb (a `mod` 8 =? 0) then c_ub else l ← rd_bytes a 8; mret (le_combine l).
Definition wr_next (a v : Z) : C world unit :=
  if negb (a `mod` 8 =? 0) then c_ub else wr_bytes a (le_split 8 v).

(** ** Operations *)

(** The blocks are linked from the first to the last. *)
Fixpoint build_list (n : nat) (i base bs head : Z) : C world Z :=
  match n with
  | O => mret head
  | S n' =>
      let block := u64 (base + u64 (i * bs)) in
      wr_next block head;; build_list n' (i + 1) base bs block
  end.

(** What calloc and malloc return: [None] is NULL; [junk] is what the memory of
    malloc holds.  malloc maps the number of bytes it was asked for, which is
    [block_size * count] wrapped to 64 bits. *)
Definition mempool_create (calloc malloc : option Z) (junk : Z → byte) (bs count : Z) : C world Z :=
  let bs := if bs <? sizeof_block then sizeof_block else bs in
  match calloc with
  | None => mret 0
  | Some a =>
      match malloc with
      | None => mret 0
      | Some base =>
          let size := u64 (bs * count) in
          c_mod (λ w, World (wr base (junk <$> seqZ 0 size) w.(heap)) w.(pools));;
          head ← build_list (Z.to_nat count) 0 base bs 0;
          set_pool a (Pool bs count count head base);;
          mret a
      end
  end.

Definition mempool_alloc (a : Z) : C world Z :=
  if a =? 0 then mret 0 else
  p ← rd_pool a;
  if p.(free_list) =? 0 then mret 0 else
  next ← rd_next p.(free_list);
  set_pool a (Pool p.(block_size) p.(total_blocks) (u64 (p.(free_count) - 1)) next p.(pool_base));;
  mret p.(free_list).

Definition mempool_free (a ptr : Z) : C world unit :=
  if (a =? 0) || (ptr =? 0) then mret tt else
  p ← rd_pool a;
  wr_next ptr p.(free_list);;
  set_pool a (Pool p.(block_size) p.(total_blocks) (u64 (p.(free_count) + 1)) ptr p.(pool_base)).

(** free gives back the bytes malloc mapped. *)
Definition unmap (a size : Z) (h : gmap Z byte) : gmap Z byte :=
  filter (λ x, ¬ (a ≤ x.1 < a + size)) h.
Definition mempool_destroy (a : Z) : C world unit :=
  if a =? 0 then mret tt else
  p ← rd_pool a;
  c_mod (λ w, World (unmap p.(pool_base) (u64 (p.(block_size) * p.(total_blocks))) w.(heap)) (delete a w.(pools))).

Definition mempool_block_size (a : Z) : C world Z :=
  if a =? 0 then mret 0 else p ← rd_pool a; mret p.(block_size).
Definition mempool_total_blocks (a : Z) : C world Z :=
  if a =? 0 then mret 0 else p ← rd_pool a; mret p.(total_blocks).
Definition mempool_free_blocks (a : Z) : C world Z :=
  if a =? 0 then mret 0 else p ← rd_pool a; mret p.(free_count).

End Slab.
