(* ===== verification/SlabSpec.v ===== *)
(** * linux-file-server: the slab allocator hands out disjoint blocks

    The specification is a stack of free addresses and a map from the blocks in use
    to what the client last wrote there.  The allocator, whose free list lives in
    the free blocks, simulates it together with a client that writes to its blocks
    as it likes. *)

From S2P Require Import Prelude Simulation Slab.
Import Simulation Slab.

Module SlabSpec.
#[local] Arguments Z.to_nat : simpl never.
#[local] Arguments Z.mul : simpl never.
#[local] Arguments le_split : simpl never.

(** ** Memory *)

Definition len (l : list byte) : Z := Z.of_nat (length l).
(** The bytes from [a] on are [l]. *)
Definition holds (h : gmap Z byte) (a : Z) (l : list byte) : Prop := ∀ i : nat, (i < length l)%nat → h !! (a + Z.of_nat i) = l !! i.
Definition mapped (h : gmap Z byte) (a n : Z) : Prop := ∀ x, a ≤ x < a + n → is_Some (h !! x).

Lemma rd_holds h l : ∀ a, holds h a l → rd h a (length l) = Some l.
Proof.
  induction l as [|b l IH]; intros a H; [done|]. cbn [rd length].
  pose proof (H 0%nat ltac:(simpl; lia)) as H0. rewrite Z.add_0_r in H0. rewrite H0. cbn [lookup list_lookup mbind option_bind].
  rewrite IH; [done|]. intros i Hi. etrans; [|exact (H (S i) ltac:(simpl; lia))]. f_equal. lia.
Qed.
Lemma rd_mapped h n : ∀ a, mapped h a (Z.of_nat n) → is_Some (rd h a n).
Proof.
  induction n as [|n IH]; intros a H; [by eexists|]. cbn [rd].
  destruct (H a ltac:(lia)) as [b ->]. cbn [mbind option_bind].
  destruct (IH (a + 1)) as [l ->]; [|by eexists]. intros x Hx. apply H. lia.
Qed.
Lemma lookup_wr l h x : ∀ a, wr a l h !! x = if decide (a ≤ x < a + len l) then l !! Z.to_nat (x - a) else h !! x.
Proof.
  unfold len. induction l as [|b l IH]; intros a; cbn [wr length]; [by rewrite decide_False by lia|].
  destruct (decide (x = a)) as [->|Hx].
  - rewrite lookup_insert_eq, decide_True by lia. by rewrite Z.sub_diag.
  - rewrite lookup_insert_ne, IH by done. destruct (decide (a + 1 ≤ x < _)).
    + rewrite decide_True by lia. by replace (Z.to_nat (x - a)) with (S (Z.to_nat (x - (a + 1)))) by lia.
    + by rewrite decide_False by lia.
Qed.
Lemma holds_wr a l h : holds (wr a l h) a l.
Proof. intros i Hi. rewrite lookup_wr, decide_True by (unfold len; lia). f_equal. lia. Qed.
Lemma holds_wr_other a l h b l' : holds h b l' → b + len l' ≤ a ∨ a + len l ≤ b → holds (wr a l h) b l'.
Proof. unfold len. intros H Hd i Hi. rewrite lookup_wr, decide_False by (unfold len; lia). by apply H. Qed.
Lemma mapped_wr a l h b n : mapped h b n → mapped (wr a l h) b n.
Proof.
  intros H x Hx. rewrite lookup_wr. destruct (decide _); [|by apply H].
  apply lookup_lt_is_Some_2. unfold len in *. lia.
Qed.
Lemma unmap_wr b n a l h : b ≤ a → a + len l ≤ b + n → unmap b n (wr a l h) = unmap b n h.
Proof.
  intros H1 H2. unfold unmap. apply map_filter_strong_ext. intros i x. simpl. unfold len in *.
  split; intros [Hi Hx]; (split; [done|]); rewrite lookup_wr, decide_False in * by (unfold len; lia); done.
Qed.
Lemma holds_take h a l n : holds h a l → holds h a (take n l).
Proof.
  intros H i Hi. rewrite length_take in Hi. rewrite lookup_take_lt by lia. apply H. lia.
Qed.

(** ** Pointers in memory *)

Lemma len_ptr v : len (le_split 8 v) = 8.
Proof. unfold len. by rewrite length_le_split. Qed.
Definition holds_ptr (h : gmap Z byte) (a v : Z) : Prop := a `mod` 8 = 0 ∧ is_u64 v ∧ holds h a (le_split 8 v).

Lemma rd_next_run w a v : holds_ptr w.(heap) a v → rd_next a w = Ret (v, w).
Proof.
  intros (Ha & Hv & H). unfold rd_next. rewrite Ha. cbn [Z.eqb negb]. unfold mbind, C_bind, rd_bytes.
  apply rd_holds in H. rewrite length_le_split in H. rewrite H. unfold mret, C_ret.
  do 2 f_equal. rewrite le_combine_split. apply Z.mod_small. exact Hv.
Qed.
Lemma wr_bytes_run w a l : mapped w.(heap) a (len l) → wr_bytes a l w = Ret (tt, World (wr a l w.(heap)) w.(pools)).
Proof.
  intros H. apply rd_mapped in H as [l' H]. unfold wr_bytes, mbind, C_bind, rd_bytes. by rewrite H.
Qed.
Lemma wr_next_run w a v : a `mod` 8 = 0 → mapped w.(heap) a 8 →
  wr_next a v w = Ret (tt, World (wr a (le_split 8 v) w.(heap)) w.(pools)).
Proof. intros Ha H. unfold wr_next. rewrite Ha. by apply wr_bytes_run. Qed.

(** ** The specification *)

Record slab := SlabSt { free : list Z; used : gmap Z (option (list byte)) }.
Inductive op := Alloc | Free (p : Z) | Write (p : Z) (l : list byte) | Read (p : Z) (n : nat) | FreeBlocks.
Inductive res := Addr (p : Z) | Done | Bytes (l : list byte) | Count (n : Z).

Definition op_spec (o : op) (s : slab) : slab * res :=
  match o with
  | Alloc =>
      match s.(free) with
      | [] => (s, Addr 0)
      | p :: free' => (SlabSt free' (<[p := None]> s.(used)), Addr p)
      end
  | Free p => if p =? 0 then (s, Done) else (SlabSt (p :: s.(free)) (delete p s.(used)), Done)
  | Write p l => (SlabSt s.(free) (<[p := Some l]> s.(used)), Done)
  | Read p n => (s, Bytes (take n (default [] (mjoin (s.(used) !! p)))))
  | FreeBlocks => (s, Count (Z.of_nat (length s.(free))))
  end.

Section slab.
Context (a bs base : Z) (count : nat) (w0 : world).

(** The client frees and writes blocks in use, within their size, and reads back
    what it wrote. *)
Definition op_ok (s : slab) (o : op) : Prop :=
  match o with
  | Free p => p = 0 ∨ is_Some (s.(used) !! p)
  | Write p l => is_Some (s.(used) !! p) ∧ len l ≤ bs
  | Read p n => ∃ l, s.(used) !! p = Some (Some l) ∧ (n ≤ length l)%nat
  | _ => True
  end.
Definition op_run (o : op) : C world res :=
  match o with
  | Alloc => p ← mempool_alloc a; mret (Addr p)
  | Free p => mempool_free a p;; mret Done
  | Write p l => wr_bytes p l;; mret Done
  | Read p n => l ← rd_bytes p n; mret (Bytes l)
  | FreeBlocks => n ← mempool_free_blocks a; mret (Count n)
  end.

(** ** The relation *)

Definition block (i : nat) : Z := base + Z.of_nat i * bs.
Definition blocks : list Z := block <$> seq 0 count.
(** The pool and its region apart, the world is [w0].
    The free blocks are linked in order and the last one holds NULL. *)
Fixpoint linked (h : gmap Z byte) (l : list Z) : Prop :=
  match l with
  | [] => True
  | p :: l' => holds_ptr h p (default 0 (head l')) ∧ linked h l'
  end.
Record holds_slab (w : world) (s : slab) : Prop := {
  hs_pool : w.(pools) !! a = Some (Pool bs (Z.of_nat count) (Z.of_nat (length s.(free))) (default 0 (head s.(free))) base);
  hs_blocks : s.(free) ++ (map_to_list s.(used)).*1 ≡ₚ blocks;
  hs_linked : linked w.(heap) s.(free);
  hs_mapped : mapped w.(heap) base (Z.of_nat count * bs);
  hs_frame : World (unmap base (Z.of_nat count * bs) w.(heap)) (delete a w.(pools)) = w0;
  hs_used : ∀ p l, s.(used) !! p = Some (Some l) → len l ≤ bs ∧ holds w.(heap) p l
}.

(** The region malloc returned: blocks of a multiple of eight bytes, nowhere near
    the ends of the address space. *)
Record region_ok : Prop := {
  ro_pool : a ≠ 0;
  ro_base : 0 < base ∧ base + Z.of_nat count * bs ≤ 2 ^ 64 ∧ base `mod` 8 = 0;
  ro_size : 8 ≤ bs ∧ bs `mod` 8 = 0
}.
Context (Hok : region_ok).

Lemma block_range p : p ∈ blocks → 0 < p ∧ base ≤ p ∧ p + bs ≤ base + Z.of_nat count * bs ∧ p < 2 ^ 64 ∧ p `mod` 8 = 0.
Proof.
  destruct Hok as [_ (Hb & He & Hm) (Hs & Hsm)].
  intros (i & -> & Hi)%list_elem_of_fmap. apply elem_of_seq in Hi. unfold block.
  assert (Z.of_nat i * bs + bs ≤ Z.of_nat count * bs) by nia. split_and!; try nia.
  rewrite Z.add_mod, Hm, Z.mul_mod, Hsm by lia. by rewrite Z.mul_0_r.
Qed.
Lemma block_apart p q : p ∈ blocks → q ∈ blocks → p ≠ q → p + bs ≤ q ∨ q + bs ≤ p.
Proof.
  destruct Hok as [_ _ (Hs & _)].
  intros (i & -> & _)%list_elem_of_fmap (j & -> & _)%list_elem_of_fmap Hne. unfold block in *.
  destruct (decide (i < j)%nat); [left; nia|]. destruct (decide (i = j)) as [->|]; [done|]. right. nia.
Qed.
Lemma blocks_nodup : NoDup blocks.
Proof.
  destruct Hok as [_ _ (Hs & _)]. apply NoDup_fmap_2_strong; [|apply NoDup_seq].
  intros i j _ _ H. unfold block in H. nia.
Qed.

Lemma used_block w s p x : holds_slab w s → s.(used) !! p = Some x → p ∈ blocks ∧ p ∉ s.(free).
Proof.
  intros H Hp. pose proof (hs_blocks w s H) as Hb.
  assert (Hin : p ∈ (map_to_list (used s)).*1) by (apply list_elem_of_fmap; exists (p, x); split; [done|by apply elem_of_map_to_list]).
  split; [rewrite <- Hb; apply elem_of_app; by right|]. intros Hf.
  pose proof blocks_nodup as Hn. rewrite <- Hb in Hn. apply NoDup_app in Hn as (_ & Hn & _). by apply (Hn p).
Qed.
Lemma free_block w s p : holds_slab w s → p ∈ s.(free) → p ∈ blocks ∧ s.(used) !! p = None.
Proof.
  intros H Hp. split; [rewrite <- (hs_blocks w s H); apply elem_of_app; by left|].
  destruct (used s !! p) as [x|] eqn:E; [|done]. by destruct (used_block w s p x H E).
Qed.
Lemma block_mapped w s p n : holds_slab w s → p ∈ blocks → n ≤ bs → mapped w.(heap) p n.
Proof. intros H Hp Hn x Hx. apply block_range in Hp. apply (hs_mapped w s H). lia. Qed.
Lemma head_block_u64 l : (∀ q, q ∈ l → q ∈ blocks) → is_u64 (default 0 (head l)).
Proof.
  intros H. unfold is_u64. destruct l as [|p l]; cbn [hd_error from_option id]; [lia|].
  pose proof (block_range p (H p ltac:(by left))). lia.
Qed.
Lemma head_u64 w s : holds_slab w s → is_u64 (default 0 (head s.(free))).
Proof. intros H. apply head_block_u64. intros q Hq. by apply (free_block w s q H). Qed.
Lemma free_length w s : holds_slab w s → Z.of_nat (length s.(free)) + Z.of_nat (size s.(used)) = Z.of_nat count.
Proof.
  intros H. pose proof (Permutation_length (hs_blocks w s H)) as E. unfold blocks in E.
  rewrite length_app, !length_fmap, length_seq, length_map_to_list in E. lia.
Qed.
Lemma count_u64 : Z.of_nat count < 2 ^ 64.
Proof. destruct Hok as [_ (? & ? & _) (? & _)]. nia. Qed.

(** Writing inside a block leaves the pointers in the others alone. *)
Lemma linked_wr h p x l : p ∈ blocks → len x ≤ bs → p ∉ l → (∀ q, q ∈ l → q ∈ blocks) → linked h l → linked (wr p x h) l.
Proof.
  intros Hp Hx. induction l as [|q l IH]; intros Hni Hl H; [done|]. destruct H as [(Hm & Hu & Hq) H].
  apply not_elem_of_cons in Hni as [Hne Hni].
  split; [|apply IH; [done|intros; apply Hl; by right|done]]. split_and!; [done|done|].
  apply holds_wr_other; [done|]. rewrite len_ptr.
  destruct Hok as [_ _ (Hs & _)]. destruct (block_apart q p) as [|]; [apply Hl; by left|done|done| |]; lia.
Qed.
Lemma used_wr w s p x q l : holds_slab w s → p ∈ blocks → len x ≤ bs → q ≠ p → s.(used) !! q = Some (Some l) →
  len l ≤ bs ∧ holds (wr p x w.(heap)) q l.
Proof.
  intros H Hp Hx Hne Hq. destruct (hs_used w s H q l Hq) as [Hl Hh]. split; [done|].
  apply holds_wr_other; [done|]. destruct (used_block w s q _ H Hq) as [Hqb _].
  destruct (block_apart q p) as [|]; [done|done|done| |]; lia.
Qed.

Definition pool_of (s : slab) : mempool :=
  Pool bs (Z.of_nat count) (Z.of_nat (length s.(free))) (default 0 (head s.(free))) base.
Lemma rd_pool_run w s : holds_slab w s → rd_pool a w = Ret (pool_of s, w).
Proof. intros H. unfold rd_pool. by rewrite (hs_pool w s H). Qed.
Lemma not_null : (a =? 0) = false.
Proof. apply Z.eqb_neq, (ro_pool Hok). Qed.

Lemma slab_alloc_run w s : holds_slab w s → ∃ w', op_run Alloc w = Ret ((op_spec Alloc s).2, w') ∧ holds_slab w' (op_spec Alloc s).1.
Proof.
  intros H. pose proof H as [Hpool Hblocks Hlinked Hmapped Hframe Hused]. cbn [op_run op_spec]. unfold mempool_alloc.
  rewrite not_null. destruct s as [[|p fr] us]; cbn [free used] in *.
  - exists w. erewrite bind_Ret; [|c_step (rd_pool_run w _ H); reflexivity]. done.
  - destruct (free_block w _ p H ltac:(by left)) as [Hp Hpu]. pose proof (block_range p Hp) as Hr. cbn [used] in Hpu.
    destruct Hlinked as [Hh Hlinked]. eexists. split.
    + erewrite bind_Ret; [|c_step (rd_pool_run w _ H); cbn [pool_of free_list free hd_error from_option id];
        rewrite (proj2 (Z.eqb_neq p 0)) by lia; c_step (rd_next_run w p _ Hh); reflexivity].
      reflexivity.
    + pose proof (free_length w _ H) as Hl. pose proof count_u64. cbn [free used length] in Hl.
      constructor; cbn [pool_of block_size total_blocks free_count free_list pool_base fst free used heap pools]; [rewrite lookup_insert_eq| |done|done|by rewrite delete_insert_eq|].
      * cbn [length]. rewrite u64_small by lia. do 2 f_equal. lia.
      * rewrite <- Hblocks, map_to_list_insert by done. cbn [fmap list_fmap fst]. solve_Permutation.
      * intros q l. rewrite lookup_insert. destruct (decide (p = q)); [done|]. apply Hused.
Qed.

Lemma slab_free_run p w s : holds_slab w s → op_ok s (Free p) →
  ∃ w', op_run (Free p) w = Ret ((op_spec (Free p) s).2, w') ∧ holds_slab w' (op_spec (Free p) s).1.
Proof.
  intros H Hp. pose proof H as [Hpool Hblocks Hlinked Hmapped Hframe Hused]. cbn [op_run op_spec]. unfold mempool_free.
  rewrite not_null. cbn [orb]. destruct (Z.eqb_spec p 0) as [->|Hp0]; [by exists w|].
  destruct Hp as [?|[x Hx]]; [done|]. destruct (used_block w s p x H Hx) as [Hb Hni].
  pose proof (block_range p Hb) as Hr. pose proof (ro_size Hok) as [Hs _].
  assert (Hdel : used s = <[p := x]> (delete p (used s))) by (by rewrite insert_delete_id).
  eexists. split.
  - erewrite bind_Ret; [|c_step (rd_pool_run w s H); erewrite bind_Ret by
      (apply wr_next_run; [lia|by apply (block_mapped w s)]); reflexivity].
    reflexivity.
  - pose proof (free_length w s H) as Hl. pose proof count_u64. pose proof (head_u64 w s H) as Hhd.
    assert (size (used s) = S (size (delete p (used s)))) as Hsz.
    { rewrite Hdel at 1. by rewrite map_size_insert_None by apply lookup_delete_eq. }
    constructor; cbn [pool_of block_size total_blocks free_count free_list pool_base fst free used heap pools length hd_error from_option id]; [rewrite lookup_insert_eq| | | | |].
    + rewrite u64_small by lia. do 2 f_equal. lia.
    + rewrite <- Hblocks. rewrite Hdel at 2. rewrite map_to_list_insert by apply lookup_delete_eq. cbn [fmap list_fmap fst].
      solve_Permutation.
    + split; [split_and!; [lia|done|]|].
      * apply holds_wr.
      * apply linked_wr; [done|rewrite len_ptr; lia|done| |done].
        intros q Hq. by apply (free_block w s q H).
    + by apply mapped_wr.
    + rewrite delete_insert_eq, unmap_wr by (rewrite ?len_ptr; lia). done.
    + intros q l. rewrite lookup_delete. destruct (decide (p = q)); [done|]. intros Hq.
      apply (used_wr w s p _ q l); [done|done|rewrite len_ptr; lia|done|done].
Qed.

Lemma write_run p l w s : holds_slab w s → op_ok s (Write p l) →
  ∃ w', op_run (Write p l) w = Ret (Done, w') ∧ holds_slab w' (op_spec (Write p l) s).1.
Proof.
  intros H [[x Hx] Hlen]. pose proof H as [Hpool Hblocks Hlinked Hmapped Hframe Hused].
  destruct (used_block w s p x H Hx) as [Hb Hni]. eexists. split.
  - cbn [op_run]. by c_step (wr_bytes_run w p l (block_mapped w s p _ H Hb Hlen)).
  - cbn [op_spec]. constructor; cbn [pool_of block_size total_blocks free_count free_list pool_base fst free used heap pools]; [done| | | | |].
    + rewrite <- Hblocks. rewrite <- (insert_delete_id (used s) p x Hx) at 2. rewrite <- insert_delete_eq.
      rewrite !map_to_list_insert by apply lookup_delete_eq. done.
    + apply linked_wr; [done|done|done| |done]. intros q Hq. by apply (free_block w s q H).
    + by apply mapped_wr.
    + apply block_range in Hb. by rewrite unmap_wr by lia.
    + intros q l'. rewrite lookup_insert. destruct (decide (p = q)) as [<-|Hne].
      * intros [= <-]. split; [done|]. apply holds_wr.
      * intros Hq. by apply (used_wr w s p l q l').
Qed.

Lemma read_run p n w s : holds_slab w s → op_ok s (Read p n) →
  op_run (Read p n) w = Ret ((op_spec (Read p n) s).2, w).
Proof.
  intros H (l & Hl & Hn). cbn [op_run op_spec snd]. rewrite Hl. cbn [mjoin option_join default].
  destruct (hs_used w s H p l Hl) as [_ Hh]. apply (holds_take _ _ _ n), rd_holds in Hh. rewrite length_take_le in Hh by done.
  unfold mbind, C_bind, rd_bytes. by rewrite Hh.
Qed.

#[export] Instance slab_simulates : Simulates op_run op_spec op_ok holds_slab.
Proof.
  intros o w s H Ho. destruct o as [|p|p l|p n|].
  - by apply slab_alloc_run.
  - by apply slab_free_run.
  - by apply write_run.
  - exists w. by rewrite (read_run p n w s H Ho).
  - exists w. split; [|done]. cbn [op_run op_spec]. unfold mempool_free_blocks. rewrite not_null.
    erewrite bind_Ret; [|by c_step (rd_pool_run w s H)]. done.
Qed.

(** ** Creation *)

Lemma build_list_run n : ∀ (i : nat) w l head, (i + n = count)%nat →
  mapped w.(heap) base (Z.of_nat count * bs) → linked w.(heap) l → head = default 0 (hd_error l) →
  l = reverse (block <$> seq 0 i) → ∃ w',
  build_list n (Z.of_nat i) base bs head w = Ret (default 0 (hd_error (reverse blocks)), w') ∧
  linked w'.(heap) (reverse blocks) ∧ mapped w'.(heap) base (Z.of_nat count * bs) ∧ w'.(pools) = w.(pools) ∧
  unmap base (Z.of_nat count * bs) w'.(heap) = unmap base (Z.of_nat count * bs) w.(heap).
Proof.
  induction n as [|n IH]; intros i w l hd' Hi Hm Hl -> ->.
  - replace i with count in * by lia. exists w. done.
  - cbn [build_list].
    assert (Hin : block i ∈ blocks) by (apply list_elem_of_fmap; exists i; split; [done|apply elem_of_seq; lia]).
    pose proof (block_range _ Hin) as Hr. pose proof (ro_size Hok) as [Hs _]. pose proof (ro_base Hok) as (Hb & _).
    assert (Hu : u64 (base + u64 (Z.of_nat i * bs)) = block i).
    { unfold block in *. rewrite (u64_small (_ * _)) by nia. apply u64_small. lia. }
    rewrite Hu. erewrite bind_Ret; [|apply wr_next_run; [lia|intros x Hx; apply Hm; lia]].
    replace (Z.of_nat i + 1) with (Z.of_nat (S i)) by lia.
    assert (Hsub : ∀ q, q ∈ reverse (block <$> seq 0 i) → q ∈ blocks).
    { intros q (j & -> & Hj)%elem_of_reverse%list_elem_of_fmap. apply elem_of_seq in Hj.
      apply list_elem_of_fmap. exists j. split; [done|]. apply elem_of_seq. lia. }
    assert (Hni : block i ∉ reverse (block <$> seq 0 i)).
    { intros (j & Hj & Hj')%elem_of_reverse%list_elem_of_fmap. apply elem_of_seq in Hj'. unfold block in Hj. nia. }
    match goal with |- context [build_list n _ _ _ _ ?w1] =>
      destruct (IH (S i) w1 (block i :: reverse (block <$> seq 0 i)) (block i)) as (w' & E & H1 & H2 & H3 & H4) end;
      [lia|by apply mapped_wr| |done|by rewrite seq_S, fmap_app, reverse_app|exists w'; split_and!; [exact E|done|done|done|]].
    2:{ rewrite H4. cbn [heap]. by rewrite unmap_wr by (rewrite ?len_ptr; lia). }
    split; [split_and!; [lia| |apply holds_wr]|by apply linked_wr; [done|rewrite len_ptr; lia|done|done|done]].
    by apply head_block_u64.
Qed.

(** The pool that [mempool_create] makes: every block free, the last one first. *)
Definition fresh_slab : slab := SlabSt (reverse blocks) ∅.
(** calloc and malloc return memory that is not in use. *)
Definition unused : Prop := w0.(pools) !! a = None ∧ ∀ x, base ≤ x < base + Z.of_nat count * bs → w0.(heap) !! x = None.
Lemma mempool_create_run junk req : bs = (if req <? sizeof_block then sizeof_block else req) → Z.of_nat count * bs < 2 ^ 64 →
  unused → ∃ w', mempool_create (Some a) (Some base) junk req (Z.of_nat count) w0 = Ret (a, w') ∧ holds_slab w' fresh_slab.
Proof.
  intros Hbs Hsz [Hfa Hfb]. unfold mempool_create. rewrite <- Hbs. erewrite bind_Ret by reflexivity. rewrite Nat2Z.id.
  pose proof (ro_size Hok) as [Hs _]. rewrite u64_small by nia.
  match goal with |- context [(_ ≫= _) ?w1] =>
    destruct (build_list_run count 0 w1 [] 0) as (w' & E & Hl & Hm & Hp & Hf) end; [lia| |done|done|done|].
  { cbn [heap]. intros x Hx. rewrite lookup_wr, decide_True.
    - apply lookup_lt_is_Some_2. rewrite length_fmap, length_seqZ. lia.
    - unfold len. rewrite length_fmap, length_seqZ. lia. }
  c_step E. erewrite bind_Ret by reflexivity. eexists. split; [reflexivity|]. constructor; cbn [heap pools fresh_slab free used].
  - rewrite lookup_insert_eq. unfold blocks. by rewrite length_reverse, length_fmap, length_seq.
  - rewrite map_to_list_empty, app_nil_r. apply reverse_Permutation.
  - done.
  - done.
  - rewrite Hf, Hp. cbn [heap pools]. rewrite unmap_wr by (unfold len; rewrite ?length_fmap, ?length_seqZ; nia).
    rewrite delete_insert_id by done. unfold unmap. rewrite map_filter_id; [by destruct w0|].
    intros i x Hi Hr. simpl in Hr. by rewrite Hfb in Hi by lia.
  - done.
Qed.
Lemma slab_destroy_run w s : holds_slab w s → Z.of_nat count * bs < 2 ^ 64 → mempool_destroy a w = Ret (tt, w0).
Proof.
  intros H Hsz. unfold mempool_destroy. rewrite not_null. c_step (rd_pool_run w s H). unfold c_mod.
  cbn [pool_of pool_base block_size total_blocks]. pose proof (ro_size Hok) as [Hs _].
  rewrite (Z.mul_comm bs), u64_small by nia. by rewrite (hs_frame w s H).
Qed.

(** C23. The slab allocator: a pool made by [mempool_create] (block size rounded up
    to eight and a multiple of eight, [block_size * count] below 2^64) and a client
    that allocates, frees blocks in use or NULL, and writes and reads its blocks:
    every call returns what the stack of free blocks gives without leaving the
    region, the blocks in use are disjoint and inside the region, reading gives
    back what was written whatever else happened in between, and destroying the
    pool leaves the memory as it was before. *)
Theorem slab_run_refines junk req ops :
  bs = (if req <? sizeof_block then sizeof_block else req) → Z.of_nat count * bs < 2 ^ 64 → unused →
  allowed op_spec op_ok ops fresh_slab → ∃ w1 w2,
  let '(s, results) := run_spec op_spec ops fresh_slab in
  mempool_create (Some a) (Some base) junk req (Z.of_nat count) w0 = Ret (a, w1) ∧
  run op_run ops w1 = Ret (results, w2) ∧ mempool_destroy a w2 = Ret (tt, w0) ∧
  Z.of_nat (length s.(free)) + Z.of_nat (size s.(used)) = Z.of_nat count ∧
  (∀ p, is_Some (s.(used) !! p) → p ∉ s.(free) ∧ base ≤ p ∧ p + bs ≤ base + Z.of_nat count * bs) ∧
  (∀ p q, is_Some (s.(used) !! p) → is_Some (s.(used) !! q) → p ≠ q → p + bs ≤ q ∨ q + bs ≤ p).
Proof.
  intros Hbs Hsz Hun Hops. destruct (mempool_create_run junk req Hbs Hsz Hun) as (w1 & E1 & H1).
  destruct (sim_run op_run op_spec op_ok holds_slab ops w1 fresh_slab H1 Hops) as (w2 & E2 & H2).
  exists w1, w2. destruct (run_spec op_spec ops fresh_slab) as [s rs]. cbn [fst snd] in *.
  split_and!; [done|done|by eapply slab_destroy_run|by apply (free_length w2)| |].
  - intros p [x Hp]. destruct (used_block w2 s p x H2 Hp) as [Hb Hf]. apply block_range in Hb. split; [done|lia].
  - intros p q [x Hp] [y Hq]. apply block_apart; [by destruct (used_block w2 s p x)|by destruct (used_block w2 s q y)].
Qed.

(** A block that is freed twice is linked to itself: from then on every allocation
    returns it, and the other free blocks are lost. *)
Fixpoint alloc_n (n : nat) : C world (list Z) :=
  match n with O => mret [] | S n' => p ← mempool_alloc a; ps ← alloc_n n'; mret (p :: ps) end.
Lemma self_linked n p : p ≠ 0 → ∀ w st, w.(pools) !! a = Some st → st.(free_list) = p → holds_ptr w.(heap) p p →
  ∃ w', alloc_n n w = Ret (replicate n p, w').
Proof.
  intros Hp. induction n as [|n IH]; intros w st Hst Hf Hh; [by exists w|]. cbn [alloc_n].
  assert (E : ∃ w' st', mempool_alloc a w = Ret (p, w') ∧ w'.(pools) !! a = Some st' ∧ st'.(free_list) = p ∧ holds_ptr w'.(heap) p p).
  { unfold mempool_alloc. rewrite not_null. erewrite bind_Ret by (unfold rd_pool; by rewrite Hst).
    rewrite Hf, (proj2 (Z.eqb_neq p 0)) by done. c_step (rd_next_run w p p Hh). erewrite bind_Ret by reflexivity.
    eexists _, _. split; [reflexivity|]. cbn [pools heap]. by rewrite lookup_insert_eq. }
  destruct E as (w1 & st1 & E & Hst1 & Hf1 & Hh1). destruct (IH w1 st1 Hst1 Hf1 Hh1) as [w2 E2].
  exists w2. c_step E. by c_step E2.
Qed.

Lemma double_free_aliases p x w s : holds_slab w s → s.(used) !! p = Some x → ∃ w1,
  (mempool_free a p;; mempool_free a p) w = Ret (tt, w1) ∧ ∀ n, ∃ w2, alloc_n n w1 = Ret (replicate n p, w2).
Proof.
  intros H Hx. destruct (used_block w s p x H Hx) as [Hb _]. pose proof (block_range p Hb) as Hr. pose proof (ro_size Hok) as [Hs _].
  destruct (slab_free_run p w s H (or_intror (ex_intro _ x Hx))) as (w1 & E1 & H1).
  assert (E1' : mempool_free a p w = Ret (tt, w1)).
  { cbn [op_run] in E1. apply bind_inv in E1 as ([] & w' & E & [= ? ->]). exact E. }
  assert (Es : (op_spec (Free p) s).1 = SlabSt (p :: s.(free)) (delete p s.(used)))
    by (cbn [op_spec]; by rewrite (proj2 (Z.eqb_neq p 0)) by lia). rewrite Es in H1.
  c_step E1'. unfold mempool_free. rewrite not_null, (proj2 (Z.eqb_neq p 0)) by lia. cbn [orb].
  c_step (rd_pool_run w1 _ H1). erewrite bind_Ret; [|apply wr_next_run; [lia|by apply (block_mapped w1 _ p 8 H1)]].
  eexists. split; [reflexivity|]. intros n. eapply (self_linked n p); [lia|apply lookup_insert_eq|done|].
  cbn [heap]. split_and!; [lia| |].
  - cbn [pool_of free_list free hd_error from_option id]. unfold is_u64. lia.
  - apply holds_wr.
Qed.

End slab.

(** ** Pools that cannot be made *)

Definition no_pools : world := World ∅ ∅.
(** [block_size * count] wraps to zero: the list is built outside the memory. *)
Lemma create_overflow_ub : mempool_create (Some 16) (Some 4096) (λ _, x00) (2 ^ 61) 8 no_pools = UB.
Proof. vm_compute. reflexivity. Qed.
(** A block size that is not a multiple of eight misaligns the second block. *)
Lemma create_misaligned_ub : mempool_create (Some 16) (Some 4096) (λ _, x00) 12 2 no_pools = UB.
Proof. vm_compute. reflexivity. Qed.

Lemma slab_run_refines_witness :
  let ops := [Alloc; Write 4128 (str "data"); Alloc; Free 4128; Write 4112 (str "abcdefgh"); Alloc; Alloc; Read 4112 8; FreeBlocks] in
  ∃ w1 w2, mempool_create (Some 16) (Some 4096) (λ _, x00) 16 3 no_pools = Ret (16, w1) ∧ mempool_destroy 16 w2 = Ret (tt, no_pools) ∧
    run (op_run 16) ops w1 =
      Ret ([Addr 4128; Done; Addr 4112; Done; Done; Addr 4128; Addr 4096; Bytes (str "abcdefgh"); Count 0], w2).
Proof.
  intros ops. destruct (slab_run_refines 16 16 4096 3 no_pools ltac:(split; [done|by split_and!|by split]) (λ _, x00) 16 ops)
    as (w1 & w2 & E1 & E2 & E3 & _).
  - reflexivity.
  - reflexivity.
  - by split.
  - repeat split; vm_compute; eauto; try discriminate.
  - exists w1, w2. split; [exact E1|split; [exact E3|exact E2]].
Defined.

End SlabSpec.
