(* ===== verification/Queue.v ===== *)
(** * Bounded queues: the interface of the connection queues

    [Fifo] is what a server's accept loop and its workers rely on: a bounded
    queue that accepts until it is full and hands out in order, waiting when it is
    empty.  The theorems on interleavings are proved against the interface; the
    web server's and the proxy's circular buffers are its instances. *)

From S2P Require Import Prelude.

Module Queue.
#[local] Arguments Z.to_nat : simpl never.

(** ** The interface *)

Class Fifo (Q A : Type) := {
  fifo_ok : Q → Prop;
  fifo_list : Q → list A;
  fifo_cap : Q → Z;
  (* whether the element was taken in *)
  fifo_put : A → Q → outcome (bool * Q);
  (* [None] is no element; [Blocked] is the wait for one *)
  fifo_take : Q → outcome (option A * Q);
  fifo_put_law : ∀ q a, fifo_ok q →
    if decide (Z.of_nat (length (fifo_list q)) < fifo_cap q)
    then ∃ q', fifo_put a q = Ret (true, q') ∧ fifo_ok q' ∧ fifo_list q' = fifo_list q ++ [a] ∧
           fifo_cap q' = fifo_cap q
    else fifo_put a q = Ret (false, q);
  fifo_take_law : ∀ q, fifo_ok q →
    match fifo_list q with
    | a :: l => ∃ q', fifo_take q = Ret (Some a, q') ∧ fifo_ok q' ∧ fifo_list q' = l ∧
                  fifo_cap q' = fifo_cap q
    | [] => fifo_take q = Blocked ∨ fifo_take q = Ret (None, q)
    end
}.

(** ** Interleavings *)

(** Producers, consumers and changes of the rest of the state (a stop request),
    with the histories of accepted, refused and taken elements. *)
Record history (Q A : Type) := History {
  queue : Q; accepted : list A; refused : list A; taken : list A
}.
Arguments History {Q A} _ _ _ _.
Arguments queue {Q A} _.
Arguments accepted {Q A} _.
Arguments refused {Q A} _.
Arguments taken {Q A} _.

Section system.
Context `{Fifo Q A} (other : Q → Q → Prop).

Inductive step : history Q A → history Q A → Prop :=
  | step_accept q p r t a q' : fifo_put a q = Ret (true, q') →
      step (History q p r t) (History q' (p ++ [a]) r t)
  | step_refuse q p r t a q' : fifo_put a q = Ret (false, q') →
      step (History q p r t) (History q' p (r ++ [a]) t)
  | step_take q p r t a q' : fifo_take q = Ret (Some a, q') →
      step (History q p r t) (History q' p r (t ++ [a]))
  | step_none q p r t q' : fifo_take q = Ret (None, q') → step (History q p r t) (History q' p r t)
  | step_other q p r t q' : other q q' → step (History q p r t) (History q' p r t).
Inductive reach (h : history Q A) : history Q A → Prop :=
  | reach_refl : reach h h
  | reach_step h1 h2 : reach h h1 → step h1 h2 → reach h h2.

Hypothesis other_law : ∀ q q', other q q' → fifo_ok q →
  fifo_ok q' ∧ fifo_list q' = fifo_list q ∧ fifo_cap q' = fifo_cap q.

Definition good (cap : Z) (h : history Q A) : Prop :=
  fifo_ok h.(queue) ∧ h.(taken) ++ fifo_list h.(queue) = h.(accepted) ∧ fifo_cap h.(queue) = cap.

Lemma put_cases q a b q' : fifo_ok q → fifo_put a q = Ret (b, q') →
  if b then fifo_ok q' ∧ fifo_list q' = fifo_list q ++ [a] ∧ fifo_cap q' = fifo_cap q
  else q' = q ∧ fifo_cap q ≤ Z.of_nat (length (fifo_list q)).
Proof.
  intros Hok E. pose proof (fifo_put_law q a Hok) as Hl. case_decide.
  - destruct Hl as (x & E' & ?). rewrite E in E'. by injection E' as -> ->.
  - rewrite E in Hl. injection Hl as -> ->. split; [done|lia].
Qed.
Lemma take_cases q o q' : fifo_ok q → fifo_take q = Ret (o, q') →
  match o with
  | Some a => fifo_ok q' ∧ fifo_list q = a :: fifo_list q' ∧ fifo_cap q' = fifo_cap q
  | None => q' = q ∧ fifo_list q = []
  end.
Proof.
  intros Hok E. pose proof (fifo_take_law q Hok) as Hl. destruct (fifo_list q) as [|a l].
  - destruct Hl as [Hl|Hl]; rewrite E in Hl; [done|]. by injection Hl as -> ->.
  - destruct Hl as (x & E' & ? & <- & ?). rewrite E in E'. by injection E' as -> ->.
Qed.

Lemma step_good cap h h' : step h h' → good cap h → good cap h'.
Proof.
  intros Hs (Hok & Hq & Hc). destruct Hs as [q p r t a q' E|q p r t a q' E|q p r t a q' E|q p r t q' E|q p r t q' E];
    unfold good; simpl in *.
  - destruct (put_cases q a true q' Hok E) as (? & Hl & ?). split_and!; [done| |congruence].
    by rewrite Hl, (assoc_L (++)), Hq.
  - by destruct (put_cases q a false q' Hok E) as [-> _].
  - destruct (take_cases q (Some a) q' Hok E) as (? & Hl & ?). split_and!; [done| |congruence].
    by rewrite <- Hq, Hl, <- (assoc_L (++)).
  - by destruct (take_cases q None q' Hok E) as [-> _].
  - destruct (other_law q q' E Hok) as (? & Hl & ?). split_and!; [done| |congruence]. by rewrite Hl.
Qed.
Lemma reach_good cap h h' : reach h h' → good cap h → good cap h'.
Proof. induction 1 as [|h1 h2 _ IH Hs]; [done|]. intros Hg. by apply (step_good cap h1), IH. Qed.

(** Elements are handed out in the order they were accepted, each once, no
    operation is undefined, and an element is refused only by a full queue. *)
Lemma fifo_history q0 h : fifo_ok q0 → fifo_list q0 = [] → reach (History q0 [] [] []) h →
  h.(taken) ++ fifo_list h.(queue) = h.(accepted) ∧
  (∀ a, fifo_put a h.(queue) ≠ UB) ∧ fifo_take h.(queue) ≠ UB ∧
  ∀ h', step h h' → h'.(refused) ≠ h.(refused) → fifo_cap q0 ≤ Z.of_nat (length (fifo_list h.(queue))).
Proof.
  intros Hok Hnil Hr. destruct (reach_good (fifo_cap q0) _ _ Hr) as (Hok' & Hq & Hc); [by split|].
  split_and!; [done| | |].
  - intros a E. pose proof (fifo_put_law (queue h) a Hok') as Hl. rewrite E in Hl.
    case_decide; [by destruct Hl as (? & ? & _)|done].
  - intros E. pose proof (fifo_take_law (queue h) Hok') as Hl. rewrite E in Hl.
    destruct (fifo_list (queue h)); [by destruct Hl|by destruct Hl as (? & ? & _)].
  - intros h' Hs Hne. destruct Hs; simpl in *; try done.
    match goal with E : fifo_put _ _ = Ret (false, _) |- _ => apply put_cases in E; [|done] end. lia.
Qed.

End system.

(** ** Circular buffers *)

(** [n] elements from slot [head] of an array of [cap] slots; the next goes to
    slot [tail]. *)
Record ring_ok {A} (arr : list A) (cap head tail n : Z) : Prop := {
  ro_cap : 0 < cap;
  ro_len : length arr = Z.to_nat cap;
  ro_head : 0 ≤ head < cap;
  ro_size : 0 ≤ n ≤ cap;
  ro_tail : tail = (head + n) `mod` cap
}.
Lemma ring_ok_length {A} (arr : list A) cap head tail n : ring_ok arr cap head tail n →
  Z.of_nat (length (ring_list arr cap head n)) = n.
Proof. intros []. rewrite ring_list_length by (done || lia). lia. Qed.
Lemma ring_ok_put {A} (arr : list A) cap head tail n x : ring_ok arr cap head tail n → n < cap →
  is_Some (arr !! Z.to_nat tail) ∧
  ring_ok (<[Z.to_nat tail := x]> arr) cap head ((tail + 1) `mod` cap) (n + 1) ∧
  ring_list (<[Z.to_nat tail := x]> arr) cap head (n + 1) = ring_list arr cap head n ++ [x].
Proof.
  intros [Hm Hl Hh Hn ->] Hlt. pose proof (Z.mod_pos_bound (head + n) cap Hm). split_and!.
  - apply lookup_lt_is_Some_2. lia.
  - split; rewrite ?length_insert; try done; [lia|]. rewrite Z.add_mod_idemp_l by lia. f_equal. lia.
  - by apply ring_list_push; lia.
Qed.
Lemma ring_ok_take {A} (arr : list A) cap head tail n : ring_ok arr cap head tail n → 0 < n →
  ∃ x, arr !! Z.to_nat head = Some x ∧ ring_ok arr cap ((head + 1) `mod` cap) tail (n - 1) ∧
    ring_list arr cap head n = x :: ring_list arr cap ((head + 1) `mod` cap) (n - 1).
Proof.
  intros [Hm Hl Hh Hn ->] Hpos.
  destruct (ring_list_pop arr cap head n) as (x & E & Hq); [done|lia|lia|].
  exists x. split_and!; [done| |done]. pose proof (Z.mod_pos_bound (head + 1) cap Hm).
  split; try done; [lia|]. rewrite Z.add_mod_idemp_l by lia. f_equal. lia.
Qed.
Lemma ring_ok_empty {A} (arr : list A) cap : 0 < cap → length arr = Z.to_nat cap → ring_ok arr cap 0 0 0.
Proof. intros ? ?. split; [done|done|lia|lia|by rewrite Z.mod_0_l by lia]. Qed.

End Queue.
