(* ===== verification/Net.v ===== *)
(** * Sockets and the file-server protocol (linux-file-server/src/protocol.c)

    [Module Net] is a stream socket as the kernel presents it: [send] accepts as
    many bytes as its script says, [recv] hands over incoming chunks piecewise.
    [Module Protocol] models protocol.c on top of it. *)

From S2P Require Import Prelude.

Module Net.

(** A connected stream socket.  [sends] scripts the results of the next [send]
    calls (a non-positive number is a failure; after the script every call
    accepts everything); [inbox] the next arrivals ([None] is an error, an empty
    chunk or the end of the list is end of file). *)
Record sock := Sock {
  sent : list byte;
  sends : list Z;
  inbox : list (option (list byte));
  closed : bool
}.

Definition send (data : list byte) : C sock Z := λ s,
  match s.(sends) with
  | [] => Ret (strlen data, Sock (s.(sent) ++ data) [] s.(inbox) s.(closed))
  | n :: ns =>
      if n <=? 0 then Ret (n, Sock s.(sent) ns s.(inbox) s.(closed))
      else let k := Z.min n (strlen data) in
           Ret (k, Sock (s.(sent) ++ take (Z.to_nat k) data) ns s.(inbox) s.(closed))
  end.

(** At most [n > 0] bytes: the result code and the bytes received. *)
Definition recv (n : Z) : C sock (Z * list byte) := λ s,
  match s.(inbox) with
  | [] => Ret ((0, []), s)
  | None :: xs => Ret ((-1, []), Sock s.(sent) s.(sends) xs s.(closed))
  | Some c :: xs =>
      if strlen c <=? n then Ret ((strlen c, c), Sock s.(sent) s.(sends) xs s.(closed))
      else Ret ((n, take (Z.to_nat n) c),
                Sock s.(sent) s.(sends) (Some (drop (Z.to_nat n) c) :: xs) s.(closed))
  end.

Definition close : C sock unit := c_mod (λ s, Sock s.(sent) s.(sends) s.(inbox) true).

(** The bytes that will arrive before an error or end of file. *)
Fixpoint pending (xs : list (option (list byte))) : list byte :=
  match xs with
  | Some (b :: c) :: xs' => b :: c ++ pending xs'
  | _ => []
  end.

(** A kernel that takes everything at once. *)
Definition wrote (d : list byte) (s : sock) : sock := Sock (s.(sent) ++ d) s.(sends) s.(inbox) s.(closed).
Lemma wrote_app d1 d2 s : wrote d2 (wrote d1 s) = wrote (d1 ++ d2) s.
Proof. unfold wrote. simpl. by rewrite (assoc_L (++)). Qed.
Lemma wrote_nil s : wrote [] s = s.
Proof. unfold wrote. rewrite app_nil_r. by destruct s. Qed.
Lemma send_open d s : s.(sends) = [] → send d s = Ret (strlen d, wrote d s).
Proof. intros H. unfold send, wrote. by rewrite H. Qed.

(** One [send] is a failure that adds nothing or adds a non-empty prefix. *)
Lemma send_cases data s : data ≠ [] →
  ∃ n s', send data s = Ret (n, s') ∧ s'.(inbox) = s.(inbox) ∧ s'.(closed) = s.(closed) ∧
    ((n ≤ 0 ∧ s'.(sent) = s.(sent) ∧ s'.(sends) = tl s.(sends) ∧ s.(sends) ≠ []) ∨
     (0 < n ≤ strlen data ∧ s'.(sent) = s.(sent) ++ take (Z.to_nat n) data ∧
      s'.(sends) = tl s.(sends))).
Proof.
  intros Hd. unfold send, strlen. assert (0 < length data)%nat by (destruct data; simpl; [done|lia]).
  destruct (sends s) as [|n ns] eqn:E.
  - eexists _, _. split; [reflexivity|]. simpl. split_and!; try done. right.
    rewrite take_ge by lia. split_and!; [lia|lia|done|done].
  - destruct (Z.leb_spec n 0); eexists _, _; (split; [reflexivity|]); simpl; split_and!; try done.
    + by left.
    + right. split_and!; try done; lia.
Qed.

(** One [recv] takes a non-empty prefix of what is pending. *)
Lemma recv_pending n s : 0 < n → pending s.(inbox) ≠ [] →
  ∃ bs s', recv n s = Ret ((strlen bs, bs), s') ∧ bs ≠ [] ∧ strlen bs ≤ n ∧
    pending s.(inbox) = bs ++ pending s'.(inbox) ∧
    s'.(sent) = s.(sent) ∧ s'.(sends) = s.(sends) ∧ s'.(closed) = s.(closed).
Proof.
  intros Hn Hp. unfold recv. destruct (inbox s) as [|[[|b c]|] xs]; simpl in Hp; try done.
  destruct (Z.leb_spec (strlen (b :: c)) n) as [Hle|Hgt].
  - eexists _, _. split; [reflexivity|]. simpl. split_and!; try done.
  - assert (Hl : strlen (take (Z.to_nat n) (b :: c)) = n).
    { unfold strlen in *. rewrite length_take. lia. }
    exists (take (Z.to_nat n) (b :: c)). eexists. rewrite Hl. split; [reflexivity|]. split_and!; try done.
    + intros E. rewrite E in Hl. unfold strlen in Hl. simpl in Hl. lia.
    + cbn [inbox]. assert (Hd : drop (Z.to_nat n) (b :: c) ≠ []).
      { intros E. apply (f_equal length) in E. rewrite length_drop in E. unfold strlen in Hgt. simpl in *. lia. }
      destruct (drop (Z.to_nat n) (b :: c)) as [|x l] eqn:E; [done|].
      change (pending (Some (b :: c) :: xs)) with ((b :: c) ++ pending xs).
      change (pending (Some (x :: l) :: xs)) with ((x :: l) ++ pending xs).
      rewrite <- E, (assoc_L (++)), take_drop. done.
Qed.

End Net.

Module Protocol.
Import Net.

(** The three loops recurse on fuel: every iteration moves at least one byte, so
    one unit per byte is enough. *)
Fixpoint send_loop (fuel : nat) (rest : list byte) : C sock Z :=
  match rest with
  | [] => mret 0
  | _ =>
    match fuel with
    | O => c_fuel
    | S fuel' =>
        n ← send rest;
        if n <=? 0 then mret (-1) else send_loop fuel' (drop (Z.to_nat n) rest)
    end
  end.
Definition send_all (buf : list byte) : C sock Z := send_loop (length buf) buf.

Fixpoint recv_loop (fuel : nat) (need : Z) (got : list byte) : C sock (Z * list byte) :=
  if need <=? 0 then mret (0, got) else
  match fuel with
  | O => c_fuel
  | S fuel' =>
      r ← recv need;
      if r.1 <=? 0 then mret (-1, got) else recv_loop fuel' (need - r.1) (got ++ r.2)
  end.
(** The result code and the bytes stored in the buffer. *)
Definition recv_all (len : nat) : C sock (Z * list byte) := recv_loop len (Z.of_nat len) [].

Definition PROTOCOL_MAGIC : Z := 0x46535256.

Record protocol_header_t := Header {
  magic : Z; cmd : Z; data_len : Z; checksum : Z; offset : Z;
  filename : list byte            (* all 256 bytes *)
}.
Record response_header_t := Response {
  status : Z; rdata_len : Z;
  message : list byte             (* all 256 bytes *)
}.

(** The packed structures as they go over the wire (little-endian host). *)
Definition header_bytes (h : protocol_header_t) : list byte :=
  le_split 4 h.(magic) ++ le_split 4 h.(cmd) ++ le_split 4 h.(data_len) ++
  le_split 4 h.(checksum) ++ le_split 8 h.(offset) ++ h.(filename).
Definition sizeof_header : nat := 280.
Definition bytes_header (l : list byte) : protocol_header_t :=
  Header (le_combine (take 4 l)) (le_combine (take 4 (drop 4 l))) (le_combine (take 4 (drop 8 l)))
    (le_combine (take 4 (drop 12 l))) (le_combine (take 8 (drop 16 l))) (drop 24 l).
Definition response_bytes (r : response_header_t) : list byte :=
  le_split 4 r.(status) ++ le_split 4 r.(rdata_len) ++ r.(message).
Definition sizeof_response : nat := 264.
Definition bytes_response (l : list byte) : response_header_t :=
  Response (le_combine (take 4 l)) (le_combine (take 4 (drop 4 l))) (drop 8 l).

Definition protocol_send_header (h : option protocol_header_t) : C sock Z :=
  match h with None => mret (-1) | Some h => send_all (header_bytes h) end.
(** The result code and the filled header, when the caller passed one. *)
Definition protocol_recv_header (out : bool) : C sock (Z * option protocol_header_t) :=
  if out then
    r ← recv_all sizeof_header;
    mret (r.1, if r.1 =? 0 then Some (bytes_header r.2) else None)
  else mret (-1, None).

Definition protocol_send_response (st : Z) (msg : option (list byte)) : C sock Z :=
  send_all (response_bytes (Response (u32 st) 0
    (match msg with Some m => strncpy_zeroed 256 255 m | None => replicate 256 x00 end))).
Definition protocol_recv_response (out : bool) : C sock (Z * option response_header_t) :=
  if out then
    r ← recv_all sizeof_response;
    mret (r.1, if r.1 =? 0 then Some (bytes_response r.2) else None)
  else mret (-1, None).

Fixpoint checksum_loop (sum : Z) (data : list byte) : Z :=
  match data with
  | [] => sum
  | b :: data' => checksum_loop (u32 (sum + b2z b)) data'
  end.
Definition protocol_checksum (data : list byte) : Z := checksum_loop 0 data.

(** ** Reliable transfer *)

Lemma send_loop_run fuel : ∀ rest s, (length rest ≤ fuel)%nat →
  ∃ r s' k, send_loop fuel rest s = Ret (r, s') ∧ s'.(inbox) = s.(inbox) ∧
    s'.(closed) = s.(closed) ∧ s'.(sent) = s.(sent) ++ take k rest ∧
    ((r = 0 ∧ (length rest ≤ k)%nat) ∨ (r = -1 ∧ (k < length rest)%nat ∧ s.(sends) ≠ [])).
Proof.
  induction fuel as [|fuel IH]; intros rest s Hl.
  { destruct rest; simpl in Hl; [|lia]. exists 0, s, 0%nat. rewrite take_0, app_nil_r.
    split_and!; try done. left. by split. }
  destruct rest as [|b rest].
  { exists 0, s, 0%nat. rewrite take_0, app_nil_r. split_and!; try done. left. by split. }
  destruct (send_cases (b :: rest) s) as (n & s1 & Hs & Hi & Hc & Hcase); [done|].
  cbn [send_loop]. c_step Hs. destruct Hcase as [(Hn & Hsent & Hsd & Hne)|(Hn & Hsent & Hsd)].
  - rewrite (proj2 (Z.leb_le _ _)) by lia. exists (-1), s1, 0%nat.
    rewrite take_0, app_nil_r. split_and!; try done. right. split_and!; try done. simpl. lia.
  - rewrite (proj2 (Z.leb_gt _ _)) by lia. unfold strlen in Hn.
    destruct (IH (drop (Z.to_nat n) (b :: rest)) s1) as (r & s2 & k & E & Hi2 & Hc2 & Hs2 & Hr).
    { rewrite length_drop. simpl in *. lia. }
    exists r, s2, (Z.to_nat n + k)%nat. split_and!; try congruence.
    + rewrite Hs2, Hsent, <- (assoc_L (++)). f_equal. by rewrite take_take_drop.
    + rewrite length_drop in Hr. destruct Hr as [[-> ?]|(-> & ? & Hne)]; [left|right].
      * split; [done|lia].
      * split_and!; [done|lia|]. rewrite Hsd in Hne. by destruct (sends s).
Qed.

Lemma send_all_run buf s :
  ∃ r s', send_all buf s = Ret (r, s') ∧
    ((r = 0 ∧ s'.(sent) = s.(sent) ++ buf) ∨ (r = -1 ∧ s.(sends) ≠ [])).
Proof.
  destruct (send_loop_run (length buf) buf s) as (r & s' & k & E & _ & _ & Hs & Hr); [done|].
  exists r, s'. split; [exact E|]. destruct Hr as [[-> Hk]|(-> & _ & Hne)]; [left|by right].
  by rewrite take_ge in Hs by done.
Qed.

(** With such a kernel everything is sent. *)
Lemma send_loop_open f d s : s.(sends) = [] → (length d ≤ f)%nat → send_loop f d s = Ret (0, wrote d s).
Proof.
  intros H Hf. destruct d as [|c d]; [rewrite wrote_nil; by destruct f|].
  destruct f as [|f]; simpl in Hf; [lia|]. cbn [send_loop]. c_step (send_open (c :: d) s H).
  unfold strlen. rewrite (proj2 (Z.leb_gt _ _)) by (simpl; lia). rewrite drop_ge by lia. by destruct f.
Qed.
Lemma send_all_open d s : s.(sends) = [] → send_all d s = Ret (0, wrote d s).
Proof. intros H. by apply send_loop_open. Qed.

(** Receiving [need] bytes out of what is pending. *)
Lemma recv_loop_run fuel : ∀ need got s, need ≤ Z.of_nat fuel → 0 ≤ need →
  ∃ r s', recv_loop fuel need got s = Ret (r, s') ∧ s'.(sent) = s.(sent) ∧
    s'.(closed) = s.(closed) ∧
    (if decide (need ≤ strlen (pending s.(inbox)))
     then r = (0, got ++ take (Z.to_nat need) (pending s.(inbox))) ∧
          pending s'.(inbox) = drop (Z.to_nat need) (pending s.(inbox))
     else r.1 = -1).
Proof.
  unfold strlen. induction fuel as [|fuel IH]; intros need got s Hf Hn.
  { simpl. rewrite (proj2 (Z.leb_le _ _)) by lia. eexists _, _. split; [reflexivity|].
    split_and!; try done. assert (need = 0) as -> by lia. simpl. rewrite decide_True by lia.
    by rewrite take_0, app_nil_r. }
  cbn [recv_loop]. destruct (Z.leb_spec need 0) as [Hz|Hz].
  { eexists _, _. split; [reflexivity|]. split_and!; try done. assert (need = 0) as -> by lia.
    simpl. rewrite decide_True by lia. by rewrite take_0, app_nil_r. }
  unfold recv, mbind at 1, C_bind at 1. destruct (inbox s) as [|[[|b c]|] xs] eqn:Ei; simpl pending.
  - eexists _, _. split; [reflexivity|]. split_and!; try done. simpl. by rewrite decide_False by lia.
  - simpl strlen. rewrite (proj2 (Z.leb_le _ _)) by (unfold strlen; simpl; lia).
    eexists _, _. split; [reflexivity|]. split_and!; try done. simpl. by rewrite decide_False by lia.
  - unfold strlen. destruct (Z.leb_spec (Z.of_nat (length (b :: c))) need) as [Hle|Hgt].
    + simpl fst. simpl snd. rewrite (proj2 (Z.leb_gt _ _)) by (simpl; lia). simpl length in Hle.
      edestruct (IH (need - Z.of_nat (length (b :: c))) (got ++ b :: c)
        (Sock (sent s) (sends s) xs (closed s))) as (r & s' & E & ? & ? & Hr); [simpl; lia|simpl; lia|].
      exists r, s'. split; [exact E|]. split_and!; try done. simpl inbox in Hr.
      change (b :: c ++ pending xs) with ((b :: c) ++ pending xs). rewrite length_app.
      case_decide as D1; case_decide as D2; try (simpl in *; lia); try done.
      destruct Hr as [-> Hp]. rewrite Hp.
      replace (Z.to_nat need) with (length (b :: c) + Z.to_nat (need - Z.of_nat (length (b :: c))))%nat
        by (simpl; lia).
      by rewrite take_app_add, drop_app_add, <- (assoc_L (++)).
    + cbn [fst snd]. rewrite (proj2 (Z.leb_gt need 0)) by lia.
      replace (need - need) with 0 by lia.
      assert (E0 : ∀ g s0, recv_loop fuel 0 g s0 = Ret ((0, g), s0)) by (by destruct fuel).
      rewrite E0. eexists _, _. split; [reflexivity|]. split_and!; try done.
      change (b :: c ++ pending xs) with ((b :: c) ++ pending xs).
      rewrite decide_True by (rewrite length_app; lia). simpl inbox.
      rewrite take_app_le, drop_app_le by lia. split; [done|].
      assert (Hd : drop (Z.to_nat need) (b :: c) ≠ []).
      { intros E. apply (f_equal length) in E. rewrite length_drop in E. simpl in *. lia. }
      destruct (drop (Z.to_nat need) (b :: c)) as [|x l]; [done|]. done.
  - eexists _, _. split; [reflexivity|]. split_and!; try done. simpl. by rewrite decide_False by lia.
Qed.

(** ** Wire format *)

Record header_wf (h : protocol_header_t) : Prop := {
  hw_magic : is_u32 h.(magic); hw_cmd : is_u32 h.(cmd); hw_len : is_u32 h.(data_len);
  hw_sum : is_u32 h.(checksum); hw_off : is_u64 h.(offset); hw_name : length h.(filename) = 256%nat
}.

Lemma length_header_bytes h : header_wf h → length (header_bytes h) = sizeof_header.
Proof. intros []. unfold header_bytes. rewrite !length_app, !length_le_split, hw_name0. done. Qed.

Lemma le_word4 z : is_u32 z → le_combine (le_split 4 z) = z.
Proof. intros. rewrite le_combine_split. apply Z.mod_small. exact H. Qed.
Lemma le_word8 z : is_u64 z → le_combine (le_split 8 z) = z.
Proof. intros. rewrite le_combine_split. apply Z.mod_small. exact H. Qed.

Lemma take_le n z l : take n (le_split n z ++ l) = le_split n z.
Proof. rewrite <- (length_le_split n z) at 1. apply take_app_length. Qed.
Lemma drop_le n m z l : drop (n + m) (le_split n z ++ l) = drop m l.
Proof. rewrite <- (length_le_split n z) at 1. apply drop_app_add. Qed.

Lemma bytes_header_bytes h : header_wf h → bytes_header (header_bytes h) = h.
Proof.
  intros [? ? ? ? ? ?]. destruct h as [mg c dl ck off fn]. simpl in *.
  unfold bytes_header, header_bytes. cbn [magic cmd data_len checksum offset filename].
  rewrite (drop_le 4 0), (drop_le 4 4), (drop_le 4 0), (drop_le 4 8), (drop_le 4 4), (drop_le 4 0),
    (drop_le 4 12), (drop_le 4 8), (drop_le 4 4), (drop_le 4 0),
    (drop_le 4 20), (drop_le 4 16), (drop_le 4 12), (drop_le 4 8), (drop_le 8 0), !drop_0, !take_le.
  by rewrite !le_word4, le_word8.
Qed.

(** The response as received: status and at most 255 bytes of the message. *)
Lemma bytes_response_bytes st m : is_u32 st → nonul m →
  let r := bytes_response (response_bytes (Response (u32 st) 0 (strncpy_zeroed 256 255 m))) in
  r.(status) = st ∧ cstr r.(message) = take 255 m.
Proof.
  intros Hs Hm. unfold bytes_response, response_bytes. cbn [status rdata_len message].
  rewrite (drop_le 4 4), (drop_le 4 0), drop_0, !take_le, u32_small by exact Hs.
  split; [by apply le_word4|]. by apply cstr_strncpy_zeroed; [lia|].
Qed.

Record response_wf (r : response_header_t) : Prop := {
  rw_status : is_u32 r.(status); rw_len : is_u32 r.(rdata_len); rw_message : length r.(message) = 256%nat
}.
Lemma length_response_bytes r : response_wf r → length (response_bytes r) = sizeof_response.
Proof. intros []. unfold response_bytes. rewrite !length_app, !length_le_split, rw_message0. done. Qed.
Lemma bytes_response_bytes_id r : response_wf r → bytes_response (response_bytes r) = r.
Proof.
  intros [? ? ?]. destruct r as [st dl m]. simpl in *. unfold bytes_response, response_bytes.
  cbn [status rdata_len message]. rewrite (drop_le 4 0), (drop_le 4 4), (drop_le 4 0), !drop_0, !take_le.
  by rewrite !le_word4.
Qed.

(** What the two ends of a connection promise each other about a fixed-size
    record: its image on the wire is read back as the same record. *)
Class Wire (A : Type) := {
  wire_ok : A → Prop;
  wire_size : nat;
  encode : A → list byte;
  decode : list byte → A;
  encode_length : ∀ a, wire_ok a → length (encode a) = wire_size;
  decode_encode : ∀ a, wire_ok a → decode (encode a) = a
}.
#[global] Instance header_wire : Wire protocol_header_t := {|
  encode_length := length_header_bytes; decode_encode := bytes_header_bytes
|}.
#[global] Instance response_wire : Wire response_header_t := {|
  encode_length := length_response_bytes; decode_encode := bytes_response_bytes_id
|}.

Lemma recv_sends n s r s' : recv n s = Ret (r, s') → s'.(sends) = s.(sends).
Proof. unfold recv. intros H. repeat case_match; by simplify_eq. Qed.
Lemma recv_loop_sends fuel : ∀ need got s r s', recv_loop fuel need got s = Ret (r, s') →
  s'.(sends) = s.(sends).
Proof.
  induction fuel as [|fuel IH]; intros need got s r s' H; cbn [recv_loop] in H;
    (destruct (need <=? 0); [by injection H as <- <-|]); [done|].
  apply bind_inv in H as (q & s1 & E & H). apply recv_sends in E.
  destruct (q.1 <=? 0); [by injection H as <- <-|]. apply IH in H. congruence.
Qed.

(** Receiving exactly what is wanted out of what is pending. *)
Lemma recv_all_pending len s : Z.of_nat len ≤ strlen (pending s.(inbox)) →
  ∃ s', recv_all len s = Ret ((0, take len (pending s.(inbox))), s') ∧
    pending s'.(inbox) = drop len (pending s.(inbox)) ∧ s'.(sent) = s.(sent) ∧ s'.(sends) = s.(sends).
Proof.
  intros Hl. destruct (recv_loop_run len (Z.of_nat len) [] s) as (r & s' & E & Hs & _ & Hr); [lia|lia|].
  rewrite decide_True, !Nat2Z.id in Hr by done. destruct Hr as [-> Hp]. exists s'.
  split_and!; [done|done|done|]. by eapply recv_loop_sends.
Qed.
(** A record of the interface is received whole, however it arrives in pieces. *)
Lemma recv_wire `{Wire A} (a : A) rest s : wire_ok a → pending s.(inbox) = encode a ++ rest →
  ∃ s', recv_all wire_size s = Ret ((0, encode a), s') ∧ pending s'.(inbox) = rest ∧
    s'.(sent) = s.(sent) ∧ s'.(sends) = s.(sends).
Proof.
  intros Ha Hp. pose proof (encode_length a Ha) as Hl.
  destruct (recv_all_pending wire_size s) as (s' & E & Hp' & Hs).
  { rewrite Hp. unfold strlen. rewrite length_app. lia. }
  rewrite Hp, <- Hl, take_app_length in E. rewrite Hp, <- Hl, drop_app_length in Hp'.
  rewrite Hl in E. by exists s'.
Qed.

(** The additive checksum is the sum of the bytes modulo 2^32. *)
Lemma checksum_loop_sum data : ∀ a, is_u32 a →
  checksum_loop a data = u32 (a + foldr Z.add 0 (b2z <$> data)).
Proof.
  induction data as [|b data IH]; intros a Ha; simpl; [by rewrite Z.add_0_r, u32_small|].
  rewrite IH by apply u32_range. unfold u32. rewrite Z.add_mod_idemp_l by lia.
  by rewrite Z.add_assoc.
Qed.

(** What the loop does with the answers of the kernel: it uses them one after the
    other until the buffer is handed over or an answer is a failure. *)
Lemma send_loop_script fuel : ∀ rest s, (length rest ≤ fuel)%nat →
  ∃ r s' used, send_loop fuel rest s = Ret (r, s') ∧ s'.(inbox) = s.(inbox) ∧ s.(sends) = used ++ s'.(sends) ∧
    ((r = 0 ∧ Forall (Z.lt 0) used ∧ s'.(sent) = s.(sent) ++ rest) ∨
     (r = -1 ∧ ∃ oks n, used = oks ++ [n] ∧ Forall (Z.lt 0) oks ∧ n ≤ 0 ∧ foldr Z.add 0 oks < strlen rest ∧
        s'.(sent) = s.(sent) ++ take (Z.to_nat (foldr Z.add 0 oks)) rest)).
Proof.
  induction fuel as [|fuel IH]; intros rest s Hl.
  { destruct rest; simpl in Hl; [|lia]. exists 0, s, []. split_and!; try done. left. by rewrite app_nil_r. }
  destruct rest as [|b rest]; [exists 0, s, []; split_and!; try done; left; by rewrite app_nil_r|].
  destruct s as [st [|n ns] ib cl].
  { rewrite send_loop_open by done. eexists _, _, []. split_and!; try done. by left. }
  set (d := b :: rest) in *. change (length d ≤ S fuel)%nat in Hl.
  assert (Hd : (0 < length d)%nat) by (simpl; lia). change (send_loop (S fuel) d) with
    (n ← send d; if n <=? 0 then mret (-1) else send_loop fuel (drop (Z.to_nat n) d)).
  unfold mbind, C_bind, send. cbn [sends sent inbox closed]. destruct (Z.leb_spec n 0) as [Hn|Hn].
  - rewrite (proj2 (Z.leb_le _ _)) by done. eexists _, _, [n]. split; [reflexivity|]. split_and!; try done. right. split; [done|].
    exists [], n. unfold strlen. cbn [foldr]. rewrite app_nil_r. split_and!; [done|constructor|done|lia|done].
  - set (k := Z.min n (strlen d)). assert (0 < k) by (unfold k, strlen; lia). rewrite (proj2 (Z.leb_gt k 0)) by done.
    destruct (IH (drop (Z.to_nat k) d) (Sock (st ++ take (Z.to_nat k) d) ns ib cl)) as (r & s' & used & E & Hi & Hu & H').
    { rewrite length_drop. lia. }
    cbn [sends sent inbox] in *. exists r, s', (n :: used). split_and!; [exact E|done|by rewrite Hu|]. destruct H' as [(-> & Hf & Hs)|(-> & oks & m & -> & Hf & Hm & Hlt & Hs)].
    + left. rewrite Hs, <- (assoc_L (++)), take_drop. split_and!; [done|by constructor|done].
    + right. split; [done|]. exists (n :: oks), m. cbn [foldr]. unfold strlen in *. rewrite length_drop in Hlt.
      assert (0 ≤ foldr Z.add 0 oks) by (clear -Hf; induction Hf; simpl; lia). assert (k = n) as Ek by (unfold k, strlen; lia). rewrite Ek in *.
      split_and!; [done|by constructor|done|lia|]. rewrite Hs, <- (assoc_L (++)), take_take_drop. do 2 f_equal. lia.
Qed.

(** C6. [send_all] against any behaviour of the kernel terminates.  It goes on after a
    partial send: it uses the answers of [send] one after the other, returns 0 with the
    whole buffer handed over in order when each answer it used took something, and -1
    exactly when one of them was a failure, before the buffer was complete; what was sent
    then is the prefix that the answers before the failure took. *)
Theorem send_all_reliable buf s :
  ∃ r s' used, send_all buf s = Ret (r, s') ∧ s'.(inbox) = s.(inbox) ∧ s.(sends) = used ++ s'.(sends) ∧
    ((r = 0 ∧ Forall (Z.lt 0) used ∧ s'.(sent) = s.(sent) ++ buf) ∨
     (r = -1 ∧ ∃ oks n, used = oks ++ [n] ∧ Forall (Z.lt 0) oks ∧ n ≤ 0 ∧ foldr Z.add 0 oks < strlen buf ∧
        s'.(sent) = s.(sent) ++ take (Z.to_nat (foldr Z.add 0 oks)) buf)).
Proof. by apply send_loop_script. Qed.

(** A header sent with [protocol_send_header] is received unchanged by
    [protocol_recv_header] however the kernel cuts the stream on either side,
    and what follows the header stays for the next read. *)
Theorem protocol_header_roundtrip h s s1 r more :
  header_wf h → s.(sent) = [] → protocol_send_header (Some h) s = Ret (0, s1) →
  pending r.(inbox) = s1.(sent) ++ more →
  ∃ r', protocol_recv_header true r = Ret ((0, Some h), r') ∧ pending r'.(inbox) = more.
Proof.
  intros Hw Hs Hsend Hp. simpl in Hsend.
  destruct (send_all_run (header_bytes h) s) as (x & s' & E & Hx).
  rewrite Hsend in E. injection E as <- <-. destruct Hx as [[_ Hx]|[? _]]; [|done].
  rewrite Hs in Hx. simpl in Hx. rewrite Hx in Hp.
  destruct (recv_loop_run sizeof_header (Z.of_nat sizeof_header) [] r) as (q & r' & E & _ & _ & Hq);
    [lia|lia|].
  pose proof (length_header_bytes h Hw) as Hl.
  rewrite decide_True in Hq by (rewrite Hp; unfold strlen; rewrite length_app, Hl; lia).
  rewrite Hp, Nat2Z.id in Hq. rewrite <- Hl in Hq at 1 2.
  rewrite take_app_length, drop_app_length in Hq. destruct Hq as [-> Hr'].
  exists r'. split; [|done]. unfold protocol_recv_header, recv_all. c_step E.
  simpl fst. simpl snd. change (0 =? 0) with true. cbv iota. by rewrite bytes_header_bytes.
Qed.

Definition wit_header : protocol_header_t :=
  Header PROTOCOL_MAGIC 2 1000 7 0 (strncpy_zeroed 256 255 (str "a.txt")).
Lemma protocol_header_roundtrip_witness :
  let s := Sock [] [100; 7] [] false in
  let r := Sock [] [] [Some (take 10 (header_bytes wit_header));
                       Some (drop 10 (header_bytes wit_header) ++ str "xy")] false in
  ∃ s1 r', protocol_send_header (Some wit_header) s = Ret (0, s1) ∧
    protocol_recv_header true r = Ret ((0, Some wit_header), r') ∧ pending r'.(inbox) = str "xy".
Proof.
  intros s r. destruct (send_all_run (header_bytes wit_header) s) as (x & s1 & E & _).
  assert (Hx : protocol_send_header (Some wit_header) s = Ret (0, Sock (header_bytes wit_header) [] [] false))
    by (vm_compute; reflexivity).
  destruct (protocol_header_roundtrip wit_header s (Sock (header_bytes wit_header) [] [] false) r
    (str "xy")) as (r' & Hr & Hp); [|reflexivity|exact Hx|vm_compute; reflexivity|].
  - split; vm_compute; try done; by split.
  - exists (Sock (header_bytes wit_header) [] [] false), r'. by split_and!.
Defined.

End Protocol.
