(* ===== verification/Shm.v ===== *)
(** * linux-file-server: shared-memory statistics (linux-file-server/src/shm_ipc.c)

    Segments live in the system under a number; names point to them, and a mapping
    is the number of its segment, so that two mappings of one name share it.  The
    results of ftruncate and mmap are arguments.  Every counter function holds the
    segment's lock for its whole body, so a call is one step. *)

From S2P Require Import Prelude.

Module Shm.

Record shm_stats_t := ShmStats {
  client_count : Z; total_requests : Z;              (* int *)
  total_bytes_sent : Z; total_bytes_recv : Z         (* uint64_t *)
}.
Definition zeroed : shm_stats_t := ShmStats 0 0 0 0.
Record system := System { names : gmap (list byte) nat; segments : list shm_stats_t }.

(** [shm_open(name, O_CREAT | O_RDWR)]: the segment of that name, if need be a new one. *)
Definition open_create (n : list byte) : C system nat := λ s,
  match s.(names) !! n with
  | Some i => Ret (i, s)
  | None => let i := length s.(segments) in
            Ret (i, System (<[n := i]> s.(names)) (s.(segments) ++ [zeroed]))
  end.
Definition unlink (n : list byte) : C system unit := c_mod (λ s, System (delete n s.(names)) s.(segments)).
Definition get (i : nat) : C system shm_stats_t := λ s,
  match s.(segments) !! i with Some st => Ret (st, s) | None => UB end.
Definition set (i : nat) (st : shm_stats_t) : C system unit := c_mod (λ s, System s.(names) (<[i := st]> s.(segments))).

Definition shm_create (opened truncated mmapped : bool) (n : list byte) : C system (option nat) :=
  if negb opened then mret None else
  i ← open_create n;
  if negb truncated then unlink n;; mret None else
  if negb mmapped then unlink n;; mret None else
  set i zeroed;; mret (Some i).
Definition shm_open_existing (mmapped : bool) (n : list byte) : C system (option nat) :=
  s ← c_get;
  match s.(names) !! n with
  | Some i => mret (if mmapped then Some i else None)
  | None => mret None
  end.
Definition shm_cleanup (n : list byte) : C system unit := unlink n.

(** An [int] counter that leaves its range is undefined. *)
Definition int_add (z d : Z) : C system Z :=
  if (- 2 ^ 31 <=? z + d) && (z + d <? 2 ^ 31) then mret (z + d) else c_ub.
Definition shm_inc_clients (i : nat) : C system unit :=
  st ← get i; n ← int_add st.(client_count) 1;
  set i (ShmStats n st.(total_requests) st.(total_bytes_sent) st.(total_bytes_recv)).
Definition shm_dec_clients (i : nat) : C system unit :=
  st ← get i; n ← int_add st.(client_count) (-1);
  set i (ShmStats n st.(total_requests) st.(total_bytes_sent) st.(total_bytes_recv)).
Definition shm_add_bytes (i : nat) (sent recv : Z) : C system unit :=
  st ← get i;
  set i (ShmStats st.(client_count) st.(total_requests) (u64 (st.(total_bytes_sent) + sent))
           (u64 (st.(total_bytes_recv) + recv))).
Definition shm_inc_requests (i : nat) : C system unit :=
  st ← get i; n ← int_add st.(total_requests) 1;
  set i (ShmStats st.(client_count) n st.(total_bytes_sent) st.(total_bytes_recv)).
Definition shm_get_stats (i : nat) : C system shm_stats_t := get i.

End Shm.
