(* ===== verification/ShmSpec.v ===== *)
(** * linux-file-server: the shared counters count

    Processes that map the segment by its name share one set of counters: whatever
    the order of their calls, a reader sees the number of calls so far, the byte
    totals modulo 2^64. *)

From S2P Require Import Prelude Simulation Shm.
Import Simulation Shm.

Module ShmSpec.

(** The totals since the segment was created. *)
Record totals := Totals { clients : Z; requests : Z; sent : Z; received : Z }.
(** Calls on a mapping, through which the process sees the segment. *)
Inductive op := Inc | Dec | Bytes (s r : Z) | Request | Get.
Inductive res := Done | Stats (st : shm_stats_t).

Section shm.
Context (n : list byte).

Definition spec (o : op) (t : totals) : totals * res :=
  match o with
  | Inc => (Totals (t.(clients) + 1) t.(requests) t.(sent) t.(received), Done)
  | Dec => (Totals (t.(clients) - 1) t.(requests) t.(sent) t.(received), Done)
  | Bytes s r => (Totals t.(clients) t.(requests) (t.(sent) + s) (t.(received) + r), Done)
  | Request => (Totals t.(clients) (t.(requests) + 1) t.(sent) t.(received), Done)
  | Get => (t, Stats (ShmStats t.(clients) t.(requests) (u64 t.(sent)) (u64 t.(received))))
  end.
(** Open the segment by name, make the call, close the mapping. *)
Definition call (o : op) : C system res :=
  m ← shm_open_existing true n;
  match m with
  | None => c_ub
  | Some i =>
      match o with
      | Inc => shm_inc_clients i;; mret Done
      | Dec => shm_dec_clients i;; mret Done
      | Bytes s r => shm_add_bytes i s r;; mret Done
      | Request => shm_inc_requests i;; mret Done
      | Get => st ← shm_get_stats i; mret (Stats st)
      end
  end.
Definition in_int (z : Z) : Prop := - 2 ^ 31 ≤ z < 2 ^ 31.
(** The two [int] counters stay in range. *)
Definition ok (t : totals) (o : op) : Prop :=
  match o with
  | Inc => in_int (t.(clients) + 1) | Dec => in_int (t.(clients) - 1) | Request => in_int (t.(requests) + 1) | _ => True
  end.
Definition shows (s : system) (t : totals) : Prop := ∃ i, s.(names) !! n = Some i ∧
  s.(segments) !! i = Some (ShmStats t.(clients) t.(requests) (u64 t.(sent)) (u64 t.(received))).

Lemma shows_set s i st t : s.(names) !! n = Some i → (i < length s.(segments))%nat →
  st = ShmStats t.(clients) t.(requests) (u64 t.(sent)) (u64 t.(received)) →
  shows (System s.(names) (<[i := st]> s.(segments))) t.
Proof. intros Hi Hl ->. exists i. split; [done|]. cbn [segments]. by apply list_lookup_insert_eq. Qed.
Lemma int_add_run z d (s : system) : in_int (z + d) → int_add z d s = Ret (z + d, s).
Proof.
  intros H. unfold in_int in H. unfold int_add. by rewrite (proj2 (Z.leb_le _ _)), (proj2 (Z.ltb_lt _ _)) by lia.
Qed.
Lemma u64_add a b : u64 (u64 a + b) = u64 (a + b).
Proof. unfold u64. apply Z.add_mod_idemp_l. lia. Qed.

#[export] Instance shm_simulates : Simulates call spec ok shows.
Proof.
  intros o s t (i & Hi & Hs) Ho. pose proof (lookup_lt_Some _ _ _ Hs) as Hl.
  assert (Em : shm_open_existing true n s = Ret (Some i, s)) by (unfold shm_open_existing; c_simpl; by rewrite Hi).
  assert (Eg : get i s = Ret (ShmStats t.(clients) t.(requests) (u64 t.(sent)) (u64 t.(received)), s)) by (unfold get; by rewrite Hs).
  unfold call. destruct o as [| |x y| |]; cbn [spec fst snd ok] in *; c_step Em.
  - assert (E : shm_inc_clients i s = Ret (tt, System s.(names) (<[i := ShmStats (t.(clients) + 1) t.(requests)
      (u64 t.(sent)) (u64 t.(received))]> s.(segments)))).
    { unfold shm_inc_clients. c_step Eg. cbn [client_count]. by c_step (int_add_run t.(clients) 1 s Ho). }
    eexists. split; [by c_step E|by apply shows_set].
  - assert (E : shm_dec_clients i s = Ret (tt, System s.(names) (<[i := ShmStats (t.(clients) - 1) t.(requests)
      (u64 t.(sent)) (u64 t.(received))]> s.(segments)))).
    { unfold shm_dec_clients. c_step Eg. cbn [client_count]. by c_step (int_add_run t.(clients) (-1) s Ho). }
    eexists. split; [by c_step E|by apply shows_set].
  - eexists. split; [unfold shm_add_bytes; erewrite bind_Ret by (c_step Eg; reflexivity); reflexivity|].
    apply shows_set; [done|done|]. cbn. by rewrite !u64_add.
  - assert (E : shm_inc_requests i s = Ret (tt, System s.(names) (<[i := ShmStats t.(clients) (t.(requests) + 1)
      (u64 t.(sent)) (u64 t.(received))]> s.(segments)))).
    { unfold shm_inc_requests. c_step Eg. cbn [total_requests]. by c_step (int_add_run t.(requests) 1 s Ho). }
    eexists. split; [by c_step E|by apply shows_set].
  - exists s. split; [by c_step Eg|by exists i].
Qed.

(** Names point to segments. *)
Definition system_ok (s : system) : Prop := ∀ m i, s.(names) !! m = Some i → (i < length s.(segments))%nat.
Lemma shm_create_run s : system_ok s → ∃ i s', shm_create true true true n s = Ret (Some i, s') ∧ shows s' (Totals 0 0 0 0).
Proof.
  intros Hok. assert (∃ i s0, open_create n s = Ret (i, s0) ∧ s0.(names) !! n = Some i ∧ (i < length s0.(segments))%nat)
    as (i & s0 & E & Hi & Hl).
  { unfold open_create. destruct (names s !! n) as [i|] eqn:Ei; [exists i, s; split_and!; [done|done|by eapply Hok]|].
    eexists _, _. split; [reflexivity|]. cbn. rewrite length_app. split; [apply lookup_insert_eq|simpl; lia]. }
  eexists i, _. split; [unfold shm_create; cbn [negb]; c_step E; reflexivity|]. by apply shows_set.
Qed.

(** The shared counters: after [shm_create], any sequence of calls by processes
    that open the segment by name, the two int counters in range, shows every reader
    the numbers of calls so far and the byte totals modulo 2^64. *)
Theorem shm_counts ops s : system_ok s → allowed spec ok ops (Totals 0 0 0 0) → ∃ i s1 s2,
  shm_create true true true n s = Ret (Some i, s1) ∧
  run call ops s1 = Ret ((run_spec spec ops (Totals 0 0 0 0)).2, s2).
Proof.
  intros Hs Ho. destruct (shm_create_run s Hs) as (i & s1 & E1 & H1).
  destruct (sim_run call spec ok shows ops s1 _ H1 Ho) as (s2 & E2 & _). by exists i, s1, s2.
Qed.

End shm.

(** Creating a segment that is in use sets its counters back to zero for everyone. *)
Lemma create_resets : ∃ s, (m ← shm_create true true true (str "/lfs_stats");
  match m with Some i => shm_inc_clients i;; shm_create true true true (str "/lfs_stats");; shm_get_stats i | None => c_ub end)
  (System ∅ []) = Ret (zeroed, s).
Proof. eexists. vm_compute. reflexivity. Qed.

Lemma shm_counts_witness : ∃ i s1 s2, shm_create true true true (str "/lfs_stats") (System ∅ []) = Ret (Some i, s1) ∧
  run (call (str "/lfs_stats")) [Inc; Bytes (2 ^ 64 - 1) 3; Bytes 2 3; Get] s1 = Ret ([Done; Done; Done; Stats (ShmStats 1 0 1 6)], s2).
Proof.
  apply (shm_counts (str "/lfs_stats") [Inc; Bytes (2 ^ 64 - 1) 3; Bytes 2 3; Get] (System ∅ [])).
  - intros m i H. cbn in H. by rewrite lookup_empty in H.
  - repeat split; vm_compute; done.
Defined.

End ShmSpec.
