(* ===== verification/Calls.v ===== *)
(** * Runs that return: a weakest precondition for functions in the monad of C

    [wp m Q s]: [m] returns from [s], with a result and a state that satisfy [Q];
    [wpb B m Q s]: it does, or it waits for ever and [B] holds;
    [stays I m]: wherever [m] returns, it returns in [I] when it started there. *)

From S2P Require Import Prelude.

Module Calls.

Definition wp {S A} (m : C S A) (Q : A → S → Prop) (s : S) : Prop := ∃ a s', m s = Ret (a, s') ∧ Q a s'.
Section wp.
Context {S : Type}.
Implicit Types s : S.
Lemma wp_bind {A B} (m : C S A) (k : A → C S B) Q s : wp m (λ a, wp (k a) Q) s → wp (m ≫= k) Q s.
Proof. intros (a & s1 & E & b & s2 & E2 & HQ). exists b, s2. split; [|done]. by erewrite bind_Ret. Qed.
Lemma wp_ret {A} (a : A) (Q : A → S → Prop) s : Q a s → wp (mret a) Q s.
Proof. by exists a, s. Qed.
Lemma wp_mono {A} (m : C S A) (P Q : A → S → Prop) s : wp m P s → (∀ a s', P a s' → Q a s') → wp m Q s.
Proof. intros (a & s' & E & HP) H. exists a, s'. split; [done|]. by apply H. Qed.
Lemma wp_get (Q : S → S → Prop) s : Q s s → wp c_get Q s.
Proof. by exists s, s. Qed.
Lemma wp_mod f (Q : unit → S → Prop) s : Q tt (f s) → wp (c_mod f) Q s.
Proof. by exists tt, (f s). Qed.
Lemma wp_if {A} (b : bool) (m1 m2 : C S A) Q s : (b = true → wp m1 Q s) → (b = false → wp m2 Q s) → wp (if b then m1 else m2) Q s.
Proof. destruct b; auto. Qed.
Lemma wp_returns {A} (m : C S A) Q s : wp m Q s → ∃ a s', m s = Ret (a, s') ∧ Q a s'.
Proof. done. Qed.
End wp.

Definition wpb {S A} (B : Prop) (m : C S A) (Q : A → S → Prop) (s : S) : Prop :=
  match m s with Ret (a, s') => Q a s' | Blocked => B | _ => False end.
Section wpb.
Context {S : Type} (B : Prop).
Implicit Types s : S.
Lemma wp_wpb {A} (m : C S A) Q s : wp m Q s → wpb B m Q s.
Proof. intros (a & s' & E & HQ). unfold wpb. by rewrite E. Qed.
Lemma wpb_bind {A T} (m : C S A) (k : A → C S T) Q s : wp m (λ a, wpb B (k a) Q) s → wpb B (m ≫= k) Q s.
Proof. intros (a & s' & E & HQ). unfold wpb. by rewrite (bind_Ret _ _ _ _ _ E). Qed.
Lemma wpb_bind_wait {A T} (m : C S A) (k : A → C S T) Q s : wpb B m (λ a, wpb B (k a) Q) s → wpb B (m ≫= k) Q s.
Proof. unfold wpb, mbind, C_bind. by destruct (m s) as [[a s']| | |]. Qed.
Lemma wpb_mono {A} (m : C S A) (P Q : A → S → Prop) s : wpb B m P s → (∀ a s', P a s' → Q a s') → wpb B m Q s.
Proof. unfold wpb. destruct (m s) as [[a s']| | |]; auto. Qed.
Lemma wpb_blocked {A} (Q : A → S → Prop) s : B → wpb B c_blocked Q s.
Proof. done. Qed.
Lemma wpb_outcome {A} (m : C S A) Q s : wpb B m Q s → (∃ a s', m s = Ret (a, s') ∧ Q a s') ∨ m s = Blocked ∧ B.
Proof. unfold wpb. destruct (m s) as [[a s']| | |]; [left; by eexists _, _|done|by right|done]. Qed.
End wpb.

Definition stays {S A} (I : S → Prop) (m : C S A) : Prop := ∀ s a s', I s → m s = Ret (a, s') → I s'.
Section stays.
Context {S : Type} (I : S → Prop).
Lemma stays_bind {A B} (m : C S A) (k : A → C S B) : stays I m → (∀ a, stays I (k a)) → stays I (m ≫= k).
Proof. intros Hm Hk s b s' Hs (a & s1 & E & E')%bind_inv. eapply Hk; [|done]. by eapply Hm. Qed.
(** A continuation that looks at the state it starts in. *)
Lemma stays_get {B} (k : S → C S B) : (∀ s, I s → stays I (k s)) → stays I (c_get ≫= k).
Proof. intros Hk s b s' Hs E. by eapply (Hk s). Qed.
Lemma stays_ret {A} (a : A) : stays I (mret a).
Proof. by intros s b s' Hs [= <- <-]. Qed.
Lemma stays_mod f : (∀ s, I s → I (f s)) → stays I (c_mod f).
Proof. intros H s b s' Hs [= <- <-]. auto. Qed.
Lemma stays_ub {A} : stays I (c_ub : C S A). Proof. by intros ? ? ? ?. Qed.
Lemma stays_blocked {A} : stays I (c_blocked : C S A). Proof. by intros ? ? ? ?. Qed.
Lemma stays_fuel {A} : stays I (c_fuel : C S A). Proof. by intros ? ? ? ?. Qed.
Lemma stays_if {A} (b : bool) (m1 m2 : C S A) : stays I m1 → stays I m2 → stays I (if b then m1 else m2).
Proof. by destruct b. Qed.
End stays.
Create HintDb stays discriminated.
#[export] Hint Constants Opaque : stays.
#[export] Hint Resolve stays_ret stays_ub stays_blocked stays_fuel : stays.
(** One layer of a function at a time: its binds, its tests, then the database. *)
Ltac stays_step :=
  first [ solve [auto 2 with stays nocore]
        | match goal with
          | |- stays _ (mbind _ c_get) => apply stays_get; intros ? ?
          | |- stays _ (mbind _ _) => apply stays_bind; [|intros ?]
          | |- stays _ (if ?b then _ else _) => apply stays_if
          | |- stays _ (match ?x with _ => _ end) => destruct x
          end
        | progress cbv zeta ].
Ltac stays := repeat stays_step.
End Calls.
