(* ===== verification/Getopt.v ===== *)
(** * getopt_long

    The command lines of the programs: getopt_long of the C library in its default
    mode, where operands may stand between options.  A table lists the short options
    with whether they take an argument, and the long options with the short option that
    each returns.  The result is the sequence of options in order, and the operands. *)

From S2P Require Import Prelude.

Module Getopt.

Record long_option := Long { name : list byte; has_arg : bool; val : byte }.
Record table := Table { shorts : list (byte * bool); longs : list long_option }.
(** An option and its argument; [Unknown] is the result '?'. *)
Inductive opt := Opt (c : byte) (arg : option (list byte)) | Unknown.
#[global] Instance opt_eq_dec : EqDecision opt.
Proof. solve_decision. Defined.

Section getopt.
Context (t : table).

Definition short (c : byte) : option bool := snd <$> head (filter (λ x, x.1 = c) t.(shorts)).
(** A long option by its name, or by a prefix of only one name. *)
Definition long (s : list byte) : option long_option :=
  match head (filter (λ l, l.(name) = s) t.(longs)) with
  | Some l => Some l
  | None => match filter (λ l, is_prefix s l.(name) = true) t.(longs) with [l] => Some l | _ => None end
  end.

(** What an element of the command line holds: options; the last may need the next
    element as its argument. *)
Record element := Element { opts : list opt; needs : option byte }.
Fixpoint cluster (s : list byte) : element :=
  match s with
  | [] => Element [] None
  | c :: s' =>
      match short c with
      | None => let e := cluster s' in Element (Unknown :: e.(opts)) e.(needs)
      | Some false => let e := cluster s' in Element (Opt c None :: e.(opts)) e.(needs)
      | Some true => match s' with [] => Element [] (Some c) | _ => Element [Opt c (Some s')] None end
      end
  end.
Definition long_element (s : list byte) : element :=
  match find_byte x3d s with
  | Some k =>
      match long (take k s) with
      | Some l => Element [if l.(has_arg) then Opt l.(val) (Some (drop (S k) s)) else Unknown] None
      | None => Element [Unknown] None
      end
  | None =>
      match long s with
      | Some l => if l.(has_arg) then Element [] (Some l.(val)) else Element [Opt l.(val) None] None
      | None => Element [Unknown] None
      end
  end.
Inductive arg_kind := Operand | Options (e : element) | Stop.
Definition kind (a : list byte) : arg_kind :=
  match a with
  | x2d :: x2d :: [] => Stop
  | x2d :: x2d :: s => Options (long_element s)
  | x2d :: c :: s => Options (cluster (c :: s))
  | _ => Operand
  end.
Definition add (os : list opt) (r : list opt * list (list byte)) : list opt * list (list byte) := (os ++ r.1, r.2).
(** argv[1..]. *)
Fixpoint getopt_long (args : list (list byte)) : list opt * list (list byte) :=
  match args with
  | [] => ([], [])
  | a :: args' =>
      match kind a with
      | Stop => ([], args')
      | Operand => let r := getopt_long args' in (r.1, a :: r.2)
      | Options e =>
          match e.(needs) with
          | None => add e.(opts) (getopt_long args')
          | Some c =>
              match args' with
              | [] => (e.(opts) ++ [Unknown], [])
              | v :: args'' => add (e.(opts) ++ [Opt c (Some v)]) (getopt_long args'')
              end
          end
      end
  end.

Lemma short_elem c b : short c = Some b → (c, b) ∈ t.(shorts).
Proof.
  unfold short. destruct (filter _ _) as [|[c' b'] l] eqn:E; [done|]. intros [= <-].
  assert (H : (c', b') ∈ filter (λ x, x.1 = c) t.(shorts)) by (rewrite E; by left). by apply list_elem_of_filter in H as [<- H].
Qed.
Lemma long_elem s l : long s = Some l → l ∈ t.(longs).
Proof.
  unfold long. destruct (filter (λ l, l.(name) = s) _) as [|x xs] eqn:E; cbn [head].
  - destruct (filter (λ l, is_prefix s l.(name) = true) _) as [|y [|]] eqn:E2; try done. intros [= ->].
    assert (H : l ∈ filter (λ l, is_prefix s l.(name) = true) t.(longs)) by (rewrite E2; by left). by apply list_elem_of_filter in H as [_ H].
  - intros [= ->]. assert (H : l ∈ filter (λ l, l.(name) = s) t.(longs)) by (rewrite E; by left). by apply list_elem_of_filter in H as [_ H].
Qed.

(** ** Spellings *)

(** The ways to write an option: [-c], [-cV], [-c V], [--name], [--name=V], [--name V]. *)
Inductive spelled : opt → list (list byte) → Prop :=
  | sp_flag c : short c = Some false → c ≠ x2d → spelled (Opt c None) [[x2d; c]]
  | sp_joined c v : short c = Some true → c ≠ x2d → v ≠ [] → spelled (Opt c (Some v)) [x2d :: c :: v]
  | sp_apart c v : short c = Some true → c ≠ x2d → spelled (Opt c (Some v)) [[x2d; c]; v]
  | sp_long l : long l.(name) = Some l → l.(has_arg) = false → l.(name) ≠ [] → x3d ∉ l.(name) →
      spelled (Opt l.(val) None) [x2d :: x2d :: l.(name)]
  | sp_equals l v : long l.(name) = Some l → l.(has_arg) = true → l.(name) ≠ [] → x3d ∉ l.(name) →
      spelled (Opt l.(val) (Some v)) [x2d :: x2d :: l.(name) ++ x3d :: v]
  | sp_next l v : long l.(name) = Some l → l.(has_arg) = true → l.(name) ≠ [] → x3d ∉ l.(name) →
      spelled (Opt l.(val) (Some v)) [x2d :: x2d :: l.(name); v].
Inductive command_line : list opt → list (list byte) → Prop :=
  | cl_nil : command_line [] []
  | cl_cons o os w ws : spelled o w → command_line os ws → command_line (o :: os) (w ++ ws).

Lemma find_equals a v : x3d ∉ a → find_byte x3d (a ++ x3d :: v) = Some (length a).
Proof.
  induction a as [|c a IH]; intros Ha; cbn; [done|]. apply not_elem_of_cons in Ha as [Hc Ha].
  rewrite decide_False by done. by rewrite IH.
Qed.
Lemma kind_long s : s ≠ [] → kind (x2d :: x2d :: s) = Options (long_element s).
Proof. by destruct s. Qed.
Lemma kind_short c s : c ≠ x2d → kind (x2d :: c :: s) = Options (cluster (c :: s)).
Proof. intros. unfold kind. destruct c; try done. Qed.
Lemma getopt_spelled o w ws : spelled o w → getopt_long (w ++ ws) = add [o] (getopt_long ws).
Proof.
  intros [c Hc Hd|c v Hc Hd Hv|c v Hc Hd|l Hl Ha Hn He|l v Hl Ha Hn He|l v Hl Ha Hn He]; cbn [app getopt_long].
  - rewrite kind_short by done. cbn [cluster]. by rewrite Hc.
  - rewrite kind_short by done. cbn [cluster]. rewrite Hc. by destruct v.
  - rewrite kind_short by done. cbn [cluster]. by rewrite Hc.
  - rewrite kind_long by done. unfold long_element. rewrite (proj2 (find_byte_None _ _) He), Hl, Ha. done.
  - rewrite kind_long by (by destruct (name l)). unfold long_element. rewrite find_equals by done.
    rewrite take_app_length, Hl, Ha. replace (drop (S (length (name l))) (name l ++ x3d :: v)) with v; [done|].
    by rewrite <- Nat.add_1_r, <- drop_drop, drop_app_length.
  - rewrite kind_long by done. unfold long_element. rewrite (proj2 (find_byte_None _ _) He), Hl, Ha. done.
Qed.
(** However the options are spelled, they are what getopt_long returns. *)
Lemma getopt_command_line os ws : command_line os ws → getopt_long ws = (os, []).
Proof.
  induction 1 as [|o os w ws Hs _ IH]; [done|]. by rewrite (getopt_spelled o w ws Hs), IH.
Qed.
(** Operands that do not begin with a dash are kept. *)
Lemma getopt_operands ws : Forall (λ w, head w ≠ Some x2d) ws → getopt_long ws = ([], ws).
Proof.
  induction 1 as [|w ws Hw _ IH]; [done|]. cbn [getopt_long]. assert (kind w = Operand) as ->.
  { unfold kind. destruct w as [|c w]; [done|]. destruct c; done. }
  by rewrite IH.
Qed.
Lemma getopt_line_operands os ws as_ : command_line os ws → Forall (λ w, head w ≠ Some x2d) as_ → getopt_long (ws ++ as_) = (os, as_).
Proof.
  intros H Ha. induction H as [|o os w ws Hs _ IH]; [by apply getopt_operands|].
  by rewrite <- (assoc_L (++)), (getopt_spelled o w _ Hs), IH.
Qed.

End getopt.

Arguments spelled t o w : clear implicits.
End Getopt.
