(* ===== verification/Double.v ===== *)
(** * Doubles: binary64 arithmetic and bounds on rounded results

    Shared by the parts of the programs that compute with [double].  Operations are
    those of the Standard Library's executable IEEE 754 arithmetic, rounding to the
    nearest, ties to even.  [round_upper] and [round_lower] bound a rounded result by any
    double that bounds the exact one. *)

From Stdlib Require Import Floats.SpecFloat.
From S2P Require Import Prelude.

Module Double.

Definition double : Type := spec_float.
Definition of_Z (z : Z) : double := binary_normalize 53 1024 z 0 false.
Definition fadd : double → double → double := SFadd 53 1024.
Definition fsub : double → double → double := SFsub 53 1024.
Definition fmul : double → double → double := SFmul 53 1024.
Definition fdiv : double → double → double := SFdiv 53 1024.
(** [a < b], [a <= b]. *)
Definition flt : double → double → bool := SFltb.
Definition fle : double → double → bool := SFleb.
(** Conversion to an integer type drops the fraction. *)
Definition trunc (x : double) : option Z :=
  match x with
  | S754_zero _ => Some 0
  | S754_finite s m e => let z := Z.shiftl (Zpos m) e in Some (if s then - z else z)
  | _ => None
  end.

(** [%.nf]: the nearest multiple of [10^-n], ties to even. *)
Definition round_div (a b : Z) : Z :=
  let '(q, r) := Z.div_eucl a b in
  match 2 * r ?= b with Lt => q | Gt => q + 1 | Eq => if Z.even q then q else q + 1 end.
Definition fixed (n : nat) (x : double) : list byte :=
  let p := 10 ^ Z.of_nat n in
  let put (s : bool) (z : Z) := (if s then str "-" else []) ++ digits 400 10 (z / p) [] ++ str "." ++ pad0 n (dec (z mod p)) in
  match x with
  | S754_nan => str "nan"
  | S754_infinity s => if s then str "-inf" else str "inf"
  | S754_zero s => put s 0
  | S754_finite s m e => put s (if 0 <=? e then Zpos m * p * 2 ^ e else round_div (Zpos m * p) (2 ^ (- e)))
  end.

(** ** Comparing doubles *)

(** A number as a triple that is compared lexicographically. *)
Definition float_key (x : double) : option (Z * Z * Z) :=
  match x with
  | S754_nan => None
  | S754_infinity s => Some (if s then -2 else 2, 0, 0)
  | S754_zero _ => Some (0, 0, 0)
  | S754_finite s m e => Some (if s then (-1, - e, Zneg m) else (1, e, Zpos m))
  end.
Definition lex (a b : Z * Z * Z) : comparison :=
  match a.1.1 ?= b.1.1 with Eq => match a.1.2 ?= b.1.2 with Eq => a.2 ?= b.2 | c => c end | c => c end.
Lemma compare_lex a b : SFcompare a b =
  match float_key a, float_key b with Some x, Some y => Some (lex x y) | _, _ => None end.
Proof.
  destruct a as [sa|sa| |sa ma ea], b as [sb|sb| |sb mb eb]; try (destruct sa; try destruct sb; reflexivity); try done.
  - destruct sa, sb; try reflexivity. cbn [SFcompare float_key]. unfold lex. cbn [fst snd].
    rewrite Z.compare_refl.
    assert ((- ea ?= - eb) = CompOpp (ea ?= eb)) as -> by (rewrite <- Z.compare_antisym; apply Z.compare_opp).
    by destruct (ea ?= eb).
Qed.
Lemma lex_trans a b c : lex a b = Lt → lex b c ≠ Gt → lex a c = Lt.
Proof.
  destruct a as [[a1 a2] a3], b as [[b1 b2] b3], c as [[c1 c2] c3]. unfold lex. cbn [fst snd].
  destruct (Z.compare_spec a1 b1), (Z.compare_spec b1 c1), (Z.compare_spec a1 c1); try done; try lia;
    destruct (Z.compare_spec a2 b2), (Z.compare_spec b2 c2), (Z.compare_spec a2 c2); try done; try lia;
    destruct (Z.compare_spec a3 b3), (Z.compare_spec b3 c3), (Z.compare_spec a3 c3); try done; try lia.
Qed.
(** A number that is not above a limit is not at least something above the limit. *)
Lemma below_limit m x b : flt m x = false → flt m b = true → fle b x = false.
Proof.
  unfold flt, fle, SFltb, SFleb. rewrite !compare_lex. destruct (float_key m) as [km|], (float_key x) as [kx|], (float_key b) as [kb|]; try done.
  intros H1 H2. destruct (lex km kb) eqn:E; try done. pose proof (lex_trans km kb kx E) as Ht.
  destruct (lex kb kx); try done; rewrite Ht in H1 by done; done.
Qed.
Lemma flt_irrefl x : flt x x = false.
Proof.
  unfold flt, SFltb. rewrite compare_lex. destruct (float_key x) as [k|]; [|done]. unfold lex. by rewrite !Z.compare_refl.
Qed.

(** ** Rounding *)

(** The value of [m * 2^e], on a scale that is fine enough for all products. *)
Definition val (m e : Z) : Z := m * 2 ^ (e + 3000).
(** A double that bounds: [m * 2^e] with 53 bits. *)
Definition representable (m e : Z) : Prop := 0 < m < 2 ^ 53 ∧ emin 53 1024 ≤ e.

Lemma zdigits_bounds p : 2 ^ (Zpos (digits2_pos p) - 1) ≤ Zpos p < 2 ^ Zpos (digits2_pos p).
Proof.
  induction p as [p IH|p IH|]; cbn [digits2_pos]; try rewrite Pos2Z.inj_succ; [| |done].
  all: replace (Z.succ (Z.pos (digits2_pos p)) - 1) with (Z.succ (Z.pos (digits2_pos p) - 1)) by lia.
  all: rewrite !Z.pow_succ_r by lia; lia.
Qed.
Lemma val_le m e m' e' k : k ≤ e → k ≤ e' → -3000 ≤ k → val m e ≤ val m' e' ↔ m * 2 ^ (e - k) ≤ m' * 2 ^ (e' - k).
Proof.
  intros. unfold val. replace (e + 3000) with ((e - k) + (k + 3000)) by lia. replace (e' + 3000) with ((e' - k) + (k + 3000)) by lia.
  rewrite (Z.pow_add_r 2 (e - k)), (Z.pow_add_r 2 (e' - k)) by lia. rewrite !Z.mul_assoc. pose proof (Z.pow_pos_nonneg 2 (k + 3000) ltac:(lia) ltac:(lia)).
  split; [apply Z.mul_le_mono_pos_r|intros; apply Z.mul_le_mono_nonneg_r]; lia.
Qed.
Lemma val_shift m e k : 0 ≤ k → -3000 ≤ e → val (m * 2 ^ k) e = val m (e + k).
Proof. intros. unfold val. rewrite <- Z.mul_assoc, <- Z.pow_add_r by lia. f_equal. f_equal. lia. Qed.

Definition exact (r : shr_record) : Prop := shr_r r = false ∧ shr_s r = false.
Lemma loc_exact r : loc_of_shr_record r = loc_Exact ↔ exact r.
Proof. destruct r as [m [] []]; unfold exact; cbn; naive_solver. Qed.
Lemma exact_of_loc m l : exact (shr_record_of_loc m l) ↔ l = loc_Exact.
Proof. destruct l as [|[]]; unfold exact; cbn; naive_solver. Qed.
Lemma m_of_loc m l : shr_m (shr_record_of_loc m l) = m.
Proof. by destruct l as [|[]]. Qed.
Lemma shr_1_spec r : 0 ≤ shr_m r → shr_m (shr_1 r) = shr_m r `div` 2 ∧ (exact (shr_1 r) ↔ exact r ∧ shr_m r = shr_m (shr_1 r) * 2).
Proof.
  destruct r as [m r s]. cbn [shr_m]. intros Hm. destruct m as [|[p|p|]|p]; [| | | |lia]; cbn.
  - split; [done|]. unfold exact; cbn. rewrite orb_false_iff. tauto.
  - split; [rewrite (Z.div_unique (Zpos p~1) 2 (Zpos p) 1); lia|]. unfold exact; cbn. split; [by intros []|intros [_ H]; lia].
  - split; [rewrite (Z.div_unique (Zpos p~0) 2 (Zpos p) 0); lia|]. unfold exact; cbn. rewrite orb_false_iff. split; [intros [_ ?]; split; [done|lia]|tauto].
  - split; [done|]. unfold exact; cbn. split; [by intros []|intros [_ H]; lia].
Qed.
Lemma iter_pos_add {A} (f : A → A) p x : SpecFloat.iter_pos f p x = Nat.iter (Pos.to_nat p) f x.
Proof.
  revert x. induction p as [p IH|p IH|]; intros x; cbn [SpecFloat.iter_pos]; [| |done].
  - rewrite !IH, <- Nat.iter_add. replace (Pos.to_nat p~1) with (S (Pos.to_nat p + Pos.to_nat p)) by lia. by rewrite Nat.iter_succ_r.
  - rewrite !IH, <- Nat.iter_add. f_equal. lia.
Qed.
Lemma iter_shr k r : 0 ≤ shr_m r → let r' := Nat.iter k shr_1 r in
  shr_m r' = shr_m r `div` 2 ^ Z.of_nat k ∧ 0 ≤ shr_m r' ∧ (exact r' ↔ exact r ∧ shr_m r = shr_m r' * 2 ^ Z.of_nat k).
Proof.
  intros Hr. induction k as [|k IH]; cbn zeta.
  - cbn. rewrite Z.div_1_r, Z.mul_1_r. split_and!; [done|done|tauto].
  - change (Nat.iter (S k) shr_1 r) with (shr_1 (Nat.iter k shr_1 r)). revert IH. generalize (Nat.iter k shr_1 r). intros x (E & H0 & Hx).
    destruct (shr_1_spec x H0) as [E1 X1]. rewrite Nat2Z.inj_succ, Z.pow_succ_r by lia. split_and!.
    + rewrite E1, E, Zdiv.Zdiv_Zdiv by lia. f_equal. lia.
    + rewrite E1. apply Z.div_pos; lia.
    + rewrite X1, Hx. pose proof (Z.pow_pos_nonneg 2 (Z.of_nat k) ltac:(lia) ltac:(lia)). split.
      * intros [[Hx2 Em2] Em]. split; [done|]. rewrite Em2, Em. ring.
      * intros [Hx2 Em]. assert (E2 : shr_m x = 2 * shr_m (shr_1 x)); [|split; [split; [done|]|]; lia].
        rewrite E, Em. rewrite <- (Z.div_mul (2 * shr_m (shr_1 x)) (2 ^ Z.of_nat k)) by lia. f_equal. ring.
Qed.

(** The shift before rounding, and the exponent that it leads to. *)
Definition shift (m e : Z) : Z := Z.max 0 (fexp 53 1024 (Zdigits2 m + e) - e).
Lemma shr_fexp_spec m e l : 0 ≤ m → ∃ r, shr_fexp 53 1024 m e l = (r, e + shift m e) ∧ shr_m r = m `div` 2 ^ shift m e ∧
  (loc_of_shr_record r = loc_Exact ↔ l = loc_Exact ∧ m = shr_m r * 2 ^ shift m e).
Proof.
  intros Hm. unfold shr_fexp, shift, shr. destruct (fexp 53 1024 (Zdigits2 m + e) - e) as [|p|p] eqn:Ek.
  - exists (shr_record_of_loc m l). rewrite m_of_loc, loc_exact, exact_of_loc. cbn. rewrite Z.div_1_r, Z.add_0_r, Z.mul_1_r. tauto.
  - eexists. split; [reflexivity|]. rewrite iter_pos_add, loc_exact.
    destruct (iter_shr (Pos.to_nat p) (shr_record_of_loc m l)) as (E & _ & X); [by rewrite m_of_loc|].
    rewrite m_of_loc, positive_nat_Z in *. rewrite exact_of_loc in X. split; [|done]. done.
  - exists (shr_record_of_loc m l). rewrite m_of_loc, loc_exact, exact_of_loc. cbn. rewrite Z.div_1_r, Z.add_0_r, Z.mul_1_r. tauto.
Qed.
Lemma zdigits_nonneg m : 0 ≤ Zdigits2 m.
Proof. by destruct m. Qed.
Lemma zdigits_spec m : 0 < m → 2 ^ (Zdigits2 m - 1) ≤ m < 2 ^ Zdigits2 m.
Proof. destruct m; try lia. intros _. apply zdigits_bounds. Qed.
Lemma zdigits_le m k : 0 ≤ k → 0 ≤ m < 2 ^ k → Zdigits2 m ≤ k.
Proof.
  intros Hk Hm. destruct (decide (m = 0)) as [->|]; [cbn; lia|]. pose proof (zdigits_spec m ltac:(lia)).
  destruct (decide (Zdigits2 m ≤ k)); [done|]. pose proof (Z.pow_le_mono_r 2 k (Zdigits2 m - 1) ltac:(lia) ltac:(lia)). lia.
Qed.
Lemma shift_bound m e : 0 ≤ m → 0 ≤ shift m e ∧ emin 53 1024 ≤ e + shift m e ∧ m `div` 2 ^ shift m e < 2 ^ 53.
Proof.
  intros Hm. unfold shift, fexp. split_and!; [lia|lia|]. set (k := Z.max 0 _). pose proof (zdigits_nonneg m).
  destruct (decide (m = 0)) as [->|]; [rewrite Z.div_0_l by (apply Z.pow_nonzero; lia); done|].
  pose proof (zdigits_spec m ltac:(lia)) as [_ Hd]. apply Z.div_lt_upper_bound; [apply Z.pow_pos_nonneg; lia|].
  rewrite <- Z.pow_add_r by lia. pose proof (Z.pow_le_mono_r 2 (Zdigits2 m) (k + 53) ltac:(lia) ltac:(lia)). lia.
Qed.
Lemma shift_53 m e : 0 ≤ m ≤ 2 ^ 53 → emin 53 1024 ≤ e → m < 2 ^ 53 ∧ shift m e = 0 ∨ m = 2 ^ 53 ∧ shift m e = 1.
Proof.
  intros Hm He. unfold shift, fexp. destruct (decide (m = 2 ^ 53)) as [->|].
  - right. split; [done|]. change (Zdigits2 (2 ^ 53)) with 54. lia.
  - left. split; [lia|]. pose proof (zdigits_le m 53 ltac:(lia) ltac:(lia)). lia.
Qed.

Definition packed (s : bool) (m e : Z) : double :=
  match m with Z0 => S754_zero s | Zpos p => if e <=? 971 then S754_finite s p e else S754_infinity s | Zneg _ => S754_nan end.
(** The result is the quotient [q] of the shift or the next number. *)
Lemma round_aux_spec s m e l : 0 ≤ m → -3000 ≤ e → let q := m `div` 2 ^ shift m e in ∃ q' m' e',
  binary_round_aux 53 1024 s m e l = packed s m' e' ∧ val m' e' = val q' (e + shift m e) ∧ 0 ≤ m' < 2 ^ 53 ∧ emin 53 1024 ≤ e' ∧
  (q' = q ∨ q' = q + 1 ∧ ¬ (l = loc_Exact ∧ m = q * 2 ^ shift m e)).
Proof.
  intros Hm He q. destruct (shr_fexp_spec m e l Hm) as (r & E1 & Hq & Hx). destruct (shift_bound m e Hm) as (H0 & Hmin & H53).
  assert (Hr : ∃ q', round_nearest_even (shr_m r) (loc_of_shr_record r) = q' ∧
    (q' = q ∨ q' = q + 1 ∧ ¬ (l = loc_Exact ∧ m = q * 2 ^ shift m e))).
  { eexists. split; [reflexivity|]. rewrite Hq in *. fold q. unfold round_nearest_even.
    destruct (loc_of_shr_record r) as [|[]] ; try destruct (Z.even q); try (by left); right; (split; [done|]); intros HX; by apply Hx in HX. }
  destruct Hr as (q' & Er & Hq'). assert (0 ≤ q) by (apply Z.div_pos; [done|apply Z.pow_pos_nonneg; lia]).
  assert (0 ≤ q' ≤ 2 ^ 53) by (unfold q in *; lia). unfold binary_round_aux. rewrite E1, Er.
  destruct (shr_fexp_spec q' (e + shift m e) loc_Exact ltac:(lia)) as (r2 & E2 & Hq2 & _). rewrite E2.
  destruct (shift_bound q' (e + shift m e) ltac:(lia)) as (Hs2 & _ & _).
  exists q', (shr_m r2), (e + shift m e + shift q' (e + shift m e)). split_and!; [done| | | |lia|done].
  - rewrite Hq2. destruct (shift_53 q' (e + shift m e)) as [[_ ->]|[-> ->]]; [lia|lia| |].
    + by rewrite Z.div_1_r, Z.add_0_r.
    + change (2 ^ 53) with (2 ^ 52 * 2 ^ 1). rewrite Z.div_mul by done. by rewrite val_shift by (unfold emin in *; lia).
  - rewrite Hq2. apply Z.div_pos; [lia|by apply Z.pow_pos_nonneg].
  - rewrite Hq2. by destruct (shift_53 q' (e + shift m e)) as [[? ->]|[-> ->]]; [lia|lia|rewrite Z.div_1_r|].
Qed.

Lemma val_pos m e : 0 < m → -3000 ≤ e → 0 < val m e.
Proof. intros. unfold val. apply Z.mul_pos_pos; [done|]. apply Z.pow_pos_nonneg; lia. Qed.
Lemma val_lt_bits m e m' e' a b : -3000 ≤ e → -3000 ≤ e' → 0 ≤ a → 0 ≤ b → 2 ^ a ≤ m → m' < 2 ^ b → val m e ≤ val m' e' → a + e < b + e'.
Proof.
  unfold val. intros ? ? ? ? Hm Hm' Hv. destruct (decide (a + e < b + e')); [done|]. exfalso.
  pose proof (Z.pow_pos_nonneg 2 (e' + 3000) ltac:(lia) ltac:(lia)). pose proof (Z.pow_pos_nonneg 2 (e + 3000) ltac:(lia) ltac:(lia)).
  pose proof (Z.pow_le_mono_r 2 (b + (e' + 3000)) (a + (e + 3000)) ltac:(lia) ltac:(lia)) as Hp.
  rewrite (Z.pow_add_r 2 b), (Z.pow_add_r 2 a) in Hp by lia.
  pose proof (Z.mul_le_mono_nonneg_r (2 ^ a) m (2 ^ (e + 3000)) ltac:(lia) Hm). pose proof (Z.mul_lt_mono_pos_r (2 ^ (e' + 3000)) m' (2 ^ b) ltac:(lia)). lia.
Qed.
(** A bound of a number that is shifted is a multiple of the unit in the last place. *)
Lemma bound_exponent m e my ey : 0 < m → -3000 ≤ e → representable my ey → val m e ≤ val my ey →
  e ≤ fexp 53 1024 (Zdigits2 m + e) → e + shift m e ≤ ey.
Proof.
  intros Hm He [Hy Hey] Hv Hf. unfold shift. rewrite Z.max_r by lia. pose proof (zdigits_spec m Hm) as [Hd _]. pose proof (zdigits_nonneg m).
  assert (1 ≤ Zdigits2 m) by (destruct m; try lia; cbn; lia).
  pose proof (val_lt_bits m e my ey (Zdigits2 m - 1) 53 ltac:(lia) ltac:(unfold emin in *; lia) ltac:(lia) ltac:(lia) Hd ltac:(lia) Hv).
  unfold fexp. lia.
Qed.

(** [x] is a double between zero and [my * 2^ey], or not below it. *)
Definition at_most (x : double) (my ey : Z) : Prop :=
  match x with S754_zero _ => True | S754_finite false m e => val (Zpos m) e ≤ val my ey ∧ emin 53 1024 ≤ e ∧ Zpos m < 2 ^ 53 | _ => False end.
Definition at_least (x : double) (my ey : Z) : Prop :=
  match x with S754_infinity false => True | S754_finite false m e => val my ey ≤ val (Zpos m) e ∧ emin 53 1024 ≤ e ∧ Zpos m < 2 ^ 53 | _ => False end.
Lemma val_mono m m' e : -3000 ≤ e → m ≤ m' → val m e ≤ val m' e.
Proof. intros. unfold val. apply Z.mul_le_mono_nonneg_r; [apply Z.pow_nonneg|]; lia. Qed.
Lemma val_cancel m m' e : -3000 ≤ e → val m e < val m' e → m < m'.
Proof. unfold val. intros. by apply Z.mul_lt_mono_pos_r in H0; [|apply Z.pow_pos_nonneg; lia]. Qed.
Lemma val_cancel_le m m' e : -3000 ≤ e → val m e ≤ val m' e → m ≤ m'.
Proof. unfold val. intros. by apply Z.mul_le_mono_pos_r in H0; [|apply Z.pow_pos_nonneg; lia]. Qed.

Lemma round_upper m e l my ey : 0 < m → -3000 ≤ e → representable my ey → ey ≤ 918 → val m e ≤ val my ey →
  (l ≠ loc_Exact → val m e < val my ey ∧ e ≤ fexp 53 1024 (Zdigits2 m + e)) →
  at_most (binary_round_aux 53 1024 false m e l) my ey.
Proof.
  intros Hm He Hr Hey Hv Hl. pose proof Hr as [Hmy Hemin]. destruct (shift_bound m e ltac:(lia)) as (Hs0 & Hsmin & _).
  destruct (round_aux_spec false m e l ltac:(lia) He) as (q' & m' & e' & -> & Hval & H0 & He' & Hq).
  assert (Hb : val q' (e + shift m e) ≤ val my ey).
  { assert (Hd : m `div` 2 ^ shift m e * 2 ^ shift m e ≤ m) by (rewrite Z.mul_comm; apply Z.mul_div_le, Z.pow_pos_nonneg; lia).
    destruct Hq as [->|[-> Hx]].
    { rewrite <- val_shift by lia. etrans; [|exact Hv]. by apply val_mono. }
    assert (Hf : e ≤ fexp 53 1024 (Zdigits2 m + e)).
    { destruct (decide (e ≤ fexp 53 1024 (Zdigits2 m + e))) as [|Hf]; [done|]. destruct Hx. split; [|unfold shift; rewrite Z.max_l by lia; by rewrite Z.div_1_r, Z.mul_1_r].
      destruct l; [done|]. by destruct (Hl ltac:(done)). }
    pose proof (bound_exponent m e my ey Hm He Hr Hv Hf) as HE. set (k := shift m e) in *. set (q := m `div` 2 ^ k) in *.
    replace ey with ((e + k) + (ey - (e + k))) in Hv, Hl |- * by lia. rewrite <- (val_shift my) in Hv, Hl |- * by lia.
    set (Y := my * 2 ^ (ey - (e + k))) in *. apply val_mono; [lia|].
    assert (q < Y); [|lia]. pose proof (Z.pow_pos_nonneg 2 k ltac:(lia) ltac:(lia)).
    rewrite <- val_shift in Hv, Hl by lia. destruct l as [|c].
    - apply val_cancel_le in Hv; [|lia]. assert (q * 2 ^ k ≠ m) by naive_solver. nia.
    - destruct (Hl ltac:(done)) as [Hlt _]. apply val_cancel in Hlt; [|lia]. nia. }
  rewrite <- Hval in Hb. unfold packed. destruct m' as [|p|p]; [done| |lia]. destruct (e' <=? 971) eqn:E; [by split_and!; [done|done|lia]|].
  apply Z.leb_gt in E. pose proof (val_lt_bits (Zpos p) e' my ey 0 53 ltac:(unfold emin in *; lia) ltac:(unfold emin in *; lia) ltac:(lia) ltac:(lia) ltac:(lia) ltac:(lia) Hb). lia.
Qed.
Lemma round_lower m e l my ey : 0 < m → -3000 ≤ e → representable my ey → val my ey ≤ val m e →
  at_least (binary_round_aux 53 1024 false m e l) my ey.
Proof.
  intros Hm He Hr Hv. pose proof Hr as [Hmy Hemin]. destruct (shift_bound m e ltac:(lia)) as (Hs0 & Hsmin & _).
  destruct (round_aux_spec false m e l ltac:(lia) He) as (q' & m' & e' & -> & Hval & H0 & He' & Hq).
  assert (Hb : val my ey ≤ val q' (e + shift m e)).
  { trans (val (m `div` 2 ^ shift m e) (e + shift m e)); [|apply val_mono; lia]. clear q' Hval Hq.
    unfold shift in *. destruct (decide (fexp 53 1024 (Zdigits2 m + e) ≤ e)) as [|Hf].
    { rewrite Z.max_l by lia. by rewrite Z.div_1_r, Z.add_0_r. }
    rewrite Z.max_r in * by lia. set (k := fexp 53 1024 (Zdigits2 m + e) - e) in *. pose proof (Z.pow_pos_nonneg 2 k ltac:(lia) ltac:(lia)).
    destruct (decide (e + k ≤ ey)) as [HE|HE].
    - replace ey with ((e + k) + (ey - (e + k))) by lia. rewrite <- val_shift by lia. apply val_mono; [lia|].
      apply Z.div_le_lower_bound; [lia|]. replace ey with (e + k + (ey - (e + k))) in Hv by lia.
      replace (e + k + (ey - (e + k))) with (e + (k + (ey - (e + k)))) in Hv by lia. rewrite <- val_shift in Hv by lia.
      apply val_cancel_le in Hv; [|lia]. rewrite Z.pow_add_r in Hv by lia. lia.
    - pose proof (zdigits_spec m Hm) as [Hd _]. pose proof (zdigits_nonneg m). unfold fexp in k.
      assert (Hk : k = Zdigits2 m - 53) by lia.
      assert (2 ^ 52 ≤ m `div` 2 ^ k).
      { apply Z.div_le_lower_bound; [lia|]. rewrite <- Z.pow_add_r by lia. replace (k + 52) with (Zdigits2 m - 1) by lia. done. }
      trans (val (2 ^ 52) (e + k)); [|apply val_mono; lia]. trans (val (2 ^ 53) ey); [apply val_mono; [unfold emin in *|]; lia|].
      unfold val. rewrite <- !Z.pow_add_r by (unfold emin in *; lia). apply Z.pow_le_mono_r; lia. }
  rewrite <- Hval in Hb. unfold packed. pose proof (val_pos my ey ltac:(lia) ltac:(unfold emin in *; lia)).
  destruct m' as [|p|p]; [unfold val in Hb at 2; lia| |lia]. destruct (e' <=? 971); [|done]. split_and!; [done|done|lia].
Qed.

(** ** Integers and products *)

Lemma pow_3000 : 0 < 2 ^ 3000.
Proof. apply Z.pow_pos_nonneg; lia. Qed.
Lemma val_int n : val n 0 = n * 2 ^ 3000.
Proof. done. Qed.
Lemma val_mul m1 e1 m2 e2 : -1500 ≤ e1 → -1500 ≤ e2 → val (m1 * m2) (e1 + e2) * 2 ^ 3000 = val m1 e1 * val m2 e2.
Proof.
  intros. unfold val. transitivity (m1 * m2 * (2 ^ (e1 + e2 + 3000) * 2 ^ 3000)); [ring|].
  rewrite <- Z.pow_add_r by lia. replace (e1 + e2 + 3000 + 3000) with ((e1 + 3000) + (e2 + 3000)) by lia. rewrite Z.pow_add_r by lia. ring.
Qed.
Lemma pos_iter_xO p d : Zpos (Pos.iter xO p d) = Zpos p * 2 ^ Zpos d.
Proof.
  revert p. induction d as [|d IH] using Pos.peano_ind; intros p; [cbn; lia|].
  rewrite Pos.iter_succ, Pos2Z.inj_xO, IH, Pos2Z.inj_succ, Z.pow_succ_r by lia. ring.
Qed.
Lemma of_Z_pos n : 0 < n < 2 ^ 53 → ∃ m e, of_Z n = S754_finite false m e ∧ val (Zpos m) e = val n 0 ∧ emin 53 1024 ≤ e ∧ Zpos m < 2 ^ 53.
Proof.
  intros Hn. destruct n as [|p|p]; [lia| |lia]. unfold of_Z. cbn [binary_normalize]. unfold binary_round.
  set (ex := fexp 53 1024 (Zpos (digits2_pos p) + 0)).
  assert (HA : ∃ mz ez, shl_align p 0 ex = (mz, ez) ∧ val (Zpos mz) ez = val (Zpos p) 0 ∧ -3000 ≤ ez).
  { assert (-1074 ≤ ex) by (unfold ex, fexp, emin; lia). unfold shl_align. rewrite Z.sub_0_r. destruct ex as [|d|d] eqn:E; [by exists p, 0|by exists p, 0|].
    exists (Pos.iter xO p d), (Zneg d). split_and!; [done| |lia]. rewrite pos_iter_xO, val_shift by lia. f_equal. lia. }
  destruct HA as (mz & ez & -> & Hv & Hez). assert (Hr : representable (Zpos p) 0) by (split; [lia|done]).
  pose proof (round_upper (Zpos mz) ez loc_Exact _ _ ltac:(lia) Hez Hr ltac:(lia) ltac:(lia) ltac:(done)) as Hu.
  pose proof (round_lower (Zpos mz) ez loc_Exact _ _ ltac:(lia) Hez Hr ltac:(lia)) as Hl.
  destruct (binary_round_aux _ _ _ _ _ _) as [|[]| |[] m e]; cbn in Hu, Hl; try done. exists m, e. split_and!; [done|lia|tauto|tauto].
Qed.

(** Dropping the fraction. *)
Lemma trunc_spec m e : -3000 ≤ e → ∃ z, trunc (S754_finite false m e) = Some z ∧ val z 0 ≤ val (Zpos m) e < val (z + 1) 0.
Proof.
  intros He. exists (Z.shiftl (Zpos m) e). split; [done|]. destruct (decide (0 ≤ e)).
  - rewrite Z.shiftl_mul_pow2, val_shift by lia. unfold val. rewrite Z.add_0_l.
    split; [done|].
    rewrite Z.mul_add_distr_r, <- Z.mul_assoc, <- Z.pow_add_r by lia. pose proof pow_3000. rewrite Z.add_0_l. lia.
  - assert (∃ d, 0 ≤ d ∧ e = - d) as (d & Hd & ->) by (exists (- e); lia). rewrite Z.shiftl_opp_r, Z.shiftr_div_pow2 by lia.
    pose proof (Z.pow_pos_nonneg 2 d ltac:(lia) ltac:(lia)) as Hp. pose proof (Z.mul_div_le (Zpos m) (2 ^ d) Hp).
    pose proof (Z.mul_succ_div_gt (Zpos m) (2 ^ d) Hp). set (z := Zpos m `div` 2 ^ d) in *.
    replace 0 with (- d + d) by lia. rewrite <- !val_shift by lia. split; [apply val_mono; lia|].
    unfold val. apply Z.mul_lt_mono_pos_r; [apply Z.pow_pos_nonneg; lia|]. lia.
Qed.
(** A bounded double truncates to a bounded integer. *)
Lemma trunc_between x a ea b eb : at_least x a ea → at_most x b eb → ∃ z, trunc x = Some z ∧
  (∀ k, val k 0 ≤ val a ea → k ≤ z) ∧ (∀ k, val b eb < val k 0 → z < k).
Proof.
  destruct x as [| [] | |[] m e]; try done. intros (Hl & He & _) (Hu & _). destruct (trunc_spec m e ltac:(unfold emin in He; lia)) as (z & E & H1 & H2).
  exists z. split_and!; [done| |].
  - intros k Hk. assert (k < z + 1); [|lia]. apply (val_cancel _ _ 0); lia.
  - intros k Hk. apply (val_cancel _ _ 0); lia.
Qed.

(** ** Bounds of sums, products and quotients *)

Lemma fmul_upper m1 e1 x m2 e2 my ey : emin 53 1024 ≤ e1 → representable my ey → ey ≤ 918 → at_most x m2 e2 → -1500 ≤ e2 →
  val (Zpos m1) e1 * val m2 e2 ≤ val my ey * 2 ^ 3000 → at_most (fmul (S754_finite false m1 e1) x) my ey.
Proof.
  intros He1 Hr Hey Hx He2 Hb. destruct x as [sx|sx| |[] m e]; try done. destruct Hx as (Hv & He & _).
  cbn [fmul SFmul xorb]. unfold fmul. cbn [SFmul xorb]. apply round_upper; [lia|unfold emin in *; lia|done|done| |done].
  apply (Z.mul_le_mono_pos_r _ _ (2 ^ 3000)); [exact pow_3000|]. rewrite Pos2Z.inj_mul, val_mul by (unfold emin in *; lia).
  etrans; [|exact Hb]. apply Z.mul_le_mono_nonneg_l; [|done]. apply Z.lt_le_incl, val_pos; unfold emin in *; lia.
Qed.

Lemma align_val p e k : k ≤ e → -3000 ≤ k → val (Zpos (shl_align p e k).1) k = val (Zpos p) e.
Proof.
  intros Hk H0. unfold shl_align. destruct (k - e) as [|d|d] eqn:E; cbn [fst]; [by replace k with e by lia|lia|].
  rewrite pos_iter_xO, val_shift by lia. f_equal. lia.
Qed.
Lemma normalize_upper z e my ey : 0 ≤ z → -2900 ≤ e → representable my ey → ey ≤ 918 → val z e ≤ val my ey → at_most (binary_normalize 53 1024 z e false) my ey.
Proof.
  intros Hz He Hr Hey Hv. destruct z as [|p|p]; [done| |lia]. cbn [binary_normalize]. unfold binary_round.
  set (ex := fexp 53 1024 (Zpos (digits2_pos p) + e)). assert (Hex : -1074 ≤ ex) by (unfold ex, fexp, emin; lia).
  destruct (decide (ex ≤ e)) as [Hle|Hgt].
  - pose proof (align_val p e ex Hle ltac:(lia)) as Ha. unfold shl_align in *. destruct (ex - e) as [|d|d] eqn:E; cbn [fst] in *; try lia.
    + apply round_upper; try done; lia.
    + apply round_upper; try done; lia.
  - unfold shl_align. destruct (ex - e) as [|d|d] eqn:E; try lia. apply round_upper; try done; lia.
Qed.
Lemma normalize_lower z e my ey : 0 < z → -2900 ≤ e → representable my ey → val my ey ≤ val z e → at_least (binary_normalize 53 1024 z e false) my ey.
Proof.
  intros Hz He Hr Hv. destruct z as [|p|p]; [lia| |lia]. cbn [binary_normalize]. unfold binary_round.
  set (ex := fexp 53 1024 (Zpos (digits2_pos p) + e)). assert (Hex : -1074 ≤ ex) by (unfold ex, fexp, emin; lia).
  destruct (decide (ex ≤ e)) as [Hle|Hgt].
  - pose proof (align_val p e ex Hle ltac:(lia)) as Ha. unfold shl_align in *. destruct (ex - e) as [|d|d] eqn:E; cbn [fst] in *; try lia.
    + apply round_lower; try done; lia.
    + apply round_lower; try done; lia.
  - unfold shl_align. destruct (ex - e) as [|d|d] eqn:E; try lia. apply round_lower; try done; lia.
Qed.
(** [x - y] for [0 <= y <= x] is at most [x]. *)
Lemma fsub_upper m e y : emin 53 1024 ≤ e ≤ 918 → Zpos m < 2 ^ 53 → at_most y (Zpos m) e → at_most (fsub (S754_finite false m e) y) (Zpos m) e.
Proof.
  intros He Hm Hy. assert (Hr : representable (Zpos m) e) by (split; lia). unfold fsub. destruct y as [sy|sy| |[] my ey]; try done.
  - cbn [SFsub at_most]. split_and!; [done|lia|done].
  - destruct Hy as (Hv & Hey & _). cbn [SFsub cond_Zopp].
    set (ez := Z.min e ey). unfold emin in *. pose proof (align_val m e ez ltac:(lia) ltac:(lia)) as H1. pose proof (align_val my ey ez ltac:(lia) ltac:(lia)) as H2.
    set (a := (shl_align m e ez).1) in *. set (b := (shl_align my ey ez).1) in *.
    assert (Zpos b ≤ Zpos a) by (apply (val_cancel_le _ _ ez); lia).
    apply normalize_upper; [lia|lia|done|lia|]. rewrite <- H1. apply val_mono; lia.
Qed.

Lemma new_location_exact n r : 0 ≤ r → new_location n r = loc_Exact → r = 0.
Proof. unfold new_location, new_location_even, new_location_odd. intros _. destruct (Z.even n), (Z.eqb_spec r 0); done. Qed.
(** A quotient, when it is not subnormal. *)
Lemma fdiv_upper m1 e1 m2 e2 my ey : emin 53 1024 ≤ e1 ≤ 1000 → emin 53 1024 ≤ e2 ≤ 1000 → representable my ey → ey ≤ 918 →
  emin 53 1024 < Zdigits2 (Zpos m1) + e1 - (Zdigits2 (Zpos m2) + e2) → val (Zpos m1) e1 * 2 ^ 3000 ≤ val my ey * val (Zpos m2) e2 →
  at_most (fdiv (S754_finite false m1 e1) (S754_finite false m2 e2)) my ey.
Proof.
  intros He1 He2 Hr Hey Hd Hb. unfold fdiv. cbn [SFdiv xorb]. unfold SFdiv_core_binary.
  set (d1 := Zdigits2 (Zpos m1)) in *. set (d2 := Zdigits2 (Zpos m2)) in *. set (D := d1 + e1 - (d2 + e2)) in *.
  set (ez := Z.min (fexp 53 1024 D) (e1 - e2)). set (s := e1 - e2 - ez).
  assert (Hs : 0 ≤ s) by lia. assert (Hez : -2500 ≤ ez) by (unfold ez, fexp, emin in *; lia).
  assert (Hm' : match s with Z0 => Zpos m1 | Zpos _ => Z.shiftl (Zpos m1) s | Zneg _ => 0 end = Zpos m1 * 2 ^ s).
  { destruct s as [|p|p] eqn:E; [by rewrite Z.mul_1_r|by rewrite Z.shiftl_mul_pow2|lia]. }
  rewrite Hm'. pose proof (Z_div_mod (Zpos m1 * 2 ^ s) (Zpos m2) ltac:(lia)) as Hq. destruct (Z.div_eucl _ _) as [q r]. destruct Hq as [Hq Hr0].
  pose proof (zdigits_spec (Zpos m1) ltac:(lia)) as [Hd1 _]. pose proof (zdigits_spec (Zpos m2) ltac:(lia)) as [_ Hd2]. fold d1 in Hd1. fold d2 in Hd2.
  pose proof (zdigits_nonneg (Zpos m1)) as Hd10. pose proof (zdigits_nonneg (Zpos m2)) as Hd20. fold d1 in Hd10. fold d2 in Hd20.
  assert (H1 : 1 ≤ d1) by (unfold d1; cbn; lia).
  assert (Hge : 1 ≤ d1 + s - d2) by (unfold s, ez, fexp, emin in *; lia).
  assert (Hqlow : 2 ^ (d1 + s - 1 - d2) ≤ q).
  { assert (2 ^ (d1 + s - 1 - d2) * Zpos m2 < (q + 1) * Zpos m2); [|nia].
    apply Z.le_lt_trans with (2 ^ (d1 + s - 1 - d2) * 2 ^ d2); [apply Z.mul_le_mono_nonneg_l; [apply Z.pow_nonneg|]; lia|].
    rewrite <- Z.pow_add_r by lia. replace (d1 + s - 1 - d2 + d2) with ((d1 - 1) + s) by lia. rewrite Z.pow_add_r by lia.
    pose proof (Z.mul_le_mono_nonneg_r _ _ (2 ^ s) ltac:(apply Z.pow_nonneg; lia) Hd1). lia. }
  assert (Hq0 : 0 < q) by (pose proof (Z.pow_pos_nonneg 2 (d1 + s - 1 - d2) ltac:(lia) ltac:(lia)); lia).
  assert (Hdq : D ≤ Zdigits2 q + ez).
  { pose proof (zdigits_spec q Hq0) as [_ Hlt]. destruct (decide (d1 + s - d2 ≤ Zdigits2 q)); [unfold D, s in *; lia|].
    pose proof (Z.pow_le_mono_r 2 (Zdigits2 q) (d1 + s - 1 - d2) ltac:(lia) ltac:(lia)). lia. }
  assert (Hze : -2148 ≤ ez + e2) by (unfold ez, fexp, emin in *; lia).
  assert (Hval : (q * Zpos m2 + r) * 2 ^ (ez + e2 + 6000) ≤ my * 2 ^ (ey + 3000) * (Zpos m2 * 2 ^ (e2 + 3000))).
  { unfold val in Hb. rewrite (Z.mul_comm q), <- Hq. replace (ez + e2 + 6000) with (ez + e2 + 3000 + 3000) by lia.
    rewrite (Z.pow_add_r 2 (ez + e2 + 3000)) by (unfold emin in *; lia). rewrite <- (Z.mul_assoc _ (2 ^ s)), (Z.mul_assoc (2 ^ s)), <- Z.pow_add_r by (unfold emin in *; lia).
    replace (s + (ez + e2 + 3000)) with (e1 + 3000) by lia. lia. }
  assert (Hc : ∀ x, x * Zpos m2 * 2 ^ (ez + e2 + 6000) = val x ez * (Zpos m2 * 2 ^ (e2 + 3000))).
  { intros x. unfold val. replace (ez + e2 + 6000) with ((ez + 3000) + (e2 + 3000)) by lia. rewrite Z.pow_add_r by (unfold emin in *; lia). ring. }
  assert (Hp2 : 0 < Zpos m2 * 2 ^ (e2 + 3000)) by (apply Z.mul_pos_pos; [lia|apply Z.pow_pos_nonneg; unfold emin in *; lia]).
  assert (Hp6 : 0 < 2 ^ (ez + e2 + 6000)) by (apply Z.pow_pos_nonneg; unfold emin in *; lia).
  rewrite Z.mul_add_distr_r, Hc in Hval. fold (val my ey) in Hval. apply round_upper; [lia|lia|done|done|nia|].
  intros Hl. split; [|unfold fexp in *; lia]. assert (0 < r) by (destruct (decide (r = 0)) as [->|]; [by destruct Hl; unfold new_location, new_location_even, new_location_odd; destruct (Z.even _)|lia]).
  nia.
Qed.
End Double.
