(* ===== verification/RateLimit.v ===== *)
(** * linux-file-server: the token bucket (linux-file-server/src/rate_limit.c)

    A double is a binary64 number of the Standard Library's executable IEEE 754
    arithmetic.  The clock is a function from the number of readings so far; [others]
    is what other threads do to the limiter while a consumer sleeps without the lock.
    The proofs at the end need only the comparisons of doubles. *)

From Stdlib Require Import Floats.SpecFloat.
From S2P Require Import Prelude Double.
Import Double.

Module RateLimit.

(** ** Doubles *)

(** [(useconds_t)x], undefined out of range. *)
Definition to_useconds (x : double) : outcome Z :=
  match trunc x with
  | Some z => if (0 <=? z) && (z <? 2 ^ 32) then Ret z else UB
  | None => UB
  end.

(** ** Data *)

Record timespec := Timespec { tv_sec : Z; tv_nsec : Z }.
Record rate_limiter := Limiter {
  tokens : double; max_tokens : double; refill_rate : double; last_refill : timespec
}.
Record world := World { lim : rate_limiter; ticks : nat; slept : list Z }.
Definition set_lim (l : rate_limiter) (w : world) : world := World l w.(ticks) w.(slept).
Definition sleep (n : Z) : C world unit := c_mod (λ w, World w.(lim) w.(ticks) (w.(slept) ++ [n])).

Definition timespec_to_sec (ts : timespec) : double :=
  fadd (of_Z ts.(tv_sec)) (fdiv (of_Z ts.(tv_nsec)) (of_Z 1000000000)).

Section limiter.
Context (clock : nat → timespec) (others : nat → rate_limiter → rate_limiter).

Definition clock_gettime : C world timespec := λ w, Ret (clock w.(ticks), World w.(lim) (S w.(ticks)) w.(slept)).

(** ** Operations *)

(** [if (x > limit) x = limit]. *)
Definition cap (limit x : double) : double := if flt limit x then limit else x.
Definition refill_at (now : timespec) (l : rate_limiter) : rate_limiter :=
  let elapsed_sec := fsub (timespec_to_sec now) (timespec_to_sec l.(last_refill)) in
  if flt (of_Z 0) elapsed_sec
  then Limiter (cap l.(max_tokens) (fadd l.(tokens) (fmul elapsed_sec l.(refill_rate)))) l.(max_tokens) l.(refill_rate) now
  else l.
Definition refill_tokens : C world unit := now ← clock_gettime; c_mod (λ w, set_lim (refill_at now w.(lim)) w).

(** The limiter at the time [now]; [None] is NULL. *)
Definition rate_limiter_create (calloc : bool) (now : timespec) (bytes_per_sec : double) : option rate_limiter :=
  if fle bytes_per_sec (of_Z 0) then None
  else if calloc then Some (Limiter bytes_per_sec bytes_per_sec bytes_per_sec now) else None.

Definition take_tokens (bytes : Z) (l : rate_limiter) : rate_limiter :=
  Limiter (fsub l.(tokens) (of_Z bytes)) l.(max_tokens) l.(refill_rate) l.(last_refill).
Fixpoint rate_limiter_consume (fuel : nat) (bytes : Z) : C world unit :=
  match fuel with
  | O => c_fuel
  | S fuel' =>
      refill_tokens;;
      w ← c_get;
      if fle (of_Z bytes) w.(lim).(tokens) then c_mod (λ w, set_lim (take_tokens bytes w.(lim)) w) else
      let needed := fsub (of_Z bytes) w.(lim).(tokens) in
      let sleep_sec := fdiv needed w.(lim).(refill_rate) in
      us ← c_lift (to_useconds (fmul sleep_sec (of_Z 1000000)));
      sleep us;;
      c_mod (λ w, set_lim (others w.(ticks) w.(lim)) w);;
      rate_limiter_consume fuel' bytes
  end.
Definition rate_limiter_try_consume (bytes : Z) : C world Z :=
  refill_tokens;;
  w ← c_get;
  if fle (of_Z bytes) w.(lim).(tokens)
  then c_mod (λ w, set_lim (take_tokens bytes w.(lim)) w);; mret 0
  else mret (-1).
Definition rate_limiter_get_rate (l : option rate_limiter) : double :=
  match l with Some l => l.(refill_rate) | None => of_Z 0 end.
Definition rate_limiter_set_rate (bytes_per_sec : double) (l : rate_limiter) : rate_limiter :=
  Limiter (cap bytes_per_sec l.(tokens)) bytes_per_sec bytes_per_sec l.(last_refill).

End limiter.

(** ** The bucket *)

Definition capped (l : rate_limiter) : Prop := flt l.(max_tokens) l.(tokens) = false.
Lemma cap_capped m x : flt m (cap m x) = false.
Proof. unfold cap. destruct (flt m x) eqn:E; [apply flt_irrefl|done]. Qed.
Lemma create_capped calloc now r l : rate_limiter_create calloc now r = Some l → capped l ∧ l.(max_tokens) = r.
Proof.
  unfold rate_limiter_create. destruct (fle r _); [done|]. destruct calloc; [|done]. intros [= <-].
  split; [apply flt_irrefl|done].
Qed.
Lemma set_rate_capped r l : capped (rate_limiter_set_rate r l).
Proof. apply cap_capped. Qed.
Lemma refill_capped now l : capped l → capped (refill_at now l) ∧ (refill_at now l).(max_tokens) = l.(max_tokens).
Proof. intros H. unfold refill_at. destruct (flt _ _); [|done]. split; [apply cap_capped|done]. Qed.

Section never.
Context (clock : nat → timespec) (others : nat → rate_limiter → rate_limiter).
(** The other threads draw tokens but do not change the rate. *)
Hypothesis others_ok : ∀ k l, capped l → capped (others k l) ∧ (others k l).(max_tokens) = l.(max_tokens).

Lemma refill_run w : capped w.(lim) → ∃ w', refill_tokens clock w = Ret (tt, w') ∧ capped w'.(lim) ∧
  w'.(lim).(max_tokens) = w.(lim).(max_tokens) ∧ w'.(slept) = w.(slept).
Proof.
  intros H. destruct (refill_capped (clock w.(ticks)) w.(lim) H) as [Hc Hm].
  eexists. split; [reflexivity|]. done.
Qed.

(** More than the bucket holds: rate_limiter_consume never returns, whatever the
    clock shows and however long it sleeps, and rate_limiter_try_consume refuses;
    so a transfer in pieces larger than the rate per second hangs. *)
Theorem consume_never_returns bytes fuel : ∀ w, capped w.(lim) → flt w.(lim).(max_tokens) (of_Z bytes) = true →
  (∀ r, rate_limiter_consume clock others fuel bytes w ≠ Ret r) ∧
  ∃ w', rate_limiter_try_consume clock bytes w = Ret (-1, w') ∧ w'.(slept) = w.(slept).
Proof.
  intros w H Hb. split.
  - revert w H Hb. induction fuel as [|fuel IH]; intros w H Hb; [done|]. cbn [rate_limiter_consume]. intros r E.
    destruct (refill_run w H) as (w1 & E1 & Hc & Hm & _). rewrite (bind_Ret _ _ _ _ _ E1) in E.
    erewrite bind_Ret in E by reflexivity. rewrite <- Hm in Hb. rewrite (below_limit _ _ _ Hc Hb) in E.
    apply bind_inv in E as (us & w2 & E2 & E). unfold c_lift in E2. destruct (to_useconds _); try done. injection E2 as -> <-.
    erewrite bind_Ret in E by reflexivity. erewrite bind_Ret in E by reflexivity.
    destruct (others_ok (ticks w1) (lim w1) Hc) as [Ho Hom]. revert E. apply IH; [exact Ho|].
    change (flt (max_tokens (others (ticks w1) (lim w1))) (of_Z bytes) = true). by rewrite Hom.
  - destruct (refill_run w H) as (w1 & E1 & Hc & Hm & Hs). exists w1. split; [|done]. unfold rate_limiter_try_consume.
    c_step E1. erewrite bind_Ret by reflexivity. rewrite <- Hm in Hb. by rewrite (below_limit _ _ _ Hc Hb).
Qed.

End never.

(** A rate of zero is documented as unlimited; a limiter set to it stops instead,
    even for one byte. *)
Lemma zero_rate_blocks l : flt (rate_limiter_set_rate (of_Z 0) l).(max_tokens) (of_Z 1) = true.
Proof. vm_compute. reflexivity. Qed.
(** The first sleep of such a consumer already divides by zero. *)
Lemma zero_rate_ub : to_useconds (fmul (fdiv (of_Z 1) (of_Z 0)) (of_Z 1000000)) = UB.
Proof. vm_compute. reflexivity. Qed.

(** A bucket of 1000 bytes per second, read every 250 ms. *)
Definition wit_clock (k : nat) : timespec := Timespec (Z.of_nat (k `div` 4)) (Z.of_nat (k `mod` 4) * 250000000).
Definition wit_limiter : rate_limiter := Limiter (of_Z 1000) (of_Z 1000) (of_Z 1000) (wit_clock 0).
Lemma consume_waits : ∃ w, (rate_limiter_consume wit_clock (λ _ l, l) 9 800;; rate_limiter_consume wit_clock (λ _ l, l) 9 800)
  (World wit_limiter 0 []) = Ret (tt, w) ∧ w.(slept) = [350000; 100000].
Proof. eexists. split; [vm_compute; reflexivity|reflexivity]. Qed.
Lemma consume_never_returns_witness :
  (∀ r, rate_limiter_consume wit_clock (λ _ l, l) 50 4096 (World wit_limiter 0 []) ≠ Ret r) ∧
  ∃ w', rate_limiter_try_consume wit_clock 4096 (World wit_limiter 0 []) = Ret (-1, w') ∧ w'.(slept) = [].
Proof.
  apply (consume_never_returns wit_clock (λ _ l, l) ltac:(done) 4096 50 (World wit_limiter 0 [])).
  - vm_compute. reflexivity.
  - vm_compute. reflexivity.
Defined.

End RateLimit.
