(* ===== verification/ProcessPool.v ===== *)
(** * linux-file-server: the process pool (linux-file-server/src/process_pool.c)

    The parent's view: fork returns the results of a script (negative on failure),
    and the trace records the children started with the worker, the signals and the
    waits. *)

From stdpp Require Import gmultiset.
From S2P Require Import Prelude.

Module ProcessPool.

Inductive event := Started (pid : Z) | Terminated (pid : Z) | Waited (pid : Z).
Record world := World { forks : list Z; events : list event }.
Definition log (e : event) : C world unit := c_mod (λ w, World w.(forks) (w.(events) ++ [e])).
(** After the script fork fails. *)
Definition fork : C world Z := λ w,
  match w.(forks) with
  | [] => Ret (-1, w)
  | p :: ps => Ret (p, World ps (w.(events) ++ if p <? 0 then [] else [Started p]))
  end.

(** The pool's pids; the count is their number. *)
Fixpoint each (f : Z → event) (pids : list Z) : C world unit :=
  match pids with [] => mret tt | p :: ps => (if 0 <? p then log (f p) else mret tt);; each f ps end.
Fixpoint signal_all (f : Z → event) (pids : list Z) : C world unit :=
  match pids with [] => mret tt | p :: ps => log (f p);; signal_all f ps end.
Fixpoint fork_loop (n : nat) (pids : list Z) : C world (option (list Z)) :=
  match n with
  | O => mret (Some pids)
  | S n' =>
      pid ← fork;
      if pid <? 0 then signal_all Terminated pids;; signal_all Waited pids;; mret None
      else fork_loop n' (pids ++ [pid])
  end.
Definition process_pool_create (malloc calloc : bool) (count : Z) : C world (option (list Z)) :=
  if count <=? 0 then mret None
  else if negb malloc || negb calloc then mret None
  else fork_loop (Z.to_nat count) [].
(** The pids afterwards. *)
Definition process_pool_wait (pids : list Z) : C world (list Z) :=
  each Waited pids;; mret ((λ p, if 0 <? p then 0 else p) <$> pids).
Definition process_pool_destroy (pids : list Z) : C world unit :=
  each Terminated pids;; process_pool_wait pids;; mret tt.

(** ** No child is left behind *)

Definition step (a : gmultiset Z) (e : event) : gmultiset Z :=
  match e with Started p => {[+ p +]} ⊎ a | Waited p => a ∖ {[+ p +]} | Terminated _ => a end.
Definition alive (es : list event) : gmultiset Z := foldl step ∅ es.
Lemma alive_app es fs : alive (es ++ fs) = foldl step (alive es) fs.
Proof. apply foldl_app. Qed.

Lemma signal_all_run f pids : ∀ w, signal_all f pids w = Ret (tt, World w.(forks) (w.(events) ++ (f <$> pids))).
Proof.
  induction pids as [|p ps IH]; intros w; [cbn; rewrite app_nil_r; by destruct w|]. cbn [signal_all].
  erewrite bind_Ret by reflexivity. rewrite IH. cbn [forks events fmap list_fmap]. by rewrite <- (assoc_L (++)).
Qed.
Lemma each_run f pids : Forall (λ p, 0 < p) pids → ∀ w, each f pids w = Ret (tt, World w.(forks) (w.(events) ++ (f <$> pids))).
Proof.
  induction 1 as [|p ps Hp _ IH]; intros w; [cbn; rewrite app_nil_r; by destruct w|]. cbn [each].
  rewrite (proj2 (Z.ltb_lt _ _)) by done. erewrite bind_Ret by reflexivity. rewrite IH.
  cbn [forks events fmap list_fmap]. by rewrite <- (assoc_L (++)).
Qed.
Lemma terminate_alive a pids : foldl step a (Terminated <$> pids) = a.
Proof. revert a. by induction pids as [|p ps IH]. Qed.
Lemma wait_alive pids : ∀ a, foldl step (list_to_set_disj pids ⊎ a) (Waited <$> pids) = a.
Proof.
  induction pids as [|p ps IH]; intros a; [simpl; multiset_solver|]. cbn [fmap list_fmap foldl step list_to_set_disj].
  replace (_ ∖ {[+ p +]}) with (list_to_set_disj ps ⊎ a) by multiset_solver. apply IH.
Qed.

Lemma fork_loop_run a n : ∀ pids w, Forall (λ p, p ≠ 0) w.(forks) → Forall (λ p, 0 < p) pids →
  alive w.(events) = list_to_set_disj pids ⊎ a → ∃ r w', fork_loop n pids w = Ret (r, w') ∧
    match r with
    | Some ps => length ps = (length pids + n)%nat ∧ Forall (λ p, 0 < p) ps ∧ alive w'.(events) = list_to_set_disj ps ⊎ a
    | None => alive w'.(events) = a
    end.
Proof.
  induction n as [|n IH]; intros pids w Hf Hp Ha; cbn [fork_loop].
  { eexists _, _. split; [reflexivity|]. split_and!; [lia|done|done]. }
  assert (Hfail : ∀ w1, alive w1.(events) = list_to_set_disj pids ⊎ a → ∃ w', (signal_all Terminated pids;; signal_all Waited pids;;
    mret (None : option (list Z))) w1 = Ret (None, w') ∧ alive w'.(events) = a).
  { intros w1 H1. c_step (signal_all_run Terminated pids w1).
    erewrite bind_Ret by apply signal_all_run. eexists. split; [reflexivity|]. cbn [events].
    by rewrite !alive_app, H1, terminate_alive, wait_alive. }
  destruct (forks w) as [|p fs] eqn:Ef.
  - erewrite bind_Ret by (unfold fork; rewrite Ef; reflexivity). change (-1 <? 0) with true. cbv iota.
    destruct (Hfail w Ha) as (w' & E & H'). by exists None, w'.
  - apply Forall_cons in Hf as [Hp0 Hf]. erewrite bind_Ret by (unfold fork; rewrite Ef; reflexivity).
    destruct (Z.ltb_spec p 0).
    + destruct (Hfail (World fs (events w ++ []))) as (w' & E & H'); [by rewrite app_nil_r|]. by exists None, w'.
    + destruct (IH (pids ++ [p]) (World fs (events w ++ [Started p]))) as (r & w' & E & Hr); [done| | |].
      * apply Forall_app. split; [done|]. repeat constructor. lia.
      * cbn [events]. rewrite alive_app, Ha, list_to_set_disj_app. simpl. multiset_solver.
      * exists r, w'. split; [done|]. destruct r as [ps|]; [|done]. rewrite length_app in Hr. simpl in Hr.
        destruct Hr as (? & ? & ?). split_and!; [lia|done|done].
Qed.
Lemma pool_destroy_run a pids w : Forall (λ p, 0 < p) pids → alive w.(events) = list_to_set_disj pids ⊎ a →
  ∃ w', process_pool_destroy pids w = Ret (tt, w') ∧ alive w'.(events) = a.
Proof.
  intros Hp Ha. unfold process_pool_destroy, process_pool_wait. c_step (each_run Terminated pids Hp w).
  erewrite bind_Ret; [|erewrite bind_Ret by (by apply each_run); reflexivity]. eexists. split; [reflexivity|]. cbn [events].
  by rewrite !alive_app, Ha, terminate_alive, wait_alive.
Qed.

(** However fork behaves, process_pool_create either starts exactly [count]
    children or, when a fork fails, has ended and waited for every child it had
    started; and after process_pool_destroy no child is left. *)
Theorem process_pool_accounts malloc calloc count w : Forall (λ p, p ≠ 0) w.(forks) → ∃ r w',
  process_pool_create malloc calloc count w = Ret (r, w') ∧
  match r with
  | Some pids => Z.of_nat (length pids) = count ∧ alive w'.(events) = list_to_set_disj pids ⊎ alive w.(events) ∧
                 ∃ w'', process_pool_destroy pids w' = Ret (tt, w'') ∧ alive w''.(events) = alive w.(events)
  | None => alive w'.(events) = alive w.(events)
  end.
Proof.
  intros Hf. unfold process_pool_create. destruct (Z.leb_spec count 0); [by exists None, w|].
  destruct (negb malloc || negb calloc); [by exists None, w|].
  destruct (fork_loop_run (alive w.(events)) (Z.to_nat count) [] w Hf) as (r & w' & E & Hr); [constructor|multiset_solver|].
  exists r, w'. split; [done|]. destruct r as [pids|]; [|done]. destruct Hr as (Hl & Hp & Ha). simpl in Hl.
  split_and!; [lia|done|by apply pool_destroy_run].
Qed.
Lemma process_pool_accounts_witness : ∃ w', process_pool_create true true 3 (World [101; 102; -1] []) = Ret (None, w') ∧
  alive w'.(events) = ∅.
Proof.
  destruct (process_pool_accounts true true 3 (World [101; 102; -1] [])) as (r & w' & E & H); [by repeat constructor|].
  destruct r as [pids|]; [vm_compute in E; discriminate|]. by exists w'.
Defined.

End ProcessPool.
