(* ===== verification/AdminHttp.v ===== *)
(** * linux-file-server: the web management server (linux-file-server/src/http_server.c)

    Requests are parsed out of the bytes one [recv] returned; the routes answer
    with the page, the statistics, the shared directory and the configuration.  The
    page is generated from web/index.html and is a parameter, as are what opendir
    and readdir list and the sizes stat reports.  Log messages are not modelled. *)

From S2P Require Import Prelude Net Shm.
Import Net Shm.

Module AdminHttp.

(** ** Data *)

Record http_request_t := Request {
  method : list byte; path : list byte; host : list byte; content_length : Z; body : option (list byte)
}.
Record http_response_t := Response { status_code : Z; content_type : list byte; rbody : list byte }.
(** The configuration fields the routes print. *)
Record server_config_t := Config {
  port : Z; thread_num : Z; max_clients : Z; buffer_size : Z; shared_dir : list byte; ssl_enabled : Z
}.
Record server_context_t := Context_ { config : server_config_t; ctx_clients : Z }.

(** ** Parsing *)

Fixpoint skip_spaces (s : list byte) : list byte :=
  match s with
  | c :: s' => if decide (c = x20) then skip_spaces s' else s
  | [] => []
  end.
(** The bytes before the newline, without one final carriage return. *)
Definition line_of (s : list byte) : list byte := match find_byte x0a s with Some k => take k s | None => s end.
Definition chomp (l : list byte) : list byte :=
  match last l with Some x0d => take (length l - 1) l | _ => l end.
Definition starts_with (p s : list byte) : bool := bool_decide (lower (take (length p) s) = p).
(** The two headers that are read, in the line at the head of [s]. *)
Definition parse_header (s : list byte) (r : http_request_t) : http_request_t :=
  let r := if starts_with (str "host:") s
           then Request r.(method) r.(path) (cstr (take 127 (chomp (line_of (skip_spaces (drop 5 s))))))
                  r.(content_length) r.(body)
           else r in
  if starts_with (str "content-length:") s
  then Request r.(method) r.(path) r.(host) (atoi (drop 15 s)) r.(body)
  else r.
Fixpoint parse_headers (fuel : nat) (s : list byte) (r : http_request_t) : outcome http_request_t :=
  match s with
  | [] => Ret r
  | _ =>
      match find_byte x0a s with
      | None => Ret r
      | Some k =>
          if (k <=? 1)%nat then Ret r else
          match fuel with
          | O => Fuel
          | S fuel' => parse_headers fuel' (drop (k + 1) s) (parse_header s r)
          end
      end
  end.

(** The text after the first empty line, unless there is none. *)
Definition body_of (data : list byte) : option (list byte) :=
  match find_sub [x0d; x0a; x0d; x0a] (cstr data) with
  | Some k => match drop (k + 4) (cstr data) with [] => None | b => Some b end
  | None => None
  end.
Definition methods : list (list byte) := [str "GET"; str "POST"; str "HEAD"; str "PUT"; str "DELETE"].
(** [data] are the bytes received; a NUL follows them.  [None] is -1. *)
Definition parse_request_from_buf (data : list byte) : outcome (option http_request_t) :=
  match find_byte x0a data with
  | None => Ret None
  | Some k =>
      match scan_word 7 (cstr data) with
      | None => Ret None
      | Some (m, r) =>
          match scan_word 255 r with
          | None => Ret None
          | Some (p, _) =>
              if negb (bool_decide (m ∈ methods)) then Ret None else
              match parse_headers (length data) (drop (k + 1) data) (Request m p [] 0 None) with
              | Ret req =>
                  Ret (Some (Request req.(method) req.(path) req.(host) req.(content_length) (body_of data)))
              | UB => UB | Blocked => Blocked | Fuel => Fuel
              end
          end
      end
  end.

(** [buf] holds 4096 bytes. *)
Definition http_parse_request : C sock (option http_request_t) :=
  r ← recv 4095;
  if r.1 <=? 0 then mret None else c_lift (parse_request_from_buf r.2).

(** ** Responses *)

Definition crlf : list byte := [x0d; x0a].
Definition status_text (s : Z) : list byte :=
  if s =? 200 then str "OK" else if s =? 400 then str "Bad Request"
  else if s =? 404 then str "Not Found" else if s =? 500 then str "Internal Server Error"
  else str "OK".
Definition response_header (r : http_response_t) : list byte :=
  str "HTTP/1.1 " ++ dec r.(status_code) ++ str " " ++ status_text r.(status_code) ++ crlf ++
  str "Content-Type: " ++ r.(content_type) ++ crlf ++
  str "Content-Length: " ++ dec (s32 (strlen r.(rbody))) ++ crlf ++
  str "Connection: close" ++ crlf ++ crlf.
Definition http_send_response (r : http_response_t) : C sock Z :=
  let header := response_header r in
  if 512 <=? strlen header then mret (-1) else
  x ← Protocol.send_loop (length header) header;
  if x <? 0 then mret (-1) else
  let b := take (Z.to_nat (s32 (strlen r.(rbody)))) r.(rbody) in
  Protocol.send_loop (length b) b.
Definition http_send_json (status : Z) (json : list byte) : C sock Z :=
  http_send_response (Response status (take 63 (str "application/json")) json).
Definition http_send_html (status : Z) (html : list byte) : C sock Z :=
  http_send_response (Response status (take 63 (str "text/html")) html).

(** ** The texts *)

Definition quoted (s : list byte) : list byte := [x22] ++ s ++ [x22].
(** A name with its colon. *)
Definition key (s : list byte) : list byte := quoted s ++ str ":".
(** What [snprintf(buf, size, ...)] stores. *)
Definition printed (size : Z) (s : list byte) : list byte := take (Z.to_nat (size - 1)) s.

Definition stats_text (clients requests sent recv : Z) : list byte :=
  str "{" ++ key (str "client_count") ++ dec clients ++
  str "," ++ key (str "total_requests") ++ dec requests ++
  str "," ++ key (str "total_bytes_sent") ++ dec sent ++
  str "," ++ key (str "total_bytes_recv") ++ dec recv ++ str "}".
(** The counters of the shared segment, if there is one, else the client count of
    the server. *)
Definition build_stats_json (buf_size : Z) (shm : option shm_stats_t) (ctx : option server_context_t) : list byte :=
  printed buf_size
    (match shm, ctx with
     | Some st, _ => stats_text st.(client_count) st.(total_requests) st.(total_bytes_sent) st.(total_bytes_recv)
     | None, Some c => stats_text c.(ctx_clients) 0 0 0
     | None, None => stats_text 0 0 0 0
     end).

Definition config_text (c : server_config_t) : list byte :=
  str "{" ++ key (str "port") ++ dec c.(port) ++
  str "," ++ key (str "threads") ++ dec c.(thread_num) ++
  str "," ++ key (str "max_clients") ++ dec c.(max_clients) ++
  str "," ++ key (str "buffer_size") ++ dec c.(buffer_size) ++
  str "," ++ key (str "shared_dir") ++ quoted c.(shared_dir) ++
  str "," ++ key (str "ssl_enabled") ++ dec c.(ssl_enabled) ++ str "}".
Definition build_config_json (buf_size : Z) (ctx : option server_context_t) : list byte :=
  printed buf_size (match ctx with Some c => config_text c.(config) | None => str "{}" end).

Section admin.
(** The page, the listing of a directory ([None]: opendir fails) and the size of a
    regular file. *)
Context (ADMIN_HTML : list byte) (readdir : list byte → option (list (list byte))) (stat : list byte → option Z).

(** [snprintf(buf + offset, buf_size - offset, ...)] after [text]: whether it fits, and the
    string the buffer then holds. *)
Definition fits (buf_size : Z) (text s : list byte) : bool := strlen s <? buf_size - strlen text.
Definition stored (buf_size : Z) (text s : list byte) : list byte := text ++ printed (buf_size - strlen text) s.

Definition file_entry (n : list byte) (size : Z) : list byte :=
  str "{" ++ key (str "name") ++ quoted n ++ str "," ++ key (str "size") ++ dec size ++ str "}".
(** The text that counts when the loop is left. *)
Fixpoint file_entries (buf_size : Z) (dir : list byte) (entries : list (list byte)) (first : bool) (text : list byte) : list byte :=
  match entries with
  | [] => text
  | n :: entries' =>
      if bool_decide (head n = Some x2e) then file_entries buf_size dir entries' first text else
      match stat (take 511 (dir ++ str "/" ++ n)) with
      | None => file_entries buf_size dir entries' first text
      | Some size =>
          if negb first && negb (fits buf_size text (str ",")) then text else
          let text1 := if first then text else text ++ str "," in
          if fits buf_size text1 (file_entry n size)
          then file_entries buf_size dir entries' false (text1 ++ file_entry n size)
          else text1
      end
  end.
Definition files_open : list byte := str "{" ++ key (str "files") ++ str "[".
(** The string left in the buffer and the return value. *)
Definition build_files_json (buf_size : Z) (dir : list byte) : list byte * Z :=
  if negb (fits buf_size [] files_open) then (stored buf_size [] files_open, -1) else
  match readdir dir with
  | None => (stored buf_size files_open (str "]}"), strlen files_open + 2)
  | Some entries =>
      let text := file_entries buf_size dir entries true files_open in
      if fits buf_size text (str "]}") then (text ++ str "]}", strlen text + 2)
      else (stored buf_size text (str "]}"), -1)
  end.

(** ** Connections *)

Definition json_error (msg : list byte) : list byte := str "{" ++ key (str "error") ++ quoted msg ++ str "}".
Definition is_get (req : http_request_t) (p : list byte) : bool :=
  bool_decide (req.(method) = str "GET") && bool_decide (req.(path) = p).
Definition route (shm : option shm_stats_t) (ctx : option server_context_t) (req : http_request_t) : C sock Z :=
  if is_get req (str "/") then http_send_html 200 ADMIN_HTML
  else if is_get req (str "/api/stats") then http_send_json 200 (build_stats_json 256 shm ctx)
  else if is_get req (str "/api/files") then
    let dir := match ctx with Some c => c.(config).(shared_dir) | None => str "./shared" end in
    http_send_json 200 (build_files_json 8192 dir).1
  else if is_get req (str "/api/config") then http_send_json 200 (build_config_json 512 ctx)
  else http_send_json 404 (json_error (str "Not found")).
Definition handle_http_connection (shm : option shm_stats_t) (ctx : option server_context_t) : C sock unit :=
  req ← http_parse_request;
  match req with
  | None => http_send_json 400 (json_error (str "Bad request"));; close
  | Some req => route shm ctx req;; close
  end.

(** ** The server thread *)

(** What happens while the thread is in accept: a connection (with the counters as
    they are then), an interrupted call, a failure, or [http_server_stop] clearing
    [running] in another thread. *)
Inductive accept_event :=
  | Accepted (s : sock) (shm : option shm_stats_t) (ctx : option server_context_t)
  | Interrupted | AcceptFailed | StopRequested.
(** The thread in accept: the connections it handled and whether it has left the loop. *)
Fixpoint http_server_thread (running : bool) (evs : list accept_event) : C (list sock) bool :=
  match evs with
  | [] => mret false
  | StopRequested :: evs' => http_server_thread false evs'
  | Accepted s shm ctx :: evs' =>
      r ← c_lift (handle_http_connection shm ctx s);
      c_mod (λ done, done ++ [r.2]);;
      if running then http_server_thread running evs' else mret true
  | _ :: evs' => if running then http_server_thread running evs' else mret true
  end.

(** [http_server_start]: the calls that succeed, and what is released on failure. *)
Inductive released := ClosedSocket | FreedServer.
Definition http_server_start (calloc socket bind listen thread : bool) : bool * list released :=
  if negb calloc then (false, [])
  else if negb socket then (false, [FreedServer])
  else if negb bind then (false, [ClosedSocket; FreedServer])
  else if negb listen then (false, [ClosedSocket; FreedServer])
  else if negb thread then (false, [ClosedSocket; FreedServer])
  else (true, []).

End admin.
End AdminHttp.
