(* ===== verification/AdminHttpSpec.v ===== *)
(** * linux-file-server: what the web management server answers

    Every request gets exactly one complete response; the listing reads back as the
    regular files of the directory while it fits the buffer, and ends in a comma too
    many when it does not. *)

From S2P Require Import Prelude Net Shm AdminHttp.
Import Net Shm AdminHttp.

Module AdminHttpSpec.
#[local] Arguments dec : simpl never.
#[local] Arguments Z.to_nat : simpl never.

(** ** Lengths of what is printed *)

Definition is_int (z : Z) : Prop := - 2 ^ 31 ≤ z < 2 ^ 31.
Lemma strlen_app s t : strlen (s ++ t) = strlen s + strlen t.
Proof. unfold strlen. rewrite length_app. lia. Qed.
Lemma strlen_nonneg s : 0 ≤ strlen s.
Proof. unfold strlen. lia. Qed.
Lemma strlen_dec_int z : is_int z → strlen (dec z) ≤ 11.
Proof.
  intros H. unfold is_int, strlen, dec in *. destruct (Z.ltb_spec z 0); cbn [length].
  - pose proof (digits_length 64 (- z) 10 ltac:(lia) ltac:(lia)). lia.
  - pose proof (digits_length 64 z 10 ltac:(lia) ltac:(lia)). lia.
Qed.
Lemma strlen_dec_u64 z : is_u64 z → strlen (dec z) ≤ 20.
Proof.
  intros H. unfold is_u64, strlen, dec in *. rewrite (proj2 (Z.ltb_ge _ _)) by lia.
  pose proof (digits_length 64 z 20 ltac:(lia) ltac:(lia)). lia.
Qed.
(** Unfold lengths of constants and concatenations. *)
Ltac text_len := rewrite ?strlen_app; unfold strlen, quoted in *; simpl length in *; rewrite ?length_app; simpl length in *.

Lemma printed_all size s : strlen s < size → printed size s = s.
Proof. intros H. unfold printed. apply take_ge. unfold strlen in H. lia. Qed.

Definition shm_ok (st : shm_stats_t) : Prop :=
  is_int st.(client_count) ∧ is_int st.(total_requests) ∧ is_u64 st.(total_bytes_sent) ∧ is_u64 st.(total_bytes_recv).
Definition config_ok (c : server_config_t) : Prop :=
  is_int c.(port) ∧ is_int c.(thread_num) ∧ is_int c.(max_clients) ∧ is_int c.(buffer_size) ∧ is_int c.(ssl_enabled) ∧
  strlen c.(shared_dir) ≤ 255.
Definition ctx_ok (c : server_context_t) : Prop := config_ok c.(config) ∧ is_int c.(ctx_clients).

Lemma stats_text_len a b c d : is_int a → is_int b → is_u64 c → is_u64 d → strlen (stats_text a b c d) < 256.
Proof.
  intros Ha%strlen_dec_int Hb%strlen_dec_int Hc%strlen_dec_u64 Hd%strlen_dec_u64. unfold stats_text, key. text_len. lia.
Qed.
Lemma config_text_len c : config_ok c → strlen (config_text c) < 512.
Proof.
  intros (H1%strlen_dec_int & H2%strlen_dec_int & H3%strlen_dec_int & H4%strlen_dec_int & H5%strlen_dec_int & H6).
  unfold config_text, key. text_len. lia.
Qed.

(** ** A response on the wire *)

Definition wire (r : http_response_t) : list byte := response_header r ++ r.(rbody).
(** A response as the handlers make it. *)
Definition response_ok (r : http_response_t) : Prop :=
  is_int r.(status_code) ∧ strlen r.(content_type) ≤ 63 ∧ strlen r.(rbody) < 2 ^ 31.

Lemma header_len r : response_ok r → strlen (response_header r) < 512.
Proof.
  intros (Hs%strlen_dec_int & Hc & Hb). unfold response_header, crlf.
  assert (Hd : strlen (dec (s32 (strlen (rbody r)))) ≤ 11).
  { apply strlen_dec_int. rewrite s32_small; unfold is_int, strlen in *; lia. }
  assert (Ht : strlen (status_text (status_code r)) ≤ 21) by (unfold status_text; repeat case_match; vm_compute; discriminate).
  text_len. lia.
Qed.
Lemma send_response_run r s : response_ok r → ∃ x s' k, http_send_response r s = Ret (x, s') ∧
  s'.(inbox) = s.(inbox) ∧ s'.(closed) = s.(closed) ∧ s'.(sent) = s.(sent) ++ take k (wire r).
Proof.
  intros H. pose proof (header_len r H) as Hh. destruct H as (_ & _ & Hb). unfold http_send_response.
  rewrite (proj2 (Z.leb_gt _ _)) by lia.
  destruct (Protocol.send_loop_run (length (response_header r)) (response_header r) s) as (x & s1 & k & E & Hi & Hc & Hs & Hx); [done|].
  c_step E. destruct Hx as [[-> Hk]|(-> & Hk & _)].
  - change (0 <? 0) with false. rewrite s32_small by (unfold strlen in *; lia). unfold strlen. rewrite Nat2Z.id, take_ge by done.
    destruct (Protocol.send_loop_run (length (rbody r)) (rbody r) s1) as (x & s2 & k2 & E2 & Hi2 & Hc2 & Hs2 & _); [done|].
    exists x, s2, (length (response_header r) + k2)%nat. split_and!; [done|congruence|congruence|].
    rewrite Hs2, Hs, (take_ge _ k) by done. unfold wire. by rewrite take_app_add, (assoc_L (++)).
  - exists (-1), s1, k. split_and!; [done|done|done|]. rewrite Hs. unfold wire. by rewrite take_app_le by lia.
Qed.
Lemma send_response_open r s : response_ok r → s.(sends) = [] → http_send_response r s = Ret (0, wrote (wire r) s).
Proof.
  intros H Ho. pose proof (header_len r H) as Hh. destruct H as (_ & _ & Hb). unfold http_send_response.
  rewrite (proj2 (Z.leb_gt _ _)) by lia. erewrite bind_Ret by (by apply Protocol.send_loop_open).
  change (0 <? 0) with false. rewrite s32_small by (unfold strlen in *; lia). unfold strlen. rewrite Nat2Z.id, take_ge by done.
  rewrite Protocol.send_loop_open by done. by rewrite wrote_app.
Qed.

(** ** Requests *)

Lemma admin_headers_total fuel : ∀ s r, (length s ≤ fuel)%nat → ∃ r', parse_headers fuel s r = Ret r' ∧
  r'.(method) = r.(method) ∧ r'.(path) = r.(path).
Proof.
  induction fuel as [|fuel IH]; intros s r Hl.
  - destruct s; [by exists r|simpl in Hl; lia].
  - cbn [parse_headers]. destruct s as [|c s]; [by exists r|].
    destruct (find_byte x0a (c :: s)) as [k|]; [|by exists r]. destruct (k <=? 1)%nat; [by exists r|].
    destruct (IH (drop (k + 1) (c :: s)) (parse_header (c :: s) r)) as (r' & E & Hm & Hp).
    { rewrite length_drop. simpl in *. lia. }
    exists r'. split; [done|]. rewrite Hm, Hp. unfold parse_header. by repeat case_match.
Qed.
Lemma parse_total data : ∃ r, parse_request_from_buf data = Ret r.
Proof.
  unfold parse_request_from_buf. destruct (find_byte x0a data) as [k|]; [|by eexists].
  destruct (scan_word 7 (cstr data)) as [[m r]|]; [|by eexists]. destruct (scan_word 255 r) as [[p ?]|]; [|by eexists].
  destruct (negb _); [by eexists|].
  destruct (admin_headers_total (length data) (drop (k + 1) data) (Request m p [] 0 None)) as (r' & -> & _).
  { rewrite length_drop. lia. }
  by eexists.
Qed.

(** A request line with a known method and a path that fits. *)
Definition path_ok (p : list byte) : Prop :=
  p ≠ [] ∧ (length p ≤ 255)%nat ∧ Forall (λ c, is_space c = false ∧ c ≠ x00) p.
Definition request_text (m p rest : list byte) : list byte := m ++ str " " ++ p ++ str " " ++ rest.
Lemma methods_word m : m ∈ methods → m ≠ [] ∧ (length m ≤ 7)%nat ∧ Forall (λ c, is_space c = false ∧ c ≠ x00) m.
Proof.
  unfold methods. rewrite !elem_of_cons, elem_of_nil.
  intros [->|[->|[->|[->|[->|[]]]]]]; (split_and!; [done|simpl; lia|repeat constructor; done]).
Qed.
Lemma cstr_app_nonul s t : nonul s → cstr (s ++ t) = s ++ cstr t.
Proof. induction 1 as [|c s Hc _ IH]; [done|]. simpl. rewrite IH. by destruct c. Qed.
Lemma parse_request_print m p rest : m ∈ methods → path_ok p → x0a ∈ rest → ∃ req,
  parse_request_from_buf (request_text m p rest) = Ret (Some req) ∧ req.(method) = m ∧ req.(path) = p.
Proof.
  intros Hm (Hp0 & Hpl & Hp) Hr. destruct (methods_word m Hm) as (Hm0 & Hml & Hmc).
  unfold parse_request_from_buf. destruct (find_byte x0a (request_text m p rest)) as [k|] eqn:Ek.
  2:{ exfalso. apply find_byte_None in Ek. apply Ek. unfold request_text. rewrite !elem_of_app. auto. }
  assert (Ec : cstr (request_text m p rest) = m ++ str " " ++ p ++ str " " ++ cstr rest).
  { unfold request_text. rewrite cstr_app_nonul by (eapply Forall_impl; [exact Hmc|]; naive_solver).
    rewrite (cstr_app_nonul (str " ")) by (repeat constructor; done).
    rewrite (cstr_app_nonul p) by (eapply Forall_impl; [exact Hp|]; naive_solver). done. }
  rewrite Ec, (scan_word_exact 7 m) by (done || (eapply Forall_impl; [exact Hmc|]; naive_solver)).
  change (str " " ++ p ++ str " " ++ cstr rest) with (x20 :: p ++ str " " ++ cstr rest). rewrite scan_word_space by done.
  rewrite (scan_word_exact 255 p) by (done || (eapply Forall_impl; [exact Hp|]; naive_solver)).
  rewrite bool_decide_eq_true_2 by done. cbn [negb].
  destruct (admin_headers_total (length (request_text m p rest)) (drop (k + 1) (request_text m p rest)) (Request m p [] 0 None))
    as (r' & -> & E1 & E2); [rewrite length_drop; lia|].
  eexists. split; [reflexivity|]. done.
Qed.

(** ** Routes *)

Section routes.
Context (page : list byte) (readdir : list byte → option (list (list byte))) (stat : list byte → option Z).
Context (shm : option shm_stats_t) (ctx : option server_context_t).

Definition json : list byte := str "application/json".
Definition bad_request : http_response_t := Response 400 json (json_error (str "Bad request")).
Definition stats_answer : list byte :=
  match shm, ctx with
  | Some st, _ => stats_text st.(client_count) st.(total_requests) st.(total_bytes_sent) st.(total_bytes_recv)
  | None, Some c => stats_text c.(ctx_clients) 0 0 0
  | None, None => stats_text 0 0 0 0
  end.
Definition config_answer : list byte := match ctx with Some c => config_text c.(config) | None => str "{}" end.
Definition shared : list byte := match ctx with Some c => c.(config).(shared_dir) | None => str "./shared" end.
(** The answer to a method and a path: nothing is cut. *)
Definition answer (m p : list byte) : http_response_t :=
  if decide (m = str "GET") then
    if decide (p = str "/") then Response 200 (str "text/html") page
    else if decide (p = str "/api/stats") then Response 200 json stats_answer
    else if decide (p = str "/api/files") then Response 200 json (build_files_json readdir stat 8192 shared).1
    else if decide (p = str "/api/config") then Response 200 json config_answer
    else Response 404 json (json_error (str "Not found"))
  else Response 404 json (json_error (str "Not found")).
Record env_ok : Prop := {
  eo_page : strlen page < 2 ^ 31;
  eo_shm : match shm with Some st => shm_ok st | None => True end;
  eo_ctx : match ctx with Some c => ctx_ok c | None => True end
}.
Context (Henv : env_ok).

Lemma file_entries_len size dir es : ∀ first text, strlen text < size →
  strlen (file_entries stat size dir es first text) < size.
Proof.
  induction es as [|n es IH]; intros first text H; [done|]. cbn [file_entries].
  case_bool_decide; [by apply IH|]. destruct (stat _) as [sz|]; [|by apply IH].
  destruct (negb first && negb (fits size text (str ","))) eqn:Ec; [done|].
  assert (H1 : strlen (if first then text else text ++ str ",") < size).
  { destruct first; [done|]. cbn [negb andb] in Ec. apply negb_false_iff, Z.ltb_lt in Ec. rewrite strlen_app. lia. }
  destruct (fits size _ (file_entry n sz)) eqn:Ef; [|done]. apply IH. apply Z.ltb_lt in Ef. rewrite strlen_app. lia.
Qed.
Lemma stored_len size text t : strlen text < size → strlen (stored size text t) < size.
Proof. intros H. unfold stored, printed. rewrite strlen_app. unfold strlen in *. rewrite length_take. lia. Qed.
Lemma files_json_len size dir : 0 < size → strlen (build_files_json readdir stat size dir).1 < size.
Proof.
  intros H. unfold build_files_json. destruct (fits size [] files_open) eqn:Eo; cbn [negb]; [|by apply stored_len].
  apply Z.ltb_lt in Eo. change (strlen []) with 0 in Eo.
  destruct (readdir dir) as [es|]; [|apply stored_len; lia].
  pose proof (file_entries_len size dir es true files_open ltac:(lia)) as Hl.
  destruct (fits size _ (str "]}")) eqn:Ef; [|by apply stored_len]. apply Z.ltb_lt in Ef. cbn [fst]. rewrite strlen_app. lia.
Qed.
Lemma stats_answer_len : strlen stats_answer < 256.
Proof.
  destruct Henv as [_ Hs Hc]. assert (is_int 0 ∧ is_u64 0) as [Hi Hu] by (unfold is_int, is_u64; lia).
  unfold stats_answer. destruct shm as [st|]; [destruct Hs as (? & ? & ? & ?)|destruct ctx as [c|]; [destruct Hc|]];
    by apply stats_text_len.
Qed.
Lemma config_answer_len : strlen config_answer < 512.
Proof.
  destruct Henv as [_ _ Hc]. unfold config_answer. destruct ctx as [c|]; [destruct Hc; by apply config_text_len|done].
Qed.
Lemma answer_ok m p : response_ok (answer m p).
Proof.
  pose proof stats_answer_len. pose proof config_answer_len. pose proof (eo_page Henv).
  pose proof (files_json_len 8192 shared ltac:(lia)).
  assert (Hok : ∀ st t b, is_int st → strlen t ≤ 63 → strlen b < 2 ^ 31 → response_ok (Response st t b)) by done.
  unfold answer. repeat case_match; (apply Hok; [unfold is_int; lia|vm_compute; discriminate|try lia; done]).
Qed.
Lemma route_answer req s : route page readdir stat shm ctx req s = http_send_response (answer req.(method) req.(path)) s.
Proof.
  unfold route, answer, is_get, http_send_html, http_send_json, build_stats_json, build_config_json.
  destruct (decide (method req = str "GET")) as [->|Hm]; [|by rewrite !bool_decide_eq_false_2 by done].
  rewrite !(bool_decide_eq_true_2 (str "GET" = str "GET")) by done. cbn [andb].
  fold stats_answer config_answer shared. rewrite !printed_all by (apply stats_answer_len || apply config_answer_len).
  repeat (case_bool_decide; [rewrite decide_True by done|rewrite decide_False by done]); try done.
Qed.

Lemma recv_keeps n s : ∃ r s', recv n s = Ret (r, s') ∧ s'.(sent) = s.(sent).
Proof.
  unfold recv. destruct (inbox s) as [|[c|] xs]; [by eexists _, _| |by eexists _, _].
  destruct (strlen c <=? n); by eexists _, _.
Qed.
Lemma parse_request_run s : ∃ r s', http_parse_request s = Ret (r, s') ∧ s'.(sent) = s.(sent).
Proof.
  unfold http_parse_request. destruct (recv_keeps 4095 s) as ([n d] & s1 & E & Hs). c_step E. cbn [fst snd].
  destruct (n <=? 0); [by eexists _, _|]. destruct (parse_total d) as [r Er]. exists r, s1. unfold c_lift. by rewrite Er.
Qed.
Lemma bad_request_ok : response_ok bad_request.
Proof. split_and!; vm_compute; done. Qed.

Lemma admin_run s : ∃ s' r k, handle_http_connection page readdir stat shm ctx s = Ret (tt, s') ∧
  s'.(closed) = true ∧ s'.(sent) = s.(sent) ++ take k (wire r) ∧ response_ok r ∧
  (r = bad_request ∨ ∃ m p, r = answer m p).
Proof.
  unfold handle_http_connection. destruct (parse_request_run s) as (req & s1 & E & Hs). c_step E. destruct req as [req|].
  - destruct (send_response_run (answer req.(method) req.(path)) s1 (answer_ok _ _)) as (x & s2 & k & E2 & _ & _ & Hs2).
    erewrite bind_Ret by (by rewrite route_answer). eexists _, _, k. split; [reflexivity|].
    split_and!; [done|cbn [sent]; by rewrite Hs2, Hs|by apply answer_ok|right; by eexists _, _].
  - destruct (send_response_run bad_request s1 bad_request_ok) as (x & s2 & k & E2 & _ & _ & Hs2).
    erewrite bind_Ret by (exact E2). exists (Sock s2.(sent) s2.(sends) s2.(inbox) true), bad_request, k.
    split_and!; [done|done|cbn [sent]; by rewrite Hs2, Hs|apply bad_request_ok|by left].
Qed.

(** Whatever arrives and however send cuts the answer, a connection of the
    management server ends closed, nothing is read outside the buffers, and what
    was sent is the front of one complete response: 400, or the route's answer to
    the parsed method and path. *)
Theorem admin_total s : ∃ s' r k, handle_http_connection page readdir stat shm ctx s = Ret (tt, s') ∧
  s'.(closed) = true ∧ s'.(sent) = s.(sent) ++ take k (wire r) ∧ response_ok r ∧
  (r = bad_request ∨ ∃ m p, r = answer m p).
Proof.
  apply admin_run.
Qed.

(** A client that sends one request with a known method and a path of at most
    255 characters in one piece gets the full answer of the route: the page, the
    counters, the listing or the configuration (none of them cut), or 404; then the
    connection is closed. *)
Theorem admin_answers m p rest xs : m ∈ methods → path_ok p → x0a ∈ rest → strlen (request_text m p rest) ≤ 4095 →
  handle_http_connection page readdir stat shm ctx (Sock [] [] (Some (request_text m p rest) :: xs) false) =
  Ret (tt, Sock (wire (answer m p)) [] xs true).
Proof.
  intros Hm Hp Hr Hl. destruct (parse_request_print m p rest Hm Hp Hr) as (req & E & Em & Ep).
  assert (Hn : 0 < strlen (request_text m p rest)).
  { unfold request_text. rewrite !strlen_app. unfold strlen. simpl. lia. }
  unfold handle_http_connection. erewrite bind_Ret.
  2:{ assert (Er : recv 4095 (Sock [] [] (Some (request_text m p rest) :: xs) false) =
        Ret ((strlen (request_text m p rest), request_text m p rest), Sock [] [] xs false))
        by (unfold recv; cbn [inbox]; by rewrite (proj2 (Z.leb_le _ _)) by done).
      unfold http_parse_request. c_step Er. cbn [fst snd]. rewrite (proj2 (Z.leb_gt _ _)) by done. unfold c_lift. rewrite E. reflexivity. }
  cbv beta iota. erewrite bind_Ret; [|rewrite route_answer, Em, Ep; by apply send_response_open; [apply answer_ok|]].
  done.
Qed.

End routes.

(** ** The server thread *)

(** Every connection that is accepted is answered and closed; once the server is told
    to stop at most one more is taken, and the next event ends the loop. *)
Definition event_ok (page : list byte) (e : accept_event) : Prop :=
  match e with Accepted _ shm ctx => env_ok page shm ctx | _ => True end.
Lemma handle_closes page readdir stat shm ctx s : env_ok page shm ctx → ∃ s',
  handle_http_connection page readdir stat shm ctx s = Ret (tt, s') ∧ s'.(closed) = true.
Proof. intros H. destruct (admin_run page readdir stat shm ctx H s) as (s' & r & k & E & Hc & _). by exists s'. Qed.
Lemma thread_serves page readdir stat evs : Forall (event_ok page) evs → ∀ running done, ∃ ended new,
  http_server_thread page readdir stat running evs done = Ret (ended, done ++ new) ∧
  Forall (λ s, s.(closed) = true) new ∧ (running = false → (length new ≤ 1)%nat ∧ (ended = true ∨ new = [])).
Proof.
  induction 1 as [|e evs He _ IH]; intros running done; cbn [http_server_thread].
  - exists false, []. rewrite app_nil_r. split_and!; [done|constructor|simpl; auto].
  - assert (Hstop : ∃ ended new, (if running then http_server_thread page readdir stat running evs else mret true) done =
      Ret (ended, done ++ new) ∧ Forall (λ s, s.(closed) = true) new ∧ (running = false → (length new ≤ 1)%nat ∧ (ended = true ∨ new = []))).
    { destruct running; [apply IH|]. exists true, []. rewrite app_nil_r. split_and!; [done|constructor|simpl; auto]. }
    destruct e as [s shm ctx| | |]; [|exact Hstop|exact Hstop|].
    + destruct (handle_closes page readdir stat shm ctx s He) as (s' & E & Hc).
      erewrite bind_Ret by (unfold c_lift; by rewrite E). cbn [snd]. erewrite bind_Ret by reflexivity. destruct running.
      * destruct (IH true (done ++ [s'])) as (ended & new & En & Hn & _). exists ended, (s' :: new).
        rewrite En, <- (assoc_L (++)). split_and!; [done|by constructor|done].
      * exists true, [s']. split_and!; [done|by repeat constructor|simpl; auto].
    + destruct (IH false done) as (ended & new & En & Hn & Hf). exists ended, new. split_and!; [done|done|].
      intros _. by apply Hf.
Qed.

(** ** The listing *)

Section listing.
Context (readdir : list byte → option (list (list byte))) (stat : list byte → option Z) (size : Z).

(** The files that are listed: regular and not hidden. *)
Definition listed (dir : list byte) (es : list (list byte)) : list (list byte * Z) :=
  omap (λ n, if decide (head n = Some x2e) then None else (λ sz, (n, sz)) <$> stat (take 511 (dir ++ str "/" ++ n))) es.
Fixpoint entries_text (first : bool) (l : list (list byte * Z)) : list byte :=
  match l with
  | [] => []
  | e :: l' => (if first then [] else str ",") ++ file_entry e.1 e.2 ++ entries_text false l'
  end.
Fixpoint entry_loop (l : list (list byte * Z)) (first : bool) (text : list byte) : list byte :=
  match l with
  | [] => text
  | (n, sz) :: l' =>
      if negb first && negb (fits size text (str ",")) then text else
      let text1 := if first then text else text ++ str "," in
      if fits size text1 (file_entry n sz) then entry_loop l' false (text1 ++ file_entry n sz) else text1
  end.
Lemma file_entries_loop dir es : ∀ first text,
  file_entries stat size dir es first text = entry_loop (listed dir es) first text.
Proof.
  induction es as [|n es IH]; intros first text; [done|]. cbn [file_entries listed omap list_omap].
  case_bool_decide as Hd; [rewrite decide_True by done; apply IH|rewrite decide_False by done].
  destruct (stat _) as [sz|]; cbn [fmap option_fmap option_map]; [|apply IH]. cbn [entry_loop].
  repeat case_match; try done; apply IH.
Qed.
Lemma entry_loop_fits l l2 : ∀ first text, strlen (text ++ entries_text first l) < size →
  entry_loop (l ++ l2) first text = entry_loop l2 (first && bool_decide (l = [])) (text ++ entries_text first l).
Proof.
  induction l as [|[n sz] l IH]; intros first text H.
  - cbn [entries_text app]. by rewrite app_nil_r, bool_decide_eq_true_2, andb_true_r.
  - rewrite (bool_decide_eq_false_2 (_ :: _ = [])), andb_false_r by done. cbn [entries_text app fst snd] in *.
    pose proof (strlen_nonneg (entries_text false l)). pose proof (strlen_nonneg (file_entry n sz)).
    rewrite !strlen_app in H. cbn [entry_loop].
    assert (Hc : (negb first && negb (fits size text (str ","))) = false).
    { destruct first; [done|]. cbn [negb andb]. apply negb_false_iff, Z.ltb_lt. lia. }
    rewrite Hc. assert (Ht : (if first then text else text ++ str ",") = text ++ (if first then [] else str ","))
      by (destruct first; [by rewrite app_nil_r|done]). rewrite Ht.
    assert (Hf : fits size (text ++ (if first then [] else str ",")) (file_entry n sz) = true)
      by (apply Z.ltb_lt; rewrite strlen_app; lia).
    rewrite Hf, IH by (rewrite !strlen_app; lia).
    cbn [andb]. by rewrite <- !(assoc_L (++)).
Qed.

(** ** Reading the listing *)

Definition eat (p s : list byte) : option (list byte) := if is_prefix p s then Some (drop (length p) s) else None.
(** Characters a JSON string holds as they are. *)
Definition plain (c : byte) : bool := (32 <=? b2z c) && negb (bool_decide (c = x22)) && negb (bool_decide (c = x5c)).
Definition read_entry (s : list byte) : option ((list byte * Z) * list byte) :=
  s ← eat (str "{" ++ key (str "name") ++ [x22]) s;
  let '(n, s) := span_n (length s) plain s in
  s ← eat ([x22] ++ str "," ++ key (str "size")) s;
  let '(d, s) := span_n (length s) is_digit s in
  s ← eat (str "}") s;
  Some ((n, dec_value 0 d), s).
Fixpoint read_entries (fuel : nat) (first : bool) (s : list byte) : option (list (list byte * Z)) :=
  match fuel with
  | O => None
  | S fuel' =>
      if decide (s = str "]}") then Some [] else
      s ← (if first then Some s else eat (str ",") s);
      '(e, s) ← read_entry s;
      es ← read_entries fuel' false s;
      Some (e :: es)
  end.
Definition read_files (s : list byte) : option (list (list byte * Z)) :=
  s ← eat files_open s; read_entries (length s) true s.

Definition entry_ok (e : list byte * Z) : Prop := Forall (λ c, plain c = true) e.1 ∧ 0 ≤ e.2 < 2 ^ 63.
Lemma eat_app p s : eat p (p ++ s) = Some s.
Proof.
  unfold eat. rewrite (proj2 (is_prefix_spec p (p ++ s))) by by exists s. by rewrite drop_app_length.
Qed.
Lemma read_file_entry e s : entry_ok e → read_entry (file_entry e.1 e.2 ++ s) = Some (e, s).
Proof.
  intros [Hn Hs]. destruct e as [n sz]. cbn [fst snd] in *. destruct (dec_spec sz ltac:(lia)) as (Hd & _ & Hv).
  assert (E : file_entry n sz ++ s = (str "{" ++ key (str "name") ++ [x22]) ++ n ++
    ([x22] ++ str "," ++ key (str "size")) ++ dec sz ++ str "}" ++ s).
  { unfold file_entry, quoted. by rewrite <- !(assoc_L (++)). }
  unfold read_entry. rewrite E, eat_app. cbn [mbind option_bind].
  rewrite span_n_exact by (done || (rewrite length_app; lia)). rewrite eat_app. cbn [mbind option_bind].
  rewrite span_n_exact by (done || (rewrite length_app; lia)). rewrite eat_app. by rewrite Hv.
Qed.
Lemma file_entry_shape n sz s : ∃ t, file_entry n sz ++ s = x7b :: t.
Proof. by eexists. Qed.
Lemma read_entries_run l t : ∀ fuel first, Forall entry_ok l → (length l < fuel)%nat → (first = true → l ≠ [] ∨ t = str "]}") →
  read_entries fuel first (entries_text first l ++ t) = es ← read_entries (fuel - length l) (first && bool_decide (l = [])) t; Some (l ++ es).
Proof.
  induction l as [|e l IH]; intros fuel first Hl Hf Hne.
  - cbn [entries_text app length]. rewrite Nat.sub_0_r, bool_decide_eq_true_2, andb_true_r by done.
    by destruct (read_entries fuel first t).
  - apply Forall_cons in Hl as [He Hl]. destruct fuel as [|fuel]; [simpl in Hf; lia|].
    rewrite (bool_decide_eq_false_2 (_ :: _ = [])), andb_false_r by done.
    cbn [entries_text read_entries length]. rewrite <- !(assoc_L (++)). rewrite decide_False.
    2:{ destruct first; [|done]. destruct (file_entry_shape e.1 e.2 (entries_text false l ++ t)) as [x Hx]. cbn [app]. by rewrite Hx. }
    assert (E : (if first then Some ((if first then [] else str ",") ++ file_entry e.1 e.2 ++ entries_text false l ++ t)
      else eat (str ",") ((if first then [] else str ",") ++ file_entry e.1 e.2 ++ entries_text false l ++ t)) =
      Some (file_entry e.1 e.2 ++ entries_text false l ++ t)) by (destruct first; [done|apply eat_app]).
    rewrite E. cbn [mbind option_bind]. rewrite read_file_entry by done. cbn [mbind option_bind].
    rewrite IH by (done || (simpl in Hf; lia)). cbn [andb Nat.sub].
    by destruct (read_entries _ false t).
Qed.

Lemma length_entries_text l : ∀ first, (length l ≤ length (entries_text first l))%nat.
Proof.
  induction l as [|e l IH]; intros first; [simpl; lia|]. cbn [entries_text length]. rewrite !length_app.
  pose proof (IH false). unfold file_entry. rewrite length_app. simpl length at 3. lia.
Qed.
Lemma read_files_text l t : Forall entry_ok l → t ≠ [] → l ≠ [] ∨ t = str "]}" →
  read_files (files_open ++ entries_text true l ++ t) =
  es ← read_entries (length (entries_text true l ++ t) - length l) (bool_decide (l = [])) t; Some (l ++ es).
Proof.
  intros Hl Ht Hne. unfold read_files. rewrite eat_app. cbn [mbind option_bind]. apply read_entries_run; [done| |done].
  rewrite length_app. pose proof (length_entries_text l true). destruct t; [done|simpl; lia].
Qed.
(** The listing as it is built when it fits. *)
Lemma build_files_fits dir es : readdir dir = Some es →
  strlen (files_open ++ entries_text true (listed dir es) ++ str "]}") < size →
  build_files_json readdir stat size dir =
    (files_open ++ entries_text true (listed dir es) ++ str "]}", strlen (files_open ++ entries_text true (listed dir es) ++ str "]}")).
Proof.
  intros Hd Hs. rewrite !strlen_app in Hs. pose proof (strlen_nonneg (entries_text true (listed dir es))).
  change (strlen (str "]}")) with 2 in Hs. unfold build_files_json.
  assert (fits size [] files_open = true) as -> by (apply Z.ltb_lt; change (strlen []) with 0; lia). cbn [negb].
  pose proof (entry_loop_fits (listed dir es) [] true files_open) as El. rewrite app_nil_r in El.
  rewrite Hd, file_entries_loop, El by (rewrite strlen_app; lia). cbn [entry_loop].
  assert (fits size (files_open ++ entries_text true (listed dir es)) (str "]}") = true) as ->
    by (apply Z.ltb_lt; rewrite strlen_app; change (strlen (str "]}")) with 2; lia).
  rewrite <- (assoc_L (++)), !strlen_app. f_equal. change (strlen (str "]}")) with 2. lia.
Qed.

Lemma entries_text_snoc l e : ∀ first, entries_text first (l ++ [e]) =
  entries_text first l ++ (if first && bool_decide (l = []) then [] else str ",") ++ file_entry e.1 e.2.
Proof.
  induction l as [|x l IH]; intros first; cbn [app entries_text].
  - rewrite app_nil_r, bool_decide_eq_true_2, andb_true_r by done. done.
  - rewrite IH, (bool_decide_eq_false_2 (_ :: _ = [])), andb_false_r by done. cbn [andb]. by rewrite <- !(assoc_L (++)).
Qed.

(** While it fits the buffer, the listing the server builds reads back as
    exactly the regular files of the directory that are not hidden, with their
    sizes, in the order of the directory, for names without quotes, backslashes and
    control characters; the returned length is that of the text. *)
Theorem files_json_roundtrip dir es : readdir dir = Some es → Forall entry_ok (listed dir es) →
  strlen (files_open ++ entries_text true (listed dir es) ++ str "]}") < size →
  let '(text, n) := build_files_json readdir stat size dir in
  n = strlen text ∧ n < size ∧ read_files text = Some (listed dir es).
Proof.
  intros Hd Hok Hs. rewrite (build_files_fits dir es Hd Hs). split_and!; [done|done|].
  rewrite read_files_text by (done || by right). rewrite length_app. pose proof (length_entries_text (listed dir es) true).
  destruct (length _ + _ - _)%nat as [|f] eqn:Ef; [simpl in Ef; lia|].
  cbn [read_entries]. rewrite decide_True by done. cbn [mbind option_bind]. by rewrite app_nil_r.
Qed.

(** A listing that does not fit is cut after the comma that announces the next
    file: the text ends in a comma and the closing brackets and is not JSON, although
    the length returned reports success. *)
Theorem files_json_trailing_comma dir es l1 e l2 : readdir dir = Some es → listed dir es = l1 ++ e :: l2 →
  l1 ≠ [] → Forall entry_ok l1 →
  strlen (files_open ++ entries_text true l1) + 3 < size → size ≤ strlen (files_open ++ entries_text true (l1 ++ [e])) →
  build_files_json readdir stat size dir =
    (files_open ++ entries_text true l1 ++ str ",]}", strlen (files_open ++ entries_text true l1 ++ str ",]}")) ∧
  read_files (files_open ++ entries_text true l1 ++ str ",]}") = None.
Proof.
  intros Hd Hl Hne Hok H1 H2. rewrite entries_text_snoc, (bool_decide_eq_false_2 (l1 = [])), andb_false_r in H2 by done.
  set (t := files_open ++ entries_text true l1) in *.
  assert (Ht : t ++ str ",]}" = (t ++ str ",") ++ str "]}") by (by rewrite <- (assoc_L (++))).
  split.
  - unfold build_files_json. unfold t in H1. rewrite strlen_app in H1. pose proof (strlen_nonneg (entries_text true l1)).
    assert (fits size [] files_open = true) as -> by (apply Z.ltb_lt; change (strlen []) with 0; lia). cbn [negb].
    rewrite Hd, file_entries_loop, Hl, entry_loop_fits by (rewrite strlen_app; lia). fold t.
    rewrite bool_decide_eq_false_2 by done. destruct e as [n sz]. cbn [andb negb entry_loop fst snd] in *.
    assert (fits size t (str ",") = true) as -> by (apply Z.ltb_lt; unfold t; rewrite strlen_app; change (strlen (str ",")) with 1; lia).
    cbn [negb]. rewrite !(assoc_L (++)) in H2. fold t in H2. rewrite !strlen_app in H2.
    assert (fits size (t ++ str ",") (file_entry n sz) = false) as -> by (apply Z.ltb_ge; rewrite strlen_app; lia).
    assert (fits size (t ++ str ",") (str "]}") = true) as ->
      by (apply Z.ltb_lt; unfold t; rewrite !strlen_app; change (strlen (str "]}")) with 2; change (strlen (str ",")) with 1; lia).
    rewrite !(assoc_L (++)). fold t. rewrite Ht, !strlen_app. done.
  - rewrite read_files_text by (done || by left). rewrite (bool_decide_eq_false_2 (l1 = [])) by done.
    destruct (length _ - _)%nat; [done|]. reflexivity.
Qed.

End listing.

(** ** A small directory *)

Definition wit_readdir (d : list byte) : option (list (list byte)) :=
  if bool_decide (d = str "./shared") then Some [str "."; str "a.txt"; str ".hidden"; str "sub"; str "b"] else None.
Definition wit_stat (p : list byte) : option Z :=
  if bool_decide (p = str "./shared/a.txt") then Some 5 else if bool_decide (p = str "./shared/b") then Some 12 else None.
Definition wit_page : list byte := str "<html></html>".

(** A quote in a file name is not escaped: one file is listed as two. *)
Lemma quote_adds_file : let n := str "a" ++ [x22; x2c] ++ key (str "size") ++ str "1},{" ++ key (str "name") ++ [x22] ++ str "b" in
  read_files (build_files_json (λ _, Some [n]) (λ _, Some 7) 8192 (str "./shared")).1 = Some [(str "a", 1); (str "b", 7)].
Proof. vm_compute. reflexivity. Qed.
(** The path may come from the next line. *)
Lemma path_from_next_line : ∃ r, parse_request_from_buf (str "GET" ++ [x0a] ++ str "/api/config" ++ [x0a; x0a]) = Ret (Some r) ∧
  r.(path) = str "/api/config".
Proof. eexists. split; [vm_compute; reflexivity|reflexivity]. Qed.

Lemma wit_env_ok : env_ok wit_page None None.
Proof. by split. Qed.
Lemma admin_total_witness : ∃ s' r k,
  handle_http_connection wit_page wit_readdir wit_stat None None (Sock [] [7; 0] [Some (str "GET / HTTP/1.1" ++ [x0d; x0a])] false) = Ret (tt, s') ∧
  s'.(closed) = true ∧ s'.(sent) = take k (wire r).
Proof.
  destruct (admin_total wit_page wit_readdir wit_stat None None wit_env_ok
    (Sock [] [7; 0] [Some (str "GET / HTTP/1.1" ++ [x0d; x0a])] false)) as (s' & r & k & E & Hc & Hs & _).
  by exists s', r, k.
Defined.
Lemma admin_answers_witness :
  handle_http_connection wit_page wit_readdir wit_stat None None
    (Sock [] [] [Some (request_text (str "GET") (str "/api/files") (str "HTTP/1.1" ++ crlf ++ crlf))] false) =
  Ret (tt, Sock (wire (answer wit_page wit_readdir wit_stat None None (str "GET") (str "/api/files"))) [] [] true).
Proof.
  apply (admin_answers wit_page wit_readdir wit_stat None None wit_env_ok (str "GET") (str "/api/files")).
  - by left.
  - split_and!; [done|simpl; lia|repeat constructor; done].
  - apply elem_of_app. right. right. by left.
  - vm_compute. discriminate.
Defined.
Lemma files_json_roundtrip_witness : let '(text, n) := build_files_json wit_readdir wit_stat 8192 (str "./shared") in
  n = strlen text ∧ n < 8192 ∧ read_files text = Some [(str "a.txt", 5); (str "b", 12)].
Proof.
  apply (files_json_roundtrip wit_readdir wit_stat 8192 (str "./shared") [str "."; str "a.txt"; str ".hidden"; str "sub"; str "b"]).
  - reflexivity.
  - repeat constructor; vm_compute; discriminate.
  - vm_compute. reflexivity.
Defined.
Lemma files_json_trailing_comma_witness : let text := files_open ++ file_entry (str "a.txt") 5 ++ str ",]}" in
  build_files_json wit_readdir wit_stat 50 (str "./shared") = (text, strlen text) ∧ read_files text = None.
Proof.
  apply (files_json_trailing_comma wit_readdir wit_stat 50 (str "./shared") [str "."; str "a.txt"; str ".hidden"; str "sub"; str "b"]
    [(str "a.txt", 5)] (str "b", 12) []).
  - reflexivity.
  - reflexivity.
  - done.
  - repeat constructor; vm_compute; discriminate.
  - vm_compute. reflexivity.
  - vm_compute. discriminate.
Defined.

End AdminHttpSpec.
