(* ===== verification/Process.v ===== *)
(** * A process that serves connections: what it holds, and its accept loop
    (shared by web-server/src/main.c with http.c and network-proxy/src/proxy.c)

    The process is the list of resources it holds, what it has printed, and a script that
    says of each system call whether it succeeds.  The accept loop is generic in the
    server's queue; accept returns by a script too.  Whether the threads end when they are
    joined is a parameter: what they do meanwhile is in [ConnPool]. *)

From stdpp Require Import gmap.
From S2P Require Import Prelude Calls.

Module Process.
Import Calls.

Section process.
Context {H : Type} `{EqDecision H}.
Record proc := Proc { held : list H; script : list bool; out : list byte; err : list byte }.
Definition call : C proc bool := λ p, Ret (default true (head p.(script)), Proc p.(held) (tail p.(script)) p.(out) p.(err)).
Definition hold (h : H) : C proc unit := c_mod (λ p, Proc (h :: p.(held)) p.(script) p.(out) p.(err)).
Definition release (h : H) : C proc unit := c_mod (λ p, Proc (filter (λ x, x ≠ h) p.(held)) p.(script) p.(out) p.(err)).
Definition print (t : list byte) : C proc unit := c_mod (λ p, Proc p.(held) p.(script) (p.(out) ++ t) p.(err)).
Definition eprint (t : list byte) : C proc unit := c_mod (λ p, Proc p.(held) p.(script) p.(out) (p.(err) ++ t)).
Definition acquire (h : H) : C proc bool := ok ← call; (if ok : bool then hold h else mret tt);; mret ok.

(** The workers until one cannot be made: whether all were. *)
Fixpoint create_threads (thread : H) (n : nat) : C proc bool :=
  match n with
  | O => mret true
  | S n' => ok ← acquire thread; if (ok : bool) then create_threads thread n' else mret false
  end.

(** The workers are joined, which waits for ever if there are some and they do not end; and
    what they use is destroyed, undefined while there are some. *)
Definition join_threads (thread : H) (workers_end : bool) : C proc unit :=
  p ← c_get; if bool_decide (thread ∈ p.(held)) && negb workers_end then c_blocked else release thread.
Definition unused (thread : H) : C proc unit := p ← c_get; if bool_decide (thread ∈ p.(held)) then c_ub else mret tt.

(** What happens to the accept loop: a connection, another signal, a failure of accept, or
    a signal whose handler stops the server, while it waits in accept or elsewhere.  A
    handler set by [signal] lets the accept it interrupted go on. *)
Inductive stop_signal := SIGINT | SIGTERM.
Definition signum (sg : stop_signal) : Z := match sg with SIGINT => 2 | SIGTERM => 15 end.
Inductive accepted := AConn (fd : Z) | AIntr | AFail | AStop (in_accept : bool) (sg : stop_signal).
Section loop.
Context {Q : Type} (enqueue : Z → Q → outcome (bool * Q)) (is_running : Q → bool) (set_running : bool → Q → Q) (on_stop : Z → C proc unit).
Fixpoint accept_loop (rs : list accepted) (s : Q) : C proc unit :=
  match rs with
  | [] => c_blocked
  | AFail :: _ => mret tt
  | AIntr :: rs' => if is_running s then accept_loop rs' s else mret tt
  | AConn fd :: rs' => r ← c_lift (enqueue fd s); if is_running r.2 then accept_loop rs' r.2 else mret tt
  | AStop in_accept sg :: rs' =>
      if negb (is_running s) then c_ub   (* threads joined twice *)
      else on_stop (signum sg);; if (in_accept : bool) then accept_loop rs' (set_running false s) else mret tt
  end.
End loop.

(** ** How a process ends *)

(** With a status and what is held, waiting for ever, or undefined. *)
Inductive fate (A : Type) := Returns (status : A) (l : list H) | Waits | Undefined.
Definition ends {A} (o : outcome (A * proc)) (f : fate A) : Prop :=
  match f with Returns _ z l => ∃ p', o = Ret (z, p') ∧ p'.(held) = l | Waits _ => o = Blocked | Undefined _ => o = UB end.
(** Whether the first calls of a script succeed, and how many do before one fails. *)
Fixpoint all_ok (n : nat) (sc : list bool) : bool := match n with O => true | S n' => default true (head sc) && all_ok n' (tail sc) end.
Fixpoint good_calls (n : nat) (sc : list bool) : nat :=
  match n with O => O | S n' => if default true (head sc) then S (good_calls n' (tail sc)) else O end.

Section ends.
Context {B : Type}.
Implicit Types f : fate B.
Lemma ends_ret (z : B) p l : p.(held) = l → ends ((mret z : C proc B) p) (Returns B z l).
Proof. intros Hl. by exists p. Qed.
Lemma ends_bind {A} (m : C proc A) (k : A → C proc B) f p a p' : m p = Ret (a, p') → ends (k a p') f → ends ((m ≫= k) p) f.
Proof. intros E. by rewrite (bind_Ret _ _ _ _ _ E). Qed.
Lemma ends_assoc {T A} (m : C proc T) (k : T → C proc A) (g : A → C proc B) f p : ends ((m ≫= λ x, k x ≫= g) p) f → ends (((m ≫= k) ≫= g) p) f.
Proof. unfold mbind, C_bind. by destruct (m p) as [[]| | |]. Qed.
Lemma ends_call (k : bool → C proc B) f p : (∀ p', p'.(held) = p.(held) → p'.(script) = tail p.(script) → ends (k (default true (head p.(script))) p') f) →
  ends ((call ≫= k) p) f.
Proof. intros HK. by apply HK. Qed.
Lemma ends_acquire h (k : bool → C proc B) f p :
  (∀ p', p'.(held) = (if default true (head p.(script)) then h :: p.(held) else p.(held)) → p'.(script) = tail p.(script) → ends (k (default true (head p.(script))) p') f) →
  ends ((acquire h ≫= k) p) f.
Proof. intros HK. unfold acquire. apply ends_assoc, ends_call. intros p' E1 E2. destruct (default true (head (script p))); apply HK; cbn; by rewrite ?E1. Qed.
(** Steps that make no call: printing, holding and releasing. *)
Lemma ends_mod g (k : unit → C proc B) f p : ends (k tt (g p)) f → ends ((c_mod g ≫= k) p) f.
Proof. done. Qed.
Lemma ends_if_print (b : bool) t (k : unit → C proc B) f p : (∀ p', p'.(held) = p.(held) → p'.(script) = p.(script) → ends (k tt p') f) →
  ends (((if b then print t else mret tt) ≫= k) p) f.
Proof. intros HK. destruct b; by apply HK. Qed.
Lemma ends_join th we (k : unit → C proc B) p f : th ∉ p.(held) ∨ we = true → ends (k tt (Proc (filter (λ x, x ≠ th) p.(held)) p.(script) p.(out) p.(err))) f →
  ends ((join_threads th we ≫= k) p) f.
Proof.
  intros Hc HK. unfold join_threads. apply ends_assoc. eapply ends_bind; [reflexivity|]. replace (bool_decide _ && _) with false; [done|].
  destruct Hc as [Hn| ->]; [by rewrite bool_decide_false|by rewrite andb_false_r].
Qed.
Lemma ends_unused th (k : unit → C proc B) p f : th ∉ p.(held) → ends (k tt p) f → ends ((unused th ≫= k) p) f.
Proof. intros Hn HK. unfold unused. apply ends_assoc. eapply ends_bind; [reflexivity|]. by rewrite bool_decide_false. Qed.
Lemma ends_used th (k : unit → C proc B) p : th ∈ p.(held) → ends ((unused th ≫= k) p) (Undefined B).
Proof. intros Hn. unfold unused. apply ends_assoc. eapply ends_bind; [reflexivity|]. by rewrite bool_decide_true. Qed.
Lemma ends_threads th n (k : bool → C proc B) f : ∀ p,
  (∀ p', p'.(held) = replicate (good_calls n p.(script)) th ++ p.(held) → ends (k (good_calls n p.(script) =? n)%nat p') f) →
  ends ((create_threads th n ≫= k) p) f.
Proof.
  induction n as [|n IH]; intros p HK; cbn [create_threads]; [by apply HK|]. apply ends_assoc, ends_acquire. intros p1 E1 E2.
  cbn [good_calls] in HK. destruct (default true (head (script p))); [|by apply HK]. apply IH. intros p2 E3. rewrite E2 in *. apply HK. rewrite E3, E1.
  generalize (good_calls n (tail (script p))). intros m. clear. induction m as [|m IH]; [done|]. cbn in *. by f_equal.
Qed.
Lemma good_calls_le n sc : (good_calls n sc ≤ n)%nat.
Proof. revert sc. induction n as [|n IH]; intros sc; [done|]. cbn. destruct (default true (head sc)); [|lia]. specialize (IH (tail sc)). lia. Qed.
End ends.
Lemma without_threads th k (l : list H) : th ∉ l → filter (λ x, x ≠ th) (replicate k th ++ l) = l.
Proof.
  intros Hl. induction k as [|k IH]; cbn [replicate app]; [|by rewrite filter_cons, decide_False by naive_solver].
  induction l as [|x l IH]; [done|]. rewrite not_elem_of_cons in Hl. rewrite filter_cons, decide_True by naive_solver. by rewrite IH by naive_solver.
Qed.

(** ** How the accept loop ends *)

(** Whether the stop has been called when the loop ends, if it ends. *)
Fixpoint ending (on : bool) (rs : list accepted) : option bool :=
  match rs with
  | [] => None
  | AFail :: _ => Some (negb on)
  | AIntr :: rs' | AConn _ :: rs' => if on then ending on rs' else Some true
  | AStop in_accept _ :: rs' => if on then (if in_accept then ending false rs' else Some true) else None
  end.
Section loop_end.
Context {Q : Type} (enqueue : Z → Q → outcome (bool * Q)) (is_running : Q → bool) (set_running : bool → Q → Q) (on_stop : Z → C proc unit) (fine : Q → Prop).
Hypothesis enqueue_ok : ∀ fd s, fine s → ∃ b s', enqueue fd s = Ret (b, s') ∧ fine s' ∧ is_running s' = is_running s.
Hypothesis set_running_ok : ∀ b s, fine s → fine (set_running b s) ∧ is_running (set_running b s) = b.
(** The loop ends when accept fails, the process as it was. *)
Lemma accept_fails rs : ∀ s p, fine s → is_running s = true → ending true rs = Some false → accept_loop enqueue is_running set_running on_stop rs s p = Ret (tt, p).
Proof.
  induction rs as [|r rs IH]; intros s p Hs Hr Hb; [done|]. destruct r as [fd| | |[] n]; cbn [accept_loop ending] in *; try done.
  - destruct (enqueue_ok fd s Hs) as (x & s' & E & Hs' & Er). erewrite bind_Ret by (unfold c_lift; by rewrite E). cbn [snd].
    rewrite Er, Hr. apply IH; [done|congruence|done].
  - rewrite Hr. by apply IH.
  - exfalso. clear -Hb. destruct rs as [|[]]; done.
Qed.
(** It ends with the handler of a signal: as the handler does. *)
Lemma accept_off rs s p : fine s → is_running s = false → is_Some (ending false rs) → accept_loop enqueue is_running set_running on_stop rs s p = Ret (tt, p).
Proof.
  intros Hs Hr [b Hb]. destruct rs as [|[fd| | |] rs]; cbn [accept_loop ending] in *; try done.
  - destruct (enqueue_ok fd s Hs) as (x & s' & E & Hs' & Er). erewrite bind_Ret by (unfold c_lift; by rewrite E). cbn [snd]. by rewrite Er, Hr.
  - by rewrite Hr.
Qed.
Lemma accept_stops rs : ∀ s p, fine s → is_running s = true → ending true rs = Some true → ∃ sg,
  accept_loop enqueue is_running set_running on_stop rs s p = on_stop (signum sg) p.
Proof.
  induction rs as [|r rs IH]; intros s p Hs Hr Hb; [done|]. destruct r as [fd| | |[] sg]; cbn [accept_loop ending] in *; try done.
  - destruct (enqueue_ok fd s Hs) as (x & s' & E & Hs' & Er). erewrite bind_Ret by (unfold c_lift; by rewrite E). cbn [snd].
    rewrite Er, Hr. apply IH; [done|congruence|done].
  - rewrite Hr. by apply IH.
  - exists sg. rewrite Hr. cbn [negb]. destruct (set_running_ok false s Hs) as [Hs' Eo']. unfold mbind, C_bind.
    destruct (on_stop (signum sg) p) as [[[] p1]| | |]; [|done..]. by rewrite accept_off.
  - exists sg. rewrite Hr. cbn [negb]. unfold mbind, C_bind. by destruct (on_stop (signum sg) p) as [[[] p1]| | |].
Qed.
(** What follows the loop, with [n] threads: they are joined when a signal ended it. *)
Lemma ends_accept {B} th (we : bool) n l (k : unit → C proc B) f rs s p b : p.(held) = replicate n th ++ l → th ∉ l →
  fine s → is_running s = true → ending true rs = Some b →
  (∀ sg g, th ∉ p.(held) ∨ we = true → (∀ p', p'.(held) = filter (λ x, x ≠ th) p.(held) → ends (k tt p') g) → ends ((on_stop (signum sg) ≫= k) p) g) →
  (∀ sg, th ∈ p.(held) → we = false → on_stop (signum sg) p = Blocked) →
  (∀ p', p'.(held) = (if b then l else replicate n th ++ l) → (b = true → n ≠ 0%nat → we = true) → ends (k tt p') f) →
  (b = true → n ≠ 0%nat → we = false → f = Waits B) →
  ends ((accept_loop enqueue is_running set_running on_stop rs s ≫= k) p) f.
Proof.
  intros Hp Hl Hs Hr Hb Hret Hwait HK HW. destruct b.
  - destruct (accept_stops rs s p Hs Hr Hb) as (sg & E). unfold mbind at 1, C_bind at 1. rewrite E.
    destruct (decide (n = 0%nat ∨ we = true)) as [Hj|Hj].
    + apply (Hret sg). { rewrite Hp. destruct Hj as [->|]; auto. }
      intros p' E'. apply HK; [by rewrite E', Hp, without_threads|]. intros _ ?. by destruct Hj.
    + assert (we = false) as Hwe by (destruct we; tauto). rewrite Hwait; [by rewrite HW by tauto| |done]. rewrite Hp. destruct n; [tauto|by left].
  - by erewrite bind_Ret by (by apply accept_fails); apply HK.
Qed.
End loop_end.
End process.
Arguments proc : clear implicits.
Arguments Returns {H A} status l.
Arguments Waits {H A}.
Arguments Undefined {H A}.
Arguments fate : clear implicits.
End Process.
