(* ===== verification/ConnPool.v ===== *)
(** * An accept loop, its workers, and the signal that stops them
    (worker_thread, *_start and *_stop of web-server/src/http.c and network-proxy/src/proxy.c)

    The two servers have the same threads: the main thread accepts and queues, workers wait
    for connections under a mutex, and the stop function, which a signal handler calls on
    the main thread, clears [running], broadcasts and joins.  The steps are finer than the
    critical sections: where a thread holds the mutex and where it has decided to wait are
    states.  The server is a parameter with the operations of its queue; so are the clients
    whose service comes to an end, since a worker waits without limit for what a client
    sends. *)

From stdpp Require Import relations.
From S2P Require Import Prelude.

Module ConnPool.

(** What the threads do to the server. *)
Class Server (Q : Type) := {
  is_running : Q → bool;
  stop_running : Q → Q;
  put : Z → Q → outcome (bool * Q);
  take_conn : Q → outcome (option Z * Q);      (* [Blocked]: the condition of the wait holds *)
  server_fine : Q → Prop;
  conns : Q → list Z;                          (* the connections in the queue *)
  stop_law : ∀ q, server_fine q → server_fine (stop_running q) ∧ is_running (stop_running q) = false ∧ conns (stop_running q) = conns q;
  put_law : ∀ fd q b q', server_fine q → put fd q = Ret (b, q') → server_fine q' ∧ conns q' = conns q ++ if b then [fd] else [];
  take_law : ∀ q o q', server_fine q → take_conn q = Ret (o, q') → server_fine q' ∧ conns q = option_list o ++ conns q';
  take_stopped : ∀ q, server_fine q → is_running q = false → ∃ o q', take_conn q = Ret (o, q') ∧ is_running q' = false
}.

(** A worker: before the test of [running], before locking, holding the mutex, about to
    wait and still holding it, waiting, with a connection, gone. *)
Inductive worker := WTop | WLock | WHold | WSleepy | WAsleep | WServe (fd : Z) | WDone.
(** The main thread: before the test of [running], in accept, before locking, holding the
    mutex with a connection, past the loop. *)
Inductive mainpc := MTop | MAccept | MLock (fd : Z) | MHold (fd : Z) | MEnd.
(** The signal handler, which interrupts the main thread: not called, [running] cleared,
    joining, returned. *)
Inductive handler := HNone | HFlagged | HJoin | HBack.
#[global] Instance worker_eq_dec : EqDecision worker.
Proof. solve_decision. Defined.
#[global] Instance handler_eq_dec : EqDecision handler.
Proof. solve_decision. Defined.

Section pool.
Context {Q : Type} `{Server Q}.
(** The clients that send a request, or go away, and take the answer. *)
Context (answers : Z → Prop).
Record pool := Pool { srv : Q; workers : list worker; main : mainpc; sig : handler; closed : list Z }.

Definition holding (w : worker) : bool := match w with WHold | WSleepy => true | _ => false end.
Definition main_holds (m : mainpc) : bool := match m with MHold _ => true | _ => false end.
Definition free (ws : list worker) (m : mainpc) : Prop := Forall (λ w, holding w = false) ws ∧ main_holds m = false.
Definition wake (w : worker) : worker := match w with WAsleep => WLock | _ => w end.
(** pthread_cond_signal wakes one that waits, if there is one. *)
Inductive signalled : list worker → list worker → Prop :=
  | sg_none ws : WAsleep ∉ ws → signalled ws ws
  | sg_one ws i : ws !! i = Some WAsleep → signalled ws (<[i := WLock]> ws).

Inductive step : pool → pool → Prop :=
  | w_on q ws m h c i : ws !! i = Some WTop → is_running q = true → step (Pool q ws m h c) (Pool q (<[i := WLock]> ws) m h c)
  | w_off q ws m h c i : ws !! i = Some WTop → is_running q = false → step (Pool q ws m h c) (Pool q (<[i := WDone]> ws) m h c)
  | w_lock q ws m h c i : ws !! i = Some WLock → free ws m → step (Pool q ws m h c) (Pool q (<[i := WHold]> ws) m h c)
  | w_sleepy q ws m h c i : ws !! i = Some WHold → take_conn q = Blocked → step (Pool q ws m h c) (Pool q (<[i := WSleepy]> ws) m h c)
  | w_wait q ws m h c i : ws !! i = Some WSleepy → step (Pool q ws m h c) (Pool q (<[i := WAsleep]> ws) m h c)
  | w_take q ws m h c i o q' : ws !! i = Some WHold → take_conn q = Ret (o, q') →
      step (Pool q ws m h c) (Pool q' (<[i := match o with Some fd => if 0 <=? fd then WServe fd else WTop | None => WTop end]> ws) m h c)
  | w_serve q ws m h c i fd : ws !! i = Some (WServe fd) → answers fd → step (Pool q ws m h c) (Pool q (<[i := WTop]> ws) m h (c ++ [fd]))
  | m_on q ws h c : h = HNone ∨ h = HBack → is_running q = true → step (Pool q ws MTop h c) (Pool q ws MAccept h c)
  | m_off q ws h c : h = HNone ∨ h = HBack → is_running q = false → step (Pool q ws MTop h c) (Pool q ws MEnd h c)
  | m_accept q ws h c fd : h = HNone ∨ h = HBack → step (Pool q ws MAccept h c) (Pool q ws (MLock fd) h c)
  | m_intr q ws h c : h = HNone ∨ h = HBack → step (Pool q ws MAccept h c) (Pool q ws MTop h c)
  | m_fails q ws h c : h = HNone ∨ h = HBack → step (Pool q ws MAccept h c) (Pool q ws MEnd h c)
  | m_lock q ws h c fd : h = HNone ∨ h = HBack → free ws (MLock fd) → step (Pool q ws (MLock fd) h c) (Pool q ws (MHold fd) h c)
  | m_put q ws ws' h c fd q' : h = HNone ∨ h = HBack → put fd q = Ret (true, q') → signalled ws ws' →
      step (Pool q ws (MHold fd) h c) (Pool q' ws' MTop h c)
  | m_refuse q ws h c fd q' : h = HNone ∨ h = HBack → put fd q = Ret (false, q') →
      step (Pool q ws (MHold fd) h c) (Pool q' ws MTop h (c ++ [fd]))
  | h_flag q ws m c : m ≠ MEnd → step (Pool q ws m HNone c) (Pool (stop_running q) ws m HFlagged c)
  | h_broadcast q ws m c : step (Pool q ws m HFlagged c) (Pool q (wake <$> ws) m HJoin c)
  | h_join q ws m c : Forall (eq WDone) ws → step (Pool q ws m HJoin c) (Pool q ws m HBack c).
Inductive spurious : pool → pool → Prop :=
  | sp_wake q ws m h c i : ws !! i = Some WAsleep → spurious (Pool q ws m h c) (Pool q (<[i := WLock]> ws) m h c).
Definition any_step (s s' : pool) : Prop := step s s' ∨ spurious s s'.
Definition started (q : Q) (n : nat) : pool := Pool q (replicate n WTop) MTop HNone [].

(** ** Stopping *)

Definition rank (w : worker) : nat :=
  match w with WDone => 0 | WTop => 1 | WServe _ => 2 | WHold => 3 | WLock => 4 | WAsleep => 5 | WSleepy => 6 end.
Fixpoint total (ws : list worker) : nat := match ws with [] => 0 | w :: ws' => rank w + total ws' end.
Definition left_over (s : pool) : nat := (total s.(workers) + match s.(sig) with HNone => 3 | HFlagged => 2 | HJoin => 1 | HBack => 0 end)%nat.
Lemma total_insert ws i w w' : ws !! i = Some w → (total (<[i := w']> ws) + rank w = total ws + rank w')%nat.
Proof.
  revert i. induction ws as [|x ws IH]; intros [|i] Hi; try done.
  - cbn in *. simplify_eq. lia.
  - specialize (IH i Hi). change (<[S i:=w']> (x :: ws)) with (x :: <[i:=w']> ws). cbn [total]. lia.
Qed.
Lemma total_wake ws : (total (wake <$> ws) ≤ total ws)%nat.
Proof. induction ws as [|[] ws IH]; cbn in *; lia. Qed.

(** The clients that are served or wait to be. *)
Definition attended (s : pool) (fd : Z) : Prop := WServe fd ∈ s.(workers) ∨ fd ∈ conns s.(srv).
(** Once the flag is cleared with the mutex not held by the main thread and nobody about to
    wait, it stays so until the handler returns. *)
Record stopping (s : pool) : Prop := {
  so_fine : server_fine s.(srv);
  so_off : is_running s.(srv) = false;
  so_sig : s.(sig) = HFlagged ∨ s.(sig) = HJoin;
  so_main : main_holds s.(main) = false;
  so_sleepy : WSleepy ∉ s.(workers);
  so_asleep : s.(sig) = HJoin → WAsleep ∉ s.(workers);
  so_answers : ∀ fd, attended s fd → answers fd
}.
Lemma not_elem_insert {A} (x y : A) (l : list A) (i : nat) : x ∉ l → x ≠ y → x ∉ <[i := y]> l.
Proof. intros Hl Hne [j Hj]%list_elem_of_lookup. apply list_lookup_insert_Some in Hj as [(_ & -> & _)|[_ Hj]]; [done|]. apply Hl. by eapply list_elem_of_lookup_2. Qed.
Lemma stopping_worker q q' ws m h c c' i w w' : stopping (Pool q ws m h c) → ws !! i = Some w → (rank w' < rank w)%nat →
  server_fine q' → is_running q' = false → w' ≠ WSleepy → w' ≠ WAsleep → (∀ fd, w' = WServe fd ∨ fd ∈ conns q' → fd ∈ conns q) →
  stopping (Pool q' (<[i := w']> ws) m h c') ∧ (left_over (Pool q' (<[i := w']> ws) m h c') < left_over (Pool q ws m h c))%nat.
Proof.
  intros [H1 H2 H3 H4 H5 H6 H7] Hi Hr Hf Ho Hs Ha Hc. split.
  - split; cbn in *; try done; [by apply not_elem_insert|intros E; apply not_elem_insert; auto|].
    intros fd [[j Hj]%list_elem_of_lookup|Hq]; apply H7; [|right; auto].
    apply list_lookup_insert_Some in Hj as [(_ & Ew & _)|[_ Hj]]; [right; auto|left; by eapply list_elem_of_lookup_2].
  - unfold left_over. cbn [workers sig]. pose proof (total_insert ws i w w' Hi). lia.
Qed.
Lemma wake_none (ws : list worker) w : w = WSleepy ∨ w = WAsleep → (w = WSleepy → WSleepy ∉ ws) → w ∉ wake <$> ws.
Proof.
  intros Hw Hs (x & -> & Hx)%list_elem_of_fmap. destruct x; cbn in *; destruct Hw as [E|E]; try done. by apply (Hs eq_refl).
Qed.
Lemma stopping_step s s' : stopping s → any_step s s' → s'.(sig) = HBack ∧ left_over s = S (left_over s') ∨
  stopping s' ∧ (left_over s' < left_over s)%nat.
Proof.
  intros Hs Ht. pose proof Hs as [Hf Ho Hg Hm Hsl Hal Han]. destruct Ht as [Ht|Ht].
  2: { right. destruct Ht. cbn in *. eapply stopping_worker; try done; cbn; [lia|by intros fd [?|?]]. }
  destruct Ht; cbn in Hf, Ho, Hg, Hm, Hsl, Hal, Han; try congruence;
    try (match goal with E : _ = HNone ∨ _ = HBack |- _ => exfalso; destruct E, Hg; congruence end);
    try (right; eapply stopping_worker; [done|done|cbn; lia|done|done|done|done|by intros ? [?|?]]).
  - exfalso. destruct (take_stopped q Hf Ho) as (o & q' & E & _). congruence.
  - exfalso. apply Hsl. by eapply list_elem_of_lookup_2.
  - right. match goal with E : take_conn q = _ |- _ => rename E into Et end.
    destruct (take_stopped q Hf Ho) as (o' & q2 & E & Ho2). destruct (take_law q o' q2 Hf E) as [Hf2 Hc2]. rewrite E in Et. injection Et as <- <-.
    eapply stopping_worker; try done; destruct o' as [fd|]; try destruct (0 <=? fd); cbn in *; try lia; try done; rewrite Hc2; set_solver.
  - destruct Hg; congruence.
  - right. split; [split; cbn; try done; [by right|apply wake_none; auto|intros _; apply wake_none; auto|]|].
    { intros fd [(x & Ex & Hx)%list_elem_of_fmap|Hq]; apply Han; [left|by right]. by destruct x; cbn in Ex; simplify_eq. }
    unfold left_over. cbn. pose proof (total_wake ws). lia.
  - left. split; [done|]. unfold left_over. cbn. lia.
Qed.
Lemma stopping_go s : stopping s → ∃ s', step s s'.
Proof.
  intros [Hf Ho Hg Hm Hsl Hal Han]. destruct s as [q ws m h c]. cbn in *. destruct Hg as [-> | ->]; [eexists; apply h_broadcast|].
  specialize (Hal eq_refl). destruct (decide (Forall (eq WDone) ws)) as [Hd|Hd]; [eexists; by apply h_join|].
  apply not_Forall_Exists in Hd; [|solve_decision]. apply Exists_exists in Hd as (w & Hw & Hne).
  destruct (decide (Exists (λ w, holding w = true) ws)) as [Hh|Hh].
  - apply Exists_exists in Hh as (x & [i Hi]%list_elem_of_lookup & Hx). destruct x; try done; [|by exfalso; apply Hsl; eapply list_elem_of_lookup_2].
    destruct (take_stopped q Hf Ho) as (o & q' & E & _). eexists. by eapply w_take.
  - apply list_elem_of_lookup in Hw as [i Hi]. destruct w; try (by exfalso; apply Hne).
    + exists (Pool q (<[i := WDone]> ws) m HJoin c). by apply w_off.
    + exists (Pool q (<[i := WHold]> ws) m HJoin c). apply w_lock; [done|]. split; [|done]. apply not_Exists_Forall in Hh; [|solve_decision]. eapply Forall_impl; [exact Hh|].
      intros x Hx. by apply not_true_is_false.
    + exfalso. apply Hh, Exists_exists. exists WHold. split; [by eapply list_elem_of_lookup_2|done].
    + exfalso. by apply Hsl; eapply list_elem_of_lookup_2.
    + exfalso. by apply Hal; eapply list_elem_of_lookup_2.
    + exists (Pool q (<[i := WTop]> ws) m HJoin (c ++ [fd])). apply w_serve; [done|]. apply Han. left. by eapply list_elem_of_lookup_2.
Qed.
Lemma rank_six w : (rank w ≤ 6)%nat.
Proof. destruct w; cbn; lia. Qed.
Lemma total_bound ws : (total ws ≤ 6 * length ws)%nat.
Proof. induction ws as [|w ws IH]; cbn in *; [lia|]. pose proof (rank_six w). lia. Qed.
(** From there the handler returns: the steps that leave it waiting are fewer than the
    bound, and there is always one more to take. *)
Definition waiting (s s' : pool) : Prop := any_step s s' ∧ s'.(sig) ≠ HBack.
Lemma stop_returns s k s' : stopping s → nsteps waiting k s s' → (k + left_over s' ≤ left_over s)%nat ∧ ∃ s2, step s' s2.
Proof.
  intros Hs Hk. assert ((k + left_over s' ≤ left_over s)%nat ∧ stopping s') as [? ?]; [|split; [done|by apply stopping_go]].
  induction k as [|k IH] in s', Hk |- *; [inversion Hk; subst; split; [lia|done]|].
  apply nsteps_inv_r in Hk as (s1 & Hk & Hst & Hb). destruct (IH s1 Hk) as [Hl Hs1].
  destruct (stopping_step s1 s' Hs1 Hst) as [[? _]|[Hs' Hl']]; [done|]. split; [lia|done].
Qed.

(** Wherever the threads are, the queue is well formed and no worker is lost. *)
Definition sound (n : nat) (s : pool) : Prop := server_fine s.(srv) ∧ length s.(workers) = n.
Lemma sound_step n s s' : any_step s s' → sound n s → sound n s'.
Proof.
  intros [Hs|Hs] [Hf Hn]; destruct Hs; unfold sound in *; cbn in *; rewrite ?length_insert, ?length_fmap; split; try done;
    try (by eapply take_law); try (by eapply put_law); try (by apply stop_law).
  match goal with E : signalled _ _ |- _ => destruct E end; by rewrite ?length_insert.
Qed.
Lemma sound_reach n q s : server_fine q → rtc any_step (started q n) s → sound n s.
Proof.
  intros Hf Hr. assert (sound n (started q n)) as H0 by (split; [done|apply length_replicate]). revert H0.
  induction Hr as [|s1 s2 s3 Hs _ IH]; [done|]. intros H1. by eapply IH, sound_step.
Qed.
(** A stop that arrives while the main thread does not hold the mutex, no worker is between
    the test of the queue and the wait, and every client that is served or waits answers. *)
Lemma stop_in_time n q s s1 k s' : server_fine q → rtc any_step (started q n) s → s.(sig) = HNone → step s s1 → s1.(sig) = HFlagged →
  main_holds s.(main) = false → WSleepy ∉ s.(workers) → (∀ fd, attended s fd → answers fd) →
  nsteps waiting k s1 s' → (k ≤ 6 * n + 2)%nat ∧ ∃ s2, step s' s2.
Proof.
  intros Hf Hr Hn Hs Hg Hm Hw Ha Hk. destruct (sound_reach n q s Hf Hr) as [Hf1 Hl].
  assert (stopping s1 ∧ workers s1 = workers s) as [Hst E].
  { destruct Hs; cbn in *; try congruence. split; [|done]. destruct (stop_law q0 Hf1) as (? & ? & Ec). split; cbn; auto; [congruence|]. intros fd [?|Hq]; apply Ha; [by left|right]. cbn in Hq. by rewrite Ec in Hq. }
  destruct (stop_returns s1 k s' Hst Hk) as [Hb Hgo]. split; [|done].
  pose proof (total_bound s1.(workers)). unfold left_over in Hb. rewrite Hg in Hb. rewrite E, Hl in *. lia.
Qed.

(** The conditions matter: with a single worker on an empty queue there are schedules at
    whose end the handler waits for ever.  In the first the worker sleeps through the
    broadcast; in the second the main thread holds the mutex its own handler waits on; in
    the third the worker waits for a client that sends nothing. *)
Lemma stop_loses_wakeup q : is_running q = true → take_conn q = Blocked →
  ∃ s, rtc step (started q 1) s ∧ s.(sig) = HJoin ∧ s.(workers) = [WAsleep] ∧ main_holds s.(main) = false ∧ ∀ s', ¬ step s s'.
Proof.
  intros Hr Hb. exists (Pool (stop_running q) [WAsleep] MAccept HJoin []). split_and!; try done.
  - eapply rtc_l; [by apply (w_on q [WTop] MTop HNone [] 0)|]. cbn. eapply rtc_l; [by apply (w_lock q [WLock] MTop HNone [] 0); [|split; [repeat constructor|]]|]. cbn.
    eapply rtc_l; [by apply (w_sleepy q [WHold] MTop HNone [] 0)|]. cbn. eapply rtc_l; [apply m_on; [by left|done]|].
    eapply rtc_l; [by apply h_flag|]. eapply rtc_l; [apply h_broadcast|]. cbn.
    eapply rtc_l; [by apply (w_wait _ [WSleepy] _ _ _ 0)|]. done.
  - intros s' Hs. inversion Hs; subst; try (match goal with E : [WAsleep] !! ?i = _ |- _ => by destruct i as [|[]] end);
      try (match goal with E : _ ∨ _ |- _ => by destruct E end).
    match goal with E : Forall _ _ |- _ => by inversion E end.
Qed.
Lemma stop_deadlocks q fd : is_running q = true →
  ∃ s, rtc step (started q 1) s ∧ s.(sig) = HJoin ∧ s.(main) = MHold fd ∧ ∀ s', ¬ any_step s s'.
Proof.
  intros Hr. exists (Pool (stop_running q) [WLock] (MHold fd) HJoin []). split_and!; try done.
  - eapply rtc_l; [by apply (w_on q [WTop] MTop HNone [] 0)|]. cbn. eapply rtc_l; [apply m_on; [by left|done]|].
    eapply rtc_l; [by apply (m_accept _ _ _ _ fd); left|]. eapply rtc_l; [by apply m_lock; [left|split; [repeat constructor|]]|].
    eapply rtc_l; [by apply h_flag|]. eapply rtc_l; [apply h_broadcast|]. done.
  - intros s' [Hs|Hs]; inversion Hs; subst; try (match goal with E : [WLock] !! ?i = _ |- _ => by destruct i as [|[]] end);
      try (match goal with E : _ ∨ _ |- _ => by destruct E end);
      try (match goal with E : free _ _ |- _ => by destruct E end).
    match goal with E : Forall _ _ |- _ => by inversion E end.
Qed.
Lemma stop_waits_for_client q fd q1 q2 : is_running q = true → put fd q = Ret (true, q1) → take_conn q1 = Ret (Some fd, q2) → 0 ≤ fd → ¬ answers fd →
  ∃ s, rtc step (started q 1) s ∧ s.(sig) = HJoin ∧ s.(workers) = [WServe fd] ∧ main_holds s.(main) = false ∧ ∀ s', ¬ any_step s s'.
Proof.
  intros Hr Hp Ht Hfd Ha. exists (Pool (stop_running q2) [WServe fd] MTop HJoin []). split_and!; try done.
  - eapply rtc_l; [by apply (w_on q [WTop] MTop HNone [] 0)|]. cbn. eapply rtc_l; [apply m_on; [by left|done]|].
    eapply rtc_l; [by apply (m_accept _ _ _ _ fd); left|]. eapply rtc_l; [by apply m_lock; [left|split; [repeat constructor|]]|].
    eapply rtc_l; [apply m_put; [by left|exact Hp|apply sg_none; set_solver]|].
    eapply rtc_l; [by apply (w_lock q1 [WLock] MTop HNone [] 0); [|split; [repeat constructor|]]|]. cbn.
    eapply rtc_l; [by apply (w_take q1 [WHold] MTop HNone [] 0 (Some fd) q2)|]. cbn. rewrite (proj2 (Z.leb_le 0 fd)) by done.
    eapply rtc_l; [by apply h_flag|]. eapply rtc_l; [apply h_broadcast|]. done.
  - intros s' [Hs|Hs]; inversion Hs; subst; try (match goal with E : [WServe fd] !! ?i = _ |- _ => destruct i as [|[]]; cbn in E; try congruence end);
      try (match goal with E : _ ∨ _ |- _ => by destruct E end).
    match goal with E : Forall _ _ |- _ => by inversion E end.
Qed.
End pool.
End ConnPool.
