(* ===== verification/ThreadPool.v ===== *)
(** * linux-file-server: the thread pool (linux-file-server/src/thread_pool.c)

    The task queue is the pointer-linked list of the code, over a heap of task
    nodes; each critical section is one function of the pool, and producers,
    workers and [thread_pool_destroy] interleave in a step relation.  A wait on a
    condition variable is the outcome [Blocked]: the section is tried again. *)

From S2P Require Import Prelude.

Module ThreadPool.

(** ** Data *)

Record task_t := Task { function : Z; arg : Z; next : Z }.   (* address 0 is NULL *)

Record thread_pool_t := Pool {
  heap : gmap Z task_t;          (* the allocated task nodes *)
  task_head : Z;
  task_tail : Z;
  task_count : Z;
  max_tasks : Z;
  thread_count : Z;
  shutdown : bool
}.

(** ** Operations *)

(** The outcomes of the resource requests of [thread_pool_create]: calloc of the
    pool, the mutex and the two condition variables, calloc of the thread array,
    and each pthread_create.  [None] is NULL; on a failed thread the created ones
    are joined first. *)
Definition thread_pool_create (threads tasks : Z) (calloc_ok : bool) (init_ok : list bool)
    (threads_ok : bool) (create_ok : list bool) : option thread_pool_t :=
  if (threads <=? 0) || (tasks <=? 0) then None
  else if negb calloc_ok then None
  else if negb (forallb id init_ok) then None
  else if negb threads_ok then None
  else if negb (forallb id (take (Z.to_nat threads) create_ok)) then None
  else Some (Pool ∅ 0 0 0 tasks threads false).

(** [thread_pool_add_task]; [mem] is the result of malloc (an address not in use,
    or NULL). *)
Definition thread_pool_add_task (p : thread_pool_t) (fn a mem : Z) : outcome (Z * thread_pool_t) :=
  if fn =? 0 then Ret (-1, p) else
  if p.(shutdown) then Ret (-1, p) else
  if p.(max_tasks) <=? p.(task_count) then Blocked else
  if mem =? 0 then Ret (-1, p) else
  let h := <[mem := Task fn a 0]> p.(heap) in
  if negb (p.(task_tail) =? 0) then
    match h !! p.(task_tail) with
    | None => UB
    | Some t =>
        Ret (0, Pool (<[p.(task_tail) := Task t.(function) t.(arg) mem]> h) p.(task_head) mem
                  (p.(task_count) + 1) p.(max_tasks) p.(thread_count) p.(shutdown))
    end
  else Ret (0, Pool h mem mem (p.(task_count) + 1) p.(max_tasks) p.(thread_count) p.(shutdown)).

(** What the locked part of a worker's loop decides. *)
Inductive wdecision := WExit | WTask (task : Z).

Definition worker_section (p : thread_pool_t) : outcome (wdecision * thread_pool_t) :=
  if (p.(task_count) =? 0) && negb p.(shutdown) then Blocked else
  if p.(shutdown) && (p.(task_count) =? 0) then Ret (WExit, p) else
  let task := p.(task_head) in
  if task =? 0 then Ret (WTask 0, p) else
  match p.(heap) !! task with
  | None => UB
  | Some t =>
      Ret (WTask task,
           Pool p.(heap) t.(next) (if t.(next) =? 0 then 0 else p.(task_tail)) (p.(task_count) - 1)
             p.(max_tasks) p.(thread_count) p.(shutdown))
  end.

(** [task->function(task->arg); free(task)]: the call made. *)
Definition worker_run (p : thread_pool_t) (task : Z) : outcome (option (Z * Z) * thread_pool_t) :=
  if task =? 0 then Ret (None, p) else
  match p.(heap) !! task with
  | None => UB
  | Some t => Ret (Some (t.(function), t.(arg)),
                   Pool (delete task p.(heap)) p.(task_head) p.(task_tail) p.(task_count)
                     p.(max_tasks) p.(thread_count) p.(shutdown))
  end.

(** The locked part of [thread_pool_destroy]. *)
Definition set_shutdown (p : thread_pool_t) : thread_pool_t :=
  Pool p.(heap) p.(task_head) p.(task_tail) p.(task_count) p.(max_tasks) p.(thread_count) true.

(** The clean-up loop after the joins frees the nodes still queued. *)
Fixpoint free_tasks (fuel : nat) (h : gmap Z task_t) (task : Z) : outcome (gmap Z task_t) :=
  if task =? 0 then Ret h else
  match fuel with
  | O => Fuel
  | S fuel' =>
      match h !! task with
      | None => UB
      | Some t => free_tasks fuel' (delete task h) t.(next)
      end
  end.

Definition thread_pool_get_task_count (p : option thread_pool_t) : Z :=
  match p with None => 0 | Some p => p.(task_count) end.
Definition thread_pool_get_thread_count (p : option thread_pool_t) : Z :=
  match p with None => 0 | Some p => p.(thread_count) end.

(** ** Interleaving *)

Inductive wpc := WIdle | WRunning (task : Z) | WExited.

Record pstate := PState {
  pool : thread_pool_t;
  workers : list wpc;
  submitted : list (Z * Z);     (* calls accepted by add_task, in order *)
  taken : list (Z * Z);         (* calls removed from the queue, in order *)
  executed : list (Z * Z)       (* calls made by the workers *)
}.

Definition call_of (h : gmap Z task_t) (a : Z) : option (Z * Z) :=
  (λ t, (t.(function), t.(arg))) <$> h !! a.

Inductive pstep : pstate → pstate → Prop :=
  | ps_add p ws s t x fn a mem p' :
      p.(heap) !! mem = None →
      thread_pool_add_task p fn a mem = Ret (0, p') →
      pstep (PState p ws s t x) (PState p' ws (s ++ [(fn, a)]) t x)
  | ps_add_fail p ws s t x fn a mem p' :
      thread_pool_add_task p fn a mem = Ret (-1, p') →
      pstep (PState p ws s t x) (PState p' ws s t x)
  | ps_take p ws s t x i task p' :
      ws !! i = Some WIdle → worker_section p = Ret (WTask task, p') →
      pstep (PState p ws s t x)
        (PState p' (<[i := WRunning task]> ws) s (t ++ option_list (call_of p.(heap) task)) x)
  | ps_run p ws s t x i task c p' :
      ws !! i = Some (WRunning task) → worker_run p task = Ret (c, p') →
      pstep (PState p ws s t x) (PState p' (<[i := WIdle]> ws) s t (x ++ option_list c))
  | ps_exit p ws s t x i p' :
      ws !! i = Some WIdle → worker_section p = Ret (WExit, p') →
      pstep (PState p ws s t x) (PState p' (<[i := WExited]> ws) s t x)
  | ps_destroy p ws s t x :
      pstep (PState p ws s t x) (PState (set_shutdown p) ws s t x).

Inductive preach (s : pstate) : pstate → Prop :=
  | pr_refl : preach s s
  | pr_step s1 s2 : preach s s1 → pstep s1 s2 → preach s s2.

(** ** The queue invariant *)

(** The nodes of the list from [p] on. *)
Fixpoint chain (h : gmap Z task_t) (p : Z) (l : list Z) : Prop :=
  match l with
  | [] => p = 0
  | a :: l' => p = a ∧ a ≠ 0 ∧ ∃ t, h !! a = Some t ∧ chain h t.(next) l'
  end.

Lemma chain_ext h h' l : ∀ p, (∀ a, a ∈ l → h' !! a = h !! a) → chain h p l → chain h' p l.
Proof.
  induction l as [|a l IH]; intros p He; [done|]. intros (-> & Ha & t & Ht & Hc).
  split_and!; [done|done|]. exists t. rewrite He by set_solver. split; [done|].
  apply IH; [set_solver|done].
Qed.
Lemma chain_alloc h l p a : chain h p l → a ∈ l → is_Some (h !! a) ∧ a ≠ 0.
Proof.
  revert p. induction l as [|b l IH]; intros p; [set_solver|]. intros (-> & Hb & t & Ht & Hc).
  intros [->|Hin]%elem_of_cons; [split; [by eexists|done]|]. by apply (IH t.(next)).
Qed.
(** Linking a new node behind the last one. *)
Lemma chain_snoc h l b p t fn a mem :
  chain h p (l ++ [b]) → NoDup (l ++ [b]) → h !! b = Some t → h !! mem = None → mem ≠ 0 →
  chain (<[b := Task t.(function) t.(arg) mem]> (<[mem := Task fn a 0]> h)) p ((l ++ [b]) ++ [mem]).
Proof.
  intros Hc Hnd Hb Hm H0. assert (mem ≠ b) as Hmb by congruence.
  revert p Hc Hnd. induction l as [|x l IH]; intros p; simpl.
  - intros (-> & Hb0 & _) _. split_and!; [done|done|].
    eexists. rewrite lookup_insert_eq. split; [done|]. simpl. split_and!; [done|done|].
    eexists. rewrite lookup_insert_ne, lookup_insert_eq by done. by split.
  - intros (-> & Hx & tx & Htx & Hc) [Hnx Hnd]%NoDup_cons. split_and!; [done|done|].
    exists tx. rewrite !lookup_insert_ne by (set_solver || congruence). split; [done|].
    by apply IH.
Qed.

Definition running_tasks (ws : list wpc) : list Z :=
  omap (λ w, match w with WRunning a => if a =? 0 then None else Some a | _ => None end) ws.

Lemma running_insert ws i w w' : ws !! i = Some w →
  running_tasks ws ≡ₚ running_tasks [w] ++ running_tasks (take i ws ++ drop (S i) ws) ∧
  running_tasks (<[i := w']> ws) ≡ₚ running_tasks [w'] ++ running_tasks (take i ws ++ drop (S i) ws).
Proof.
  intros Hw. unfold running_tasks. split.
  - rewrite <- (take_drop_middle ws i w Hw) at 1.
    change (w :: drop (S i) ws) with ([w] ++ drop (S i) ws). rewrite !omap_app. solve_Permutation.
  - rewrite insert_take_drop by (by eapply lookup_lt_Some).
    change (w' :: drop (S i) ws) with ([w'] ++ drop (S i) ws). rewrite !omap_app. solve_Permutation.
Qed.

Record pinv_at (st : pstate) (l : list Z) : Prop := {
  pi_chain : chain st.(pool).(heap) st.(pool).(task_head) l;
  pi_tail : st.(pool).(task_tail) = default 0 (last l);
  pi_count : st.(pool).(task_count) = Z.of_nat (length l);
  pi_max : Z.of_nat (length l) ≤ st.(pool).(max_tasks);
  pi_nodup : NoDup (l ++ running_tasks st.(workers));
  pi_run : ∀ a, a ∈ running_tasks st.(workers) → is_Some (st.(pool).(heap) !! a);
  pi_run0 : WRunning 0 ∉ st.(workers);
  pi_taken : st.(taken) ++ omap (call_of st.(pool).(heap)) l = st.(submitted);
  pi_exec : st.(executed) ++ omap (call_of st.(pool).(heap)) (running_tasks st.(workers)) ≡ₚ st.(taken);
  pi_exit : WExited ∈ st.(workers) → st.(pool).(shutdown) = true ∧ l = []
}.
Definition pinv (st : pstate) : Prop := ∃ l, pinv_at st l.

Lemma chain_zero h l : chain h 0 l → l = [].
Proof. destruct l; [done|]. by intros (<- & ? & _). Qed.

(** One accepted task. *)
Lemma add_inv p ws s t x fn a mem p' l :
  pinv_at (PState p ws s t x) l → p.(heap) !! mem = None →
  thread_pool_add_task p fn a mem = Ret (0, p') →
  pinv_at (PState p' ws (s ++ [(fn, a)]) t x) (l ++ [mem]).
Proof.
  intros [Hc Ht Hn Hm Hnd Hr Hr0 Htk Hex Hxt] Hf. simpl in *. unfold thread_pool_add_task.
  destruct (fn =? 0); [done|]. destruct (shutdown p) eqn:Es; [done|].
  destruct (Z.leb_spec (max_tasks p) (task_count p)); [done|].
  destruct (Z.eqb_spec mem 0) as [|Hm0]; [done|].
  assert (Hml : mem ∉ l ++ running_tasks ws).
  { intros [Hin|Hin]%elem_of_app.
    - destruct (chain_alloc _ _ _ _ Hc Hin) as [[? ?] _]. congruence.
    - destruct (Hr _ Hin). congruence. }
  assert (Hnx : WExited ∉ ws) by (intros Hx; destruct (Hxt Hx); congruence).
  assert (Hfin : ∀ h' hd, (∀ y, is_Some (heap p !! y) → call_of h' y = call_of (heap p) y ∧ is_Some (h' !! y)) →
    call_of h' mem = Some (fn, a) → chain h' hd (l ++ [mem]) →
    pinv_at (PState (Pool h' hd mem (task_count p + 1) (max_tasks p) (thread_count p) (shutdown p))
               ws (s ++ [(fn, a)]) t x) (l ++ [mem])).
  { intros h' hd Hcall Hmem Hch. split; simpl.
    - done.
    - by rewrite last_snoc.
    - rewrite length_app. simpl. lia.
    - rewrite length_app. simpl. lia.
    - assert (Hp : (l ++ [mem]) ++ running_tasks ws ≡ₚ mem :: l ++ running_tasks ws) by solve_Permutation.
      rewrite Hp. by constructor.
    - intros y Hy. by apply Hcall, Hr.
    - done.
    - rewrite omap_app, (assoc_L (++)). f_equal; [|by simpl; rewrite Hmem]. rewrite <- Htk. f_equal.
      apply omap_ext_in. intros y Hy. apply Hcall, (chain_alloc _ _ _ _ Hc Hy).
    - rewrite (omap_ext_in (call_of h') (call_of (heap p))); [done|]. intros y Hy. by apply Hcall, Hr.
    - done. }
  rewrite Es in Hfin. rewrite Ht. induction l as [|b l0 _] using rev_ind.
  - simpl. intros [= <-]. simpl in Hc. apply Hfin.
    + intros y [ty Hy]. unfold call_of. rewrite lookup_insert_ne by congruence. split; [done|by rewrite Hy].
    + unfold call_of. by rewrite lookup_insert_eq.
    + simpl. split_and!; [done|done|]. eexists. by rewrite lookup_insert_eq.
  - rewrite last_snoc. cbn [from_option id]. destruct (chain_alloc _ _ _ b Hc) as [[tb Hb] Hb0]; [set_solver|].
    rewrite (proj2 (Z.eqb_neq b 0)) by done. cbn [negb].
    rewrite lookup_insert_ne, Hb by congruence. intros [= <-]. apply Hfin.
    + intros y [ty Hy]. unfold call_of. destruct (decide (y = b)) as [->|Hyb].
      * rewrite lookup_insert_eq. assert (ty = tb) as -> by congruence. rewrite Hb. by split.
      * rewrite !lookup_insert_ne by congruence. split; [done|by rewrite Hy].
    + unfold call_of. by rewrite lookup_insert_ne, lookup_insert_eq by congruence.
    + apply chain_snoc; try done. apply NoDup_app in Hnd as (Hnd & _ & _). done.
Qed.

Lemma elem_insert {A} (x y : A) (l : list A) (i : nat) : x ∈ <[i := y]> l → x = y ∨ x ∈ l.
Proof.
  intros [j Hj]%list_elem_of_lookup. destruct (decide (i = j)) as [->|Hne].
  - left. destruct (decide (j < length l)%nat).
    + rewrite list_lookup_insert_eq in Hj by done. congruence.
    + rewrite list_insert_ge in Hj by lia. apply lookup_lt_Some in Hj. lia.
  - right. rewrite list_lookup_insert_ne in Hj by done. by eapply list_elem_of_lookup_2.
Qed.

Lemma omap_perm {A B} (f : A → option B) l l' : l ≡ₚ l' → omap f l ≡ₚ omap f l'.
Proof.
  induction 1 as [|x l l' _ IH|x y l|l1 l2 l3 _ IH1 _ IH2]; cbn [omap list_omap].
  - done.
  - destruct (f x); [by constructor|done].
  - destruct (f x), (f y); try done. by constructor.
  - by etrans.
Qed.

Lemma take_inv p ws s t x i task p' l :
  pinv_at (PState p ws s t x) l → ws !! i = Some WIdle →
  worker_section p = Ret (WTask task, p') →
  ∃ l', l = task :: l' ∧
    pinv_at (PState p' (<[i := WRunning task]> ws) s (t ++ option_list (call_of p.(heap) task)) x) l'.
Proof.
  intros [Hc Ht Hn Hm Hnd Hr Hr0 Htk Hex Hxt] Hi. simpl in *. unfold worker_section. rewrite Hn.
  destruct l as [|a l'].
  { simpl. by destruct (shutdown p). }
  rewrite (proj2 (Z.eqb_neq _ 0)), andb_false_r by (simpl; lia). cbn [andb].
  destruct Hc as (Hh & Ha & ta & Hta & Hc). rewrite Hh, (proj2 (Z.eqb_neq a 0)), Hta by done.
  intros [= <- <-]. exists l'. split; [done|].
  destruct (running_insert ws i WIdle (WRunning a) Hi) as [HR HR'].
  set (R := running_tasks (take i ws ++ drop (S i) ws)) in *.
  assert (E1 : running_tasks [WRunning a] = [a]).
  { unfold running_tasks. simpl. by rewrite (proj2 (Z.eqb_neq a 0)). }
  rewrite E1 in HR'. change (running_tasks [WIdle]) with (@nil Z) in HR. simpl in HR.
  assert (Hca : call_of (heap p) a = Some (function ta, arg ta)) by (unfold call_of; by rewrite Hta).
  rewrite Hca. split; simpl.
  - done.
  - destruct l' as [|b l']; simpl in Hc |- *; [by rewrite Hc|].
    destruct Hc as (-> & Hb & _). by rewrite (proj2 (Z.eqb_neq b 0)).
  - lia.
  - simpl in Hm. lia.
  - rewrite HR'. assert (Hp : l' ++ [a] ++ R ≡ₚ (a :: l') ++ running_tasks ws)
      by (rewrite HR; solve_Permutation). by rewrite Hp.
  - intros y Hy. rewrite HR' in Hy. apply elem_of_cons in Hy as [->|Hy]; [by rewrite Hta|].
    apply Hr. by rewrite HR.
  - intros [?|?]%elem_insert; [congruence|done].
  - rewrite <- Htk, <- (assoc_L (++)). simpl. by rewrite Hca.
  - rewrite (omap_perm _ _ _ HR'). cbn [app omap list_omap]. rewrite Hca, <- Hex.
    rewrite (omap_perm _ _ _ HR). solve_Permutation.
  - intros [?|Hx]%elem_insert; [done|]. destruct (Hxt Hx). done.
Qed.

Lemma run_inv p ws s t x i task c p' l :
  pinv_at (PState p ws s t x) l → ws !! i = Some (WRunning task) →
  worker_run p task = Ret (c, p') →
  pinv_at (PState p' (<[i := WIdle]> ws) s t (x ++ option_list c)) l.
Proof.
  intros [Hc Ht Hn Hm Hnd Hr Hr0 Htk Hex Hxt] Hi. simpl in *. unfold worker_run.
  destruct (Z.eqb_spec task 0) as [->|H0].
  { destruct Hr0. by eapply list_elem_of_lookup_2. }
  destruct (running_insert ws i (WRunning task) WIdle Hi) as [HR HR'].
  set (R := running_tasks (take i ws ++ drop (S i) ws)) in *.
  assert (E1 : running_tasks [WRunning task] = [task]).
  { unfold running_tasks. simpl. by rewrite (proj2 (Z.eqb_neq task 0)). }
  rewrite E1 in HR. change (running_tasks [WIdle]) with (@nil Z) in HR'. simpl in HR'.
  rewrite HR in Hnd. assert (Hp : l ++ [task] ++ R ≡ₚ task :: l ++ R) by solve_Permutation.
  rewrite Hp in Hnd. apply NoDup_cons in Hnd as [Hni Hnd].
  assert (Hne : ∀ y, y ∈ l ++ R → delete task (heap p) !! y = heap p !! y).
  { intros y Hy. apply lookup_delete_ne. intros ->. done. }
  destruct (heap p !! task) as [tt0|] eqn:Htt; [|done]. intros [= <- <-]. split; simpl; try done.
  - eapply chain_ext; [|exact Hc]. intros a Ha. apply Hne. set_solver.
  - by rewrite HR'.
  - intros y Hy. rewrite HR' in Hy. rewrite Hne by set_solver. apply Hr. rewrite HR. set_solver.
  - intros [?|?]%elem_insert; [congruence|done].
  - rewrite <- Htk. f_equal. apply omap_ext_in. intros y Hy. unfold call_of. rewrite Hne by set_solver. done.
  - rewrite (omap_perm _ _ _ HR').
    rewrite (omap_ext_in (call_of (delete task (heap p))) (call_of (heap p)) R)
      by (intros y Hy; unfold call_of; rewrite Hne by set_solver; done).
    rewrite <- Hex, (omap_perm _ _ _ HR). cbn [app omap list_omap]. unfold call_of at 2. rewrite Htt.
    simpl. solve_Permutation.
  - intros [?|Hx]%elem_insert; [congruence|]. by apply Hxt.
Qed.

Lemma exit_inv p ws s t x i p' l :
  pinv_at (PState p ws s t x) l → ws !! i = Some WIdle →
  worker_section p = Ret (WExit, p') →
  p' = p ∧ pinv_at (PState p (<[i := WExited]> ws) s t x) l.
Proof.
  intros [Hc Ht Hn Hm Hnd Hr Hr0 Htk Hex Hxt] Hi. simpl in *. unfold worker_section. rewrite Hn.
  destruct (Z.eqb_spec (Z.of_nat (length l)) 0) as [Hl|Hl]; rewrite ?andb_false_r; cbn [andb].
  2: { case_match; [done|]. by case_match. }
  destruct (shutdown p) eqn:Es; [|done]. intros [= <-]. split; [done|].
  destruct (running_insert ws i WIdle WExited Hi) as [HR HR'].
  change (running_tasks [WIdle]) with (@nil Z) in HR.
  change (running_tasks [WExited]) with (@nil Z) in HR'. simpl in HR, HR'. rewrite <- HR in HR'.
  split; simpl; try done.
  - by rewrite HR'.
  - intros y Hy. apply Hr. by rewrite <- HR'.
  - intros [?|?]%elem_insert; [congruence|done].
  - by rewrite (omap_perm _ _ _ HR').
  - intros _. split; [done|]. destruct l; [done|]. simpl in Hl. lia.
Qed.

Lemma add_fail_same p fn a mem p' : thread_pool_add_task p fn a mem = Ret (-1, p') → p' = p.
Proof. unfold thread_pool_add_task. repeat case_match; congruence. Qed.

Lemma pstep_inv st st' : pstep st st' → pinv st → pinv st'.
Proof.
  intros Hs [l Hl]. destruct Hs.
  - eexists. by eapply add_inv.
  - exists l. by rewrite (add_fail_same _ _ _ _ _ H).
  - destruct (take_inv _ _ _ _ _ _ _ _ _ Hl H H0) as (l' & _ & Hl'). by exists l'.
  - exists l. by eapply run_inv.
  - exists l. destruct (exit_inv _ _ _ _ _ _ _ _ Hl H H0) as [-> Hl']. done.
  - exists l. destruct Hl as [? ? ? ? ? ? ? ? ? Hx]. split; try done. simpl in *.
    intros Hin. destruct (Hx Hin). done.
Qed.

Lemma start_inv n m init create p0 :
  thread_pool_create n m true init true create = Some p0 →
  0 < n ∧ pinv (PState p0 (replicate (Z.to_nat n) WIdle) [] [] []).
Proof.
  unfold thread_pool_create. intros H.
  destruct (Z.leb_spec n 0); [done|]. destruct (Z.leb_spec m 0); [done|]. simpl in H.
  repeat case_match; try done. injection H as <-. split; [done|]. exists [].
  assert (Hr : running_tasks (replicate (Z.to_nat n) WIdle) = []).
  { clear. induction (Z.to_nat n) as [|k IH]; [done|exact IH]. }
  assert (Hin : ∀ w, w ∈ replicate (Z.to_nat n) WIdle → w = WIdle)
    by (intros w; apply elem_of_replicate_inv).
  split; simpl; try done; rewrite ?Hr; try done; try lia.
  - constructor.
  - set_solver.
  - intros ?%Hin. done.
  - intros ?%Hin. done.
Qed.

Lemma reach_inv st0 st : preach st0 st → pinv st0 → pinv st.
Proof. induction 1 as [|s1 s2 _ IH Hs]; [done|]. intros H. eapply pstep_inv; [exact Hs|by apply IH]. Qed.

(** ** Properties *)

(** C7. The task queue: under every interleaving of producers, workers and
    shutdown the pool holds at most [max_tasks] tasks, hands them to the workers
    in the order they were accepted, each exactly once, and neither a worker nor
    a producer ever follows a dangling or NULL task pointer. *)
Theorem thread_pool_fifo n m init create p0 st :
  thread_pool_create n m true init true create = Some p0 →
  preach (PState p0 (replicate (Z.to_nat n) WIdle) [] [] []) st →
  (∃ waiting, st.(taken) ++ waiting = st.(submitted) ∧
     Z.of_nat (length waiting) = st.(pool).(task_count)) ∧
  st.(pool).(task_count) ≤ st.(pool).(max_tasks) ∧
  worker_section st.(pool) ≠ UB ∧
  (∀ i task, st.(workers) !! i = Some (WRunning task) → worker_run st.(pool) task ≠ UB) ∧
  (∀ fn a mem, st.(pool).(heap) !! mem = None → thread_pool_add_task st.(pool) fn a mem ≠ UB).
Proof.
  intros Hc Hr. destruct (start_inv _ _ _ _ _ Hc) as [_ H0].
  destruct (reach_inv _ _ Hr H0) as [l [Hch Ht Hn Hm Hnd Hrun Hr0 Htk Hex Hxt]].
  split_and!.
  - exists (omap (call_of (heap (pool st))) l). split; [done|]. rewrite Hn. f_equal.
    clear -Hch. revert Hch. generalize (task_head (pool st)).
    induction l as [|a l IH]; intros p; [done|]. intros (_ & _ & t & Ht & Hc).
    cbn [omap list_omap]. unfold call_of at 1. rewrite Ht. simpl. f_equal. by apply (IH (next t)).
  - lia.
  - unfold worker_section. case_match; [done|]. case_match; [done|].
    destruct (Z.eqb_spec (task_head (pool st)) 0) as [|Hnz]; [done|].
    destruct l as [|a l]; [done|]. destruct Hch as (-> & _ & t & -> & _). done.
  - intros i task Hi. unfold worker_run. destruct (Z.eqb_spec task 0) as [|Hz]; [done|].
    destruct (Hrun task) as [t ->]; [|done]. apply list_elem_of_omap.
    exists (WRunning task). split; [by eapply list_elem_of_lookup_2|]. by rewrite (proj2 (Z.eqb_neq _ _)).
  - intros fn a mem Hf. unfold thread_pool_add_task. repeat (case_match; [done|]).
    destruct (Z.eqb_spec (task_tail (pool st)) 0) as [|Hz]; [done|]. cbn [negb].
    rewrite Ht in Hz |- *. destruct (last l) as [b|] eqn:El; [|done]. cbn [from_option id].
    destruct (chain_alloc _ _ _ b Hch) as [[tb Hb] _].
    { apply last_Some in El as [l' ->]. set_solver. }
    by rewrite lookup_insert_ne, Hb by congruence.
Qed.

(** C8. Graceful shutdown: when all workers have exited, every task that was
    accepted has been executed exactly once and none is left in the queue. *)
Theorem thread_pool_drains n m init create p0 st :
  thread_pool_create n m true init true create = Some p0 →
  preach (PState p0 (replicate (Z.to_nat n) WIdle) [] [] []) st →
  st.(workers) = replicate (Z.to_nat n) WExited →
  st.(executed) ≡ₚ st.(submitted) ∧ st.(pool).(task_count) = 0.
Proof.
  intros Hc Hr Hw. destruct (start_inv _ _ _ _ _ Hc) as [Hn0 H0].
  destruct (reach_inv _ _ Hr H0) as [l [Hch Ht Hn Hm Hnd Hrun Hr0 Htk Hex Hxt]].
  rewrite Hw in *. destruct Hxt as [_ ->].
  { apply list_elem_of_lookup_2 with 0%nat. apply lookup_replicate. split; [done|lia]. }
  assert (Hnil : running_tasks (replicate (Z.to_nat n) WExited) = []).
  { clear. induction (Z.to_nat n) as [|k IH]; [done|]. exact IH. }
  rewrite Hnil in Hex. simpl in *. rewrite app_nil_r in *. by rewrite Hex, Htk.
Qed.

(** ** Witnesses *)

Definition wit_pool : thread_pool_t := Pool ∅ 0 0 0 2 1 false.
Definition wit_pool1 : thread_pool_t := Pool {[ 64 := Task 5 9 0 ]} 64 64 1 2 1 false.

Lemma wit_add : preach (PState wit_pool [WIdle] [] [] []) (PState wit_pool1 [WIdle] [(5, 9)] [] []).
Proof. eapply pr_step; [constructor|]. by apply (ps_add wit_pool [WIdle] [] [] [] 5 9 64). Qed.

Lemma thread_pool_fifo_witness :
  ∃ st, preach (PState wit_pool (replicate (Z.to_nat 1) WIdle) [] [] []) st ∧
    st.(submitted) = [(5, 9)] ∧
    ∃ waiting, st.(taken) ++ waiting = st.(submitted) ∧
      Z.of_nat (length waiting) = st.(pool).(task_count).
Proof.
  exists (PState wit_pool1 [WIdle] [(5, 9)] [] []). split; [exact wit_add|]. split; [reflexivity|].
  apply (thread_pool_fifo 1 2 [true; true; true] [true] wit_pool
    (PState wit_pool1 [WIdle] [(5, 9)] [] [])); [reflexivity|exact wit_add].
Defined.

Lemma wit_drained : preach (PState wit_pool [WIdle] [] [] [])
  (PState (set_shutdown (Pool ∅ 0 0 0 2 1 false)) [WExited] [(5, 9)] [(5, 9)] [(5, 9)]).
Proof.
  eapply pr_step; [eapply pr_step; [eapply pr_step; [eapply pr_step; [exact wit_add|]|]|]|].
  - by apply (ps_take wit_pool1 [WIdle] [(5, 9)] [] [] 0 64 (Pool {[ 64 := Task 5 9 0 ]} 0 0 0 2 1 false)).
  - by apply (ps_run (Pool {[ 64 := Task 5 9 0 ]} 0 0 0 2 1 false) [WRunning 64] [(5, 9)] [(5, 9)] []
                0 64 (Some (5, 9)) (Pool ∅ 0 0 0 2 1 false)).
  - apply ps_destroy.
  - by apply (ps_exit _ [WIdle] _ _ _ 0).
Qed.

Lemma thread_pool_drains_witness :
  ∃ st, preach (PState wit_pool (replicate (Z.to_nat 1) WIdle) [] [] []) st ∧
    st.(workers) = [WExited] ∧ st.(executed) ≡ₚ [(5, 9)].
Proof.
  eexists. split; [exact wit_drained|]. split; [reflexivity|].
  apply (thread_pool_drains 1 2 [true; true; true] [true] wit_pool _ eq_refl wit_drained eq_refl).
Defined.

End ThreadPool.
