(* ===== verification/Auth.v ===== *)
(** * linux-file-server: users, passwords and session tokens (linux-file-server/src/auth.c)

    SHA-256 is OpenSSL's and a parameter; the random bytes read from
    /dev/urandom (or the rand() fallback) are an argument of the functions that
    use them.  The token table is the flat array of 64 rows of 64 bytes it is in
    memory, since tokens fill their rows completely. *)

From S2P Require Import Prelude.

Module Auth.

Definition AUTH_MAX_USERS : Z := 64.
Definition AUTH_TOKEN_LEN : Z := 64.
Definition AUTH_SALT_LEN : Z := 16.
Definition SHA256_DIGEST_LENGTH : nat := 32.

Record auth_user_t := User {
  username : list byte; password_hash : list byte; salt : list byte; permissions : Z
}.
Record auth_context_t := Ctx {
  users : list auth_user_t;          (* the first user_count entries *)
  token_store : list byte            (* 64 * 64 bytes, the end of the structure *)
}.

Definition hex_of (bs : list byte) : list byte := mjoin (hex2 <$> bs).

Definition digest_to_hex (digest : list byte) (hex_size : Z) : list byte :=
  let count := if hex_size <? 32 * 2 + 1 then (hex_size - 1) `div` 2 else 32 in
  hex_of (take (Z.to_nat count) digest).

Section auth.
Context (sha256 : list byte → option (list byte)).   (* None: an EVP call failed *)

Definition auth_hash_password (password salt : list byte) (hex_size : Z) : option (list byte) :=
  if hex_size <? 32 * 2 + 1 then None else
  d ← sha256 (salt ++ password); Some (digest_to_hex d hex_size).

(** The salt written for [rnd] random bytes. *)
Definition auth_generate_salt (len : Z) (rnd : list byte) : list byte :=
  let len := if AUTH_SALT_LEN <? len then AUTH_SALT_LEN else len in
  hex_of (take (Z.to_nat len) rnd).

(** The bytes written from [token_out] on, the final NUL at index [len] included. *)
Definition auth_generate_token (len : Z) (rnd : list byte) : list byte :=
  let len := if AUTH_TOKEN_LEN <? len then AUTH_TOKEN_LEN else len in
  let byte_count := (len + 1) `div` 2 in
  take (Z.to_nat len) (hex_of (take (Z.to_nat byte_count) rnd)) ++ [x00].

(** ** Loading the user file *)

Definition is_eol (c : byte) : bool := bool_decide (c = x0a) || bool_decide (c = x0d).
Definition trim_eol (l : list byte) : list byte :=
  reverse ((span_n (length l) is_eol (reverse l)).2).
(** [strtok_r(.., ":", ..)]: the next non-empty field. *)
Definition not_colon (c : byte) : bool := negb (bool_decide (c = x3a)).
Definition next_field (s : list byte) : option (list byte * list byte) :=
  let s := (span_n (length s) (λ c, negb (not_colon c)) s).2 in
  match span_n (length s) not_colon s with
  | ([], _) => None
  | (f, r) => Some (f, drop 1 r)
  end.
Definition parse_user (p : list byte) : option auth_user_t :=
  '(u, r) ← next_field p; '(h, r) ← next_field r; '(s, r) ← next_field r; '(q, _) ← next_field r;
  Some (User (take 31 u) (take 127 h) (take 16 s) (atoi q)).

Fixpoint load_users (fuel : nat) (file : list byte) (us : list auth_user_t)
    : outcome (list auth_user_t) :=
  match file with
  | [] => Ret us
  | _ =>
    match fuel with
    | O => Fuel
    | S fuel' =>
      let (raw, rest) := fgets_line (Z.to_nat 511) file in
      let p := skip_space (trim_eol (cstr raw)) in
      match p with
      | [] => load_users fuel' rest us
      | c :: _ =>
          if decide (c = x23) then load_users fuel' rest us else
          if AUTH_MAX_USERS <=? Z.of_nat (length us) then Ret us else
          match parse_user p with
          | Some u => load_users fuel' rest (us ++ [u])
          | None => load_users fuel' rest us
          end
      end
    end
  end.
(** [auth_init]; the file is [None] when it cannot be opened. *)
Definition auth_init (file : option (list byte)) : outcome (Z * auth_context_t) :=
  match file with
  | None => Ret (-1, Ctx [] (replicate (Z.to_nat 4096) x00))
  | Some f =>
      match load_users (length f) f [] with
      | Ret us => Ret (0, Ctx us (replicate (Z.to_nat 4096) x00))
      | UB => UB | Blocked => Blocked | Fuel => Fuel
      end
  end.

(** ** Sessions *)

(** Store [bs] at offset [off] of the token table. *)
Definition store_at (mem : list byte) (off : nat) (bs : list byte) : list byte :=
  take off mem ++ bs ++ drop (off + length bs) mem.

Fixpoint find_user (us : list auth_user_t) (name : list byte) (i : nat) : option (nat * auth_user_t) :=
  match us with
  | [] => None
  | u :: us' => if decide (u.(username) = name) then Some (i, u) else find_user us' name (S i)
  end.

(** [auth_login]: the result code, the token copied out and the context. *)
Definition auth_login (ctx : auth_context_t) (name password rnd : list byte)
    : outcome (Z * option (list byte) * auth_context_t) :=
  match find_user ctx.(users) name 0 with
  | None => Ret (-1, None, ctx)
  | Some (i, u) =>
      match auth_hash_password password u.(salt) 128 with
      | None => Ret (-1, None, ctx)
      | Some h =>
          if decide (h = u.(password_hash)) then
            let bytes := auth_generate_token AUTH_TOKEN_LEN rnd in
            if (length ctx.(token_store) <? i * 64 + length bytes)%nat then UB else
            let mem := store_at ctx.(token_store) (i * 64) bytes in
            Ret (0, Some (take 64 (drop (i * 64) mem)), Ctx ctx.(users) mem)
          else Ret (-1, None, ctx)
      end
  end.

(** [strcmp(mem, s) == 0] on memory that ends with the structure. *)
Fixpoint strcmp_eq (mem s : list byte) : outcome bool :=
  match mem with
  | [] => UB
  | c :: mem' =>
      match s with
      | [] => Ret (bool_decide (c = x00))
      | d :: s' => if decide (c = d) then strcmp_eq mem' s' else Ret false
      end
  end.

(** The permissions of the first user whose row compares equal. *)
Fixpoint verify_loop (us : list auth_user_t) (mem : list byte) (token : list byte) : outcome (option Z) :=
  match us with
  | [] => Ret None
  | u :: us' =>
      match strcmp_eq mem token with
      | Ret true => Ret (Some u.(permissions))
      | Ret false => verify_loop us' (drop 64 mem) token
      | UB => UB | Blocked => Blocked | Fuel => Fuel
      end
  end.
(** [auth_verify]; [None] is -1. *)
Definition auth_verify (ctx : auth_context_t) (token : list byte) : outcome (option Z) :=
  verify_loop ctx.(users) ctx.(token_store) token.

(** ** Lemmas *)

Lemma hex2_two b : length (hex2 b) = 2%nat ∧ nonul (hex2 b).
Proof. destruct b; (split; [done|repeat constructor; done]). Qed.
Lemma hex_of_length bs : length (hex_of bs) = (2 * length bs)%nat.
Proof.
  unfold hex_of. induction bs as [|b bs IH]; [done|].
  change (mjoin (hex2 <$> b :: bs)) with (hex2 b ++ mjoin (hex2 <$> bs)).
  rewrite length_app, (proj1 (hex2_two b)). simpl length. rewrite IH. lia.
Qed.
Lemma hex_of_nonul bs : nonul (hex_of bs).
Proof.
  unfold hex_of. induction bs as [|b bs IH]; [constructor|].
  change (mjoin (hex2 <$> b :: bs)) with (hex2 b ++ mjoin (hex2 <$> bs)).
  apply nonul_app. split; [apply hex2_two|exact IH].
Qed.

(** The 64 characters of a session token. *)
Definition token_of (rnd : list byte) : list byte := hex_of (take 32 rnd).
Lemma token_of_length rnd : (32 ≤ length rnd)%nat → length (token_of rnd) = 64%nat.
Proof. intros. unfold token_of. rewrite hex_of_length, length_take. lia. Qed.
Lemma generate_token_eq rnd : (32 ≤ length rnd)%nat →
  auth_generate_token AUTH_TOKEN_LEN rnd = token_of rnd ++ [x00].
Proof.
  intros Hr. unfold auth_generate_token. change (Z.to_nat (_ `div` 2)) with 32%nat. fold (token_of rnd).
  rewrite take_ge; [done|]. rewrite token_of_length by done. done.
Qed.

Lemma strcmp_eq_nul s rest : nonul s → strcmp_eq (s ++ x00 :: rest) s = Ret true.
Proof. induction 1 as [|c s Hc _ IH]; simpl; [done|]. by rewrite decide_True. Qed.
(** A row that goes on after the token does not compare equal to it. *)
Lemma strcmp_eq_longer s c rest : c ≠ x00 → strcmp_eq (s ++ c :: rest) s = Ret false.
Proof.
  intros Hc. induction s as [|d s IH]; simpl; [by rewrite bool_decide_eq_false_2|]. by rewrite decide_True.
Qed.
Lemma strcmp_eq_empty_row s rest : s ≠ [] → nonul s → strcmp_eq (x00 :: rest) s = Ret false.
Proof.
  intros Hs Hn. destruct s as [|c s]; [done|]. apply Forall_cons in Hn as [Hc _]. simpl.
  rewrite decide_False; [done|]. by intros <-.
Qed.

Lemma find_user_lookup us name : ∀ k i u, find_user us name k = Some (i, u) →
  ∃ j, i = (k + j)%nat ∧ us !! j = Some u.
Proof.
  induction us as [|x us IH]; intros k i u; simpl; [done|]. case_decide.
  - intros [= <- <-]. exists 0%nat. split; [lia|done].
  - intros (j & -> & Hj)%IH. exists (S j). split; [lia|done].
Qed.

(** The rows before user [i] are empty: the loop reaches row [i]. *)
Lemma verify_skips us : ∀ i mem token u,
  us !! i = Some u → (∀ j, (j < i)%nat → mem !! (j * 64)%nat = Some x00) →
  token ≠ [] → nonul token →
  verify_loop us mem token =
    match strcmp_eq (drop (i * 64) mem) token with
    | Ret true => Ret (Some u.(permissions))
    | Ret false => verify_loop (drop (S i) us) (drop (S i * 64) mem) token
    | UB => UB | Blocked => Blocked | Fuel => Fuel
    end.
Proof.
  induction us as [|x us IH]; intros i mem token u Hi Hrows Ht Hn; [done|]. destruct i as [|i].
  - injection Hi as ->. simpl. by rewrite !drop_0.
  - cbn [verify_loop]. pose proof (Hrows 0%nat ltac:(lia)) as H0.
    destruct mem as [|c mem]; [done|]. injection H0 as ->.
    rewrite strcmp_eq_empty_row by done. rewrite (IH i _ token u); try done.
    + rewrite !drop_drop. replace (64 + i * 64)%nat with (S i * 64)%nat by lia.
      by replace (64 + S i * 64)%nat with (S (S i) * 64)%nat by lia.
    + intros j Hj. rewrite lookup_drop. rewrite <- (Hrows (S j)) by lia. done.
Qed.

Lemma store_at_drop mem off bs : (off + length bs ≤ length mem)%nat →
  drop off (store_at mem off bs) = bs ++ drop (off + length bs) mem.
Proof.
  intros H. unfold store_at. rewrite drop_app_length'; [done|]. rewrite length_take. lia.
Qed.
Lemma store_at_drop_after mem off bs k : (off + length bs ≤ k)%nat → (off ≤ length mem)%nat →
  drop k (store_at mem off bs) = drop k mem.
Proof.
  intros H Ho. unfold store_at. rewrite drop_app_ge by (rewrite length_take; lia).
  rewrite length_take, Nat.min_l by lia. rewrite drop_app_ge by lia. rewrite drop_drop. f_equal. lia.
Qed.
Lemma store_at_lookup mem off bs i : (i < off)%nat → (off ≤ length mem)%nat →
  store_at mem off bs !! i = mem !! i.
Proof.
  intros Hi Ho. unfold store_at. rewrite lookup_app_l by (rewrite length_take; lia).
  by apply lookup_take_lt.
Qed.

(** A login with the right password, below the last row. *)
Lemma login_run ctx name pw rnd i u :
  find_user ctx.(users) name 0 = Some (i, u) → (32 ≤ length rnd)%nat →
  auth_hash_password pw u.(salt) 128 = Some u.(password_hash) →
  (i * 64 + 65 ≤ length ctx.(token_store))%nat →
  auth_login ctx name pw rnd =
    Ret (0, Some (token_of rnd),
         Ctx ctx.(users) (store_at ctx.(token_store) (i * 64) (token_of rnd ++ [x00]))).
Proof.
  intros Hf Hr Hh Hl. unfold auth_login. rewrite Hf, Hh, decide_True, generate_token_eq by done.
  pose proof (token_of_length rnd Hr) as Ht. rewrite length_app, Ht. simpl length.
  rewrite (proj2 (Nat.ltb_ge _ _)) by lia. do 4 f_equal.
  rewrite store_at_drop by (rewrite length_app, Ht; simpl; lia).
  rewrite <- (assoc_L (++)). rewrite take_app_le by lia. rewrite take_ge by lia. done.
Qed.

Lemma strcmp_eq_diff s t rest : length s = length t → s ≠ t → strcmp_eq (s ++ rest) t = Ret false.
Proof.
  revert t. induction s as [|c s IH]; intros [|d t] Hl Hne; simpl in *; try done; try lia.
  case_decide; [subst; apply IH; [lia|congruence]|done].
Qed.
Lemma verify_empty_rows us : ∀ k token, token ≠ [] → nonul token → (length us * 64 ≤ k)%nat →
  verify_loop us (replicate k x00) token = Ret None.
Proof.
  induction us as [|u us IH]; intros k token Ht Hn Hk; [done|]. cbn [verify_loop length] in *.
  destruct k as [|k]; [lia|]. change (replicate (S k) x00) with (x00 :: replicate k x00).
  rewrite strcmp_eq_empty_row by done.
  change (drop 64 (x00 :: replicate k x00)) with (drop 63 (replicate k x00)).
  rewrite drop_replicate. apply IH; [done|done|lia].
Qed.

(** A password that does not match, or an unknown user, changes nothing. *)
Lemma login_refused ctx name pw rnd :
  (∀ i u, find_user ctx.(users) name 0 = Some (i, u) →
     auth_hash_password pw u.(salt) 128 ≠ Some u.(password_hash)) →
  auth_login ctx name pw rnd = Ret (-1, None, ctx).
Proof.
  intros H. unfold auth_login. destruct (find_user (users ctx) name 0) as [[i u]|] eqn:E; [|done].
  specialize (H i u eq_refl). destruct (auth_hash_password pw (salt u) 128) as [h|]; [|done].
  rewrite decide_False; [done|]. congruence.
Qed.

(** C9. Login and verification: with the right password a user whose row is not
    the last, and before whom nobody is logged in, receives a 64-character token
    that [auth_verify] maps to the user's permissions; a wrong password or an
    unknown name is refused and leaves the context unchanged. *)
Theorem auth_login_verify ctx name pw rnd i u :
  find_user ctx.(users) name 0 = Some (i, u) → (32 ≤ length rnd)%nat → (i < 63)%nat →
  length ctx.(token_store) = 4096%nat →
  (∀ j, (j < i)%nat → ctx.(token_store) !! (j * 64)%nat = Some x00) →
  if decide (auth_hash_password pw u.(salt) 128 = Some u.(password_hash)) then
    ∃ ctx', auth_login ctx name pw rnd = Ret (0, Some (token_of rnd), ctx') ∧
      auth_verify ctx' (token_of rnd) = Ret (Some u.(permissions))
  else auth_login ctx name pw rnd = Ret (-1, None, ctx).
Proof.
  intros Hf Hr Hi Hl Hrows. case_decide as Hh.
  2: { apply login_refused. intros i' u' E. rewrite Hf in E. by injection E as <- <-. }
  eexists. split; [apply (login_run _ _ _ _ i u); try done; lia|].
  destruct (find_user_lookup _ _ _ _ _ Hf) as (j & Hj & Hu). simpl in Hj. subst j.
  pose proof (token_of_length rnd Hr) as Ht. unfold auth_verify. cbn [users token_store].
  rewrite (verify_skips _ i _ _ u Hu).
  - rewrite store_at_drop by (rewrite length_app, Ht; simpl; lia). rewrite <- (assoc_L (++)). cbn [app].
    by rewrite strcmp_eq_nul by apply hex_of_nonul.
  - intros j Hj. rewrite store_at_lookup by lia. by apply Hrows.
  - intros E. apply (f_equal length) in E. rewrite Ht in E. done.
  - apply hex_of_nonul.
Qed.

(** Two tokens stored in neighbouring rows. *)
Lemma length_store_at mem off bs : (off + length bs ≤ length mem)%nat →
  length (store_at mem off bs) = length mem.
Proof. intros. unfold store_at. rewrite !length_app, length_take, length_drop. lia. Qed.
Lemma two_rows_second m0 t1 t2 i : length t1 = 64%nat → length t2 = 64%nat →
  (S i * 64 + 65 ≤ length m0)%nat →
  drop (S i * 64) (store_at (store_at m0 (i * 64) (t1 ++ [x00])) (S i * 64) (t2 ++ [x00])) =
  t2 ++ x00 :: drop (S i * 64 + 65) m0.
Proof.
  intros T1 T2 Hl.
  rewrite store_at_drop by (rewrite length_store_at; rewrite length_app, ?T1, ?T2; cbn [length]; lia).
  rewrite <- (assoc_L (++)), length_app, T2. cbn [length app]. f_equal. f_equal.
  apply store_at_drop_after; [rewrite length_app, T1; cbn [length]; lia|lia].
Qed.
Lemma two_rows_first m0 t1 t2 i : length t1 = 64%nat → length t2 = 64%nat →
  (S i * 64 + 65 ≤ length m0)%nat →
  drop (i * 64) (store_at (store_at m0 (i * 64) (t1 ++ [x00])) (S i * 64) (t2 ++ [x00])) =
  t1 ++ t2 ++ x00 :: drop (S i * 64 + 65) m0.
Proof.
  intros T1 T2 Hl. rewrite <- (two_rows_second m0 t1 t2 i) by done.
  set (m1 := store_at m0 (i * 64) (t1 ++ [x00])).
  assert (L1 : length m1 = length m0)
    by (apply length_store_at; rewrite length_app, T1; cbn [length]; lia).
  set (m2 := store_at m1 (S i * 64) (t2 ++ [x00])).
  rewrite <- (take_drop 64 (drop (i * 64) m2)), drop_drop.
  replace (i * 64 + 64)%nat with (S i * 64)%nat by lia. f_equal.
  unfold m2, store_at at 1. rewrite drop_app_le by (rewrite length_take; lia).
  rewrite take_app_le by (rewrite length_drop, length_take; lia).
  rewrite skipn_firstn_comm, take_take. replace (64 `min` (S i * 64 - i * 64))%nat with 64%nat by lia.
  unfold m1. rewrite store_at_drop by (rewrite length_app, T1; cbn [length]; lia).
  by rewrite <- (assoc_L (++)), take_app_le, take_ge by lia.
Qed.

(** Tokens fill their 64-byte rows without a terminator, so they run into
    each other: when the user in the next row logs in as well, the first user's
    token is no longer accepted. *)
Theorem auth_next_login_revokes us n1 n2 pw1 pw2 rnd1 rnd2 i u1 u2 :
  find_user us n1 0 = Some (i, u1) → find_user us n2 0 = Some (S i, u2) →
  (S i < 63)%nat → (length us ≤ 64)%nat → (32 ≤ length rnd1)%nat → (32 ≤ length rnd2)%nat →
  token_of rnd1 ≠ token_of rnd2 →
  auth_hash_password pw1 u1.(salt) 128 = Some u1.(password_hash) →
  auth_hash_password pw2 u2.(salt) 128 = Some u2.(password_hash) →
  ∃ c1 c2, auth_login (Ctx us (replicate (Z.to_nat 4096) x00)) n1 pw1 rnd1 =
             Ret (0, Some (token_of rnd1), c1) ∧
    auth_login c1 n2 pw2 rnd2 = Ret (0, Some (token_of rnd2), c2) ∧
    auth_verify c2 (token_of rnd1) = Ret None.
Proof.
  intros H1 H2 Hi Hus Hr1 Hr2 Hne Hp1 Hp2.
  pose proof (token_of_length rnd1 Hr1) as T1. pose proof (token_of_length rnd2 Hr2) as T2.
  assert (∃ k, k = Z.to_nat 4096 ∧ k = 4096%nat) as (k & <- & Hk) by (eexists; split; [done|lia]).
  assert (L0 : length (replicate k x00) = 4096%nat) by (by rewrite length_replicate).
  set (m0 := replicate k x00) in *.
  set (m1 := store_at m0 (i * 64) (token_of rnd1 ++ [x00])).
  assert (L1 : length m1 = length m0)
    by (apply length_store_at; rewrite length_app, T1; cbn [length]; lia).
  set (m2 := store_at m1 (S i * 64) (token_of rnd2 ++ [x00])).
  exists (Ctx us m1), (Ctx us m2). split;
    [exact (login_run (Ctx us m0) n1 pw1 rnd1 i u1 H1 Hr1 Hp1 ltac:(cbn [token_store]; lia))|].
  split; [exact (login_run (Ctx us m1) n2 pw2 rnd2 (S i) u2 H2 Hr2 Hp2 ltac:(cbn [token_store]; lia))|].
  destruct (find_user_lookup _ _ _ _ _ H1) as (j & Hj & Hu1). simpl in Hj. subst j.
  destruct (find_user_lookup _ _ _ _ _ H2) as (j & Hj & Hu2). simpl in Hj. subst j.
  assert (Tne : token_of rnd1 ≠ []) by (intros E; rewrite E in T1; done).
  pose proof (two_rows_first m0 _ _ i T1 T2 ltac:(lia)) as D1.
  pose proof (two_rows_second m0 _ _ i T1 T2 ltac:(lia)) as D2. fold m1 m2 in D1, D2.
  unfold auth_verify. cbn [users token_store].
  rewrite (verify_skips _ i _ _ u1 Hu1); [|intros j Hj|done|apply hex_of_nonul].
  2: { unfold m2. rewrite store_at_lookup by lia. unfold m1. rewrite store_at_lookup by lia.
       unfold m0. apply lookup_replicate. split; [done|lia]. }
  rewrite D1. destruct (token_of rnd2) as [|c t2] eqn:E2; [done|]. cbn [app].
  rewrite strcmp_eq_longer.
  2: { pose proof (hex_of_nonul (take 32 rnd2)) as Hn. fold (token_of rnd2) in Hn. rewrite E2 in Hn.
       by apply Forall_cons in Hn as [? _]. }
  rewrite (drop_S _ _ _ Hu2). cbn [verify_loop]. rewrite D2.
  rewrite strcmp_eq_diff by (done || congruence).
  rewrite drop_app_ge by lia. rewrite T2, Nat.sub_diag, drop_0.
  unfold m0. rewrite drop_replicate.
  change (x00 :: replicate (k - (S i * 64 + 65)) x00) with (replicate (S (k - (S i * 64 + 65))) x00).
  apply verify_empty_rows; [done|apply hex_of_nonul|rewrite length_drop; lia].
Qed.

(** The empty string is a valid token: after [auth_init] the row of every
    user who has not logged in compares equal to it, so [auth_verify] grants the
    first user's permissions without any login. *)
Theorem auth_empty_token f ctx u us :
  auth_init (Some f) = Ret (0, ctx) → ctx.(users) = u :: us →
  auth_verify ctx [] = Ret (Some u.(permissions)).
Proof.
  unfold auth_init. destruct (load_users (length f) f []) as [us0| | |]; try done.
  intros [= <-] Hu. unfold auth_verify. cbn [users token_store] in *. rewrite Hu. done.
Qed.

End auth.

(** ** Witnesses *)

Definition wit_sha (_ : list byte) : option (list byte) := Some (replicate 32 xab).
Definition wit_user (n : list byte) (p : Z) : auth_user_t :=
  User n (hex_of (replicate 32 xab)) (str "salt") p.
Definition wit_users : list auth_user_t := [wit_user (str "ann") 3; wit_user (str "bob") 1].

Lemma auth_login_verify_witness :
  ∃ ctx', auth_login wit_sha (Ctx wit_users (replicate (Z.to_nat 4096) x00)) (str "ann") (str "pw")
            (replicate 32 x11) = Ret (0, Some (token_of (replicate 32 x11)), ctx') ∧
    auth_verify ctx' (token_of (replicate 32 x11)) = Ret (Some 3).
Proof.
  pose proof (auth_login_verify wit_sha (Ctx wit_users (replicate (Z.to_nat 4096) x00)) (str "ann")
    (str "pw") (replicate 32 x11) 0 (wit_user (str "ann") 3)) as H.
  rewrite decide_True in H by reflexivity.
  apply H; [reflexivity|simpl; lia|lia|by vm_compute|lia].
Defined.

Lemma auth_next_login_revokes_witness :
  ∃ c1 c2, auth_login wit_sha (Ctx wit_users (replicate (Z.to_nat 4096) x00)) (str "ann") (str "pw")
             (replicate 32 x11) = Ret (0, Some (token_of (replicate 32 x11)), c1) ∧
    auth_login wit_sha c1 (str "bob") (str "pw") (replicate 32 x22) =
      Ret (0, Some (token_of (replicate 32 x22)), c2) ∧
    auth_verify c2 (token_of (replicate 32 x11)) = Ret None.
Proof.
  apply (auth_next_login_revokes wit_sha wit_users (str "ann") (str "bob") (str "pw") (str "pw")
    (replicate 32 x11) (replicate 32 x22) 0 (wit_user (str "ann") 3) (wit_user (str "bob") 1));
    [reflexivity|reflexivity|lia|simpl; lia|simpl; lia|simpl; lia|by vm_compute|reflexivity|reflexivity].
Defined.

Lemma auth_empty_token_witness :
  ∃ ctx, auth_init (Some (str "ann:00:ab:3")) = Ret (0, ctx) ∧ auth_verify ctx [] = Ret (Some 3).
Proof.
  eexists. split; [vm_compute; reflexivity|].
  apply (auth_empty_token (str "ann:00:ab:3") _ (User (str "ann") (str "00") (str "ab") 3) []);
    [by vm_compute|reflexivity].
Defined.

End Auth.
