(* ===== verification/FileWatch.v ===== *)
(** * linux-file-server: watching a directory (linux-file-server/src/file_watch.c)

    The buffer that inotify fills and the loop that takes it apart; starting, with every
    failure; the thread and file_watch_stop as a step relation.  The queue of events and
    the pipe are the kernel's; what the callback does is a trace of its calls. *)

From stdpp Require Import gmap.
From S2P Require Import Prelude.

Module FileWatch.
#[local] Arguments Z.to_nat : simpl never.

Definition IN_MODIFY : Z := 0x2.
Definition IN_ATTRIB : Z := 0x4.
Definition IN_CLOSE_WRITE : Z := 0x8.
Definition IN_CLOSE_NOWRITE : Z := 0x10.
Definition IN_OPEN : Z := 0x20.
Definition IN_MOVED_FROM : Z := 0x40.
Definition IN_MOVED_TO : Z := 0x80.
Definition IN_CREATE : Z := 0x100.
Definition IN_DELETE : Z := 0x200.
Definition has (mask bit : Z) : bool := negb (Z.land mask bit =? 0).
Definition file_watch_event_name (mask : Z) : list byte :=
  if has mask IN_CREATE then str "CREATE" else if has mask IN_DELETE then str "DELETE"
  else if has mask IN_MODIFY then str "MODIFY" else if has mask IN_MOVED_TO then str "MOVED_TO"
  else if has mask IN_MOVED_FROM then str "MOVED_FROM" else if has mask IN_ATTRIB then str "ATTRIB"
  else if has mask IN_CLOSE_WRITE then str "CLOSE_WRITE" else if has mask IN_CLOSE_NOWRITE then str "CLOSE_NOWRITE"
  else if has mask IN_OPEN then str "OPEN" else str "UNKNOWN".

(** ** The buffer *)

Definition sizeof_event : Z := 16.
Definition EVENT_BUF_LEN : Z := 1024 * (sizeof_event + 16).
(** The calls of the callback: the name and the mask. *)
Definition calls : Type := list (list byte * Z).

(** A 32-bit field and a C string of the buffer; [None] outside of it. *)
Definition word (buf : list byte) (off : Z) : option Z :=
  let f := take 4 (drop (Z.to_nat off) buf) in if (length f =? 4)%nat then Some (le_combine f) else None.
Definition string_at (buf : list byte) (off : Z) : option (list byte) :=
  let s := drop (Z.to_nat off) buf in if bool_decide (x00 ∈ s) then Some (cstr s) else None.
(** From [ptr] to the [len] bytes that were read.  An event takes at least its header. *)
Fixpoint dispatch (fuel : nat) (buf : list byte) (len ptr : Z) : C calls unit :=
  if ptr <? len then
    match fuel with
    | O => c_fuel
    | S fuel' =>
        match word buf (ptr + 4), word buf (ptr + 12) with
        | Some mask, Some n =>
            (if 0 <? n then
               match string_at buf (ptr + sizeof_event) with
               | Some name => c_mod (λ cs, cs ++ [(name, mask)])
               | None => c_ub
               end
             else mret tt);;
            dispatch fuel' buf len (ptr + (sizeof_event + n))
        | _, _ => c_ub
        end
    end
  else mret tt.

(** ** Starting *)

Record file_watch_t := Watch { inotify_fd : Z; watch_fd : Z; stop_pipe : Z * Z; watch_dir : list byte }.
(** The descriptors of the process and the structures it has allocated. *)
Record process := Process { fds : gset Z; live : Z }.
Definition opened (fd : Z) : C process unit := c_mod (λ p, Process ({[fd]} ∪ p.(fds)) p.(live)).
Definition close (fd : Z) : C process unit := c_mod (λ p, Process (p.(fds) ∖ {[fd]}) p.(live)).
Definition allocated : C process unit := c_mod (λ p, Process p.(fds) (p.(live) + 1)).
Definition free : C process unit := c_mod (λ p, Process p.(fds) (p.(live) - 1)).

(** What the calls answer: calloc, inotify_init, inotify_add_watch, pipe, pthread_create. *)
Record answers := Answers { calloc_ok : bool; init_fd : Z; add_wd : Z; pipe_fds : option (Z * Z); create_ok : bool }.
Definition file_watch_start (dir : option (list byte)) (callback : bool) (a : answers) : C process (option file_watch_t) :=
  match dir with
  | None => mret None
  | Some dir =>
      if negb callback then mret None else
      if negb a.(calloc_ok) then mret None else
      allocated;;
      if a.(init_fd) <? 0 then free;; mret None else
      opened a.(init_fd);;
      if a.(add_wd) <? 0 then close a.(init_fd);; free;; mret None else
      match a.(pipe_fds) with
      | None => close a.(init_fd);; free;; mret None
      | Some (r, w) =>
          opened r;; opened w;;
          if negb a.(create_ok) then close r;; close w;; close a.(init_fd);; free;; mret None
          else mret (Some (Watch a.(init_fd) a.(add_wd) (r, w) (take 255 dir)))
      end
  end.
(** The end of file_watch_stop, after the thread. *)
Definition close_all (w : file_watch_t) : C process unit :=
  (if 0 <=? w.(stop_pipe).1 then close w.(stop_pipe).1 else mret tt);;
  (if 0 <=? w.(stop_pipe).2 then close w.(stop_pipe).2 else mret tt);;
  (if 0 <=? w.(inotify_fd) then close w.(inotify_fd) else mret tt);;
  free.

(** ** The thread and the one that stops it *)

(** An event as inotify(7) describes it: the name is ended by one or more zeros, and an
    event without name has length 0. *)
Record event := Event { ev_wd : Z; ev_mask : Z; ev_cookie : Z; ev_name : list byte; ev_pad : nat }.
Definition name_field (e : event) : list byte :=
  match e.(ev_name) with [] => [] | n => n ++ replicate (S e.(ev_pad)) x00 end.
Definition event_bytes (e : event) : list byte :=
  le_split 4 e.(ev_wd) ++ le_split 4 e.(ev_mask) ++ le_split 4 e.(ev_cookie) ++ le_split 4 (strlen (name_field e)) ++ name_field e.
Definition events_bytes (es : list event) : list byte := mjoin (event_bytes <$> es).

(** Where the thread is: before the test of [running], in poll, before the read, gone; and
    file_watch_stop: not called, [running] cleared, the byte written, returned. *)
Inductive wpc := WTest | WPoll | WRead | WDone.
Inductive spc := SIdle | SFlagged | SWritten | SReturned.
#[global] Instance spc_eq_dec : EqDecision spc.
Proof. solve_decision. Defined.
Record sys := Sys {
  wat : file_watch_t; running : bool; piped : bool; buf : list byte; queue : list event;
  called : calls; thread : wpc; stop : spc; proc : process
}.
(** The steps of the two threads. *)
Inductive tstep : sys → sys → Prop :=
  | t_go w p b q c s k : tstep (Sys w true p b q c WTest s k) (Sys w true p b q c WPoll s k)
  | t_over w p b q c s k : tstep (Sys w false p b q c WTest s k) (Sys w false p b q c WDone s k)
  | t_stopped w r b q c s k : tstep (Sys w r true b q c WPoll s k) (Sys w r true b q c WDone s k)
  | t_ready w r b e q c s k : tstep (Sys w r false b (e :: q) c WPoll s k) (Sys w r false b (e :: q) c WRead s k)
  | t_intr w r p b q c s k : tstep (Sys w r p b q c WPoll s k) (Sys w r p b q c WTest s k)
  | t_poll_fails w r p b q c s k : tstep (Sys w r p b q c WPoll s k) (Sys w r p b q c WDone s k)
  | t_read w r p b es q c s k b' c' :
      (* read gives whole events, as many as it likes of those that fit *)
      es ≠ [] → strlen (events_bytes es) ≤ EVENT_BUF_LEN →
      b' = events_bytes es ++ drop (length (events_bytes es)) b →
      dispatch (length b') b' (strlen (events_bytes es)) 0 c = Ret (tt, c') →
      tstep (Sys w r p b (es ++ q) c WRead s k) (Sys w r p b' q c' WTest s k)
  | t_read_fails w r p b q c s k : tstep (Sys w r p b q c WRead s k) (Sys w r p b q c WDone s k)
  | s_flag w r p b q c t k : tstep (Sys w r p b q c t SIdle k) (Sys w false p b q c t SFlagged k)
  | s_write w r p b q c t k : tstep (Sys w r p b q c t SFlagged k) (Sys w r true b q c t SWritten k)
  | s_join w r p b q c k k' : close_all w k = Ret (tt, k') →
      tstep (Sys w r p b q c WDone SWritten k) (Sys w r p b q c WDone SReturned k').
(** A run, with the number of steps of the threads and the events that arrive. *)
Inductive runs : sys → nat → list event → sys → Prop :=
  | r_refl s : runs s 0 [] s
  | r_thread s n es s1 s2 : runs s n es s1 → tstep s1 s2 → runs s (S n) es s2
  | r_arrive s n es w r p b q c t st k e :
      runs s n es (Sys w r p b q c t st k) → runs s n (es ++ [e]) (Sys w r p b (q ++ [e]) c t st k).
(** After pthread_create; the buffer on the thread's stack has any contents. *)
Definition started (w : file_watch_t) (b : list byte) (k : process) : sys := Sys w true false b [] [] WTest SIdle k.
End FileWatch.
