(* ===== verification/FileWatchSpec.v ===== *)
(** * linux-file-server: the watcher delivers what happens, and stops *)

From stdpp Require Import gmap.
From S2P Require Import Prelude FileWatch.

Module FileWatchSpec.
Import FileWatch.
#[local] Arguments Z.to_nat : simpl never.

(** ** The events of the kernel *)

Record event_ok (e : event) : Prop := {
  eo_mask : is_u32 e.(ev_mask); eo_name : nonul e.(ev_name); eo_length : (length e.(ev_name) ≤ 255)%nat; eo_pad : (e.(ev_pad) < 16)%nat
}.
(** What the callback is to be told. *)
Definition named (es : list event) : calls := omap (λ e, match e.(ev_name) with [] => None | n => Some (n, e.(ev_mask)) end) es.

Lemma name_field_size e : event_ok e → 0 ≤ strlen (name_field e) < 512.
Proof.
  intros [_ _ Hl Hp]. unfold name_field, strlen. destruct (ev_name e) as [|c n] eqn:E; [done|].
  rewrite length_app, length_replicate. cbn [length] in *. lia.
Qed.
Lemma event_size e : strlen (event_bytes e) = 16 + strlen (name_field e).
Proof. unfold event_bytes, strlen. rewrite !length_app, !length_le_split. lia. Qed.
Lemma le_word_range n : is_u32 n → le_combine (le_split 4 n) = n.
Proof. intros H. rewrite le_combine_split. apply Z.mod_small, H. Qed.

(** The fields of an event somewhere in the buffer. *)
Lemma word_at pre n rest off : off = strlen pre → is_u32 n → word (pre ++ le_split 4 n ++ rest) off = Some n.
Proof.
  intros -> Hn. unfold word, strlen. rewrite Nat2Z.id, drop_app_length, take_app_le by (by rewrite length_le_split).
  rewrite take_ge by (by rewrite length_le_split). by rewrite length_le_split, le_word_range.
Qed.
Lemma event_fields pre e rest : event_ok e →
  word (pre ++ event_bytes e ++ rest) (strlen pre + 4) = Some e.(ev_mask) ∧
  word (pre ++ event_bytes e ++ rest) (strlen pre + 12) = Some (strlen (name_field e)).
Proof.
  intros He. pose proof (name_field_size e He) as Hs. unfold event_bytes. split.
  - replace (pre ++ _) with ((pre ++ le_split 4 (ev_wd e)) ++ le_split 4 (ev_mask e) ++
      (le_split 4 (ev_cookie e) ++ le_split 4 (strlen (name_field e)) ++ name_field e ++ rest)) by (by rewrite <- !(assoc_L (++))).
    apply word_at; [unfold strlen; rewrite length_app, length_le_split; lia|apply He].
  - replace (pre ++ _) with ((pre ++ le_split 4 (ev_wd e) ++ le_split 4 (ev_mask e) ++ le_split 4 (ev_cookie e)) ++
      le_split 4 (strlen (name_field e)) ++ (name_field e ++ rest)) by (by rewrite <- !(assoc_L (++))).
    apply word_at; [unfold strlen; rewrite !length_app, !length_le_split; lia|unfold is_u32; lia].
Qed.
Lemma event_string pre e rest : event_ok e → e.(ev_name) ≠ [] →
  string_at (pre ++ event_bytes e ++ rest) (strlen pre + sizeof_event) = Some e.(ev_name).
Proof.
  intros He Hn. unfold string_at. replace (Z.to_nat (strlen pre + sizeof_event)) with (length pre + 16)%nat by (unfold strlen, sizeof_event; lia).
  rewrite <- drop_drop, drop_app_length. unfold event_bytes. rewrite !(assoc_L (++)), <- !(assoc_L (++)).
  replace (le_split 4 (ev_wd e) ++ _) with ((le_split 4 (ev_wd e) ++ le_split 4 (ev_mask e) ++ le_split 4 (ev_cookie e) ++
    le_split 4 (strlen (name_field e))) ++ (name_field e ++ rest)) by (by rewrite <- !(assoc_L (++))).
  rewrite drop_app_length' by (by rewrite !length_app, !length_le_split).
  unfold name_field. destruct (ev_name e) as [|c n] eqn:E; [done|]. rewrite <- (assoc_L (++)). cbn [replicate app].
  change (c :: n ++ _) with ((c :: n) ++ x00 :: replicate (ev_pad e) x00 ++ rest).
  rewrite bool_decide_eq_true_2 by (apply elem_of_app; right; by left). rewrite cstr_app_nul; [done|]. rewrite <- E. apply He.
Qed.

(** The loop over whole events. *)
Lemma dispatch_events es : ∀ fuel pre rest cs, Forall event_ok es → (length es ≤ fuel)%nat →
  dispatch fuel (pre ++ events_bytes es ++ rest) (strlen pre + strlen (events_bytes es)) (strlen pre) cs = Ret (tt, cs ++ named es).
Proof.
  induction es as [|e es IH]; intros fuel pre rest cs Hes Hf.
  - change (strlen (events_bytes [])) with 0.
    destruct fuel; cbn [dispatch]; rewrite (proj2 (Z.ltb_ge _ _)) by lia; by rewrite app_nil_r.
  - apply Forall_cons in Hes as [He Hes]. destruct fuel as [|fuel]; [cbn in Hf; lia|].
    assert (Hb : events_bytes (e :: es) = event_bytes e ++ events_bytes es) by done.
    pose proof (event_size e) as Hsz. pose proof (name_field_size e He) as Hnf.
    assert (Hlen : strlen (events_bytes (e :: es)) = strlen (event_bytes e) + strlen (events_bytes es))
      by (rewrite Hb; unfold strlen; rewrite length_app; lia).
    assert (0 ≤ strlen (events_bytes es)) by (unfold strlen; lia).
    cbn [dispatch]. rewrite (proj2 (Z.ltb_lt _ _)) by lia. rewrite Hb, <- (assoc_L (++)).
    destruct (event_fields pre e (events_bytes es ++ rest) He) as [-> ->].
    specialize (IH fuel (pre ++ event_bytes e) rest). rewrite <- (assoc_L (++)) in IH.
    assert (Hpre : strlen (pre ++ event_bytes e) = strlen pre + (sizeof_event + strlen (name_field e)))
      by (unfold strlen in *; rewrite length_app; unfold sizeof_event; lia).
    rewrite Hpre in IH. replace (strlen (event_bytes e ++ events_bytes es)) with (sizeof_event + strlen (name_field e) + strlen (events_bytes es))
      by (unfold strlen, sizeof_event in *; rewrite length_app; lia).
    rewrite Z.add_assoc. cbn [named omap list_omap]. cbn in Hf. destruct (ev_name e) as [|c n] eqn:E.
    + assert (name_field e = []) as Hn by (unfold name_field; by rewrite E). rewrite Hn. cbn [strlen length]. change (0 <? Z.of_nat 0) with false.
      erewrite bind_Ret by reflexivity. rewrite Hn in IH. apply IH; [done|lia].
    + rewrite (proj2 (Z.ltb_lt _ _)) by (unfold name_field; rewrite E; unfold strlen; rewrite length_app; cbn [length]; lia).
      rewrite event_string, E by (done || by rewrite E). erewrite bind_Ret by reflexivity.
      rewrite IH by (done || lia). by rewrite <- (assoc_L (++)).
Qed.

(** ** The system *)

Lemma named_app a b : named (a ++ b) = named a ++ named b.
Proof. apply omap_app. Qed.
(** The flags follow file_watch_stop, and what was called for and what waits is what came. *)
Record good (es : list event) (s : sys) : Prop := {
  g_running : s.(running) = bool_decide (s.(stop) = SIdle);
  g_piped : s.(piped) = bool_decide (s.(stop) = SWritten ∨ s.(stop) = SReturned);
  g_events : Forall event_ok s.(queue);
  g_called : s.(called) ++ named s.(queue) = named es;
  g_reading : s.(thread) = WRead → s.(queue) ≠ [];
  g_returned : s.(stop) = SReturned → s.(thread) = WDone
}.
Lemma read_dispatches es b c c' : Forall event_ok es →
  dispatch (length (events_bytes es ++ b)) (events_bytes es ++ b) (strlen (events_bytes es)) 0 c = Ret (tt, c') ↔ c' = c ++ named es.
Proof.
  intros Hes. assert (length es ≤ length (events_bytes es))%nat as Hl.
  { induction Hes as [|e es He Hes IH]; [done|]. change (events_bytes (e :: es)) with (event_bytes e ++ events_bytes es).
    rewrite length_app. cbn [length]. pose proof (event_size e). pose proof (name_field_size e He). unfold strlen in *. lia. }
  pose proof (dispatch_events es (length (events_bytes es ++ b)) [] b c Hes) as H. change (strlen []) with 0 in H. rewrite Z.add_0_l in H. cbn [app] in H.
  rewrite H by (rewrite length_app; lia). split; [by intros [=]|by intros ->].
Qed.
Lemma tstep_good es s s' : good es s → tstep s s' → good es s'.
Proof.
  intros [Hr Hp He Hc Hrd Hret] Hs. destruct Hs; cbn [running piped queue called thread stop] in *; split; cbn [running piped queue called thread stop]; try done;
    try (intros E; by specialize (Hret E)).
  - by apply Forall_app in He as [_ ?].
  - apply Forall_app in He as [He1 He2].
    subst. match goal with H : dispatch _ _ _ _ _ = _ |- _ => apply read_dispatches in H as ->; [|done] end.
    by rewrite <- (assoc_L (++)), <- named_app.
Qed.
Lemma runs_good s0 n es0 es s : runs s0 n es s → good es0 s0 → Forall event_ok es → good (es0 ++ es) s.
Proof.
  intros Hr H0. induction Hr as [s|s n es s1 s2 Hr IH Ht|s n es w r p b q c t st k e Hr IH]; intros Hes.
  - by rewrite app_nil_r.
  - eapply tstep_good; [by apply IH|done].
  - apply Forall_app in Hes as [Hes [He _]%Forall_cons]. destruct (IH H0 Hes) as [H1 H2 H3 H4 H5 H6]. split; try done; cbn [queue called] in *.
    + apply Forall_app. split; [done|by constructor].
    + rewrite (assoc_L (++) es0), (named_app q), (named_app (es0 ++ es)), <- H4. by rewrite (assoc_L (++)).
    + intros _. by destruct q.
Qed.
Lemma started_good w b k : good [] (started w b k).
Proof. by split. Qed.

(** A waiting event can be read. *)
Lemma can_read es w r p b q c s k : good es (Sys w r p b q c WRead s k) → ∃ s',
  tstep (Sys w r p b q c WRead s k) s' ∧ (length s'.(queue) < length q)%nat ∧ s'.(stop) = s ∧ s'.(proc) = k.
Proof.
  intros [_ _ He _ Hq _]. destruct q as [|e q]; [by destruct (Hq eq_refl)|]. cbn in He. apply Forall_cons in He as [He _].
  eexists. split; [apply (t_read _ _ _ _ [e] q); [done| |reflexivity|by apply read_dispatches; [constructor|]]|by split; [cbn; lia|]].
  unfold events_bytes. cbn [fmap list_fmap mjoin list_join]. rewrite app_nil_r, event_size. pose proof (name_field_size e He).
  unfold EVENT_BUF_LEN, sizeof_event. lia.
Qed.

(** C33. Whatever happens in the directory and however the threads are scheduled: the callback
    has been told of every named event that was read, in order and once, those not told of
    are still queued; and until it is stopped or a call fails, the thread can go on to
    tell of one that waits. *)
Theorem watch_delivers w b k n es s : Forall event_ok es → runs (started w b k) n es s →
  s.(called) ++ named s.(queue) = named es ∧
  (s.(stop) = SIdle → s.(thread) ≠ WDone → s.(queue) ≠ [] →
   ∃ m s', (m ≤ 3)%nat ∧ runs s m [] s' ∧ (length s'.(queue) < length s.(queue))%nat ∧ s'.(stop) = SIdle).
Proof.
  intros Hes Hr. pose proof (runs_good _ _ [] _ _ Hr (started_good _ _ _) Hes) as Hg. split; [apply Hg|]. intros Hi Ht Hq.
  assert (Hread : ∀ s1, good es s1 → s1.(thread) = WRead → s1.(stop) = SIdle → ∃ s2, tstep s1 s2 ∧
    (length s2.(queue) < length s1.(queue))%nat ∧ s2.(stop) = SIdle).
  { intros [w1 r1 p1 b1 q1 c1 t1 st1 k1] H1 Et Est. cbn in Et, Est. subst t1 st1. destruct (can_read _ _ _ _ _ _ _ _ _ H1) as (s2 & ? & ? & ? & _). by exists s2. }
  destruct s as [w1 r1 p1 b1 q1 c1 t1 st1 k1]. cbn in Hi, Ht, Hq. subst st1. pose proof Hg as [Hrun Hpip _ _ _ _]. cbn in Hrun, Hpip. subst r1 p1.
  rewrite bool_decide_eq_true_2 in * by done. rewrite bool_decide_eq_false_2 in * by naive_solver. destruct q1 as [|e q1]; [done|].
  assert (Hready := t_ready w1 true b1 e q1 c1 SIdle k1). assert (Hgo := t_go w1 false b1 (e :: q1) c1 SIdle k1).
  destruct t1; [| | |done].
  - destruct (Hread _ (tstep_good _ _ _ (tstep_good _ _ _ Hg Hgo) Hready) eq_refl eq_refl) as (s2 & H2 & Hl & Hs2).
    exists 3%nat, s2. split_and!; [lia| |exact Hl|done]. eapply r_thread; [eapply r_thread; [eapply r_thread; [apply r_refl|exact Hgo]|exact Hready]|done].
  - destruct (Hread _ (tstep_good _ _ _ Hg Hready) eq_refl eq_refl) as (s2 & H2 & Hl & Hs2).
    exists 2%nat, s2. split_and!; [lia| |exact Hl|done]. eapply r_thread; [eapply r_thread; [apply r_refl|exact Hready]|done].
  - destruct (Hread _ Hg eq_refl eq_refl) as (s2 & H2 & Hl & Hs2). exists 1%nat, s2. split_and!; [lia| |exact Hl|done]. eapply r_thread; [apply r_refl|done].
Qed.

(** ** Stopping *)

(** The steps that are left once file_watch_stop has been called. *)
Definition left_to_do (s : sys) : nat :=
  (match s.(thread) with WPoll => 3 | WRead => 2 | WTest => 1 | WDone => 0 end +
   match s.(stop) with SIdle => 3 | SFlagged => 2 | SWritten => 1 | SReturned => 0 end)%nat.
Lemma tstep_left es s s' : good es s → s.(stop) ≠ SIdle → tstep s s' → (left_to_do s' < left_to_do s)%nat ∧ s'.(stop) ≠ SIdle.
Proof.
  intros Hg Hn Hs. pose proof (g_running _ _ Hg) as Hr. destruct Hs; cbn [stop running left_to_do thread] in *; unfold left_to_do; cbn [stop thread]; try (split; [lia|done]).
  by rewrite bool_decide_eq_false_2 in Hr.
Qed.
Lemma runs_left s m es s' es0 : runs s m es s' → good es0 s → Forall event_ok es → s.(stop) ≠ SIdle →
  (m + left_to_do s' ≤ left_to_do s)%nat ∧ s'.(stop) ≠ SIdle.
Proof.
  intros Hr Hg. induction Hr as [s|s n es s1 s2 Hr IH Ht|s n es w r p b q c t st k e Hr IH]; intros Hes Hn.
  - split; [lia|done].
  - destruct (IH Hg Hes Hn) as [Hl Hn1]. destruct (tstep_left (es0 ++ es) s1 s2) as [H1 H2]; [by eapply runs_good|done|done|]. split; [lia|done].
  - apply Forall_app in Hes as [Hes _]. by destruct (IH Hg Hes Hn).
Qed.
(** A thread of the two can go on until file_watch_stop has returned. *)
Lemma can_stop es s : good es s → s.(stop) ≠ SIdle → s.(stop) ≠ SReturned → ∃ s', tstep s s'.
Proof.
  intros Hg Hn Hr. destruct s as [w r p b q c t st k]. cbn in Hn, Hr. destruct st; [done| | |done]; [eexists; apply s_write|].
  destruct t.
  - pose proof (g_running _ _ Hg) as Hrun. cbn in Hrun. subst r. eexists. apply t_over.
  - eexists. apply t_intr.
  - destruct (can_read _ _ _ _ _ _ _ _ _ Hg) as (s' & ? & _). by exists s'.
  - unfold close_all. destruct (0 <=? (stop_pipe w).1) eqn:E1, (0 <=? (stop_pipe w).2) eqn:E2, (0 <=? inotify_fd w) eqn:E3;
      (eexists; apply s_join; unfold close_all; rewrite E1, E2, E3; reflexivity).
Qed.
(** Until then the descriptors are those after the start. *)
Definition kept (w : file_watch_t) (k k' : process) (s : sys) : Prop :=
  s.(wat) = w ∧ s.(proc) = if decide (s.(stop) = SReturned) then k' else k.
Lemma runs_kept w k k' s0 n es s : close_all w k = Ret (tt, k') → runs s0 n es s → kept w k k' s0 → kept w k k' s.
Proof.
  intros Hc Hr. induction Hr as [s|s n es s1 s2 Hr IH Ht|s n es w1 r p b q c t st k1 e Hr IH]; intros H0; [done| |by apply IH].
  destruct (IH H0) as [Hw Hp]. destruct Ht; cbn in *; split; cbn; try done; subst; try (by rewrite Hp).
  rewrite decide_True by done. rewrite decide_False in H by done. congruence.
Qed.

(** The kernel gives descriptors that are not open. *)
Definition fresh (a : answers) (k : process) : Prop :=
  a.(init_fd) ∉ k.(fds) ∧
  match a.(pipe_fds) with
  | Some (r, w) => 0 ≤ r ∧ 0 ≤ w ∧ r ∉ k.(fds) ∧ w ∉ k.(fds) ∧ r ≠ w ∧ a.(init_fd) ≠ r ∧ a.(init_fd) ≠ w
  | None => True
  end.
Lemma process_eq (F F' : gset Z) l l' : F = F' → l = l' → Process F l = Process F' l'.
Proof. by intros -> ->. Qed.
Lemma start_run dir cb a k : fresh a k → ∃ o k1, file_watch_start dir cb a k = Ret (o, k1) ∧
  match o with None => k1 = k | Some w => close_all w k1 = Ret (tt, k) end.
Proof.
  intros [Hi Hp]. destruct k as [fds live]. cbn in Hi, Hp. unfold file_watch_start. destruct dir as [dir|]; [|by do 2 eexists].
  destruct cb; [|by do 2 eexists]. destruct (calloc_ok a); [|by do 2 eexists]. cbn [negb]. erewrite bind_Ret by reflexivity. cbn [FileWatch.fds FileWatch.live].
  destruct (Z.ltb_spec (init_fd a) 0).
  { do 2 eexists. split; [reflexivity|]. cbn. apply process_eq; [done|lia]. }
  erewrite bind_Ret by reflexivity. destruct (add_wd a <? 0).
  { do 2 eexists. split; [reflexivity|]. cbn. apply process_eq; [set_solver|lia]. }
  destruct (pipe_fds a) as [[r w]|].
  - destruct Hp as (Hr & Hw & Hnr & Hnw & Hrw & Hir & Hiw). do 2 (erewrite bind_Ret by reflexivity). destruct (create_ok a); cbn [negb].
    + do 2 eexists. split; [reflexivity|]. unfold close_all. cbn [stop_pipe inotify_fd fst snd].
      rewrite !(proj2 (Z.leb_le _ _)) by done. 
      change (Ret (tt, Process (({[w]} ∪ ({[r]} ∪ ({[init_fd a]} ∪ fds))) ∖ {[r]} ∖ {[w]} ∖ {[init_fd a]}) (live + 1 - 1)) = Ret (tt, Process fds live)).
      do 2 f_equal. apply process_eq; [set_solver|lia].
    + do 2 eexists. split; [reflexivity|]. cbn. apply process_eq; [set_solver|lia].
  - do 2 eexists. split; [reflexivity|]. cbn. apply process_eq; [set_solver|lia].
Qed.

(** C34. Starting leaves nothing behind when it fails; and once file_watch_stop has been called,
    whatever still happens in the directory and in whatever order the threads run, they
    take at most five more steps, one can always be taken until it has returned, and then
    the process has the descriptors and the memory it had before the start. *)
Theorem watch_stops dir cb a k : fresh a k → ∃ o k1, file_watch_start dir cb a k = Ret (o, k1) ∧
  match o with
  | None => k1 = k
  | Some w => ∀ b n es s m es' s', Forall event_ok (es ++ es') → runs (started w b k1) n es s → s.(stop) ≠ SIdle → runs s m es' s' →
      (m ≤ 5)%nat ∧ (if decide (s'.(stop) = SReturned) then s'.(proc) = k else ∃ s2, tstep s' s2)
  end.
Proof.
  intros (o & k1 & E & Ho)%(start_run dir cb). exists o, k1. split; [done|]. destruct o as [w|]; [|done].
  intros b n es s m es' s' [Hes Hes']%Forall_app Hr Hs Hr'.
  pose proof (runs_good _ _ [] _ _ Hr (started_good _ _ _) Hes) as Hg. cbn in Hg.
  destruct (runs_left _ _ _ _ es Hr' Hg Hes' Hs) as [Hl Hs']. pose proof (runs_good _ _ _ _ _ Hr' Hg Hes') as Hg'. split.
  - assert (left_to_do s ≤ 5)%nat; [|lia]. unfold left_to_do. destruct (stop s), (thread s); done || lia.
  - destruct (decide (stop s' = SReturned)) as [Hret|Hret]; [|by eapply can_stop].
    assert (kept w k1 k (started w b k1)) as Hk by done.
    pose proof (runs_kept _ _ _ _ _ _ _ Ho Hr' (runs_kept _ _ _ _ _ _ _ Ho Hr Hk)) as [_ Hp]. by rewrite decide_True in Hp.
Qed.

(** ** Witnesses *)

Definition wit_events : list event := [Event 1 IN_CREATE 0 (str "a.txt") 2; Event 1 0x4000 0 [] 0; Event 1 IN_DELETE 0 (str "b") 6].
Lemma wit_events_ok : Forall event_ok wit_events.
Proof.
  repeat constructor; try discriminate; try (cbn; unfold is_u32; lia).
Qed.
Definition wit_watch : file_watch_t := Watch 5 1 (6, 7) (str "/srv").
Definition wit_process : process := Process {[ 0; 1; 2 ]} 0.
Lemma wit_runs k : ∃ s, runs (started wit_watch (replicate 64 xff) k) 3 wit_events s ∧ s.(called) = [(str "a.txt", 0x100)] ∧
  s.(queue) = drop 2 wit_events.
Proof.
  eexists. split; [|split].
  - change wit_events with ((([] ++ [Event 1 IN_CREATE 0 (str "a.txt") 2]) ++ [Event 1 0x4000 0 [] 0]) ++ [Event 1 IN_DELETE 0 (str "b") 6]).
    eapply r_arrive. eapply r_thread.
    + eapply r_thread; [eapply r_thread; [apply r_arrive, r_arrive, r_refl|apply t_go]|apply t_ready].
    + apply (t_read _ _ _ _ [Event 1 IN_CREATE 0 (str "a.txt") 2; Event 1 0x4000 0 [] 0] []); [done|vm_compute; discriminate|reflexivity|].
      apply read_dispatches; [|reflexivity]. exact (Forall_take _ 2 _ wit_events_ok).
  - reflexivity.
  - reflexivity.
Qed.
Lemma watch_delivers_witness : ∃ s, runs (started wit_watch (replicate 64 xff) wit_process) 3 wit_events s ∧
  s.(called) ++ named s.(queue) = [(str "a.txt", 0x100); (str "b", 0x200)].
Proof.
  destruct (wit_runs wit_process) as (s & Hr & _). exists s. split; [exact Hr|].
  exact (proj1 (watch_delivers _ _ _ _ _ _ wit_events_ok Hr)).
Defined.
Lemma watch_stops_witness : ∃ k1, file_watch_start (Some (str "/srv")) true (Answers true 5 1 (Some (6, 7)) true) wit_process =
    Ret (Some wit_watch, k1) ∧
  ∀ s, runs (Sys wit_watch false false [] [] [] WTest SFlagged k1) 3 [] s → s.(stop) = SReturned → s.(proc) = wit_process.
Proof.
  destruct (watch_stops (Some (str "/srv")) true (Answers true 5 1 (Some (6, 7)) true) wit_process) as (o & k1 & E & H).
  - split; [set_solver|]. cbn. split_and!; try lia; set_solver.
  - assert (o = Some wit_watch) as -> by (vm_compute in E; by injection E as <- _).
    exists k1. split; [exact E|]. intros s Hr Hs.
    destruct (H [] 1%nat [] (Sys wit_watch false false [] [] [] WTest SFlagged k1) 3%nat [] s) as [_ Hp]; [constructor| |done|exact Hr|].
    + eapply r_thread; [apply r_refl|apply s_flag].
    + by rewrite decide_True in Hp.
Defined.
End FileWatchSpec.
