(* ===== verification/HashUtil.v ===== *)
(** * linux-file-server: digests of data and files, and compression
    (linux-file-server/src/hash_util.c, compress.c)

    OpenSSL's digests are an interface; zlib's functions are arguments. *)

From stdpp Require Import gmap.
From S2P Require Import Prelude.

Module HashUtil.
#[local] Arguments Z.to_nat : simpl never.

Definition CHUNK_SIZE : nat := 4096.
Definition EVP_MAX_MD_SIZE : nat := 64.

(** EVP_MD_CTX and the functions on it; [None] where they do not return 1. *)
Class Evp (MD EVP_MD_CTX : Type) := {
  EVP_MD_CTX_new : option EVP_MD_CTX;
  EVP_DigestInit_ex : EVP_MD_CTX → MD → option EVP_MD_CTX;
  EVP_DigestUpdate : EVP_MD_CTX → list byte → option EVP_MD_CTX;
  EVP_DigestFinal_ex : EVP_MD_CTX → option (list byte)
}.
#[global] Hint Mode Evp - ! : typeclass_instances.

(** The contexts and files that are open. *)
Record held := Held { contexts : Z; open_files : Z }.
Definition context (n : Z) : C held unit := c_mod (λ h, Held (h.(contexts) + n) h.(open_files)).
Definition file (n : Z) : C held unit := c_mod (λ h, Held h.(contexts) (h.(open_files) + n)).

(** A store into an array. *)
Definition store (out : list byte) (i : nat) (c : byte) : option (list byte) :=
  if (i <? length out)%nat then Some (<[i := c]> out) else None.
Definition hex_char (n : Z) : byte := default x00 (str "0123456789abcdef" !! Z.to_nat n).
(** Two characters for each byte while they and the final zero fit in [hex_size]. *)
Fixpoint digest_to_hex (i : nat) (digest : list byte) (hex_out : list byte) (hex_size : Z) : option (list byte) :=
  match digest with
  | d :: digest' =>
      if 2 * Z.of_nat i + 2 <? hex_size then
        out ← store hex_out (2 * i) (hex_char (Z.land (Z.shiftr (b2z d) 4) 0x0f));
        out ← store out (2 * i + 1) (hex_char (Z.land (b2z d) 0x0f));
        digest_to_hex (S i) digest' out hex_size
      else store hex_out (2 * i) x00
  | [] => store hex_out (2 * i) x00
  end.
Definition hex_result (digest : list byte) (hex_out : list byte) (hex_size : Z) : C held (Z * list byte) :=
  match digest_to_hex 0 digest hex_out hex_size with Some out => mret (0, out) | None => c_ub end.

Section hash.
Context {MD EVP_MD_CTX : Type} `{Evp MD EVP_MD_CTX}.

Definition hash_data (data : option (list byte)) (md : MD) (hex_out : option (list byte)) (hex_size : Z) : C held (Z * list byte) :=
  match data, hex_out with
  | Some data, Some out =>
      match EVP_MD_CTX_new (EVP_MD_CTX := EVP_MD_CTX) with
      | None => mret (-1, out)
      | Some ctx =>
          context 1;;
          match (ctx ← EVP_DigestInit_ex ctx md; ctx ← EVP_DigestUpdate ctx data; EVP_DigestFinal_ex ctx) with
          | None => context (-1);; mret (-1, out)
          | Some digest => context (-1);; hex_result digest out hex_size
          end
      end
  | _, _ => mret (-1, default [] hex_out)
  end.

(** fread in chunks; a turn takes at least a byte. *)
Fixpoint update_chunks (fuel : nat) (ctx : EVP_MD_CTX) (rest : list byte) : option EVP_MD_CTX :=
  match fuel, take CHUNK_SIZE rest with
  | _, [] => Some ctx
  | O, _ => None
  | S fuel', buf => ctx ← EVP_DigestUpdate ctx buf; update_chunks fuel' ctx (drop CHUNK_SIZE rest)
  end.
(** [content]: what can be read of the file, if it can be opened, and whether reading then
    fails. *)
Definition hash_file (filepath : bool) (content : option (list byte * bool)) (md : MD) (hex_out : option (list byte)) (hex_size : Z)
    : C held (Z * list byte) :=
  match filepath, hex_out with
  | true, Some out =>
      match content with
      | None => mret (-1, out)
      | Some (data, ferror) =>
          file 1;;
          match EVP_MD_CTX_new (EVP_MD_CTX := EVP_MD_CTX) with
          | None => file (-1);; mret (-1, out)
          | Some ctx =>
              context 1;;
              match EVP_DigestInit_ex ctx md with
              | None => context (-1);; file (-1);; mret (-1, out)
              | Some ctx =>
                  match update_chunks (length data) ctx data with
                  | None => context (-1);; file (-1);; mret (-1, out)
                  | Some ctx =>
                      if ferror : bool then context (-1);; file (-1);; mret (-1, out) else
                      match EVP_DigestFinal_ex ctx with
                      | None => context (-1);; file (-1);; mret (-1, out)
                      | Some digest => context (-1);; file (-1);; hex_result digest out hex_size
                      end
                  end
              end
          end
      end
  | _, _ => mret (-1, default [] hex_out)
  end.

Context (EVP_md5 EVP_sha256 : MD).
Definition md5_file f c out n := hash_file f c EVP_md5 out n.
Definition md5_data d out n := hash_data d EVP_md5 out n.
Definition sha256_file f c out n := hash_file f c EVP_sha256 out n.
Definition sha256_data d out n := hash_data d EVP_sha256 out n.
End hash.

(** zlib: what compress2 and uncompress write into that much room, unless they fail. *)
Section compress.
Context (compress2 uncompress : list byte → Z → option (list byte)) (compressBound : Z → Z).
Definition compress_data (src : list byte) (dst_len : Z) : Z * list byte :=
  match compress2 src dst_len with None => (-1, []) | Some c => (s32 (strlen c), c) end.
Definition decompress_data (src : list byte) (dst_len : Z) : Z * list byte :=
  match uncompress src dst_len with None => (-1, []) | Some d => (s32 (strlen d), d) end.
Definition compress_bound_size (src_len : Z) : Z := compressBound src_len.
End compress.
End HashUtil.
