(* ===== verification/HashUtilSpec.v ===== *)
(** * linux-file-server: a file has the digest of its contents, in hexadecimal *)

From stdpp Require Import gmap.
From S2P Require Import Prelude HashUtil.

Module HashUtilSpec.
Import HashUtil.
#[local] Arguments Z.to_nat : simpl never.
#[local] Arguments Z.add : simpl never.

(** ** Hexadecimal *)

Definition hex_byte (d : byte) : list byte := [hex_char (Z.land (Z.shiftr (b2z d) 4) 0x0f); hex_char (Z.land (b2z d) 0x0f)].
Definition hex_text (ds : list byte) : list byte := mjoin (hex_byte <$> ds).
(** The bytes that such a text is for. *)
Definition nibble (c : byte) : Z := if is_digit c then b2z c - 48 else b2z c - 87.
Fixpoint unhex (s : list byte) : list byte :=
  match s with a :: b :: s' => z2b (16 * nibble a + nibble b) :: unhex s' | _ => [] end.
Lemma hex_byte_table d : unhex (hex_byte d) = [d] ∧ Forall (λ c, c ≠ x00) (hex_byte d).
Proof. destruct d; split; try reflexivity; repeat constructor; vm_compute; discriminate. Qed.
Lemma hash_hex_cons d ds : hex_text (d :: ds) = hex_byte d ++ hex_text ds.
Proof. done. Qed.
Lemma unhex_text ds : unhex (hex_text ds) = ds.
Proof.
  induction ds as [|d ds IH]; [done|]. rewrite hash_hex_cons. pose proof (proj1 (hex_byte_table d)) as Hd. cbn in *.
  rewrite IH. by injection Hd as ->.
Qed.
Lemma hash_hex_length ds : length (hex_text ds) = (2 * length ds)%nat.
Proof. induction ds as [|d ds IH]; [done|]. rewrite hash_hex_cons, length_app, IH. cbn [hex_byte length]. lia. Qed.
Lemma hex_text_nonul ds : nonul (hex_text ds).
Proof. induction ds as [|d ds IH]; [by constructor|]. rewrite hash_hex_cons. apply nonul_app. split; [apply hex_byte_table|done]. Qed.

(** The bytes for which there is room. *)
Definition shown (digest : list byte) (hex_size : Z) : list byte := take (Z.to_nat ((hex_size - 1) `div` 2)) digest.
Lemma store_at pre c0 post c : store (pre ++ c0 :: post) (length pre) c = Some (pre ++ c :: post).
Proof.
  unfold store. rewrite (proj2 (Nat.ltb_lt _ _)) by (rewrite length_app; cbn [length]; lia).
  by rewrite insert_app_r_alt, Nat.sub_diag by lia.
Qed.
Lemma digest_to_hex_run digest : ∀ pre post n, 1 ≤ n → (2 * length pre < Z.to_nat n)%nat → (Z.to_nat n ≤ length (hex_text pre ++ post))%nat →
  ∃ post', digest_to_hex (length pre) digest (hex_text pre ++ post) n =
    Some (hex_text (pre ++ take (Z.to_nat ((n - 1) `div` 2) - length pre) digest) ++ x00 :: post').
Proof.
  induction digest as [|d digest IH]; intros pre post n Hn Hp Hl; rewrite length_app, hash_hex_length in Hl.
  - destruct post as [|c post]; [cbn in Hl; lia|]. cbn [digest_to_hex]. exists post.
    rewrite <- hash_hex_length, store_at. by rewrite take_nil, app_nil_r.
  - assert (Hdiv : (n - 1) `div` 2 * 2 ≤ n - 1 < (n - 1) `div` 2 * 2 + 2) by (pose proof (Z.div_mod (n - 1) 2); pose proof (Z.mod_pos_bound (n - 1) 2); lia).
    cbn [digest_to_hex]. destruct (Z.ltb_spec (2 * Z.of_nat (length pre) + 2) n).
    + destruct post as [|c1 [|c2 post]]; [cbn in Hl; lia..|]. rewrite <- hash_hex_length, store_at. cbn [mbind option_bind].
      change (?a ++ ?x :: c2 :: post) with (a ++ [x] ++ c2 :: post). rewrite (assoc_L (++)).
      replace (length (hex_text pre) + 1)%nat with (length (hex_text pre ++ [hex_char (Z.land (Z.shiftr (b2z d) 4) 0x0f)])) by (rewrite length_app; done).
      rewrite store_at. cbn [mbind option_bind].
      destruct (IH (pre ++ [d]) post n) as (post' & E); [done|rewrite length_app; cbn; lia|rewrite length_app, hash_hex_length, length_app; cbn in *; lia|].
      exists post'. rewrite length_app in E. cbn [length] in E. rewrite Nat.add_1_r in E.
      replace (hex_text (pre ++ [d]) ++ post) with ((hex_text pre ++ [hex_char (Z.land (Z.shiftr (b2z d) 4) 15)]) ++ hex_char (Z.land (b2z d) 15) :: post) in E.
      2: { unfold hex_text. rewrite fmap_app, join_app, <- !(assoc_L (++)). done. }
      rewrite E. do 2 f_equal. f_equal. rewrite <- (assoc_L (++)). f_equal.
      replace (Z.to_nat ((n - 1) `div` 2) - length pre)%nat with (S (Z.to_nat ((n - 1) `div` 2) - S (length pre))) by lia. done.
    + destruct post as [|c post]; [cbn in Hl; lia|]. exists post. rewrite <- hash_hex_length, store_at.
      replace (Z.to_nat ((n - 1) `div` 2) - length pre)%nat with 0%nat by lia. by rewrite take_0, app_nil_r.
Qed.
Lemma hex_result_run digest out n h : 1 ≤ n → n ≤ strlen out → ∃ post,
  hex_result digest out n h = Ret ((0, hex_text (shown digest n) ++ x00 :: post), h).
Proof.
  intros Hn Hl. destruct (digest_to_hex_run digest [] out n) as (post & E); [done|cbn; lia|unfold strlen in Hl; cbn; lia|].
  exists post. unfold hex_result, shown. cbn [hex_text length app fmap list_fmap mjoin list_join] in E. rewrite E, Nat.sub_0_r. done.
Qed.

(** ** Chunks *)

(** What OpenSSL documents: hashing in pieces is hashing the whole. *)
Class EvpLaws (MD EVP_MD_CTX : Type) `{Evp MD EVP_MD_CTX} := {
  update_nil : ∀ c : EVP_MD_CTX, EVP_DigestUpdate c [] = Some c;
  update_app : ∀ (c : EVP_MD_CTX) a b, EVP_DigestUpdate c (a ++ b) = EVP_DigestUpdate c a ≫= (λ c1, EVP_DigestUpdate c1 b)
}.
Section file.
Context {MD EVP_MD_CTX : Type} `{EvpLaws MD EVP_MD_CTX}.
Lemma chunks_update fuel : ∀ (c : EVP_MD_CTX) rest, (length rest ≤ fuel)%nat → update_chunks fuel c rest = EVP_DigestUpdate c rest.
Proof.
  induction fuel as [|fuel IH]; intros c rest Hf; [destruct rest; [by rewrite update_nil|cbn in Hf; lia]|].
  destruct rest as [|b rest]; [by rewrite update_nil|]. cbn [update_chunks].
  rewrite <- (take_drop CHUNK_SIZE (b :: rest)) at 2. rewrite update_app. change (take CHUNK_SIZE (b :: rest)) with (b :: take 4095 rest).
  cbv iota. destruct (EVP_DigestUpdate c _) as [c1|]; [|done]. cbn [mbind option_bind]. apply IH. rewrite length_drop. unfold CHUNK_SIZE. cbn [length] in *. lia.
Qed.

Lemma add_back (a : Z) : a + 1 + -1 = a.
Proof. lia. Qed.
(** What was opened has been closed. *)
Ltac balance := unfold mbind, C_bind, option_bind, c_mod, mret, C_ret; cbn [contexts open_files]; rewrite !add_back; done.
(** C35. A file that can be read to its end has the digest of its contents, whatever its size
    and wherever OpenSSL fails; nothing stays open, also where the file cannot be read. *)
Theorem hash_file_contents content (md : MD) out n h : 1 ≤ n → n ≤ strlen out →
  ∃ r text, hash_file (EVP_MD_CTX := EVP_MD_CTX) true content md (Some out) n h = Ret ((r, text), h) ∧
    match content with
    | Some (data, false) => hash_data (EVP_MD_CTX := EVP_MD_CTX) (Some data) md (Some out) n h = Ret ((r, text), h) ∧
        (r = 0 → ∃ ctx digest, EVP_MD_CTX_new (EVP_MD_CTX := EVP_MD_CTX) = Some ctx ∧
           (c ← EVP_DigestInit_ex ctx md; c ← EVP_DigestUpdate c data; EVP_DigestFinal_ex c) = Some digest ∧
           cstr text = hex_text (shown digest n) ∧ unhex (cstr text) = shown digest n) ∧ (r = 0 ∨ r = -1 ∧ text = out)
    | _ => r = -1 ∧ text = out
    end.
Proof.
  intros Hn Hl. destruct h as [cs fs].
  assert (Hh : ∀ digest, ∃ text, hex_result digest out n (Held cs fs) = Ret ((0, text), Held cs fs) ∧ cstr text = hex_text (shown digest n) ∧
     unhex (cstr text) = shown digest n).
  { intros digest. destruct (hex_result_run digest out n (Held cs fs) Hn Hl) as (post & E). eexists. split; [exact E|].
    rewrite cstr_app_nul by apply hex_text_nonul. split; [done|apply unhex_text]. }
  unfold hash_file, hash_data, context, file. destruct content as [[data ferr]|]; [|by do 2 eexists].
  destruct (EVP_MD_CTX_new (EVP_MD_CTX := EVP_MD_CTX)) as [ctx|].
  2: { exists (-1), out. split; [balance|]. destruct ferr; [done|]. split_and!; [done|done|by right]. }
  destruct (EVP_DigestInit_ex ctx md) as [c|] eqn:Ei.
  2: { exists (-1), out. split; [balance|]. destruct ferr; [done|]. split_and!; [balance|done|by right]. }
  rewrite chunks_update by done. cbn [mbind option_bind]. destruct (EVP_DigestUpdate c data) as [c1|] eqn:Eu.
  2: { exists (-1), out. split; [balance|]. destruct ferr; [done|]. split_and!; [balance|done|by right]. }
  cbn [mbind option_bind]. destruct ferr; [exists (-1), out; split; [balance|done]|].
  destruct (EVP_DigestFinal_ex c1) as [digest|] eqn:Ef.
  2: { exists (-1), out. split; [balance|]. split_and!; [balance|done|by right]. }
  destruct (Hh digest) as (text & E & Ht). exists 0, text. split; [balance|].
  split_and!; [balance| |by left]. intros _. exists ctx, digest. split_and!; [done|by rewrite Ei; cbn [mbind option_bind]; rewrite Eu|apply Ht|apply Ht].
Qed.
End file.

(** ** Witness: a digest that counts and adds *)

Definition toy (n : N) (l : list byte) : N := foldl (λ a b, (a * 31 + Byte.to_N b) `mod` 65536)%N n l.
#[local] Instance toy_evp : Evp N N := {
  EVP_MD_CTX_new := Some 0%N;
  EVP_DigestInit_ex := λ _ md, Some md;
  EVP_DigestUpdate := λ c l, Some (toy c l);
  EVP_DigestFinal_ex := λ c, Some [z2b (Z.of_N c); z2b (Z.of_N (c / 256))]
}.
#[local] Instance toy_laws : EvpLaws N N.
Proof. split; [done|]. intros c a b. cbn. f_equal. apply foldl_app. Defined.
Lemma hash_file_contents_witness : ∃ text,
  hash_file (EVP_MD_CTX := N) true (Some (replicate 5000 x61, false)) 7%N (Some (replicate 33 xff)) 33 (Held 0 1) = Ret ((0, text), Held 0 1) ∧
  length (unhex (cstr text)) = 2%nat.
Proof.
  destruct (hash_file_contents (EVP_MD_CTX := N) (Some (replicate 5000 x61, false)) 7%N (replicate 33 xff) 33 (Held 0 1)) as (r & text & E & Ed & Hr & Hor);
    [lia|vm_compute; discriminate|].
  assert (r = 0) as -> by (destruct Hor as [->|[-> _]]; [reflexivity|]; vm_compute in Ed; discriminate).
  exists text. split; [exact E|]. destruct (Hr eq_refl) as (ctx & digest & _ & Hd & _ & ->).
  vm_compute in Hd. injection Hd as <-. reflexivity.
Defined.
End HashUtilSpec.
