(* ===== verification/SslWrap.v ===== *)
(** * linux-file-server: TLS (linux-file-server/src/ssl_wrap.c)

    OpenSSL's answers are scripts: what SSL_write takes and SSL_read gives, and whether each
    call of the set-up succeeds.  Its error queue and standard error are in the state. *)

From stdpp Require Import gmap.
From S2P Require Import Prelude.

Module SslWrap.
#[local] Arguments Z.to_nat : simpl never.

(** SSL_ERROR_WANT_READ or _WANT_WRITE, a failure with what it queues, a number of bytes. *)
Inductive write_t := WWant | WFail (err : Z) (queued : list (list byte)) | WSome (n : Z).
Inductive read_t := RWant | RClosed | RFail (err : Z) (queued : list (list byte)) | RSome (bs : list byte).
(** One connection: what was sent, the scripts, and the process's error queue. *)
Record ssl := Ssl { sent : list byte; writes : list write_t; inbox : list read_t; errors : list (list byte); stderr : list byte }.
Definition eprint (t : list byte) : C ssl unit := c_mod (λ s, Ssl s.(sent) s.(writes) s.(inbox) s.(errors) (s.(stderr) ++ t)).
Definition queue (es : list (list byte)) : C ssl unit := c_mod (λ s, Ssl s.(sent) s.(writes) s.(inbox) (s.(errors) ++ es) s.(stderr)).
Definition SSL_ERROR_SSL : Z := 1.

(** ERR_get_error until it is 0; each text in a buffer of 256 bytes. *)
Fixpoint print_queue (es : list (list byte)) : C ssl unit :=
  match es with [] => mret tt | e :: es' => eprint (str "OpenSSL error: " ++ take 255 e ++ [x0a]);; print_queue es' end.
Definition ssl_print_errors : C ssl unit :=
  s ← c_get;
  print_queue s.(errors);;
  c_mod (λ s, Ssl s.(sent) s.(writes) s.(inbox) [] s.(stderr)).

(** After a call that failed with [err], [None] to try again: whatever is in the error
    queue, from this call or an earlier one, makes it SSL_ERROR_SSL. *)
Definition get_error (errors : list (list byte)) (err : option Z) : option Z := match errors with [] => err | _ => Some SSL_ERROR_SSL end.
Definition SSL_get_error (err : option Z) : C ssl (option Z) := s ← c_get; mret (get_error s.(errors) err).

(** SSL_write and SSL_read: a number of bytes, or what SSL_get_error then says.  A length
    of 0 is undefined, a negative one an error. *)
Definition SSL_write (data : list byte) (num : Z) : C ssl (Z + option Z) :=
  if num =? 0 then c_ub else
  if num <? 0 then queue [str "bad length"];; r ← SSL_get_error (Some SSL_ERROR_SSL); mret (inr r) else
  s ← c_get;
  match s.(writes) with
  | [] => c_mod (λ s, Ssl (s.(sent) ++ take (Z.to_nat num) data) [] s.(inbox) s.(errors) s.(stderr));; mret (inl num)
  | WWant :: ws => c_mod (λ s, Ssl s.(sent) ws s.(inbox) s.(errors) s.(stderr));; r ← SSL_get_error None; mret (inr r)
  | WFail e q :: ws => c_mod (λ s, Ssl s.(sent) ws s.(inbox) s.(errors) s.(stderr));; queue q;; r ← SSL_get_error (Some e); mret (inr r)
  | WSome n :: ws =>
      let n := Z.max 1 (Z.min n num) in
      c_mod (λ s, Ssl (s.(sent) ++ take (Z.to_nat n) data) ws s.(inbox) s.(errors) s.(stderr));; mret (inl n)
  end.
Definition set_inbox (i : list read_t) : C ssl unit := c_mod (λ s, Ssl s.(sent) s.(writes) i s.(errors) s.(stderr)).
(** Bytes, the end of the connection ([inl \[\]]), or as for SSL_write. *)
Definition SSL_read (num : Z) : C ssl (list byte + option Z) :=
  if num =? 0 then c_ub else
  if num <? 0 then queue [str "bad length"];; r ← SSL_get_error (Some SSL_ERROR_SSL); mret (inr r) else
  s ← c_get;
  match s.(inbox) with
  | [] => c_blocked
  | RWant :: i => set_inbox i;; r ← SSL_get_error None; mret (inr r)
  | RClosed :: i => set_inbox i;; mret (inl [])
  | RFail e q :: i => set_inbox i;; queue q;; r ← SSL_get_error (Some e); mret (inr r)
  | RSome bs :: i =>
      match bs with
      | [] => set_inbox i;; r ← SSL_get_error None; mret (inr r)
      | _ => set_inbox (if strlen bs <=? num then i else RSome (drop (Z.to_nat num) bs) :: i);; mret (inl (take (Z.to_nat num) bs))
      end
  end.

(** The loops; a turn uses up an entry of the script or sends bytes. *)
Fixpoint send_loop (fuel : nat) (rest : list byte) : C ssl Z :=
  match rest with
  | [] => mret 0
  | _ =>
    match fuel with
    | O => c_fuel
    | S fuel' =>
        r ← SSL_write rest (s32 (strlen rest));
        match r with
        | inl ret => send_loop fuel' (drop (Z.to_nat ret) rest)
        | inr None => send_loop fuel' rest
        | inr (Some err) => eprint (str "ssl_send_all: SSL_write error " ++ dec err ++ [x0a]);; ssl_print_errors;; mret (-1)
        end
    end
  end.
Definition ssl_send_all (buf : option (list byte)) : C ssl Z :=
  match buf with
  | None => mret (-1)
  | Some data => s ← c_get; send_loop (length s.(writes) + length data) data
  end.
Fixpoint recv_loop (fuel : nat) (remaining : Z) (got : list byte) : C ssl (Z * list byte) :=
  if 0 <? remaining then
    match fuel with
    | O => c_fuel
    | S fuel' =>
        r ← SSL_read (s32 remaining);
        match r with
        | inl [] => eprint (str "ssl_recv_all: connection closed by peer" ++ [x0a]);; mret (-1, got)
        | inl bs => recv_loop fuel' (remaining - strlen bs) (got ++ bs)
        | inr None => recv_loop fuel' remaining got
        | inr (Some err) => eprint (str "ssl_recv_all: SSL_read error " ++ dec err ++ [x0a]);; ssl_print_errors;; mret (-1, got)
        end
    end
  else mret (0, got).
(** The bytes are those stored in the buffer. *)
Definition ssl_recv_all (buf : bool) (len : nat) : C ssl (Z * list byte) :=
  if negb buf then mret (-1, []) else
  s ← c_get; recv_loop (length s.(inbox) + len) (Z.of_nat len) [].

(** ** Contexts and handshakes *)

(** The objects of OpenSSL that exist, with what was set on the contexts. *)
Record ctx := Ctx { is_server : bool; min_version : Z; verify_peer : bool; certificate : option (list byte); private_key : option (list byte) }.
Definition TLS1_2_VERSION : Z := 0x0303.
Record library := Library { contexts : list ctx; sessions : Z; log : list (list byte) }.
(** The calls of the set-up: SSL_CTX_new, the two files, their match, SSL_new, SSL_set_fd,
    SSL_do_handshake. *)
Record answers := Answers { ctx_new : bool; use_certificate : bool; use_key : bool; check_key : bool; ssl_new : bool; set_fd : bool; handshake : bool }.
Definition note (t : list byte) : C library unit := c_mod (λ l, Library l.(contexts) l.(sessions) (l.(log) ++ [t])).
Definition SSL_CTX_new (c : ctx) : C library unit := c_mod (λ l, Library (c :: l.(contexts)) l.(sessions) l.(log)).
Definition set_ctx (f : ctx → ctx) : C library unit :=
  c_mod (λ l, match l.(contexts) with c :: cs => Library (f c :: cs) l.(sessions) l.(log) | [] => l end).
Definition SSL_CTX_free : C library unit := c_mod (λ l, Library (tail l.(contexts)) l.(sessions) l.(log)).
Definition session (n : Z) : C library unit := c_mod (λ l, Library l.(contexts) (l.(sessions) + n) l.(log)).

Definition ssl_init_global (init_ssl : Z) : Z := if init_ssl =? 0 then -1 else 0.
Definition ssl_create_server_ctx (a : answers) (cert_file key_file : option (list byte)) : C library bool :=
  match cert_file, key_file with
  | Some cert, Some key =>
      if negb a.(ctx_new) then note (str "ssl_create_server_ctx: SSL_CTX_new failed");; mret false else
      SSL_CTX_new (Ctx true 0 false None None);;
      set_ctx (λ c, Ctx c.(is_server) TLS1_2_VERSION c.(verify_peer) c.(certificate) c.(private_key));;
      if negb a.(use_certificate) then note (str "ssl_create_server_ctx: failed to load cert: " ++ cert);; SSL_CTX_free;; mret false else
      set_ctx (λ c, Ctx c.(is_server) c.(min_version) c.(verify_peer) (Some cert) c.(private_key));;
      if negb a.(use_key) then note (str "ssl_create_server_ctx: failed to load key: " ++ key);; SSL_CTX_free;; mret false else
      set_ctx (λ c, Ctx c.(is_server) c.(min_version) c.(verify_peer) c.(certificate) (Some key));;
      if negb a.(check_key) then note (str "ssl_create_server_ctx: private key does not match certificate");; SSL_CTX_free;; mret false else
      mret true
  | _, _ => note (str "ssl_create_server_ctx: cert_file and key_file required");; mret false
  end.
Definition ssl_create_client_ctx (a : answers) : C library bool :=
  if negb a.(ctx_new) then note (str "ssl_create_client_ctx: SSL_CTX_new failed");; mret false else
  SSL_CTX_new (Ctx false 0 false None None);;
  set_ctx (λ c, Ctx c.(is_server) TLS1_2_VERSION c.(verify_peer) c.(certificate) c.(private_key));;
  set_ctx (λ c, Ctx c.(is_server) c.(min_version) false c.(certificate) c.(private_key));;
  mret true.
Definition ssl_do_handshake (a : answers) : C library Z :=
  if a.(handshake) then mret 0 else note (str "ssl_do_handshake: failed");; mret (-1).
Definition ssl_wrap_fd (a : answers) (ctx : bool) (fd : Z) : C library bool :=
  if negb ctx || (fd <? 0) then note (str "ssl_wrap_fd: invalid arguments");; mret false else
  if negb a.(ssl_new) then note (str "ssl_wrap_fd: SSL_new failed");; mret false else
  session 1;;
  if negb a.(set_fd) then note (str "ssl_wrap_fd: SSL_set_fd failed");; session (-1);; mret false else
  z ← ssl_do_handshake a;
  if negb (z =? 0) then note (str "ssl_wrap_fd: handshake failed");; session (-1);; mret false else
  mret true.
End SslWrap.
