(* ===== verification/SslWrapSpec.v ===== *)
(** * linux-file-server: what one side sends over TLS the other receives *)

From stdpp Require Import gmap.
From S2P Require Import Prelude SslWrap.

Module SslWrapSpec.
Import SslWrap.
#[local] Arguments Z.to_nat : simpl never.

(** What is printed of an error, and after a failed write. *)
Definition error_line (e : list byte) : list byte := str "OpenSSL error: " ++ take 255 e ++ [x0a].
Definition report (err : Z) (q : list (list byte)) : list byte := str "ssl_send_all: SSL_write error " ++ dec err ++ [x0a] ++ mjoin (error_line <$> q).

Lemma print_queue_run es : ∀ s, print_queue es s = Ret (tt, Ssl s.(sent) s.(writes) s.(inbox) s.(errors) (s.(stderr) ++ mjoin (error_line <$> es))).
Proof.
  induction es as [|e es IH]; intros s; [destruct s; cbn; by rewrite app_nil_r|]. cbn [print_queue fmap list_fmap mjoin list_join]. unfold eprint.
  erewrite bind_Ret by reflexivity. rewrite IH. cbn [sent writes inbox errors stderr]. unfold error_line. by rewrite <- !(assoc_L (++)).
Qed.
Lemma print_errors_run s : ssl_print_errors s = Ret (tt, Ssl s.(sent) s.(writes) s.(inbox) [] (s.(stderr) ++ mjoin (error_line <$> s.(errors)))).
Proof. unfold ssl_print_errors. erewrite bind_Ret by reflexivity. by c_step (print_queue_run s.(errors) s). Qed.
Lemma s32_positive n : 0 < n < 2 ^ 31 → s32 n = n ∧ (s32 n =? 0) = false ∧ (s32 n <? 0) = false.
Proof. intros H. rewrite s32_small by lia. split_and!; lia. Qed.

(** ** Sending *)

(** An answer that ends ssl_send_all, with [errs] in the queue: the error and the queue. *)
Definition refused (errs : list (list byte)) (w : write_t) : option (Z * list (list byte)) :=
  match w with
  | WSome _ => None
  | WWant => (λ e, (e, errs)) <$> get_error errs None
  | WFail e q => (λ e, (e, errs ++ q)) <$> get_error (errs ++ q) (Some e)
  end.
(** SSL_write with a positive length: what of the script is used. *)
Lemma SSL_write_run data s : data ≠ [] → strlen data < 2 ^ 31 → ∃ r s1, SSL_write data (s32 (strlen data)) s = Ret (r, s1) ∧
  s1.(writes) = tail s.(writes) ∧ s1.(stderr) = s.(stderr) ∧
  match r with
  | inl n => 1 ≤ n ≤ strlen data ∧ s1.(sent) = s.(sent) ++ take (Z.to_nat n) data ∧ s1.(errors) = s.(errors) ∧
      (∀ w, head s.(writes) = Some w → refused s.(errors) w = None)
  | inr None => ∃ w ws, s.(writes) = w :: ws ∧ refused s.(errors) w = None ∧ s1.(sent) = s.(sent) ∧ s1.(errors) = s.(errors)
  | inr (Some err) => ∃ w ws, s.(writes) = w :: ws ∧ refused s.(errors) w = Some (err, s1.(errors)) ∧ s1.(sent) = s.(sent)
  end.
Proof.
  intros Hd Hl. assert (0 < strlen data) by (unfold strlen; destruct data; [done|cbn; lia]). unfold SSL_write.
  destruct (s32_positive (strlen data)) as (E & -> & ->); [lia|]. rewrite E. destruct s as [st ws ib er out].
  erewrite bind_Ret by reflexivity. cbn [writes]. destruct ws as [|[|e q|n] ws].
  - do 2 eexists. split; [reflexivity|]. cbn. split_and!; [done|done|lia|lia|done|done|done].
  - do 2 eexists. split; [reflexivity|]. cbn. split; [done|]. split; [done|]. destruct er as [|e0 er]; by exists WWant, ws.
  - do 2 eexists. split; [reflexivity|]. cbn. split; [done|]. split; [done|]. destruct (er ++ q) eqn:Eq; cbn; exists (WFail e q), ws; cbn; by rewrite Eq.
  - do 2 eexists. split; [reflexivity|]. cbn. split_and!; [done|done|lia|lia|done|done|by intros w [= <-]].
Qed.
Lemma send_loop_turn fuel data : data ≠ [] → send_loop (S fuel) data =
  (r ← SSL_write data (s32 (strlen data));
   match r with
   | inl ret => send_loop fuel (drop (Z.to_nat ret) data)
   | inr None => send_loop fuel data
   | inr (Some err) => eprint (str "ssl_send_all: SSL_write error " ++ dec err ++ [x0a]);; ssl_print_errors;; mret (-1)
   end).
Proof. by destruct data. Qed.

(** How ssl_send_all ends, [used] being the answers it got: none of them an error, and all
    of the data sent; or the last an error, which is printed with the queue, and a part of
    the data sent. *)
Definition sent_all (data : list byte) (s s' : ssl) (used : list write_t) : Prop :=
  Forall (λ w, refused s.(errors) w = None) used ∧ s'.(sent) = s.(sent) ++ data ∧ s'.(errors) = s.(errors) ∧ s'.(stderr) = s.(stderr).
Definition gave_up (data : list byte) (s s' : ssl) (used : list write_t) : Prop := ∃ before w err q k,
  used = before ++ [w] ∧ Forall (λ w, refused s.(errors) w = None) before ∧ refused s.(errors) w = Some (err, q) ∧
  (k < length data)%nat ∧ s'.(sent) = s.(sent) ++ take k data ∧ s'.(errors) = [] ∧ s'.(stderr) = s.(stderr) ++ report err q.
(** A turn that goes on after [n] bytes. *)
Lemma gave_up_turn n data s s1 s' used0 used : s1.(errors) = s.(errors) → s1.(stderr) = s.(stderr) → s1.(sent) = s.(sent) ++ take n data →
  (n ≤ length data)%nat → Forall (λ w, refused s.(errors) w = None) used0 → gave_up (drop n data) s1 s' used → gave_up data s s' (used0 ++ used).
Proof.
  intros He Hp Hs Hn H0 (before & w & err & q & k & -> & Hb & Hw & Hk & Hs' & He' & Hp'). exists (used0 ++ before), w, err, q, (n + k)%nat.
  rewrite length_drop in Hk. rewrite Hs', He', Hp', Hp, Hs, <- !(assoc_L (++)), take_take_drop. rewrite He in *.
  split_and!; [done|by apply Forall_app|done|lia|done..].
Qed.
Lemma ssl_send_loop_run fuel : ∀ rest s, (length s.(writes) + length rest ≤ fuel)%nat → strlen rest < 2 ^ 31 → ∃ r s' used,
  send_loop fuel rest s = Ret (r, s') ∧ s.(writes) = used ++ s'.(writes) ∧
  (r = 0 ∧ sent_all rest s s' used ∨ r = -1 ∧ gave_up rest s s' used).
Proof.
  assert (Hnil : ∀ fuel s, ∃ r s' used, send_loop fuel [] s = Ret (r, s') ∧ s.(writes) = used ++ s'.(writes) ∧
    (r = 0 ∧ sent_all [] s s' used ∨ r = -1 ∧ gave_up [] s s' used)).
  { intros f s. exists 0, s, []. split; [by destruct f|]. split; [done|]. left. unfold sent_all. by rewrite app_nil_r. }
  induction fuel as [|fuel IH]; intros rest s Hf Hl; (destruct (decide (rest = [])) as [->|Hne]; [apply Hnil|]); [destruct rest; [done|cbn in Hf; lia]|].
  rewrite send_loop_turn by done. destruct (SSL_write_run rest s Hne Hl) as (r & s1 & E & Hw & Hp & Hr). c_step E. destruct r as [n|[err|]].
  - destruct Hr as (Hn & Hs & He & Hh). unfold strlen in *. destruct (IH (drop (Z.to_nat n) rest) s1) as (r & s2 & used & E2 & Hw2 & Hc).
    { rewrite Hw, length_drop. destruct (writes s); cbn in *; lia. }
    { unfold strlen. rewrite length_drop. lia. }
    exists r, s2, (take 1 s.(writes) ++ used). split; [done|]. split; [rewrite <- (assoc_L (++)), <- Hw2, Hw; by destruct (writes s)|].
    assert (H1 : Forall (λ w, refused s.(errors) w = None) (take 1 s.(writes))) by (destruct (writes s); repeat constructor; by apply Hh).
    destruct Hc as [(-> & Hu & Hs2 & He2 & Hp2)|[-> Hg]]; [left|right; (split; [done|]); by eapply gave_up_turn; [..|done]; [| | |lia|]].
    split; [done|]. unfold sent_all. rewrite He in Hu. rewrite Hs2, He2, Hp2, Hs, <- (assoc_L (++)), take_drop. by rewrite Forall_app.
  - destruct Hr as (w & ws & Ew & Hw' & Hs). unfold eprint. erewrite bind_Ret by reflexivity. erewrite bind_Ret by apply print_errors_run. do 2 eexists. exists [w].
    split; [reflexivity|]. cbn [sent writes inbox errors stderr]. split; [by rewrite Hw, Ew|]. right. split; [done|].
    exists [], w, err, s1.(errors), 0%nat. cbn [sent errors stderr]. unfold report. rewrite Hs, Hp, take_0, app_nil_r, <- !(assoc_L (++)).
    split_and!; try done. destruct rest; [done|cbn; lia].
  - destruct Hr as (w & ws & Ew & Hw' & Hs & He). rewrite Ew in *. cbn [tail] in Hw.
    destruct (IH rest s1) as (r & s2 & used & E2 & Hw2 & Hc); [rewrite Hw; cbn in *; lia|done|]. rewrite Hw in Hw2.
    exists r, s2, (w :: used). split; [done|]. split; [cbn; by rewrite Hw2|].
    destruct Hc as [(-> & Hu & Hs2 & He2 & Hp2)|[-> Hg]]; [left|right]; (split; [done|]).
    + unfold sent_all. rewrite He in Hu. rewrite Hs2, He2, Hp2, Hs. split_and!; [by constructor|done..|congruence].
    + apply (gave_up_turn 0 rest s s1 s2 [w]); rewrite ?take_0, ?drop_0, ?app_nil_r; [done..|lia|by constructor|done].
Qed.

(** ** Receiving *)

(** The bytes that a script brings before the connection ends or fails. *)
Fixpoint arriving (i : list read_t) : list byte :=
  match i with RSome bs :: i' => bs ++ arriving i' | RWant :: i' => arriving i' | _ => [] end.
Lemma SSL_read_run n s : s.(errors) = [] → 0 < n < 2 ^ 31 → arriving s.(inbox) ≠ [] → ∃ r s1, SSL_read (s32 n) s = Ret (r, s1) ∧
  s1.(errors) = [] ∧
  match r with
  | inl bs => bs ≠ [] ∧ strlen bs ≤ n ∧ arriving s.(inbox) = bs ++ arriving s1.(inbox) ∧ (length s1.(inbox) ≤ length s.(inbox))%nat
  | inr None => arriving s1.(inbox) = arriving s.(inbox) ∧ length s.(inbox) = S (length s1.(inbox))
  | inr (Some _) => False
  end.
Proof.
  intros He Hn Ha. unfold SSL_read. destruct (s32_positive n Hn) as (E & -> & ->). rewrite E. destruct s as [st ws ib er out].
  erewrite bind_Ret by reflexivity. cbn [inbox errors] in *. subst er. destruct ib as [|[| |e q|bs] ib]; try done.
  - do 2 eexists. split; [reflexivity|]. by cbn.
  - destruct bs as [|b bs]; [do 2 eexists; split; [reflexivity|]; by cbn|]. destruct (Z.leb_spec (strlen (b :: bs)) n) as [Hle|Hgt].
    + exists (inl (b :: bs)). eexists. split; [unfold set_inbox; erewrite bind_Ret by reflexivity; rewrite take_ge by (unfold strlen in Hle; lia); reflexivity|].
      cbn. split_and!; [done|done|done|done|lia].
    + exists (inl (take (Z.to_nat n) (b :: bs))). eexists. split; [reflexivity|]. cbn [inbox errors arriving length].
      assert (Hlen : length (take (Z.to_nat n) (b :: bs)) = Z.to_nat n) by (rewrite length_take; unfold strlen in Hgt; lia).
      split_and!; [done| |unfold strlen; lia|by rewrite (assoc_L (++)), take_drop|done].
      intros Hnil. rewrite Hnil in Hlen. cbn in Hlen. lia.
Qed.
Lemma ssl_recv_loop_run fuel : ∀ need got s, s.(errors) = [] → (length s.(inbox) + need ≤ fuel)%nat → Z.of_nat need < 2 ^ 31 → (need ≤ length (arriving s.(inbox)))%nat → ∃ s',
  recv_loop fuel (Z.of_nat need) got s = Ret ((0, got ++ take need (arriving s.(inbox))), s') ∧ s'.(errors) = [] ∧
  arriving s'.(inbox) = drop need (arriving s.(inbox)).
Proof.
  induction fuel as [|fuel IH]; intros need got s He Hf Hb Hl.
  { assert (need = 0)%nat as -> by lia. exists s. by rewrite take_0, app_nil_r, drop_0. }
  cbn [recv_loop]. destruct (Z.ltb_spec 0 (Z.of_nat need)) as [Hp|Hz].
  2: { assert (need = 0)%nat as -> by lia. exists s. by rewrite take_0, app_nil_r, drop_0. }
  destruct (SSL_read_run (Z.of_nat need) s) as (r & s1 & E & Hs & Hr); [done|lia|intros Hn; rewrite Hn in Hl; cbn in Hl; lia|]. c_step E.
  destruct r as [bs|[err|]]; [|done|].
  - destruct Hr as (Hne & Hbl & Ha & Hi). destruct bs as [|b bs]; [done|]. cbv iota. set (d := b :: bs) in *. clearbody d.
    assert (0 < length d)%nat by (destruct d; [done|cbn; lia]). unfold strlen in *. rewrite Ha, length_app in Hl.
    destruct (IH (need - length d)%nat (got ++ d) s1) as (s2 & E2 & Hs2 & Ha2); [done|lia|lia|lia|].
    exists s2. replace (Z.of_nat need - Z.of_nat (length d)) with (Z.of_nat (need - length d)) by lia.
    fold (strlen d). unfold strlen.
    rewrite E2, Ha, Ha2, take_app_ge, drop_app_ge, (assoc_L (++)) by lia. done.
  - destruct Hr as [Ha Hi]. destruct (IH need got s1) as (s2 & E2 & Hs2 & Ha2); [done|lia|done|by rewrite Ha|].
    exists s2. rewrite E2, Ha, Ha2, Ha. done.
Qed.

(** C36. A sender of less than 2^31 bytes and a receiver: however OpenSSL splits, delays and
    repeats, ssl_send_all returns; with 0 it has sent all of the data once and in order,
    and a receiver that asks for as much gets exactly that and leaves what comes after it;
    with -1 an answer was an error or came on top of an old one in the queue, a proper
    prefix was sent, and the error and each one queued have been printed. *)
Theorem ssl_stream data s t rest : strlen data < 2 ^ 31 → ∃ r s' used, ssl_send_all (Some data) s = Ret (r, s') ∧ s.(writes) = used ++ s'.(writes) ∧
  (r = 0 ∧ sent_all data s s' used ∧
   (t.(errors) = [] → arriving t.(inbox) = data ++ rest →
    ∃ t', ssl_recv_all true (length data) t = Ret ((0, data), t') ∧ arriving t'.(inbox) = rest) ∨
   r = -1 ∧ gave_up data s s' used).
Proof.
  intros Hl. destruct (ssl_send_loop_run (length s.(writes) + length data) data s) as (r & s' & used & E & Hw & Hc); [lia|done|].
  exists r, s', used. unfold ssl_send_all. erewrite bind_Ret by reflexivity. split_and!; [done|done|].
  destruct Hc as [[-> Hk]|Hg]; [left|by right]. split_and!; [done|done|]. intros He Ha.
  destruct (ssl_recv_loop_run (length t.(inbox) + length data) (length data) [] t) as (t' & E2 & _ & Ha2); [done|lia|done|rewrite Ha, length_app; lia|].
  exists t'. unfold ssl_recv_all. cbn [negb]. erewrite bind_Ret by reflexivity. rewrite E2, Ha2, Ha, take_app_length, drop_app_length. done.
Qed.

(** ** Set-up *)

(** Whichever calls fail: a context is made for a server only with the certificate and the
    key that were asked for, which match, and from TLS 1.2 on; otherwise none is left, nor a
    session without a handshake. *)
Lemma ssl_setup a cert key ctx fd l : ∃ ok l1 ok2 l2,
  ssl_create_server_ctx a cert key l = Ret (ok, l1) ∧ l1.(sessions) = l.(sessions) ∧
  (if ok : bool then a.(use_certificate) = true ∧ a.(use_key) = true ∧ a.(check_key) = true ∧
                      is_Some cert ∧ is_Some key ∧ l1.(contexts) = Ctx true TLS1_2_VERSION false cert key :: l.(contexts)
   else l1.(contexts) = l.(contexts)) ∧
  ssl_wrap_fd a ctx fd l = Ret (ok2, l2) ∧ l2.(contexts) = l.(contexts) ∧
  (if ok2 : bool then a.(handshake) = true ∧ 0 ≤ fd ∧ l2.(sessions) = l.(sessions) + 1 else l2.(sessions) = l.(sessions)).
Proof.
  assert (∃ ok2 l2, ssl_wrap_fd a ctx fd l = Ret (ok2, l2) ∧ l2.(contexts) = l.(contexts) ∧
    (if ok2 : bool then a.(handshake) = true ∧ 0 ≤ fd ∧ l2.(sessions) = l.(sessions) + 1 else l2.(sessions) = l.(sessions))) as (ok2 & l2 & E2 & H2).
  { unfold ssl_wrap_fd, ssl_do_handshake. destruct ctx, (Z.ltb_spec fd 0), (ssl_new a), (set_fd a), (handshake a); cbn [negb orb];
      (do 2 eexists; split; [reflexivity|]); cbn; (split; [done|]); try lia; (split_and!; done || lia). }
  destruct cert as [cert|]; [|exists false; eexists; exists ok2, l2; split; [reflexivity|by cbn]].
  destruct key as [key|]; [|exists false; eexists; exists ok2, l2; split; [reflexivity|by cbn]].
  unfold ssl_create_server_ctx. destruct (ctx_new a), (use_certificate a), (use_key a), (check_key a); cbn [negb];
    (eexists; eexists; exists ok2, l2; split; [reflexivity|]); cbn; (split_and!; done || apply H2 || by eexists).
Qed.

(** ** Witness *)

Definition wit_sender : ssl := Ssl [] [WSome 2; WWant; WSome 1] [] [] [].
Definition wit_receiver : ssl := Ssl [] [] [RSome (str "he"); RWant; RSome (str "llo, you")] [] [].
Lemma ssl_stream_witness : ∃ s' t', ssl_send_all (Some (str "hello")) wit_sender = Ret (0, s') ∧ s'.(sent) = str "hello" ∧
  ssl_recv_all true 5 wit_receiver = Ret ((0, str "hello"), t') ∧ arriving t'.(inbox) = str ", you".
Proof.
  destruct (ssl_stream (str "hello") wit_sender wit_receiver (str ", you")) as (r & s' & used & E & Hw & [(-> & (_ & Hs & _) & Hr)|(_ & Hg)]);
    [vm_compute; reflexivity| |].
  - destruct (Hr eq_refl eq_refl) as (t' & Et & Ht). exists s', t'. split; [exact E|]. split; [exact Hs|]. split; [exact Et|exact Ht].
  - exfalso. destruct Hg as (before & w & err & q & k & -> & _ & Hx & _). assert (Hi : w ∈ [WSome 2; WWant; WSome 1]).
    { change [WSome 2; WWant; WSome 1] with (writes wit_sender). rewrite Hw, !elem_of_app, list_elem_of_singleton. tauto. }
    rewrite !elem_of_cons, elem_of_nil in Hi. by destruct_or! Hi; subst w.
Defined.
End SslWrapSpec.
