(* ===== verification/Metadata.v ===== *)
(** * linux-file-server: the metadata store (linux-file-server/src/metadata.c)

    SQLite is an interface: opening, executing a text, preparing a statement and running it
    with values bound to its marks.  What the functions pass to the log is a trace. *)

From stdpp Require Import gmap.
From S2P Require Import Prelude.

Module Metadata.
#[local] Arguments Z.to_nat : simpl never.

(** ** SQLite *)

Inductive value := VText (s : list byte) | VInt (z : Z).
(** What calls of sqlite3_step give: rows and then the end or an error, SQLITE_DONE with the
    number of rows changed, or an error; a cell may be NULL. *)
Inductive result := Rows (rs : list (list (option value))) (complete : bool) | Done (changes : Z) | Failed.
Class Sqlite (DB : Type) := {
  sqlite3_open : list byte → option DB;
  sqlite3_exec : DB → list byte → option DB;
  sqlite3_prepare : DB → list byte → bool;
  sqlite3_step : DB → list byte → list value → result * DB
}.
Definition column_text (row : list (option value)) (i : nat) : option (list byte) :=
  match row !! i with Some (Some (VText s)) => Some s | _ => None end.
Definition column_int64 (row : list (option value)) (i : nat) : Z :=
  match row !! i with Some (Some (VInt z)) => z | _ => 0 end.
Definition column_int (row : list (option value)) (i : nat) : Z := s32 (column_int64 row i).
Definition s64 (z : Z) : Z := (z + 2 ^ 63) `mod` 2 ^ 64 - 2 ^ 63.

Definition SCHEMA_SQL : list byte :=
  str "CREATE TABLE IF NOT EXISTS files (" ++ str "    id INTEGER PRIMARY KEY AUTOINCREMENT," ++
  str "    filename TEXT UNIQUE NOT NULL," ++ str "    size INTEGER NOT NULL," ++ str "    md5 TEXT," ++
  str "    upload_time TEXT DEFAULT (datetime('now'))," ++ str "    upload_user TEXT," ++
  str "    permissions INTEGER DEFAULT 644" ++ str ");" ++
  str "CREATE TABLE IF NOT EXISTS transfers (" ++ str "    id INTEGER PRIMARY KEY AUTOINCREMENT," ++
  str "    filename TEXT NOT NULL," ++ str "    user TEXT," ++
  str "    direction TEXT CHECK(direction IN ('upload','download'))," ++ str "    bytes INTEGER," ++
  str "    start_time TEXT DEFAULT (datetime('now'))," ++ str "    status TEXT DEFAULT 'ok'" ++ str ");" ++
  str "CREATE TABLE IF NOT EXISTS users (" ++ str "    id INTEGER PRIMARY KEY AUTOINCREMENT," ++
  str "    username TEXT UNIQUE NOT NULL," ++ str "    password_hash TEXT NOT NULL," ++ str "    salt TEXT NOT NULL," ++
  str "    permissions INTEGER DEFAULT 1," ++ str "    created_at TEXT DEFAULT (datetime('now'))," ++ str "    last_login TEXT" ++ str ");".
Definition WAL_SQL : list byte := str "PRAGMA journal_mode=WAL;".
Definition ADD_FILE_SQL : list byte := str "INSERT INTO files (filename, size, md5, upload_user) VALUES (?, ?, ?, ?);".
Definition REMOVE_FILE_SQL : list byte := str "DELETE FROM files WHERE filename = ?;".
Definition LIST_FILES_SQL : list byte := str "SELECT filename, size, upload_time, upload_user FROM files ORDER BY upload_time DESC;".
Definition LOG_TRANSFER_SQL : list byte := str "INSERT INTO transfers (filename, user, direction, bytes) VALUES (?, ?, ?, ?);".
Definition ADD_USER_SQL : list byte := str "INSERT INTO users (username, password_hash, salt, permissions) VALUES (?, ?, ?, ?);".
Definition GET_USER_SQL : list byte := str "SELECT password_hash, salt, permissions FROM users WHERE username = ?;".
Definition COUNT_FILES_SQL : list byte := str "SELECT COUNT(*) FROM files;".
Definition COUNT_TRANSFERS_SQL : list byte := str "SELECT COUNT(*) FROM transfers;".
Definition SUM_BYTES_SQL : list byte := str "SELECT COALESCE(SUM(bytes), 0) FROM transfers;".

(** ** The store *)

(** [db] is the open handle; [closed] counts the handles given back. *)
Record metadata_t (DB : Type) := Meta { db : option DB; db_path : list byte; closed : Z; log : list (list byte) }.
Arguments Meta {DB} db db_path closed log.
Arguments db {DB} _.
Arguments db_path {DB} _.
Arguments closed {DB} _.
Arguments log {DB} _.

Section metadata.
Context {DB : Type} `{Sqlite DB}.
(** The text of sqlite3_errmsg. *)
Context (errmsg : list byte).
Notation M := (C (metadata_t DB)).

Definition note (t : list byte) : M unit := c_mod (λ m, Meta m.(db) m.(db_path) m.(closed) (m.(log) ++ [t])).
Definition set_db (d : option DB) : M unit := c_mod (λ m, Meta d m.(db_path) m.(closed) m.(log)).
Definition sqlite3_close : M unit := c_mod (λ m, Meta None m.(db_path) (m.(closed) + 1) m.(log)).

Definition exec_sql (d : DB) (sql : list byte) : M (Z * DB) :=
  match sqlite3_exec d sql with
  | Some d' => set_db (Some d');; mret (0, d')
  | None => note (str "SQL error: " ++ errmsg);; mret (-1, d)
  end.
Definition metadata_init (path : option (list byte)) : M Z :=
  match path with
  | None => mret (-1)
  | Some path =>
      c_mod (λ m, Meta None (take 255 path) m.(closed) m.(log));;
      match sqlite3_open path with
      | None =>
          note (str "Failed to open database " ++ path ++ str ": " ++ errmsg);;
          sqlite3_close;; mret (-1)
      | Some d =>
          set_db (Some d);;
          r ← exec_sql d WAL_SQL;
          (if r.1 =? 0 then mret tt else note (str "Failed to enable WAL mode"));;
          r ← exec_sql r.2 SCHEMA_SQL;
          if negb (r.1 =? 0) then note (str "Failed to create schema");; sqlite3_close;; mret (-1) else
          note (str "Metadata database initialized: " ++ path);; mret 0
      end
  end.
Definition metadata_close : M unit :=
  m ← c_get;
  match m.(db) with Some _ => sqlite3_close | None => mret tt end.

Definition prepare (sql : list byte) : M bool :=
  m ← c_get;
  match m.(db) with
  | None => c_ub
  | Some d => if sqlite3_prepare d sql then mret true else note (str "prepare failed: " ++ errmsg);; mret false
  end.
(** Binding, stepping and finalizing. *)
Definition step (sql : list byte) (args : list value) : M result :=
  m ← c_get;
  match m.(db) with
  | None => c_ub
  | Some d => let '(r, d') := sqlite3_step d sql args in set_db (Some d');; mret r
  end.
(** [None] when the statement cannot be prepared. *)
Definition run_sql (sql : list byte) (args : list value) : M (option result) :=
  ok ← prepare sql;
  if negb ok then mret None else r ← step sql args; mret (Some r).
Definition opened : M bool := m ← c_get; mret (bool_decide (is_Some m.(db))).

Definition metadata_add_file (filename : option (list byte)) (size : Z) (md5 user : option (list byte)) : M Z :=
  ok ← opened;
  match (ok : bool), filename with
  | true, Some name =>
      r ← run_sql ADD_FILE_SQL [VText name; VInt (s64 size); VText (default [] md5); VText (default [] user)];
      match r with
      | None => mret (-1)
      | Some (Done _) => note (str "File added to metadata: " ++ name ++ str " (" ++ dec size ++ str " bytes)");; mret 0
      | Some _ => note (str "add_file failed: " ++ errmsg);; mret (-1)
      end
  | _, _ => mret (-1)
  end.
Definition metadata_remove_file (filename : option (list byte)) : M Z :=
  ok ← opened;
  match (ok : bool), filename with
  | true, Some name =>
      r ← run_sql REMOVE_FILE_SQL [VText name];
      match r with
      | None => mret (-1)
      | Some (Done n) =>
          if n =? 0 then note (str "File not found in metadata: " ++ name);; mret (-1)
          else note (str "File removed from metadata: " ++ name);; mret 0
      | Some _ => note (str "remove_file failed: " ++ errmsg);; mret (-1)
      end
  | _, _ => mret (-1)
  end.

(** snprintf with "%-32s %-12s %-20s %-16s" and a newline. *)
Definition line (a b c d : list byte) : list byte := padr 32 a ++ [x20] ++ padr 12 b ++ [x20] ++ padr 20 c ++ [x20] ++ padr 16 d ++ [x0a].
Definition list_header : list byte :=
  line (str "FILENAME") (str "SIZE") (str "UPLOAD_TIME") (str "USER") ++ line (str "--------") (str "----") (str "------------") (str "----").
Definition list_line (row : list (option value)) : list byte :=
  line (default [] (column_text row 0)) (dec (u64 (column_int64 row 1))) (default [] (column_text row 2)) (default [] (column_text row 3)).
(** The loop: a line that does not fit is cut, and the last. *)
Fixpoint list_rows (buf_size : Z) (buf : list byte) (rows : list (list (option value))) : list byte :=
  match rows with
  | [] => buf
  | row :: rows' =>
      let l := list_line row in
      if strlen l <? buf_size - strlen buf then list_rows buf_size (buf ++ l) rows'
      else buf ++ take (Z.to_nat (buf_size - strlen buf - 1)) l
  end.
(** The string in the buffer, of less than 2 GiB. *)
Definition metadata_list_files (buf : bool) (buf_size : Z) : M (Z * list byte) :=
  ok ← opened;
  if negb (ok && buf) || (buf_size =? 0) then mret (-1, []) else
  ok ← prepare LIST_FILES_SQL;
  if negb ok then mret (-1, []) else
  if buf_size <=? strlen list_header then mret (-1, take (Z.to_nat (buf_size - 1)) list_header) else
  r ← step LIST_FILES_SQL [];
  mret (0, list_rows buf_size list_header (match r with Rows rs _ => rs | _ => [] end)).

Definition metadata_log_transfer (filename user direction : option (list byte)) (bytes : Z) : M Z :=
  ok ← opened;
  match (ok : bool), filename, direction with
  | true, Some name, Some dir =>
      r ← run_sql LOG_TRANSFER_SQL [VText name; VText (default [] user); VText dir; VInt (s64 bytes)];
      match r with
      | None => mret (-1)
      | Some (Done _) =>
          note (str "Transfer logged: " ++ default (str "anon") user ++ str " " ++ dir ++ str " " ++ name ++ str " (" ++ dec bytes ++ str " bytes)");;
          mret 0
      | Some _ => note (str "log_transfer failed: " ++ errmsg);; mret (-1)
      end
  | _, _, _ => mret (-1)
  end.
Definition metadata_add_user (username hash salt : option (list byte)) (perms : Z) : M Z :=
  ok ← opened;
  match (ok : bool), username, hash, salt with
  | true, Some u, Some h, Some s =>
      r ← run_sql ADD_USER_SQL [VText u; VText h; VText s; VInt perms];
      match r with
      | None => mret (-1)
      | Some (Done _) => note (str "User added: " ++ u ++ str " (perms=" ++ dec perms ++ str ")");; mret 0
      | Some _ => note (str "add_user failed: " ++ errmsg);; mret (-1)
      end
  | _, _, _, _ => mret (-1)
  end.
(** snprintf of a string into a buffer of [size]; one of 0 is left alone. *)
Definition copied (size : Z) (t : list byte) : option (list byte) := if size =? 0 then None else Some (take (Z.to_nat (size - 1)) t).
(** The strings in [hash] and [salt] and the permissions, where they are set. *)
Definition metadata_get_user (username : option (list byte)) (hash_size salt_size : Z)
    : M (Z * option (option (list byte) * option (list byte) * Z)) :=
  ok ← opened;
  match (ok : bool), username with
  | true, Some u =>
      r ← run_sql GET_USER_SQL [VText u];
      match r with
      | None => mret (-1, None)
      | Some (Rows (row :: _) _) =>
          mret (0, Some (copied hash_size (default [] (column_text row 0)), copied salt_size (default [] (column_text row 1)), column_int row 2))
      | Some _ => note (str "User not found: " ++ u);; mret (-1, None)
      end
  | _, _ => mret (-1, None)
  end.

(** The first cell of the first row, 0 without one. *)
Definition first_cell (r : result) : Z := match r with Rows (row :: _) _ => column_int64 row 0 | _ => 0 end.
Definition stat_query (wanted : bool) (sql : list byte) (conv : Z → Z) : M (Z * option Z) :=
  if negb wanted then mret (0, None) else
  r ← run_sql sql [];
  match r with None => mret (-1, None) | Some r => mret (0, Some (conv (first_cell r))) end.
Definition metadata_get_stats (want_files want_transfers want_bytes : bool) : M (Z * (option Z * option Z * option Z)) :=
  ok ← opened;
  if negb ok then mret (-1, (None, None, None)) else
  f ← stat_query want_files COUNT_FILES_SQL s32;
  if f.1 <? 0 then mret (-1, (None, None, None)) else
  t ← stat_query want_transfers COUNT_TRANSFERS_SQL s32;
  if t.1 <? 0 then mret (-1, (f.2, None, None)) else
  b ← stat_query want_bytes SUM_BYTES_SQL u64;
  if b.1 <? 0 then mret (-1, (f.2, t.2, None)) else
  mret (0, (f.2, t.2, b.2)).
End metadata.
End Metadata.
