(* ===== verification/MetadataSpec.v ===== *)
(** * linux-file-server: the metadata store answers as three tables *)

From stdpp Require Import gmap sorting.
From S2P Require Import Prelude Calls Metadata.

Module MetadataSpec.
Import Metadata Calls.
#[local] Arguments Z.to_nat : simpl never.

(** ** What SQL says the statements mean *)

Record file_row := File { f_name : list byte; f_size : Z; f_md5 : list byte; f_user : list byte; f_time : list byte }.
Record transfer_row := Transfer { t_name : list byte; t_user : list byte; t_direction : list byte; t_bytes : Z }.
Record user_row := User { u_name : list byte; u_hash : list byte; u_salt : list byte; u_perms : Z }.
Record tables := Tables { files : list file_row; transfers : list transfer_row; users : list user_row }.

Inductive stmt :=
  | SAddFile (n : list byte) (size : Z) (md5 user : list byte) | SRemoveFile (n : list byte) | SListFiles
  | STransfer (n user dir : list byte) (bytes : Z) | SAddUser (u h s : list byte) (perms : Z) | SGetUser (u : list byte)
  | SCountFiles | SCountTransfers | SSumBytes.
Definition text_of (s : stmt) : list byte :=
  match s with
  | SAddFile _ _ _ _ => ADD_FILE_SQL | SRemoveFile _ => REMOVE_FILE_SQL | SListFiles => LIST_FILES_SQL
  | STransfer _ _ _ _ => LOG_TRANSFER_SQL | SAddUser _ _ _ _ => ADD_USER_SQL | SGetUser _ => GET_USER_SQL
  | SCountFiles => COUNT_FILES_SQL | SCountTransfers => COUNT_TRANSFERS_SQL | SSumBytes => SUM_BYTES_SQL
  end.
Definition args_of (s : stmt) : list value :=
  match s with
  | SAddFile n z m u => [VText n; VInt z; VText m; VText u] | SRemoveFile n => [VText n]
  | STransfer n u d b => [VText n; VText u; VText d; VInt b] | SAddUser u h s p => [VText u; VText h; VText s; VInt p]
  | SGetUser u => [VText u] | _ => []
  end.
Definition int64 (z : Z) : Prop := -2 ^ 63 ≤ z < 2 ^ 63.
Definition stmt_ok (s : stmt) : Prop :=
  match s with SAddFile _ z _ _ | STransfer _ _ _ z | SAddUser _ _ _ z => int64 z | _ => True end.

Definition file_cells (f : file_row) : list (option value) := [Some (VText f.(f_name)); Some (VInt f.(f_size)); Some (VText f.(f_time)); Some (VText f.(f_user))].
Definition user_cells (u : user_row) : list (option value) := [Some (VText u.(u_hash)); Some (VText u.(u_salt)); Some (VInt u.(u_perms))].
(** Bytes compared as SQLite's default collation does. *)
Fixpoint text_le (a b : list byte) : bool :=
  match a, b with
  | [], _ => true
  | _, [] => false
  | x :: a', y :: b' => if b2z x =? b2z y then text_le a' b' else b2z x <? b2z y
  end.
Definition newest_first (l : list file_row) : Prop := Sorted (λ f g, text_le g.(f_time) f.(f_time) = true) l.
Definition sum (l : list Z) : Z := foldr Z.add 0 l.
Definition add_file (f : file_row) (t : tables) : tables := Tables (t.(files) ++ [f]) t.(transfers) t.(users).
Definition remove_file (n : list byte) (t : tables) : tables := Tables (filter (λ f, f.(f_name) ≠ n) t.(files)) t.(transfers) t.(users).
Definition add_transfer (r : transfer_row) (t : tables) : tables := Tables t.(files) (t.(transfers) ++ [r]) t.(users).
Definition add_user (u : user_row) (t : tables) : tables := Tables t.(files) t.(transfers) (t.(users) ++ [u]).
(** Any statement can fail and then changes nothing; unique columns and the check of the
    direction refuse rows; the sum of the bytes fails when it leaves 64 bits. *)
Inductive meaning : stmt → tables → result → tables → Prop :=
  | m_fails s t : meaning s t Failed t
  | m_add_file n z m u time t : n ∉ f_name <$> t.(files) → meaning (SAddFile n z m u) t (Done 1) (add_file (File n z m u time) t)
  | m_remove_file n t : meaning (SRemoveFile n) t (Done (Z.of_nat (length (filter (λ f, f.(f_name) = n) t.(files))))) (remove_file n t)
  | m_list t fs k : fs ≡ₚ t.(files) → newest_first fs → meaning SListFiles t (Rows (file_cells <$> take k fs) (length fs <=? k)%nat) t
  | m_transfer n u d b t : d = str "upload" ∨ d = str "download" → meaning (STransfer n u d b) t (Done 1) (add_transfer (Transfer n u d b) t)
  | m_add_user u h s p t : u ∉ u_name <$> t.(users) → meaning (SAddUser u h s p) t (Done 1) (add_user (User u h s p) t)
  | m_get_user u t : meaning (SGetUser u) t (Rows (user_cells <$> filter (λ r, r.(u_name) = u) t.(users)) true) t
  | m_count_files t : meaning SCountFiles t (Rows [[Some (VInt (Z.of_nat (length t.(files))))]] true) t
  | m_count_transfers t : meaning SCountTransfers t (Rows [[Some (VInt (Z.of_nat (length t.(transfers))))]] true) t
  | m_sum t : int64 (sum (t_bytes <$> t.(transfers))) → meaning SSumBytes t (Rows [[Some (VInt (sum (t_bytes <$> t.(transfers))))]] true) t.

(** A database with the schema has tables, and the statements mean that. *)
Class SqliteLaws (DB : Type) `{Sqlite DB} := {
  ready : DB → Prop;
  view : DB → tables;
  exec_schema : ∀ d d', sqlite3_exec d SCHEMA_SQL = Some d' → ready d';
  unique_users : ∀ d, ready d → NoDup (u_name <$> (view d).(users));
  step_means : ∀ d s, ready d → stmt_ok s →
    let '(r, d') := sqlite3_step d (text_of s) (args_of s) in ready d' ∧ meaning s (view d) r (view d')
}.

(** ** What the functions promise *)

Inductive call :=
  | AddFile (n : option (list byte)) (size : Z) (md5 user : option (list byte)) | RemoveFile (n : option (list byte)) | ListFiles (buf : bool) (size : Z)
  | LogTransfer (n user dir : option (list byte)) (bytes : Z) | AddUser (u h s : option (list byte)) (perms : Z)
  | GetUser (u : option (list byte)) (hash_size salt_size : Z) | GetStats (f t b : bool).
Inductive answer := Code (z : Z) | Listing (z : Z) (t : list byte) | UserOf (z : Z) (r : option (option (list byte) * option (list byte) * Z))
  | Stats (z : Z) (r : option Z * option Z * option Z).
Definition call_ok (c : call) : Prop :=
  match c with AddFile _ z _ _ | LogTransfer _ _ _ z => is_u64 z | ListFiles _ n => 0 ≤ n | AddUser _ _ _ p => -2 ^ 31 ≤ p < 2 ^ 31
  | GetUser _ n m => 0 ≤ n ∧ 0 ≤ m | _ => True end.
Definition file_line (f : file_row) : list byte := line f.(f_name) (dec (u64 f.(f_size))) f.(f_time) f.(f_user).

Section promises.
Context {DB : Type} `{SqliteLaws DB}.
(** A statement that was run, with its result; one that failed, when it was prepared or when
    it was run. *)
Definition ran (d : DB) (s : stmt) (r : result) (d' : DB) : Prop :=
  sqlite3_prepare d (text_of s) = true ∧ sqlite3_step d (text_of s) (args_of s) = (r, d').
Definition refused (d : DB) (s : stmt) (d' : DB) : Prop := sqlite3_prepare d (text_of s) = false ∧ d' = d ∨ ran d s Failed d' ∧ view d' = view d.
(** A statistic: whether the query could be prepared, and its value where it was wanted; one
    that fails when it is run counts as 0. *)
Inductive query (s : stmt) (exact : Z) : bool → DB → bool → option Z → DB → Prop :=
  | q_unwanted d : query s exact false d true None d
  | q_refused d : sqlite3_prepare d (text_of s) = false → query s exact true d false None d
  | q_fails d d' : ran d s Failed d' → view d' = view d → query s exact true d true (Some 0) d'
  | q_exact d r d' : ran d s r d' → r ≠ Failed → view d' = view d → query s exact true d true (Some exact) d'.
Definition files_of (d : DB) : Z := s32 (Z.of_nat (length (view d).(files))).
Definition transfers_of (d : DB) : Z := s32 (Z.of_nat (length (view d).(transfers))).
Definition bytes_of (d : DB) : Z := u64 (sum (t_bytes <$> (view d).(transfers))).

(** The statement of a call, which lacks an argument otherwise; its answer to an error. *)
Definition stmt_of (c : call) : option stmt :=
  match c with
  | AddFile (Some n) z m u => Some (SAddFile n (s64 z) (default [] m) (default [] u))
  | RemoveFile (Some n) => Some (SRemoveFile n)
  | LogTransfer (Some n) u (Some d) b => Some (STransfer n (default [] u) d (s64 b))
  | AddUser (Some u) (Some h) (Some s) p => Some (SAddUser u h s p)
  | GetUser (Some u) _ _ => Some (SGetUser u)
  | _ => None
  end.
Definition error_of (c : call) : answer :=
  match c with ListFiles _ _ => Listing (-1) [] | GetUser _ _ _ => UserOf (-1) None | GetStats _ _ _ => Stats (-1) (None, None, None) | _ => Code (-1) end.
Definition lacks_argument (c : call) : Prop :=
  match c with ListFiles b n => b = false ∨ n = 0 | GetStats _ _ _ => False | _ => stmt_of c = None end.
(** The answer to a call on a database and the database after it. *)
Inductive promise : call → DB → answer → DB → Prop :=
  | p_lacks c d : lacks_argument c → promise c d (error_of c) d
  | p_refused c s d d' : stmt_of c = Some s → refused d s d' → promise c d (error_of c) d'
  | p_add_file n z m u d d' f : ran d (SAddFile n (s64 z) (default [] m) (default [] u)) (Done 1) d' → n ∉ f_name <$> (view d).(files) →
      f.(f_name) = n → u64 f.(f_size) = z → f.(f_md5) = default [] m → f.(f_user) = default [] u → view d' = add_file f (view d) →
      promise (AddFile (Some n) z m u) d (Code 0) d'
  | p_remove_file n k d d' : ran d (SRemoveFile n) (Done k) d' → n ∈ f_name <$> (view d).(files) → view d' = remove_file n (view d) →
      promise (RemoveFile (Some n)) d (Code 0) d'
  | p_remove_none n d d' : ran d (SRemoveFile n) (Done 0) d' → n ∉ f_name <$> (view d).(files) → view d' = view d →
      promise (RemoveFile (Some n)) d (Code (-1)) d'
  | p_list_refused size d : 0 < size → sqlite3_prepare d LIST_FILES_SQL = false → promise (ListFiles true size) d (Listing (-1) []) d
  | p_list_small size d : 0 < size ≤ strlen list_header → sqlite3_prepare d LIST_FILES_SQL = true →
      promise (ListFiles true size) d (Listing (-1) (take (Z.to_nat (size - 1)) list_header)) d
  | p_list size d d' fs : strlen list_header < size → ran d SListFiles (Rows (file_cells <$> fs) true) d' → view d' = view d →
      fs ≡ₚ (view d).(files) → newest_first fs →
      promise (ListFiles true size) d (Listing 0 (take (Z.to_nat (size - 1)) (list_header ++ mjoin (file_line <$> fs)))) d'
  | p_list_part size d d' fs k : strlen list_header < size → ran d SListFiles (Rows (file_cells <$> take k fs) false) d' → view d' = view d →
      fs ≡ₚ (view d).(files) → newest_first fs → (k < length fs)%nat →
      promise (ListFiles true size) d (Listing 0 (take (Z.to_nat (size - 1)) (list_header ++ mjoin (file_line <$> take k fs)))) d'
  | p_list_fails size d d' : strlen list_header < size → ran d SListFiles Failed d' → view d' = view d →
      promise (ListFiles true size) d (Listing 0 list_header) d'
  | p_transfer n u r b x d d' : ran d (STransfer n (default [] u) r (s64 b)) (Done 1) d' → r = str "upload" ∨ r = str "download" →
      x.(t_name) = n → x.(t_user) = default [] u → x.(t_direction) = r → u64 x.(t_bytes) = b → view d' = add_transfer x (view d) →
      promise (LogTransfer (Some n) u (Some r) b) d (Code 0) d'
  | p_add_user u h s p d d' : ran d (SAddUser u h s p) (Done 1) d' → u ∉ u_name <$> (view d).(users) → view d' = add_user (User u h s p) (view d) →
      promise (AddUser (Some u) (Some h) (Some s) p) d (Code 0) d'
  | p_get_user r n m res d d' : ran d (SGetUser r.(u_name)) res d' → r ∈ (view d).(users) → view d' = view d →
      promise (GetUser (Some r.(u_name)) n m) d (UserOf 0 (Some (copied n r.(u_hash), copied m r.(u_salt), s32 r.(u_perms)))) d'
  | p_no_user u n m res d d' : ran d (SGetUser u) res d' → u ∉ u_name <$> (view d).(users) → view d' = view d →
      promise (GetUser (Some u) n m) d (UserOf (-1) None) d'
  | p_stats_files f x b d : query SCountFiles (files_of d) f d false None d → promise (GetStats f x b) d (Stats (-1) (None, None, None)) d
  | p_stats_transfers f x b d d1 vf : query SCountFiles (files_of d) f d true vf d1 → query SCountTransfers (transfers_of d) x d1 false None d1 →
      promise (GetStats f x b) d (Stats (-1) (vf, None, None)) d1
  | p_stats f x b d d1 d2 d3 vf vx vb ok : query SCountFiles (files_of d) f d true vf d1 → query SCountTransfers (transfers_of d) x d1 true vx d2 →
      query SSumBytes (bytes_of d) b d2 ok vb d3 → promise (GetStats f x b) d (Stats (if ok : bool then 0 else -1) (vf, vx, vb)) d3.
Inductive promises : list call → DB → list answer → DB → Prop :=
  | ps_nil d : promises [] d [] d
  | ps_cons c cs d a d1 l d2 : promise c d a d1 → promises cs d1 l d2 → promises (c :: cs) d (a :: l) d2.
End promises.

Lemma u64_s64 z : is_u64 z → u64 (s64 z) = z.
Proof.
  intros H. unfold u64, s64. rewrite Zminus_mod_idemp_l. replace (z + 2 ^ 63 - 2 ^ 63) with z by lia. by apply Z.mod_small.
Qed.
Lemma s64_range z : int64 (s64 z).
Proof. unfold int64, s64. pose proof (Z.mod_pos_bound (z + 2 ^ 63) (2 ^ 64)). lia. Qed.

(** A listing is the whole text, cut at the end of the buffer. *)
Lemma list_rows_text size rows : ∀ buf, strlen buf < size →
  list_rows size buf rows = take (Z.to_nat (size - 1)) (buf ++ mjoin (list_line <$> rows)).
Proof.
  induction rows as [|row rows IH]; intros buf Hb; cbn [list_rows fmap list_fmap mjoin list_join].
  - rewrite app_nil_r, take_ge; [done|]. unfold strlen in Hb. lia.
  - destruct (Z.ltb_spec (strlen (list_line row)) (size - strlen buf)) as [Hl|Hl].
    + rewrite IH by (unfold strlen in *; rewrite length_app; lia). by rewrite <- (assoc_L (++)).
    + rewrite take_app_ge by (unfold strlen in *; lia). f_equal. rewrite take_app_le by (unfold strlen in *; lia). f_equal. unfold strlen. lia.
Qed.
Lemma list_line_cells f : list_line (file_cells f) = file_line f.
Proof. done. Qed.

(** ** The functions keep their promises *)

Section store.
Context {DB : Type} `{SqliteLaws DB} (errmsg : list byte).
Notation M := (C (metadata_t DB)).
Definition run_call (c : call) : M answer :=
  match c with
  | AddFile n z m u => r ← metadata_add_file errmsg n z m u; mret (Code r)
  | RemoveFile n => r ← metadata_remove_file errmsg n; mret (Code r)
  | ListFiles b n => r ← metadata_list_files errmsg b n; mret (Listing r.1 r.2)
  | LogTransfer n u d b => r ← metadata_log_transfer errmsg n u d b; mret (Code r)
  | AddUser u h s p => r ← metadata_add_user errmsg u h s p; mret (Code r)
  | GetUser u n m => r ← metadata_get_user errmsg u n m; mret (UserOf r.1 r.2)
  | GetStats f t b => r ← metadata_get_stats errmsg f t b; mret (Stats r.1 r.2)
  end.
Fixpoint run_calls (cs : list call) : M (list answer) :=
  match cs with [] => mret [] | c :: cs' => a ← run_call c; l ← run_calls cs'; mret (a :: l) end.

(** The store is open on a database with the schema. *)
Definition holds (d : DB) (m : metadata_t DB) : Prop := m.(db) = Some d ∧ ready d.
Lemma wp_note (d : DB) x Q m : holds d m → (∀ m', holds d m' → Q tt m') → wp (note x) Q m.
Proof. intros [Hd Hr] HQ. apply wp_mod. by apply HQ. Qed.
Lemma wp_opened (d : DB) Q m : holds d m → Q true m → wp opened Q m.
Proof. intros [Hd Hr] HQ. exists true, m. split; [|done]. unfold opened. erewrite bind_Ret by reflexivity. by rewrite Hd. Qed.
Lemma wp_prepare (d : DB) sql Q m : holds d m → (∀ m', holds d m' → Q (sqlite3_prepare d sql) m') → wp (prepare errmsg sql) Q m.
Proof.
  intros Ht HQ. unfold prepare. pose proof Ht as [Hd _]. apply wp_bind, wp_get. rewrite Hd. destruct (sqlite3_prepare d sql).
  - apply wp_ret. by apply HQ.
  - apply wp_bind. eapply wp_note; [done|]. intros m' Hm'. apply wp_ret. by apply HQ.
Qed.
(** A prepared statement is run. *)
Lemma wp_step (d : DB) st Q m : holds d m → stmt_ok st → sqlite3_prepare d (text_of st) = true →
  (∀ r d' m', ran d st r d' → meaning st (view d) r (view d') → holds d' m' → Q r m') → wp (step (text_of st) (args_of st)) Q m.
Proof.
  intros [Hd Hr] Hok Hp HQ. unfold step. apply wp_bind, wp_get. rewrite Hd. pose proof (step_means d st Hr Hok) as Hm.
  destruct (sqlite3_step d (text_of st) (args_of st)) as [r d'] eqn:E. destruct Hm as [Hr' Hm]. apply wp_bind, wp_mod, wp_ret. by eapply HQ.
Qed.
Lemma wp_run_sql (d : DB) st Q m : holds d m → stmt_ok st → (∀ m', sqlite3_prepare d (text_of st) = false → holds d m' → Q None m') →
  (∀ r d' m', ran d st r d' → meaning st (view d) r (view d') → holds d' m' → Q (Some r) m') → wp (run_sql errmsg (text_of st) (args_of st)) Q m.
Proof.
  intros Ht Hok HN HS. unfold run_sql. apply wp_bind. eapply wp_prepare; [done|]. intros m' Hm'. destruct (sqlite3_prepare d _) eqn:Ep; cbn [negb].
  - apply wp_bind. eapply wp_step; [done..|]. intros r d' m2 Hx Hm Hm2. apply wp_ret. by eapply HS.
  - apply wp_ret. by apply HN.
Qed.
(** Messages change nothing. *)
Lemma wp_noted {A} (d : DB) x (a : A) Q m : holds d m → (∀ m', holds d m' → Q a m') → wp (note x;; mret a) Q m.
Proof. intros Ht HQ. apply wp_bind. eapply wp_note; [done|]. intros m' Hm'. apply wp_ret. by apply HQ. Qed.

Lemma wp_stat (d : DB) wanted st conv exact Q m : holds d m → stmt_ok st → args_of st = [] → conv 0 = 0 →
  (∀ r t', meaning st (view d) r t' → t' = view d ∧ (r = Failed ∨ r ≠ Failed ∧ conv (first_cell r) = exact)) →
  (∀ (ok : bool) v d' m', query st exact wanted d ok v d' → holds d' m' → Q (if ok then 0 else -1, v) m') →
  wp (stat_query errmsg wanted (text_of st) conv) Q m.
Proof.
  intros Ht Hok Ha Hz Hm HQ. unfold stat_query. destruct wanted; cbn [negb].
  - apply wp_bind. rewrite <- Ha. apply (wp_run_sql d); [done|done| |].
    + intros m' Hp Hm'. apply wp_ret, (HQ false None d); [by constructor|done].
    + intros r d' m' Hx Hr Hm'. destruct (Hm r _ Hr) as [Hv [->|[Hf He]]]; apply wp_ret.
      * cbn [first_cell]. rewrite Hz. eapply (HQ true (Some 0) d'); [by constructor|done].
      * rewrite He. eapply (HQ true (Some exact) d'); [by econstructor|done].
  - apply wp_ret, (HQ true None d); [constructor|done].
Qed.

(** Each function keeps its promise. *)
Definition kept (c : call) (d : DB) : answer → metadata_t DB → Prop := λ a m', ∃ d', holds d' m' ∧ promise c d a d'.
Ltac at_store := apply wp_bind, wp_bind; eapply wp_opened; [eassumption|].
Ltac give H := apply wp_ret; eexists; split; [exact H|].
Ltac noted H := eapply wp_noted; [exact H|]; let m := fresh "m" in let Hm := fresh "Hm" in intros m Hm; give Hm.
(** A statement that cannot be prepared, and one that fails. *)
Lemma unprepared_kept c st d m' : stmt_of c = Some st → sqlite3_prepare d (text_of st) = false → holds d m' → kept c d (error_of c) m'.
Proof. intros Hs Hp Hm. exists d. split; [done|]. eapply p_refused; [done|by left]. Qed.
Lemma failed_refused d st d' : ran d st Failed d' → meaning st (view d) Failed (view d') → refused d st d'.
Proof. intros Hx Hm. right. split; [done|]. by inversion Hm. Qed.

Lemma add_file_run n z md u d m : holds d m → is_u64 z → wp (run_call (AddFile n z md u)) (kept (AddFile n z md u) d) m.
Proof.
  intros Ht Hz. cbn [run_call]. unfold metadata_add_file. at_store. destruct n as [n|].
  2: { apply wp_ret. give Ht. by apply (p_lacks (AddFile None z md u)). }
  apply wp_bind, (wp_run_sql d (SAddFile n (s64 z) (default [] md) (default [] u))); [done|apply s64_range| |].
  - intros m' Hp Hm'. apply wp_ret, wp_ret. by eapply (unprepared_kept (AddFile (Some n) z md u)).
  - intros r d' m' Hx Hr Hm'. inversion Hr; subst; noted Hm'.
    + eapply (p_refused (AddFile (Some n) z md u)); [done|by apply failed_refused].
    + match goal with Hv : add_file ?f _ = _ |- _ => by apply (p_add_file n z md u d d' f); [..|apply u64_s64| | |] end.
Qed.
Lemma no_file n (fs : list file_row) : length (filter (λ f, f.(f_name) = n) fs) = 0%nat → n ∉ f_name <$> fs ∧ filter (λ f, f.(f_name) ≠ n) fs = fs.
Proof.
  induction fs as [|f fs IH]; [split; [apply not_elem_of_nil|done]|]. rewrite !filter_cons. destruct (decide (f.(f_name) = n)) as [|Hf]; [done|].
  intros Hn. destruct (IH Hn) as [Hn' ->]. rewrite decide_True by done. split; [|done]. by apply not_elem_of_cons.
Qed.
Lemma some_file n (fs : list file_row) : length (filter (λ f, f.(f_name) = n) fs) ≠ 0%nat → n ∈ f_name <$> fs.
Proof.
  intros Hl. destruct (filter _ fs) as [|f l] eqn:E; [done|].
  assert (f ∈ filter (λ f, f_name f = n) fs) as [<- Hf]%list_elem_of_filter by (rewrite E; by left). by apply list_elem_of_fmap_2.
Qed.
Lemma remove_file_run n d m : holds d m → wp (run_call (RemoveFile n)) (kept (RemoveFile n) d) m.
Proof.
  intros Ht. cbn [run_call]. unfold metadata_remove_file. at_store. destruct n as [n|].
  2: { apply wp_ret. give Ht. by apply (p_lacks (RemoveFile None)). }
  apply wp_bind, (wp_run_sql d (SRemoveFile n)); [done|done| |].
  - intros m' Hp Hm'. apply wp_ret, wp_ret. by eapply (unprepared_kept (RemoveFile (Some n))).
  - intros r d' m' Hx Hr Hm'. inversion Hr; subst.
    + noted Hm'. eapply (p_refused (RemoveFile (Some n))); [done|by apply failed_refused].
    + destruct (Z.eqb_spec (Z.of_nat (length (filter (λ f, f_name f = n) (files (view d))))) 0) as [Hz|Hz]; noted Hm'.
      * destruct (no_file n (view d).(files)) as [Hn He]; [lia|]. rewrite Hz in Hx. eapply p_remove_none; [done..|].
        match goal with Hv : remove_file _ _ = _ |- _ => rewrite <- Hv end. unfold remove_file. rewrite He. by destruct (view d).
      * eapply p_remove_file; [done| |done]. apply some_file. lia.
Qed.
Lemma list_files_run b n d m : holds d m → 0 ≤ n → wp (run_call (ListFiles b n)) (kept (ListFiles b n) d) m.
Proof.
  intros Ht Hn. cbn [run_call]. unfold metadata_list_files. at_store.
  destruct b; cbn [negb andb]; [|apply wp_ret; give Ht; apply (p_lacks (ListFiles false n)); by left].
  destruct (Z.eqb_spec n 0) as [->|Hn0]; [apply wp_ret; give Ht; apply (p_lacks (ListFiles true 0)); by right|]. cbn [orb].
  apply wp_bind. eapply wp_prepare; [done|]. intros m1 Hm1. destruct (sqlite3_prepare d LIST_FILES_SQL) eqn:Ep; cbn [negb];
    [|apply wp_ret; give Hm1; apply p_list_refused; [lia|done]].
  destruct (Z.leb_spec n (strlen list_header)) as [Hs|Hs]; [apply wp_ret; give Hm1; apply p_list_small; [lia|done]|].
  apply wp_bind, (wp_step d SListFiles); [done|done|done|]. intros r d' m' Hx Hr Hm'. apply wp_ret.
  inversion Hr; subst; give Hm'; cbn [fst snd]; [by apply p_list_fails|].
  rewrite list_rows_text by done. rewrite <- list_fmap_compose.
  match type of Hx with context[(length ?fs <=? ?k)%nat] => destruct (Nat.leb_spec (length fs) k) as [Hk|Hk]; [rewrite (take_ge fs k) in * by done|] end.
  - by apply p_list.
  - by apply p_list_part.
Qed.
Lemma log_transfer_run n u r b d m : holds d m → is_u64 b → wp (run_call (LogTransfer n u r b)) (kept (LogTransfer n u r b) d) m.
Proof.
  intros Ht Hb. cbn [run_call]. unfold metadata_log_transfer. at_store. destruct n as [n|]; [destruct r as [r|]|].
  2,3: apply wp_ret; give Ht; by apply (p_lacks (LogTransfer _ u _ b)).
  apply wp_bind, (wp_run_sql d (STransfer n (default [] u) r (s64 b))); [done|apply s64_range| |].
  - intros m' Hp Hm'. apply wp_ret, wp_ret. by eapply (unprepared_kept (LogTransfer (Some n) u (Some r) b)).
  - intros x d' m' Hx Hr Hm'. inversion Hr; subst; noted Hm'.
    + eapply (p_refused (LogTransfer (Some n) u (Some r) b)); [done|by apply failed_refused].
    + match goal with Hv : add_transfer ?f _ = _ |- _ => by apply (p_transfer n u r b f d d'); [..|apply u64_s64|] end.
Qed.
Lemma add_user_run u h s p d m : holds d m → -2 ^ 31 ≤ p < 2 ^ 31 → wp (run_call (AddUser u h s p)) (kept (AddUser u h s p) d) m.
Proof.
  intros Ht Hp. cbn [run_call]. unfold metadata_add_user. at_store. destruct u as [u|]; [destruct h as [h|]; [destruct s as [s|]|]|].
  2-4: apply wp_ret; give Ht; by apply (p_lacks (AddUser _ _ _ p)).
  apply wp_bind, (wp_run_sql d (SAddUser u h s p)); [done|unfold stmt_ok, int64; lia| |].
  - intros m' Hf Hm'. apply wp_ret, wp_ret. by eapply (unprepared_kept (AddUser (Some u) (Some h) (Some s) p)).
  - intros r d' m' Hx Hr Hm'. inversion Hr; subst; noted Hm'.
    + eapply (p_refused (AddUser (Some u) (Some h) (Some s) p)); [done|by apply failed_refused].
    + by eapply p_add_user.
Qed.
Lemma get_user_run u n k d m : holds d m → wp (run_call (GetUser u n k)) (kept (GetUser u n k) d) m.
Proof.
  intros Ht. cbn [run_call]. unfold metadata_get_user. at_store. destruct u as [u|]; [|apply wp_ret; give Ht; by apply (p_lacks (GetUser None n k))].
  apply wp_bind, (wp_run_sql d (SGetUser u)); [done|done| |].
  - intros m' Hp Hm'. apply wp_ret, wp_ret. by eapply (unprepared_kept (GetUser (Some u) n k)).
  - intros r d' m' Hx Hr Hm'. inversion Hr; subst.
    + noted Hm'. eapply (p_refused (GetUser (Some u) n k)); [done|by apply failed_refused].
    + destruct (filter (λ r, u_name r = u) (users (view d))) as [|r l] eqn:E.
      * noted Hm'. eapply p_no_user; [done| |done]. intros (r & -> & Hr')%list_elem_of_fmap.
        assert (r ∈ filter (λ r', u_name r' = u_name r) (users (view d))) as Hin by by apply list_elem_of_filter. by rewrite E, elem_of_nil in Hin.
      * assert (r ∈ filter (λ r, u_name r = u) (users (view d))) as [<- Hr']%list_elem_of_filter by (rewrite E; by left).
        apply wp_ret. give Hm'. by eapply p_get_user.
Qed.
Lemma metadata_stats_run f x b d m : holds d m → wp (run_call (GetStats f x b)) (kept (GetStats f x b) d) m.
Proof.
  intros Ht. cbn [run_call]. unfold metadata_get_stats. at_store. cbn [negb].
  apply wp_bind, (wp_stat d f SCountFiles s32 (files_of d)); [done..| |].
  { intros r t' Hr. inversion Hr; subst; (split; [done|]); [by left|by right]. }
  intros ok1 vf d1 m1 Hq1 Hm1. assert (view d1 = view d) as Ev1 by by destruct Hq1.
  destruct ok1; cbn [fst snd Z.ltb Z.compare].
  2: { inversion Hq1; subst. apply wp_ret. give Hm1. by apply p_stats_files. }
  apply wp_bind, (wp_stat d1 x SCountTransfers s32 (transfers_of d)); [done..| |].
  { rewrite Ev1. intros r t' Hr. inversion Hr; subst; (split; [done|]); [by left|by right]. }
  intros ok2 vx d2 m2 Hq2 Hm2. assert (view d2 = view d) as Ev2 by (rewrite <- Ev1; by destruct Hq2). destruct ok2; cbn [fst snd Z.ltb Z.compare].
  2: { inversion Hq2; subst. apply wp_ret. give Hm2. by eapply p_stats_transfers. }
  apply wp_bind, (wp_stat d2 b SSumBytes u64 (bytes_of d)); [done..| |].
  { rewrite Ev2. intros r t' Hr. inversion Hr; subst; (split; [done|]); [by left|by right]. }
  intros ok3 vb d3 m3 Hq3 Hm3. pose proof (p_stats f x b d d1 d2 d3 vf vx vb ok3 Hq1 Hq2 Hq3) as Hp.
  destruct ok3; cbn [fst snd Z.ltb Z.compare]; apply wp_ret; give Hm3; [done|]. inversion Hq3; by subst.
Qed.
Lemma run_call_promise c d m : call_ok c → holds d m → wp (run_call c) (kept c d) m.
Proof.
  intros Hc Ht. destruct c.
  - by apply add_file_run.
  - by apply remove_file_run.
  - by apply list_files_run.
  - by apply log_transfer_run.
  - by apply add_user_run.
  - by apply get_user_run.
  - by apply metadata_stats_run.
Qed.
Lemma run_calls_promises cs : ∀ d m, Forall call_ok cs → holds d m → wp (run_calls cs) (λ l m', ∃ d', holds d' m' ∧ promises cs d l d') m.
Proof.
  induction cs as [|c cs IH]; intros d m Hcs Ht; [apply wp_ret; exists d; by split; [|constructor]|].
  apply Forall_cons in Hcs as [Hc Hcs]. cbn [run_calls]. apply wp_bind. eapply wp_mono; [by apply run_call_promise|].
  intros a m1 (d1 & Hd1 & Hp). apply wp_bind. eapply wp_mono; [by apply IH|]. intros l m2 (d2 & Hd2 & Hps).
  apply wp_ret. exists d2. split; [done|]. by econstructor.
Qed.

(** Opening gives a store, or nothing that stays open. *)
Lemma metadata_init_run path m : wp (metadata_init errmsg path) (λ r m', match path with
    | None => r = -1 ∧ m' = m
    | Some _ => r = 0 ∧ (∃ d, holds d m') ∨ r = -1 ∧ m'.(db) = None ∧ m'.(closed) = m.(closed) + 1
    end) m.
Proof.
  unfold metadata_init. destruct path as [path|]; [|by apply wp_ret].
  apply wp_bind, wp_mod. destruct (sqlite3_open path) as [d|].
  2: { unfold note, sqlite3_close. apply wp_bind, wp_mod, wp_bind, wp_mod, wp_ret. by right. }
  apply wp_bind, wp_mod, wp_bind. eapply wp_mono with (P := λ _ m', m'.(closed) = m.(closed)).
  { unfold exec_sql, set_db, note. destruct (sqlite3_exec d WAL_SQL); apply wp_bind, wp_mod, wp_ret; done. }
  intros [r1 d1] m1 Hc. apply wp_bind. apply wp_if; intros _; [apply wp_ret|unfold note; apply wp_mod].
  all: apply wp_bind; unfold exec_sql, set_db, note, sqlite3_close; cbn [fst snd].
  all: destruct (sqlite3_exec d1 SCHEMA_SQL) as [d2|] eqn:E; apply wp_bind, wp_mod, wp_ret; cbn [fst negb Z.eqb].
  all: apply wp_bind, wp_mod; try (apply wp_bind, wp_mod); apply wp_ret.
  all: try (right; cbn; split_and!; [done|done|congruence]).
  all: left; split; [done|]; exists d2; split; [done|by eapply exec_schema].
Qed.

(** ** Properties *)

(** C37. The metadata store: on an open database any sequence of calls returns, with the answers
    of three tables with unique names: rows are added and removed as promised or, where the
    database refuses a statement, not at all; a listing has the files newest first, all
    that the database gives, cut only at the end of the buffer; counts are exact where the
    query is not refused; sizes come back as they were given, though stored signed. *)
Theorem metadata_run_refines cs d m : Forall call_ok cs → holds d m →
  ∃ l m' d', run_calls cs m = Ret (l, m') ∧ holds d' m' ∧ promises cs d l d'.
Proof. intros Hcs Ht. destruct (run_calls_promises cs d m Hcs Ht) as (l & m' & E & d' & H'). by exists l, m', d'. Qed.

(** Rows of users stay, and names stay unique. *)
Lemma query_view st exact w d ok v d' : query st exact w d ok v d' → view d' = view d.
Proof. by destruct 1. Qed.
Lemma promises_users cs d l d' : promises cs d l d' → (view d).(users) `prefix_of` (view d').(users).
Proof.
  induction 1 as [|c cs d a d1 l d2 Hp Hps IH]; [done|]. etrans; [|done]. clear -Hp.
  destruct Hp; repeat match goal with Hq : query _ _ _ _ _ _ _ |- _ => apply query_view in Hq | Hr : refused _ _ _ |- _ => destruct Hr as [[_ ->]|[_ ?]] end;
    try done; repeat match goal with Hv : view _ = _ |- _ => rewrite Hv; clear Hv end; try done; by eexists.
Qed.
Lemma promises_app cs1 cs2 d l d' : promises (cs1 ++ cs2) d l d' → ∃ l1 l2 d1, l = l1 ++ l2 ∧ promises cs1 d l1 d1 ∧ promises cs2 d1 l2 d'.
Proof.
  revert d l. induction cs1 as [|c cs1 IH]; intros d l Hp; [exists [], l, d; by repeat split; [constructor|]|].
  inversion Hp as [|? ? ? a d1 l0 ? Hc Hcs]; subst. destruct (IH _ _ Hcs) as (l1 & l2 & d2 & -> & H1 & H2).
  exists (a :: l1), l2, d2. split_and!; [done|by econstructor|done].
Qed.
Lemma user_unique (l : list user_row) r r' : NoDup (u_name <$> l) → r ∈ l → r' ∈ l → r.(u_name) = r'.(u_name) → r = r'.
Proof.
  intros Hn Hr Hr' E. apply list_elem_of_lookup in Hr as [i Hi], Hr' as [j Hj]. 
  assert (i = j) as ->; [|congruence]. eapply NoDup_lookup; [exact Hn| |]; rewrite list_lookup_fmap; [by rewrite Hi|by rewrite Hj, E].
Qed.
(** A user that was added is the user that is found, whatever was called in between; hash
    and salt are cut to the buffers. *)
Theorem metadata_user_kept u h s p cs n k d m : -2 ^ 31 ≤ p < 2 ^ 31 → Forall call_ok cs → 0 ≤ n → 0 ≤ k → holds d m →
  ∃ a l b m', run_calls (AddUser (Some u) (Some h) (Some s) p :: cs ++ [GetUser (Some u) n k]) m = Ret (a :: l ++ [b], m') ∧
    (a = Code 0 → b = UserOf (-1) None ∨ b = UserOf 0 (Some (copied n h, copied k s, p))).
Proof.
  intros Hp Hcs Hn Hk Ht.
  destruct (run_calls_promises (AddUser (Some u) (Some h) (Some s) p :: cs ++ [GetUser (Some u) n k]) d m) as (la & m' & E & d' & Hd' & Hps); [|done|].
  { constructor; [done|]. apply Forall_app. split; [done|]. by repeat constructor. }
  inversion Hps as [|? ? ? a d1 l0 ? Ha Hrest]; subst. apply promises_app in Hrest as (l & lb & d2 & -> & Hl & Hb).
  inversion Hb as [|? ? ? b d3 lb0 ? Hg Hnil]; subst. inversion Hnil; subst. exists a, l, b, m'. split; [done|]. intros ->.
  inversion Ha as [| | | | | | | | | | |? ? ? ? ? ? ? ? Hv| | | | |]; subst. assert (User u h s p ∈ (view d2).(users)) as Hu.
  { destruct (promises_users _ _ _ _ Hl) as [rest E2]. rewrite E2, Hv. cbn [users add_user]. set_solver. }
  inversion Hg as [| | | | | | | | | | | |r ? ? ? ? ? ? Hr Hv2| | | |]; subst; try by left. right. do 2 f_equal.
  pose proof (unique_users d' (proj2 Hd')) as Huq. rewrite Hv2 in Huq.
  rewrite (user_unique _ _ _ Huq Hr Hu) by done. cbn [u_hash u_salt u_perms]. by rewrite s32_small.
Qed.
End store.

(** ** Witness: tables in memory *)

(** Statements by their text, on tables whose times are empty; not ready before the schema. *)
Definition mem : Type := bool * tables.
Definition mem_step (d : mem) (sql : list byte) (args : list value) : result * mem :=
  let '(up, t) := d in
  if decide (sql = ADD_FILE_SQL) then
    match args with
    | [VText n; VInt z; VText m; VText u] =>
        if decide (n ∈ f_name <$> t.(files)) then (Failed, d) else (Done 1, (up, add_file (File n z m u []) t))
    | _ => (Failed, d)
    end
  else if decide (sql = REMOVE_FILE_SQL) then
    match args with
    | [VText n] => (Done (Z.of_nat (length (filter (λ f, f.(f_name) = n) t.(files)))), (up, remove_file n t))
    | _ => (Failed, d)
    end
  else if decide (sql = ADD_USER_SQL) then
    match args with
    | [VText u; VText h; VText s; VInt p] => if decide (u ∈ u_name <$> t.(users)) then (Failed, d) else (Done 1, (up, add_user (User u h s p) t))
    | _ => (Failed, d)
    end
  else if decide (sql = GET_USER_SQL) then
    match args with [VText u] => (Rows (user_cells <$> filter (λ r, r.(u_name) = u) t.(users)) true, d) | _ => (Failed, d) end
  else if decide (sql = COUNT_FILES_SQL) then (Rows [[Some (VInt (Z.of_nat (length t.(files))))]] true, d)
  else (Failed, d).
#[local] Instance mem_sqlite : Sqlite mem := {
  sqlite3_open := λ _, Some (false, Tables [] [] []);
  sqlite3_exec := λ d sql, if decide (sql = SCHEMA_SQL) then Some (true, Tables [] [] []) else Some d;
  sqlite3_prepare := λ _ _, true;
  sqlite3_step := mem_step
}.
Definition mem_ready (d : mem) : Prop := d.1 = true ∧ NoDup (u_name <$> d.2.(users)).
#[local] Instance mem_laws : SqliteLaws mem.
Proof.
  refine (Build_SqliteLaws mem _ mem_ready snd _ _ _).
  - intros d d'. cbn. rewrite decide_True by done. intros [= <-]. split; [done|constructor].
  - by intros d [_ ?].
  - intros [up t] s [Hup Hu] Hok. cbn in Hup, Hu. subst up. destruct s; cbn -[files users]; try (split; [by split|constructor]).
    + destruct (decide (n ∈ f_name <$> files t)); (split; [by split|by constructor]).
    + destruct (decide (u ∈ u_name <$> users t)); (split; [split; [done|]|by constructor]); [done|].
      cbn [snd users add_user]. rewrite fmap_app. apply NoDup_app. split_and!; [done|set_solver|apply NoDup_singleton].
Defined.
Definition wit_calls : list call := [AddFile (Some (str "a")) (2 ^ 63) None (Some (str "bob")); RemoveFile (Some (str "b")); GetStats true false false].
Definition wit_store : metadata_t mem := Meta (Some (true, Tables [] [] [])) [] 0 [].
Lemma wit_holds : holds (true, Tables [] [] []) wit_store.
Proof. split; [done|split; [done|constructor]]. Qed.
Lemma metadata_run_refines_witness : ∃ m' d', run_calls [] wit_calls wit_store = Ret ([Code 0; Code (-1); Stats 0 (Some 1, None, None)], m') ∧
  promises wit_calls (true, Tables [] [] []) [Code 0; Code (-1); Stats 0 (Some 1, None, None)] d' ∧ length d'.2.(files) = 1%nat.
Proof.
  destruct (metadata_run_refines [] wit_calls (true, Tables [] [] []) wit_store) as (l & m' & d' & E & [Hd Hr] & Hp);
    [repeat constructor; unfold call_ok, is_u64; lia|exact wit_holds|].
  assert (l = [Code 0; Code (-1); Stats 0 (Some 1, None, None)]) as -> by (vm_compute in E; by injection E as <- _).
  exists m', d'. split; [exact E|]. split; [exact Hp|].
  vm_compute in E. injection E as <-. cbn in Hd. injection Hd as <-. reflexivity.
Defined.
Lemma metadata_user_kept_witness : ∃ a l b m', run_calls [] [AddUser (Some (str "eve")) (Some (str "0123456789")) (Some (str "salt")) 7;
    RemoveFile (Some (str "x")); GetUser (Some (str "eve")) 5 64] wit_store = Ret (a :: l ++ [b], m') ∧
  b = UserOf 0 (Some (Some (str "0123"), Some (str "salt"), 7)).
Proof.
  destruct (metadata_user_kept [] (str "eve") (str "0123456789") (str "salt") 7 [RemoveFile (Some (str "x"))] 5 64 (true, Tables [] [] []) wit_store)
    as (a & l & b & m' & E & Hb); [lia|repeat constructor|lia|lia|exact wit_holds|].
  exists a, l, b, m'. split; [exact E|]. 
  pose proof (f_equal (λ o, match o with Ret (x :: _, _) => Some x | _ => None end) E) as Ea. vm_compute in Ea. injection Ea as Ea.
  pose proof (f_equal (λ o, match o with Ret (x, _) => last x | _ => None end) E) as El. cbv beta iota in El.
  change (a :: l ++ [b]) with ((a :: l) ++ [b]) in El. rewrite last_snoc in El.
  destruct (Hb (eq_sym Ea)) as [Eb|Eb]; [|exact Eb]. subst b. vm_compute in El. discriminate.
Defined.
End MetadataSpec.
