(* ===== verification/ServerLog.v ===== *)
(** * The log of the file server (linux-file-server/src/log.c)

    The static variables, the files, and what is printed.  The text of the time and the
    formatted message are arguments of each call; which files can be opened and which
    directories made are arguments of the model. *)

From stdpp Require Import gmap.
From S2P Require Import Prelude.

Module ServerLog.

Definition log_level_t : Type := Z.
Definition LOG_DEBUG : log_level_t := 0.
Definition LOG_INFO : log_level_t := 1.
Definition LOG_WARN : log_level_t := 2.
Definition LOG_ERROR : log_level_t := 3.
Definition LOG_FATAL : log_level_t := 4.
Definition level_strings : list (list byte) := [str "DEBUG"; str "INFO "; str "WARN "; str "ERROR"; str "FATAL"].

(** [log_fp] is the path of the open file. *)
Record log := Log {
  log_fp : option (list byte); current_level : log_level_t; log_mutex : bool; log_filepath : list byte;
  rotate_max_size : Z; rotate_max_files : Z;
  files : gmap (list byte) (list byte); dirs : gset (list byte); out : list byte; err : list byte
}.
(** The variables when the program starts. *)
Definition start (fs : gmap (list byte) (list byte)) (ds : gset (list byte)) : log := Log None LOG_INFO false [] 0 5 fs ds [] [].

Definition set_fp (p : option (list byte)) (s : log) : log :=
  Log p s.(current_level) s.(log_mutex) s.(log_filepath) s.(rotate_max_size) s.(rotate_max_files) s.(files) s.(dirs) s.(out) s.(err).
Definition set_level (l : log_level_t) (s : log) : log :=
  Log s.(log_fp) l s.(log_mutex) s.(log_filepath) s.(rotate_max_size) s.(rotate_max_files) s.(files) s.(dirs) s.(out) s.(err).
Definition set_mutex (b : bool) (s : log) : log :=
  Log s.(log_fp) s.(current_level) b s.(log_filepath) s.(rotate_max_size) s.(rotate_max_files) s.(files) s.(dirs) s.(out) s.(err).
Definition set_filepath (p : list byte) (s : log) : log :=
  Log s.(log_fp) s.(current_level) s.(log_mutex) p s.(rotate_max_size) s.(rotate_max_files) s.(files) s.(dirs) s.(out) s.(err).
Definition set_rotate (size n : Z) (s : log) : log :=
  Log s.(log_fp) s.(current_level) s.(log_mutex) s.(log_filepath) size n s.(files) s.(dirs) s.(out) s.(err).
Definition set_files (f : gmap (list byte) (list byte) → gmap (list byte) (list byte)) (s : log) : log :=
  Log s.(log_fp) s.(current_level) s.(log_mutex) s.(log_filepath) s.(rotate_max_size) s.(rotate_max_files) (f s.(files)) s.(dirs) s.(out) s.(err).
Definition add_dir (d : list byte) (s : log) : log :=
  Log s.(log_fp) s.(current_level) s.(log_mutex) s.(log_filepath) s.(rotate_max_size) s.(rotate_max_files) s.(files) ({[d]} ∪ s.(dirs)) s.(out) s.(err).
Definition print_out (t : list byte) (s : log) : log :=
  Log s.(log_fp) s.(current_level) s.(log_mutex) s.(log_filepath) s.(rotate_max_size) s.(rotate_max_files) s.(files) s.(dirs) (s.(out) ++ t) s.(err).
Definition print_err (t : list byte) (s : log) : log :=
  Log s.(log_fp) s.(current_level) s.(log_mutex) s.(log_filepath) s.(rotate_max_size) s.(rotate_max_files) s.(files) s.(dirs) s.(out) (s.(err) ++ t).

Definition lock : C log unit := s ← c_get; if s.(log_mutex) then c_blocked else c_mod (set_mutex true).
Definition unlock : C log unit := c_mod (set_mutex false).

(** rename and remove; failures change nothing. *)
Definition rename (a b : list byte) (fs : gmap (list byte) (list byte)) : gmap (list byte) (list byte) :=
  match fs !! a with Some t => <[b := t]> (delete a fs) | None => fs end.

Section log.
Context (openable mkdir_ok : list byte → bool).

(** fopen(path, "a"). *)
Definition open_append (path : list byte) : C log bool :=
  if openable path then c_mod (λ s, set_fp (Some path) (set_files (λ fs, <[path := default [] (fs !! path)]> fs) s));; mret true
  else mret false.

(** The name that log_init makes; blanks and colons are replaced in all of it. *)
Definition log_name (log_dir time_str : list byte) : list byte :=
  (λ c, if decide (c = x20 ∨ c = x3a) then x2d else c) <$> take 511 (log_dir ++ str "/server_" ++ time_str ++ str ".log").

Definition log_init (log_dir : option (list byte)) (level : log_level_t) (time_str : list byte) : C log Z :=
  lock;;
  c_mod (set_level level);;
  match log_dir with
  | None => unlock;; mret 0
  | Some d =>
      s ← c_get;
      made ← (if bool_decide (d ∈ s.(dirs)) || bool_decide (is_Some (s.(files) !! d)) then mret true
              else if mkdir_ok d then c_mod (add_dir d);; mret true else mret false);
      if negb made then
        c_mod (print_err (str "Failed to create log directory: " ++ d ++ [x0a]));; unlock;; mret (-1)
      else
        c_mod (set_filepath (log_name d time_str));;
        ok ← open_append (log_name d time_str);
        if (ok : bool) then unlock;; mret 0
        else c_mod (set_fp None);; c_mod (print_err (str "Failed to open log file: " ++ log_name d time_str ++ [x0a]));; unlock;; mret (-1)
  end.

Definition log_close : C log unit := lock;; c_mod (set_fp None);; unlock.
Definition log_set_level (l : log_level_t) : C log unit := c_mod (set_level l).
(** The product overflows from 2048 on. *)
Definition log_set_rotate (max_size_mb max_files : Z) : C log unit :=
  lock;;
  let size := max_size_mb * 1024 * 1024 in
  (if (- 2 ^ 31 <=? size) && (size <? 2 ^ 31) then c_mod (set_rotate size max_files) else c_ub);;
  unlock.

(** "%s.%d" in 512 bytes. *)
Definition rotated (path : list byte) (i : Z) : list byte := take 511 (path ++ str "." ++ dec i).
Fixpoint shift_files (path : list byte) (n : nat) (fs : gmap (list byte) (list byte)) : gmap (list byte) (list byte) :=
  match n with
  | O => fs
  | S n' => shift_files path n' (rename (rotated path (Z.of_nat n)) (rotated path (Z.of_nat n + 1)) fs)
  end.
Definition log_check_rotate : C log unit :=
  s ← c_get;
  match s.(log_fp) with
  | None => mret tt
  | Some fp =>
      if (s.(rotate_max_size) <=? 0) || (strlen (default [] (s.(files) !! fp)) <? s.(rotate_max_size)) then mret tt else
      c_mod (set_fp None);;
      c_mod (set_files (delete (rotated s.(log_filepath) s.(rotate_max_files))));;
      c_mod (set_files (shift_files s.(log_filepath) (Z.to_nat (s.(rotate_max_files) - 1))));;
      c_mod (set_files (rename s.(log_filepath) (rotated s.(log_filepath) 1)));;
      ok ← open_append s.(log_filepath);
      if (ok : bool) then mret tt
      else c_mod (print_err (str "Failed to reopen log file after rotation: " ++ s.(log_filepath) ++ [x0a]))
  end.

Definition log_line (level : log_level_t) (time_str msg : list byte) : list byte :=
  str "[" ++ time_str ++ str "] [" ++ nth (Z.to_nat level) level_strings [] ++ str "] " ++ msg ++ [x0a].
Definition log_write_impl (level : log_level_t) (time_str msg : list byte) : C log unit :=
  s ← c_get;
  if level <? s.(current_level) then mret tt else
  lock;;
  if (level <? 0) || (4 <? level) then c_ub else            (* level_strings[level] *)
  let line := log_line level time_str msg in
  c_mod (print_out line);;
  s ← c_get;
  (match s.(log_fp) with
   | Some p => c_mod (set_files (λ fs, <[p := default [] (fs !! p) ++ line]> fs))
   | None => mret tt
   end);;
  log_check_rotate;;
  unlock.
Definition log_debug : list byte → list byte → C log unit := log_write_impl LOG_DEBUG.
Definition log_info : list byte → list byte → C log unit := log_write_impl LOG_INFO.
Definition log_warn : list byte → list byte → C log unit := log_write_impl LOG_WARN.
Definition log_error : list byte → list byte → C log unit := log_write_impl LOG_ERROR.
Definition log_fatal : list byte → list byte → C log unit := log_write_impl LOG_FATAL.
Definition log_write : log_level_t → list byte → list byte → C log unit := log_write_impl.
End log.
End ServerLog.
