(* ===== verification/ServerLogSpec.v ===== *)
(** * The log of the file server: what the files hold

    The current file and its rotated generations are a window on everything that was
    logged: [generations] is the specification, and every sequence of calls keeps the
    files equal to it. *)

From stdpp Require Import gmap.
From S2P Require Import Prelude ServerLog.
Import ServerLog.

Module ServerLogSpec.
#[local] Arguments Z.to_nat : simpl never.
#[local] Arguments dec : simpl never.

(** ** The names of generations *)

Lemma dec_inj a b : 0 ≤ a < 2 ^ 64 → 0 ≤ b < 2 ^ 64 → dec a = dec b → a = b.
Proof. intros Ha Hb E. destruct (dec_spec a Ha) as (_ & _ & <-), (dec_spec b Hb) as (_ & _ & <-). by rewrite E. Qed.
Lemma dec_length10 i : 0 ≤ i ≤ 2 ^ 31 → (length (dec i) ≤ 10)%nat.
Proof. intros Hi. unfold dec. rewrite (proj2 (Z.ltb_ge _ _)) by lia. apply (digits_length 64 i 10); [change (10 ^ Z.of_nat 10) with 10000000000|]; lia. Qed.
Section names.
Context (path : list byte) (Hpath : (length path ≤ 500)%nat).
Lemma rotated_whole i : 0 ≤ i ≤ 2 ^ 31 → rotated path i = path ++ str "." ++ dec i.
Proof. intros Hi. unfold rotated. apply take_ge. rewrite !length_app. pose proof (dec_length10 i Hi). change (length (str ".")) with 1%nat. lia. Qed.
Lemma rotated_inj i j : 0 ≤ i ≤ 2 ^ 31 → 0 ≤ j ≤ 2 ^ 31 → i ≠ j → rotated path i ≠ rotated path j.
Proof.
  intros Hi Hj Hne. rewrite !rotated_whole by done. intros E. apply app_inv_head, app_inv_head in E. apply Hne. apply dec_inj; [lia|lia|done].
Qed.
Lemma rotated_not_path i : 0 ≤ i ≤ 2 ^ 31 → rotated path i ≠ path.
Proof.
  intros Hi E. apply (f_equal length) in E. rewrite rotated_whole, !length_app in E by done. change (length (str ".")) with 1%nat in E. lia.
Qed.

(** ** Moving the generations up *)

Lemma rename_lookup a b fs k : a ≠ b → (fs !! a = None → fs !! b = None) →
  rename a b fs !! k = if decide (k = b) then fs !! a else if decide (k = a) then None else fs !! k.
Proof.
  intros Hab Hn. unfold rename. destruct (fs !! a) as [t|] eqn:E.
  - destruct (decide (k = b)) as [->|]; [by rewrite lookup_insert_eq|]. rewrite lookup_insert_ne by done.
    destruct (decide (k = a)) as [->|]; [by rewrite lookup_delete_eq|]. by rewrite lookup_delete_ne.
  - destruct (decide (k = b)) as [->|]; [by rewrite Hn|]. destruct (decide (k = a)) as [->|]; done.
Qed.
Lemma shift_spec n fs : Z.of_nat n + 1 ≤ 2 ^ 31 → fs !! rotated path (Z.of_nat n + 1) = None →
  let fs' := shift_files path n fs in
  fs' !! rotated path 1 = None ∧
  (∀ j, 1 ≤ j ≤ Z.of_nat n → fs' !! rotated path (j + 1) = fs !! rotated path j) ∧
  (∀ k, (∀ j, 1 ≤ j ≤ Z.of_nat n + 1 → k ≠ rotated path j) → fs' !! k = fs !! k).
Proof.
  revert fs. induction n as [|n IH]; intros fs Hn Hnone; cbn zeta; cbn [shift_files].
  - split_and!; [done|lia|done].
  - assert (Hne : rotated path (Z.of_nat (S n)) ≠ rotated path (Z.of_nat (S n) + 1)) by (apply rotated_inj; lia).
    set (fs1 := rename _ _ fs). assert (H1 : ∀ k, fs1 !! k = if decide (k = rotated path (Z.of_nat (S n) + 1)) then fs !! rotated path (Z.of_nat (S n))
        else if decide (k = rotated path (Z.of_nat (S n))) then None else fs !! k) by (intros k; by apply rename_lookup).
    destruct (IH fs1) as (Ha & Hb & Hc); [lia| |].
    { rewrite H1. replace (Z.of_nat n + 1) with (Z.of_nat (S n)) by lia. by rewrite decide_False, decide_True. }
    split_and!; [done| |].
    + intros j Hj. destruct (decide (j = Z.of_nat (S n))) as [->|].
      * rewrite Hc, H1 by (intros; apply rotated_inj; lia). by rewrite decide_True.
      * rewrite Hb, H1 by lia. rewrite !decide_False; [done|apply rotated_inj; lia..].
    + intros k Hk. rewrite Hc, H1 by (intros; apply Hk; lia). rewrite !decide_False; [done|apply Hk; lia..].
Qed.
End names.

(** ** The specification *)

(** The text of the current file and the generations, the youngest first. *)
Definition generations : Type := list byte * list (list byte).
Section spec.
Context (max_size max_files : Z).
Definition append_line (g : generations) (line : list byte) : generations :=
  let cur := g.1 ++ line in
  if max_size <=? strlen cur then ([], take (Z.to_nat max_files) (cur :: g.2)) else (cur, g.2).
(** Everything that is kept, the oldest first. *)
Definition kept (g : generations) : list byte := mjoin (rev g.2) ++ g.1.
End spec.
(** A call: level, time and message. *)
Definition entry : Type := log_level_t * list byte * list byte.
Definition lines_from (min : log_level_t) (es : list entry) : list (list byte) :=
  (λ e : entry, log_line e.1.1 e.1.2 e.2) <$> filter (λ e : entry, min ≤ e.1.1) es.

Definition holds (path : list byte) (n : Z) (fs : gmap (list byte) (list byte)) (g : generations) : Prop :=
  fs !! path = Some g.1 ∧ (length g.2 ≤ Z.to_nat n)%nat ∧ ∀ i, 1 ≤ i ≤ n → fs !! rotated path i = g.2 !! Z.to_nat (i - 1).
(** An open log that rotates. *)
Record logging (path : list byte) (level size n : Z) (s : log) : Prop := {
  lg_fp : s.(log_fp) = Some path; lg_path : s.(log_filepath) = path; lg_level : s.(current_level) = level; lg_mutex : s.(log_mutex) = false;
  lg_size : s.(rotate_max_size) = size; lg_n : s.(rotate_max_files) = n
}.

Section refines.
Context (openable : list byte → bool) (path : list byte) (level size n : Z).
Context (Hpath : (length path ≤ 500)%nat) (Hopen : openable path = true) (Hsize : 0 < size) (Hn : 1 ≤ n < 2 ^ 31).

(** Names that belong to the log. *)
Definition own (k : list byte) : Prop := k = path ∨ ∃ i, 1 ≤ i ≤ n ∧ k = rotated path i.
Lemma rotate_files fs cur old fs1 : holds path n fs (cur, old) →
  fs1 = rename path (rotated path 1) (shift_files path (Z.to_nat (n - 1)) (delete (rotated path n) fs)) →
  holds path n (<[path := default [] (fs1 !! path)]> fs1) ([], take (Z.to_nat n) (cur :: old)) ∧ ∀ k, ¬ own k → <[path := default [] (fs1 !! path)]> fs1 !! k = fs !! k.
Proof.
  intros (Hc & Hl & Hg) ->. cbn [fst snd] in *. set (fs0 := delete _ fs).
  destruct (shift_spec path Hpath (Z.to_nat (n - 1)) fs0) as (H1 & H2 & H3); [lia| |].
  { replace (Z.of_nat (Z.to_nat (n - 1)) + 1) with n by lia. apply lookup_delete_eq. }
  set (fs2 := shift_files _ _ fs0) in *.
  assert (Hp2 : fs2 !! path = Some cur).
  { rewrite H3; [|intros j Hj E; symmetry in E; revert E; apply rotated_not_path; [done|lia]]. unfold fs0. rewrite lookup_delete_ne; [done|]. apply rotated_not_path; [done|lia]. }
  assert (Hr : ∀ k, rename path (rotated path 1) fs2 !! k = if decide (k = rotated path 1) then Some cur else if decide (k = path) then None else fs2 !! k).
  { intros k. rewrite rename_lookup, Hp2; [done| |done]. intros E. symmetry in E. revert E. apply rotated_not_path; [done|lia]. }
  assert (Hp : rename path (rotated path 1) fs2 !! path = None).
  { rewrite Hr, decide_False, decide_True; [done|done|]. intros E. symmetry in E. revert E. apply rotated_not_path; [done|lia]. }
  rewrite Hp. cbn [default]. split; [split_and!|]; cbn [fst snd].
  - apply lookup_insert_eq.
  - rewrite length_take. lia.
  - intros i Hi. rewrite lookup_insert_ne by (intros E; symmetry in E; revert E; apply rotated_not_path; [done|lia]).
    rewrite Hr. rewrite lookup_take_lt by lia. destruct (decide (i = 1)) as [->|].
    + by rewrite decide_True.
    + rewrite decide_False by (apply rotated_inj; [done|lia..]). rewrite decide_False by (apply rotated_not_path; [done|lia]).
      replace i with (i - 1 + 1) at 1 by lia. rewrite H2 by lia. unfold fs0. rewrite lookup_delete_ne by (apply rotated_inj; [done|lia..]).
      rewrite Hg by lia. replace (Z.to_nat (i - 1)) with (S (Z.to_nat (i - 1 - 1))) by lia. done.
  - intros k Hk. assert (k ≠ path) by (intros ->; apply Hk; by left). assert (∀ j, 1 ≤ j ≤ n → k ≠ rotated path j) by (intros j Hj ->; apply Hk; right; by exists j).
    rewrite lookup_insert_ne by done. rewrite Hr, !decide_False by (auto with lia). rewrite H3 by (intros; auto with lia).
    unfold fs0. rewrite lookup_delete_ne; [done|]. intros E. symmetry in E. revert E. apply H0. lia.
Qed.

Lemma check_refines b fs ds o e g : holds path n fs g → ∃ fs',
  log_check_rotate openable (Log (Some path) level b path size n fs ds o e) = Ret (tt, Log (Some path) level b path size n fs' ds o e) ∧
  holds path n fs' (if size <=? strlen g.1 then ([], take (Z.to_nat n) (g.1 :: g.2)) else g) ∧ ∀ k, ¬ own k → fs' !! k = fs !! k.
Proof.
  intros Hg. assert (Hc := proj1 Hg). unfold log_check_rotate, open_append.
  cbv [mbind C_bind c_get c_mod mret C_ret set_fp set_files log_fp files ServerLog.out current_level log_mutex log_filepath rotate_max_size rotate_max_files dirs err].
  rewrite Hc. cbn [default from_option id]. rewrite (proj2 (Z.leb_gt size 0)) by lia. cbn [orb]. rewrite Z.ltb_antisym.
  destruct (size <=? strlen g.1); cbn [negb]; [|by exists fs]. rewrite Hopen.
  destruct g as [cur old]. destruct (rotate_files fs cur old _ Hg eq_refl) as [Ha Hb]. eexists. split; [reflexivity|]. by split.
Qed.
Lemma write_refines s g l t m : logging path level size n s → holds path n s.(files) g → 0 ≤ l ≤ 4 → ∃ s',
  log_write_impl openable l t m s = Ret (tt, s') ∧ logging path level size n s' ∧
  holds path n s'.(files) (if l <? level then g else append_line size n g (log_line l t m)) ∧
  s'.(out) = s.(out) ++ (if l <? level then [] else log_line l t m) ∧ ∀ k, ¬ own k → s'.(files) !! k = s.(files) !! k.
Proof.
  intros [Hf Hp Hv Hm Hs Hnn] Hg Hl. destruct s as [fp cl mx lp rs rn fs ds o e]. cbn in Hf, Hp, Hv, Hm, Hs, Hnn, Hg. subst fp cl mx lp rs rn.
  unfold log_write_impl. cbv [mbind C_bind c_get current_level]. destruct (l <? level) eqn:El.
  { eexists. split; [reflexivity|]. split_and!; [done|done|by rewrite app_nil_r|done]. }
  unfold lock. rewrite (proj2 (Z.ltb_ge l 0)), (proj2 (Z.ltb_ge 4 l)) by lia. set (line := log_line l t m). destruct Hg as (Hc & Hlen & Hgen).
  cbv [orb mbind C_bind c_get c_mod print_out log_fp set_files files ServerLog.out current_level log_mutex log_filepath rotate_max_size rotate_max_files dirs err set_mutex].
  rewrite Hc. cbn [default from_option id]. set (fs1 := <[path := g.1 ++ line]> fs).
  destruct (check_refines true fs1 ds (o ++ line) e (g.1 ++ line, g.2)) as (fs' & -> & Hh & Hk).
  { split_and!; cbn [fst snd]; [apply lookup_insert_eq|done|].
    intros i Hi. unfold fs1. rewrite lookup_insert_ne; [by apply Hgen|]. intros E. symmetry in E. revert E. apply rotated_not_path; [done|lia]. }
  eexists. split; [reflexivity|]. split_and!; [by split|exact Hh|done|]. intros k Hk'. cbn [set_mutex files]. rewrite Hk by done.
  unfold fs1. rewrite lookup_insert_ne; [done|]. intros <-. apply Hk'. by left.
Qed.

Fixpoint log_all (es : list entry) : C log unit :=
  match es with [] => mret tt | e :: es' => log_write_impl openable e.1.1 e.1.2 e.2;; log_all es' end.
Lemma append_kept g line : ∃ lost, kept g ++ line = lost ++ kept (append_line size n g line).
Proof.
  unfold append_line, kept. destruct (size <=? strlen (g.1 ++ line)); cbn [fst snd].
  - exists (mjoin (rev (drop (Z.to_nat n) ((g.1 ++ line) :: g.2)))). rewrite app_nil_r, <- join_app, <- rev_app_distr, take_drop.
    cbn [rev]. rewrite join_app. cbn. by rewrite app_nil_r, (assoc_L (++)).
  - exists []. cbn [app]. by rewrite (assoc_L (++)).
Qed.
Lemma append_all_kept ls : ∀ g, ∃ lost, kept g ++ mjoin ls = lost ++ kept (foldl (append_line size n) g ls).
Proof.
  induction ls as [|l ls IH]; intros g; cbn [foldl]; [change (mjoin []) with (@nil byte)|change (mjoin (l :: ls)) with (l ++ mjoin ls)].
  - exists []. by rewrite app_nil_r.
  - destruct (append_kept g l) as [a Ha]. destruct (IH (append_line size n g l)) as [b Hb]. exists (a ++ b).
    by rewrite (assoc_L (++)), Ha, <- (assoc_L (++)), Hb, (assoc_L (++)).
Qed.
(** Nothing is lost while there is room for another generation, and each generation that
    has been closed has at least the size asked for. *)
Lemma append_all_room ls : ∀ g, Forall (λ t, size ≤ strlen t) g.2 → (length g.2 ≤ Z.to_nat n)%nat →
  let g' := foldl (append_line size n) g ls in
  Forall (λ t, size ≤ strlen t) g'.2 ∧ ((length g'.2 < Z.to_nat n)%nat → kept g ++ mjoin ls = kept g' ∧ (length g.2 ≤ length g'.2)%nat).
Proof.
  induction ls as [|l ls IH]; intros g Hg Hl; cbn [foldl]; [by rewrite app_nil_r|]. change (mjoin (l :: ls)) with (l ++ mjoin ls).
  assert (Ha : Forall (λ t, size ≤ strlen t) (append_line size n g l).2 ∧ (length (append_line size n g l).2 ≤ Z.to_nat n)%nat ∧ (length g.2 ≤ length (append_line size n g l).2)%nat ∧
    ((length (append_line size n g l).2 < Z.to_nat n)%nat → kept g ++ l = kept (append_line size n g l))).
  { unfold append_line, kept. destruct (Z.leb_spec size (strlen (g.1 ++ l))); cbn [fst snd].
    - rewrite length_take. split_and!; [apply Forall_take; by constructor|lia|cbn [length]; lia|]. intros Hr. cbn [length] in Hr. rewrite take_ge by (cbn [length]; lia).
      cbn [rev]. rewrite join_app. cbn. by rewrite !app_nil_r, (assoc_L (++)).
    - split_and!; [done|done|done|by rewrite (assoc_L (++))]. }
  destruct Ha as (H1 & H2 & H3 & H4). destruct (IH _ H1 H2) as [H5 H6]. split; [done|]. intros Hr. destruct (H6 Hr) as [E Hle].
  split; [|lia]. by rewrite (assoc_L (++)), H4, E by lia.
Qed.

(** C28. However many calls at whatever levels: they return, the files are the generations of
    the specification, no other file is touched, the lines from the minimum level on go to
    the console, and what is kept is the end of everything that was ever kept and logged;
    while there is room for another generation it is all of it, and every closed
    generation has at least the size asked for. *)
Theorem log_rotation_refines s g es : logging path level size n s → holds path n s.(files) g → Forall (λ e : entry, 0 ≤ e.1.1 ≤ 4) es →
  Forall (λ t, size ≤ strlen t) g.2 → let ls := lines_from level es in let g' := foldl (append_line size n) g ls in ∃ s' lost,
  log_all es s = Ret (tt, s') ∧ logging path level size n s' ∧ holds path n s'.(files) g' ∧ (∀ k, ¬ own k → s'.(files) !! k = s.(files) !! k) ∧
  s'.(out) = s.(out) ++ mjoin ls ∧ kept g ++ mjoin ls = lost ++ kept g' ∧ ((length g'.2 < Z.to_nat n)%nat → lost = []) ∧ Forall (λ t, size ≤ strlen t) g'.2.
Proof.
  intros Hs Hg He Hf ls g'. assert (Hrun : ∃ s', log_all es s = Ret (tt, s') ∧ logging path level size n s' ∧ holds path n s'.(files) g' ∧
    (∀ k, ¬ own k → s'.(files) !! k = s.(files) !! k) ∧ s'.(out) = s.(out) ++ mjoin ls).
  { subst ls g'. clear Hf. revert s g Hs Hg. induction He as [|[[l t] m] es Hl _ IH]; intros s g Hs Hg.
    - exists s. split_and!; try done. cbn. by rewrite app_nil_r.
    - destruct (write_refines s g l t m Hs Hg Hl) as (s1 & E & Hs1 & Hg1 & Ho & Hk). cbn [log_all fst snd]. rewrite (bind_Ret _ _ _ _ _ E).
      destruct (IH s1 _ Hs1 Hg1) as (s2 & E2 & Hs2 & Hg2 & Hk2 & Ho2). exists s2. rewrite E2. unfold lines_from in *. rewrite filter_cons. cbn [fst snd].
      destruct (Z.ltb_spec l level); [rewrite decide_False by (cbn; lia)|rewrite decide_True by (cbn; lia)]; (split_and!; [done|done|done|intros k Hk'; by rewrite Hk2, Hk|]);
        rewrite Ho2, Ho; [by rewrite app_nil_r|]. by rewrite <- (assoc_L (++)). }
  destruct Hrun as (s' & E & Hs' & Hg' & Hk & Ho). destruct (append_all_kept ls g) as [lost Hlost].
  destruct (append_all_room ls g Hf ltac:(by destruct Hg as (_ & ? & _))) as [Hbig Hroom]. exists s', lost. split_and!; try done.
  intros Hr. destruct (Hroom Hr) as [Eq _]. rewrite Hlost in Eq. apply (f_equal length) in Eq. rewrite length_app in Eq. destruct lost; [done|cbn in Eq; lia].
Qed.
End refines.

Definition wit_log : log := Log (Some (str "log/a")) LOG_INFO false (str "log/a") 30 2 {[ str "log/a" := [] ]} {[ str "log" ]} [] [].
Definition wit_entries : list entry :=
  [(LOG_WARN, str "10:00:00", str "first"); (LOG_DEBUG, str "10:00:01", str "hidden"); (LOG_INFO, str "10:00:02", str "second");
   (LOG_ERROR, str "10:00:03", str "third"); (LOG_FATAL, str "10:00:04", str "fourth")].
Lemma log_rotation_refines_witness : ∃ s, log_all (λ _, true) wit_entries wit_log = Ret (tt, s) ∧
  s.(files) !! str "log/a.1" = Some (log_line LOG_ERROR (str "10:00:03") (str "third") ++ log_line LOG_FATAL (str "10:00:04") (str "fourth")) ∧
  s.(files) !! str "log/a.2" = Some (log_line LOG_WARN (str "10:00:00") (str "first") ++ log_line LOG_INFO (str "10:00:02") (str "second")).
Proof.
  destruct (log_rotation_refines (λ _, true) (str "log/a") LOG_INFO 30 2 ltac:(cbn; lia) eq_refl ltac:(lia) ltac:(lia) wit_log ([], []) wit_entries)
    as (s & lost & E & _ & (_ & _ & Hi) & _).
  - by split.
  - split_and!; [done|cbn; lia|]. intros i Hi. assert (i = 1 ∨ i = 2) as [-> | ->] by lia; done.
  - unfold wit_entries. do 5 (apply Forall_cons; split; [by split|]). constructor.
  - constructor.
  - exists s. split_and!; [done|by apply (Hi 1 ltac:(lia))|by apply (Hi 2 ltac:(lia))].
Defined.

(** A signal handler that logs while a log call holds the mutex never returns: SIGINT and
    SIGTERM of the server do. *)
Lemma handler_blocks openable s t m : s.(current_level) ≤ LOG_INFO → s.(log_mutex) = true → log_info openable t m s = Blocked.
Proof.
  intros Hl Hm. unfold log_info, log_write_impl, lock. cbv [mbind C_bind c_get]. rewrite (proj2 (Z.ltb_ge _ _)) by done. by rewrite Hm.
Qed.
End ServerLogSpec.
