(* ===== verification/FileServer.v ===== *)
(** * linux-file-server: command handlers and the client table
    (linux-file-server/src/server.c)

    A handler runs on one client socket and the files of the shared directory.
    Paths are the strings the code builds; [readdir] lists names in an arbitrary
    order; the texts of strerror and the size a directory reports are
    parameters. *)

From S2P Require Import Prelude Net.
Import Net Protocol.

Module FileServer.

(** ** Data *)

Definition SUCCESS : Z := 0.
Definition ERR_SEND : Z := -6.
Definition ERR_RECV : Z := -7.
Definition ERR_FILE_OPEN : Z := -8.
Definition ERR_FILE_WRITE : Z := -10.
Definition ERR_PROTOCOL : Z := -14.

Definition CMD_LIST : Z := 1.
Definition CMD_UPLOAD : Z := 2.
Definition CMD_DOWNLOAD : Z := 3.
Definition CMD_DELETE : Z := 4.
Definition CMD_QUIT : Z := 5.
Definition CMD_MKDIR : Z := 7.
Definition CMD_RMDIR : Z := 8.
Definition CMD_PWD : Z := 9.

Definition STATUS_OK : Z := 0.
Definition STATUS_ERROR : Z := 1.
Definition STATUS_NOT_FOUND : Z := 2.
Definition STATUS_DENIED : Z := 3.
Definition STATUS_PARTIAL : Z := 4.

(** [denied] are the paths every open, unlink or mkdir refuses; [writes] scripts
    the outcome of the next writes (complete or not). *)
Record world := World {
  net : sock;
  files : gmap (list byte) (list byte);
  fdirs : gset (list byte);
  denied : gset (list byte);
  writes : list bool;
  running : bool
}.
Definition set_net (s : sock) (w : world) : world :=
  World s w.(files) w.(fdirs) w.(denied) w.(writes) w.(running).
Definition set_files (f : gmap (list byte) (list byte)) (w : world) : world :=
  World w.(net) f w.(fdirs) w.(denied) w.(writes) w.(running).
Definition set_fdirs (d : gset (list byte)) (w : world) : world :=
  World w.(net) w.(files) d w.(denied) w.(writes) w.(running).

(** A socket call on the client's socket. *)
Definition on_net {A} (m : C sock A) : C world A := λ w,
  match m w.(net) with
  | Ret (a, s) => Ret (a, set_net s w)
  | UB => UB | Blocked => Blocked | Fuel => Fuel
  end.

(** Whether the next write is complete. *)
Definition write_ok : C world bool := λ w,
  match w.(writes) with
  | [] => Ret (true, w)
  | b :: bs => Ret (b, World w.(net) w.(files) w.(fdirs) w.(denied) bs w.(running))
  end.

Section server.
Context (shared_dir : list byte).
Context (strerror : Z → list byte) (dir_size : Z).

(** ** Responses *)

Definition server_send_response (status : Z) (message : option (list byte)) : C world Z :=
  n ← on_net (send (response_bytes (Response (u32 status) 0
        (match message with Some m => strncpy_zeroed 256 255 m | None => replicate 256 x00 end))));
  if n <? 0 then mret ERR_SEND else mret SUCCESS.

(** [strstr(name, "..") || strchr(name, '/')]. *)
Definition bad_name (name : list byte) : bool :=
  match find_sub (str "..") name with
  | Some _ => true
  | None => match find_byte x2f name with Some _ => true | None => false end
  end.
Definition file_path (name : list byte) : list byte :=
  take (Z.to_nat 511) (shared_dir ++ str "/" ++ name).
(** What the kernel resolves that path to: with an empty name, or ".", the shared
    directory itself. *)
Definition entry (name : list byte) : list byte :=
  match name with
  | [] => shared_dir
  | [x2e] => shared_dir
  | _ => file_path name
  end.

(** ** LIST *)

(** [%10ld]. *)
Definition padl (w : nat) (s : list byte) : list byte := replicate (w - length s) x20 ++ s.
Definition list_line (name : list byte) (size : Z) : list byte :=
  padr 30 name ++ str " " ++ padl 10 (dec size) ++ str " bytes" ++ [x0a].

(** The directory loop: text and [offset] in the 4096-byte buffer. *)
Fixpoint list_loop (names : list (list byte)) (files : gmap (list byte) (list byte))
    : C (list byte * Z) unit :=
  match names with
  | [] => mret tt
  | n :: names' =>
      (match n with
       | x2e :: _ => mret tt
       | _ => match files !! file_path n with
              | Some content => sn 4096 (list_line n (strlen content))
              | None => mret tt
              end
       end);;
      list_loop names' files
  end.

Definition server_list_files (readdir : list (list byte)) : C world Z :=
  w ← c_get;
  if negb (bool_decide (shared_dir ∈ w.(fdirs))) then
    server_send_response STATUS_ERROR (Some (str "Failed to open directory"));; mret ERR_FILE_OPEN
  else
    match list_loop readdir w.(files) ([], 0) with
    | Ret (_, (text, offset)) =>
        let file_list := if offset =? 0 then str "(empty directory)" ++ [x0a] else text in
        on_net (send (response_bytes (Response STATUS_OK (u32 (strlen file_list))
                 (strncpy_zeroed 256 255 (str "File list")))));;
        on_net (send file_list);;
        mret SUCCESS
    | _ => c_ub
    end.

(** ** DOWNLOAD *)

Fixpoint send_content (fuel : nat) (content : list byte) : C world unit :=
  match content with
  | [] => mret tt
  | _ =>
    match fuel with
    | O => c_fuel
    | S fuel' =>
        r ← on_net (send_all (take (Z.to_nat 4096) content));
        if r <? 0 then mret tt else send_content fuel' (drop (Z.to_nat 4096) content)
    end
  end.

Definition server_send_file (filename : list byte) (offset : Z) : C world Z :=
  if bad_name filename then
    server_send_response STATUS_DENIED (Some (str "Invalid filename"));; mret ERR_FILE_OPEN
  else
  let path := entry filename in
  w ← c_get;
  (* the size fstat reports and the bytes read returns *)
  match (if bool_decide (path ∈ w.(denied)) then None else
         match w.(files) !! path with
         | Some c => Some (strlen c, c)
         | None => if bool_decide (path ∈ w.(fdirs)) then Some (dir_size, []) else None
         end) with
  | None => server_send_response STATUS_NOT_FOUND (Some (str "File not found"));; mret ERR_FILE_OPEN
  | Some (file_size, content) =>
      if file_size <? offset then
        server_send_response STATUS_ERROR (Some (str "Offset exceeds file size"));; mret ERR_PROTOCOL
      else
        on_net (send (response_bytes (Response (if 0 <? offset then STATUS_PARTIAL else STATUS_OK)
                 (u32 (file_size - offset)) (strncpy_zeroed 256 255 (str "File: " ++ filename)))));;
        send_content (length content) (drop (Z.to_nat offset) content);;
        mret SUCCESS
  end.

(** ** UPLOAD *)

(** The position after [lseek(fd, (off_t)offset, SEEK_SET)] on a fresh descriptor:
    a negative offset is refused and the position stays at the start. *)
Definition seek_pos (offset : Z) : nat := if offset <? 2 ^ 63 then Z.to_nat offset else 0%nat.

(** [write] of [bs] at position [pos]; a hole reads as zeros. *)
Definition write_at (content : list byte) (pos : nat) (bs : list byte) : list byte :=
  take pos content ++ replicate (pos - length content) x00 ++ bs ++ drop (pos + length bs) content.

Definition unlink_if (b : bool) (path : list byte) : C world unit :=
  if b then c_mod (λ w, set_files (delete path w.(files)) w) else mret tt.

Fixpoint recv_content (fuel : nat) (path : list byte) (offset : Z) (pos : nat) (remaining : Z)
    : C world Z :=
  if remaining <=? 0 then mret SUCCESS else
  match fuel with
  | O => c_fuel
  | S fuel' =>
      r ← on_net (recv (if remaining <? 4096 then remaining else 4096));
      if r.1 <=? 0 then unlink_if (offset =? 0) path;; mret ERR_RECV else
      ok ← write_ok;
      if negb ok then unlink_if (offset =? 0) path;; mret ERR_FILE_WRITE else
      c_mod (λ w, set_files (<[path := write_at (default [] (w.(files) !! path)) pos r.2]> w.(files)) w);;
      recv_content fuel' path offset (pos + length r.2) (remaining - r.1)
  end.

Definition server_recv_file (filename : list byte) (file_size offset : Z) : C world Z :=
  if bad_name filename then
    server_send_response STATUS_DENIED (Some (str "Invalid filename"));; mret ERR_FILE_OPEN
  else
  let path := entry filename in
  w ← c_get;
  if bool_decide (path ∈ w.(denied)) || bool_decide (path ∈ w.(fdirs)) ||
     negb (bool_decide (shared_dir ∈ w.(fdirs))) then
    server_send_response STATUS_ERROR
      (Some (str (if 0 <? offset then "Failed to open file for resume" else "Failed to create file")));;
    mret ERR_FILE_OPEN
  else
    c_mod (λ w, set_files (<[path := if 0 <? offset then default [] (w.(files) !! path) else []]>
                             w.(files)) w);;
    r ← recv_content (Z.to_nat file_size) path offset (seek_pos offset) file_size;
    if negb (r =? SUCCESS) then mret r else
    server_send_response STATUS_OK (Some (str "File uploaded successfully"));;
    mret SUCCESS.

(** ** DELETE, MKDIR, RMDIR, PWD *)

Definition server_delete_file (filename : list byte) : C world Z :=
  if bad_name filename then
    server_send_response STATUS_DENIED (Some (str "Invalid filename"));; mret ERR_FILE_OPEN
  else
  let path := entry filename in
  w ← c_get;
  if bool_decide (is_Some (w.(files) !! path)) && negb (bool_decide (path ∈ w.(denied))) then
    c_mod (λ w, set_files (delete path w.(files)) w);;
    server_send_response STATUS_OK (Some (str "File deleted"));; mret SUCCESS
  else server_send_response STATUS_NOT_FOUND (Some (str "File not found"));; mret ERR_FILE_OPEN.

Definition ENOENT : Z := 2.
Definition EACCES : Z := 13.
Definition EEXIST : Z := 17.
Definition ENOTDIR : Z := 20.
Definition EINVAL : Z := 22.
Definition ENOTEMPTY : Z := 39.

Definition server_mkdir (dirname : list byte) : C world Z :=
  if bad_name dirname then
    server_send_response STATUS_DENIED (Some (str "Invalid directory name"));; mret ERR_FILE_OPEN
  else
  let path := entry dirname in
  w ← c_get;
  if bool_decide (is_Some (w.(files) !! path)) || bool_decide (path ∈ w.(fdirs)) then
    server_send_response STATUS_ERROR (Some (strerror EEXIST));; mret ERR_FILE_OPEN
  else if negb (bool_decide (shared_dir ∈ w.(fdirs))) && negb (bool_decide (dirname = [])) then
    server_send_response STATUS_ERROR (Some (strerror ENOENT));; mret ERR_FILE_OPEN
  else if bool_decide (path ∈ w.(denied)) then
    server_send_response STATUS_ERROR (Some (strerror EACCES));; mret ERR_FILE_OPEN
  else
    c_mod (λ w, set_fdirs ({[ path ]} ∪ w.(fdirs)) w);;
    server_send_response STATUS_OK (Some (str "Directory created"));; mret SUCCESS.

(** Whether some path lies below [path]. *)
Definition dir_used (path : list byte) (w : world) : bool :=
  existsb (is_prefix (path ++ str "/")) ((map_to_list w.(files)).*1 ++ elements w.(fdirs)).

Definition server_rmdir (dirname : list byte) : C world Z :=
  if bad_name dirname then
    server_send_response STATUS_DENIED (Some (str "Invalid directory name"));; mret ERR_FILE_OPEN
  else
  let path := entry dirname in
  w ← c_get;
  if bool_decide (is_Some (w.(files) !! path)) then
    server_send_response STATUS_ERROR (Some (strerror ENOTDIR));; mret ERR_FILE_OPEN
  else if negb (bool_decide (path ∈ w.(fdirs))) then
    server_send_response STATUS_ERROR (Some (strerror ENOENT));; mret ERR_FILE_OPEN
  else if bool_decide (path ∈ w.(denied)) then
    server_send_response STATUS_ERROR (Some (strerror EACCES));; mret ERR_FILE_OPEN
  else if bool_decide (dirname = str ".") then
    server_send_response STATUS_ERROR (Some (strerror EINVAL));; mret ERR_FILE_OPEN
  else if dir_used path w then
    server_send_response STATUS_ERROR (Some (strerror ENOTEMPTY));; mret ERR_FILE_OPEN
  else
    c_mod (λ w, set_fdirs (w.(fdirs) ∖ {[ path ]}) w);;
    server_send_response STATUS_OK (Some (str "Directory removed"));; mret SUCCESS.

Definition server_pwd : C world Z :=
  server_send_response STATUS_OK (Some shared_dir);; mret SUCCESS.

(** ** The session loop *)

(** The C string in the 256-byte field; without a NUL the code reads past the
    header. *)
Definition field_string (f : list byte) : outcome (list byte) :=
  if bool_decide (x00 ∈ f) then Ret (cstr f) else UB.

(** One command; [true] ends the session. *)
Definition dispatch (h : protocol_header_t) (readdir : list (list byte)) : C world bool :=
  if h.(cmd) =? CMD_LIST then server_list_files readdir;; mret false
  else if h.(cmd) =? CMD_DOWNLOAD then
    n ← c_lift (field_string h.(filename)); server_send_file n h.(offset);; mret false
  else if h.(cmd) =? CMD_UPLOAD then
    n ← c_lift (field_string h.(filename)); server_recv_file n h.(data_len) h.(offset);; mret false
  else if h.(cmd) =? CMD_DELETE then
    n ← c_lift (field_string h.(filename)); server_delete_file n;; mret false
  else if h.(cmd) =? CMD_MKDIR then
    n ← c_lift (field_string h.(filename)); server_mkdir n;; mret false
  else if h.(cmd) =? CMD_RMDIR then
    n ← c_lift (field_string h.(filename)); server_rmdir n;; mret false
  else if h.(cmd) =? CMD_PWD then server_pwd;; mret false
  else if h.(cmd) =? CMD_QUIT then server_send_response STATUS_OK (Some (str "Goodbye"));; mret true
  else server_send_response STATUS_ERROR (Some (str "Unknown command"));; mret false.

(** [readdir k] is the listing a LIST as the [k]-th command would see. *)
Fixpoint session (fuel : nat) (readdir : nat → list (list byte)) (k : nat) : C world unit :=
  w ← c_get;
  if negb w.(running) then mret tt else
  match fuel with
  | O => c_fuel
  | S fuel' =>
      r ← on_net (recv_all sizeof_header);
      if r.1 <? 0 then mret tt else
      let h := bytes_header r.2 in
      if negb (h.(magic) =? PROTOCOL_MAGIC) then
        server_send_response STATUS_ERROR (Some (str "Invalid protocol"));; mret tt
      else
        stop ← dispatch h (readdir k);
        if (stop : bool) then mret tt else session fuel' readdir (S k)
  end.

End server.

(** ** The client table *)

Record client_info_t := Client { cfd : Z; active : bool }.
Record table := Table { clients : list client_info_t; client_count : Z }.

Definition server_init_table (max_clients : Z) : table :=
  Table (replicate (Z.to_nat max_clients) (Client (-1) false)) 0.

Fixpoint claim_slot (fd : Z) (cs : list client_info_t) (i : Z) : option (Z * list client_info_t) :=
  match cs with
  | [] => None
  | c :: cs' =>
      if negb c.(active) then Some (i, Client fd true :: cs')
      else '(j, cs2) ← claim_slot fd cs' (i + 1); Some (j, c :: cs2)
  end.
Definition add_client (t : table) (fd : Z) : Z * table :=
  match claim_slot fd t.(clients) 0 with
  | Some (i, cs) => (i, Table cs (t.(client_count) + 1))
  | None => (-1, t)
  end.

Fixpoint release_slot (fd : Z) (cs : list client_info_t) : option (list client_info_t) :=
  match cs with
  | [] => None
  | c :: cs' =>
      if c.(active) && (c.(cfd) =? fd) then Some (Client (-1) false :: cs')
      else cs2 ← release_slot fd cs'; Some (c :: cs2)
  end.
Definition remove_client (t : table) (fd : Z) : table :=
  match release_slot fd t.(clients) with
  | Some cs => Table cs (t.(client_count) - 1)
  | None => t
  end.

(** The loop of [server_stop]: every active client is closed; the count stays. *)
Definition close_all (t : table) : table :=
  Table ((λ c, if c.(active) then Client (-1) false else c) <$> t.(clients)) t.(client_count).

End FileServer.
