(* ===== verification/FileServerSpec.v ===== *)
(** * linux-file-server: properties of the handlers and the client table *)

From S2P Require Import Prelude Net FileServer.
Import Net Protocol FileServer.

Module FileServerSpec.
#[local] Arguments Z.to_nat : simpl never.

Section spec.
Context (shared_dir : list byte) (strerror : Z → list byte) (dir_size : Z).

(** ** Confinement *)

(** Only the shared directory itself and entries [shared_dir/name], for names
    without a slash or two dots in a row, differ. *)
Definition confined (w w' : world) : Prop :=
  (∀ p, w'.(files) !! p ≠ w.(files) !! p → ∃ n, bad_name n = false ∧ p = entry shared_dir n) ∧
  (∀ p, ¬ (p ∈ w'.(fdirs) ↔ p ∈ w.(fdirs)) → ∃ n, bad_name n = false ∧ p = entry shared_dir n).

Lemma confined_refl w : confined w w.
Proof. split; [done|]. intros p H. by destruct H. Qed.
Lemma confined_trans w1 w2 w3 : confined w1 w2 → confined w2 w3 → confined w1 w3.
Proof.
  intros [F1 D1] [F2 D2]. split.
  - intros p Hp. destruct (decide (files w2 !! p = files w1 !! p)) as [E|E]; [|by apply F1].
    apply F2. by rewrite E.
  - intros p Hp. destruct (decide (p ∈ fdirs w2)), (decide (p ∈ fdirs w1)), (decide (p ∈ fdirs w3));
      first [apply D1; tauto|apply D2; tauto|tauto].
Qed.
Lemma confined_same w w' : w'.(files) = w.(files) → w'.(fdirs) = w.(fdirs) → confined w w'.
Proof. intros Ef Ed. split; intros p; rewrite ?Ef, ?Ed; [done|]. intros []. done. Qed.
Lemma confined_file w f n : bad_name n = false →
  (∀ p, p ≠ entry shared_dir n → f !! p = w.(files) !! p) → confined w (set_files f w).
Proof.
  intros Hn H. split; simpl; [|by intros p []]. intros p Hp. exists n. split; [done|].
  destruct (decide (p = entry shared_dir n)); [done|]. by rewrite H in Hp.
Qed.
Lemma confined_dir w d n : bad_name n = false →
  (∀ p, p ≠ entry shared_dir n → (p ∈ d ↔ p ∈ w.(fdirs))) → confined w (set_fdirs d w).
Proof.
  intros Hn H. split; simpl; [done|]. intros p Hp. exists n. split; [done|].
  destruct (decide (p = entry shared_dir n)); [done|]. by destruct Hp; apply H.
Qed.

Lemma entry_file_path n : n ≠ [] → n ≠ str "." → entry shared_dir n = file_path shared_dir n.
Proof.
  intros H0 H1. destruct n as [|b [|b' n]]; [done| |by destruct b].
  destruct b; try done; by destruct H1.
Qed.

Lemma on_net_inv {A} (m : C sock A) w a w' : on_net m w = Ret (a, w') →
  ∃ s, m w.(net) = Ret (a, s) ∧ w' = set_net s w.
Proof. unfold on_net. destruct (m (net w)) as [[a0 s]| | |]; [|done..]. intros [= <- <-]. by exists s. Qed.
Lemma on_net_confined {A} (m : C sock A) w a w' : on_net m w = Ret (a, w') → confined w w'.
Proof. intros (s & _ & ->)%on_net_inv. by apply confined_same. Qed.

(** Close a confinement goal along the successive states of a run. *)
Ltac confine :=
  repeat match goal with
  | H : on_net _ _ = Ret _ |- _ => apply on_net_confined in H
  end;
  repeat match goal with
  | H : confined ?a ?b |- confined ?a ?c => apply (confined_trans a b c H); clear H
  end; try apply confined_refl.

Lemma response_confined st m w r w' : server_send_response st m w = Ret (r, w') → confined w w'.
Proof. unfold server_send_response. intros H. run_inv. case_match; run_inv; confine. Qed.

Lemma list_files_confined rd w r w' : server_list_files shared_dir rd w = Ret (r, w') → confined w w'.
Proof.
  unfold server_list_files. intros H. apply bind_inv in H as (? & ? & E & H).
  injection E as <- <-. destruct (negb (bool_decide (shared_dir ∈ fdirs w))).
  { apply bind_inv in H as (q & w1 & Hr & H). injection H as <- <-. by eapply response_confined. }
  destruct (list_loop shared_dir rd (files w) ([], 0)) as [[[] [text off]]| | |]; [|done..].
  apply bind_inv in H as (a & w1 & H1 & H). apply bind_inv in H as (b & w2 & H2 & H).
  injection H as <- <-. apply on_net_confined in H1, H2. by eapply confined_trans.
Qed.

Lemma send_content_cons fuel b c :
  send_content (S fuel) (b :: c) =
  (r ← on_net (send_all (take (Z.to_nat 4096) (b :: c)));
   if r <? 0 then mret tt else send_content fuel (drop (Z.to_nat 4096) (b :: c))).
Proof. reflexivity. Qed.
Lemma send_content_nil fuel : send_content fuel [] = mret tt.
Proof. by destruct fuel. Qed.

Lemma send_content_confined fuel : ∀ c w r w', send_content fuel c w = Ret (r, w') → confined w w'.
Proof.
  induction fuel as [|fuel IH]; intros [|b c] w r w' H;
    [rewrite send_content_nil in H; run_inv; apply confined_refl|discriminate H
    |rewrite send_content_nil in H; run_inv; apply confined_refl|].
  rewrite send_content_cons in H. apply bind_inv in H as (q & w1 & Hq & H).
  apply on_net_confined in Hq. destruct (q <? 0); [by run_inv|].
  apply IH in H. by eapply confined_trans.
Qed.

Lemma send_file_confined n off w r w' :
  server_send_file shared_dir dir_size n off w = Ret (r, w') → confined w w'.
Proof.
  unfold server_send_file. intros H. destruct (bad_name n).
  { run_inv. by eapply response_confined. }
  apply bind_inv in H as (? & ? & E & H). injection E as <- <-.
  match type of H with match ?o with _ => _ end _ = _ => destruct o as [[sz c]|] end; [case_match|];
    run_inv; try (by eapply response_confined).
  match goal with Hc : send_content _ _ _ = _ |- _ => apply send_content_confined in Hc end. confine.
Qed.

Lemma unlink_confined b n w r w' : bad_name n = false →
  unlink_if b (entry shared_dir n) w = Ret (r, w') → confined w w'.
Proof.
  intros Hn. unfold unlink_if. destruct b; intros H; run_inv; [|apply confined_refl].
  apply (confined_file _ _ n Hn). intros p Hp. by apply lookup_delete_ne.
Qed.

Lemma write_ok_confined w b w' : write_ok w = Ret (b, w') → confined w w'.
Proof. unfold write_ok. intros H. case_match; injection H as <- <-; by apply confined_same. Qed.

Lemma recv_content_confined fuel n off : bad_name n = false → ∀ pos rem w r w',
  recv_content fuel (entry shared_dir n) off pos rem w = Ret (r, w') → confined w w'.
Proof.
  intros Hn. induction fuel as [|fuel IH]; intros pos rem w r w' H; cbn [recv_content] in H.
  { destruct (rem <=? 0); [run_inv; apply confined_refl|done]. }
  destruct (rem <=? 0); [run_inv; apply confined_refl|].
  apply bind_inv in H as (q & w1 & Hq & H). destruct (q.1 <=? 0).
  { run_inv. match goal with Hu : unlink_if _ _ _ = _ |- _ => apply unlink_confined in Hu; [|done] end.
    confine. }
  apply bind_inv in H as (ok & w2 & Hok & H). apply write_ok_confined in Hok. destruct (negb ok).
  { run_inv. match goal with Hu : unlink_if _ _ _ = _ |- _ => apply unlink_confined in Hu; [|done] end.
    confine. }
  apply bind_inv in H as ([] & w3 & Hw & H). injection Hw as <-. apply IH in H.
  apply on_net_confined in Hq. refine (confined_trans _ _ _ Hq (confined_trans _ _ _ Hok _)).
  refine (confined_trans _ _ _ _ H). apply (confined_file _ _ n Hn). intros p Hp.
  by apply lookup_insert_ne.
Qed.

Lemma recv_file_confined n size off w r w' :
  server_recv_file shared_dir n size off w = Ret (r, w') → confined w w'.
Proof.
  unfold server_recv_file. intros H. destruct (bad_name n) eqn:Hn.
  { run_inv. by eapply response_confined. }
  apply bind_inv in H as (? & ? & E & H). injection E as <- <-. case_match.
  { run_inv. by eapply response_confined. }
  apply bind_inv in H as ([] & w1 & Hw & H). injection Hw as <-.
  apply bind_inv in H as (q & w2 & Hq & H). apply (recv_content_confined _ n off Hn) in Hq.
  refine (confined_trans _ _ _ (confined_file _ _ n Hn _) (confined_trans _ _ _ Hq _)).
  { intros p Hp. by apply lookup_insert_ne. }
  case_match; run_inv; [apply confined_refl|]. by eapply response_confined.
Qed.

Lemma delete_confined n w r w' : server_delete_file shared_dir n w = Ret (r, w') → confined w w'.
Proof.
  unfold server_delete_file. intros H. destruct (bad_name n) eqn:Hn.
  { run_inv. by eapply response_confined. }
  apply bind_inv in H as (? & ? & E & H). injection E as <- <-. case_match; run_inv;
    match goal with Hr : server_send_response _ _ _ = _ |- _ => apply response_confined in Hr end; [|done].
  refine (confined_trans _ _ _ (confined_file _ _ n Hn _) ltac:(eassumption)).
  intros p Hp. by apply lookup_delete_ne.
Qed.

Lemma mkdir_confined n w r w' : server_mkdir shared_dir strerror n w = Ret (r, w') → confined w w'.
Proof.
  unfold server_mkdir. intros H. destruct (bad_name n) eqn:Hn.
  { run_inv. by eapply response_confined. }
  apply bind_inv in H as (? & ? & E & H). injection E as <- <-.
  repeat (case_match; [run_inv; by eapply response_confined|]). run_inv.
  match goal with Hr : server_send_response _ _ _ = _ |- _ => apply response_confined in Hr end.
  refine (confined_trans _ _ _ (confined_dir _ _ n Hn _) ltac:(eassumption)). set_solver.
Qed.
Lemma rmdir_confined n w r w' : server_rmdir shared_dir strerror n w = Ret (r, w') → confined w w'.
Proof.
  unfold server_rmdir. intros H. destruct (bad_name n) eqn:Hn.
  { run_inv. by eapply response_confined. }
  apply bind_inv in H as (? & ? & E & H). injection E as <- <-.
  repeat (case_match; [run_inv; by eapply response_confined|]). run_inv.
  match goal with Hr : server_send_response _ _ _ = _ |- _ => apply response_confined in Hr end.
  refine (confined_trans _ _ _ (confined_dir _ _ n Hn _) ltac:(eassumption)). set_solver.
Qed.

Lemma dispatch_confined h rd w b w' :
  dispatch shared_dir strerror dir_size h rd w = Ret (b, w') → confined w w'.
Proof.
  unfold dispatch. intros H.
  repeat match type of H with
  | (if ?c then _ else _) _ = _ => destruct c
  end; repeat (apply bind_inv in H as (? & ? & ? & H)); injection H; intros; subst;
  repeat match goal with
  | E : c_lift _ _ = Ret _ |- _ =>
      unfold c_lift in E; destruct (field_string _); try discriminate E; injection E; clear E; intros; subst
  end;
  first [by eapply list_files_confined|by eapply send_file_confined|by eapply recv_file_confined
        |by eapply delete_confined|by eapply mkdir_confined|by eapply rmdir_confined
        |by eapply response_confined|idtac].
  match goal with Hp : server_pwd _ _ = _ |- _ => unfold server_pwd in Hp; run_inv end.
  by eapply response_confined.
Qed.

(** ** How a session ends *)

(** The bytes that can still arrive, behind errors too. *)
Definition avail (xs : list (option (list byte))) : nat := sum_list (length ∘ default [] <$> xs).
(** [m] returns, and takes no more than what can arrive. *)
Definition runs {A} (m : C world A) (w : world) : Prop :=
  ∃ a w', m w = Ret (a, w') ∧ (avail w'.(net).(inbox) ≤ avail w.(net).(inbox))%nat.

Lemma runs_ret {A} (a : A) w : runs (mret a) w.
Proof. by exists a, w. Qed.
Lemma runs_bind {A B} (m : C world A) (k : A → C world B) w :
  runs m w → (∀ a w', m w = Ret (a, w') → runs (k a) w') → runs (m ≫= k) w.
Proof.
  intros (a & w1 & E & H1) H. destruct (H a w1 E) as (b & w2 & E2 & H2).
  exists b, w2. split; [by c_step E|lia].
Qed.
Lemma runs_mod f w : (∀ w, (f w).(net) = w.(net)) → runs (c_mod f) w.
Proof. intros H. exists tt, (f w). by rewrite H. Qed.
Lemma runs_get w : runs c_get w.
Proof. by exists w, w. Qed.
Lemma runs_write_ok w : runs write_ok w.
Proof. unfold runs, write_ok. destruct (writes w) as [|b bs]; by eexists _, _. Qed.
Lemma on_net_run {A} (m : C sock A) w a s : m w.(net) = Ret (a, s) → on_net m w = Ret (a, set_net s w).
Proof. intros H. unfold on_net. by rewrite H. Qed.
Lemma runs_net {A} (m : C sock A) w a s :
  m w.(net) = Ret (a, s) → (avail s.(inbox) ≤ avail w.(net).(inbox))%nat → runs (on_net m) w.
Proof. intros E H. exists a, (set_net s w). by rewrite (on_net_run _ _ _ _ E). Qed.
Lemma runs_send d w : runs (on_net (send d)) w.
Proof.
  assert (∃ n s, send d w.(net) = Ret (n, s) ∧ s.(inbox) = w.(net).(inbox)) as (n & s & E & Hi)
    by (unfold send; repeat case_match; by eexists _, _).
  apply (runs_net _ _ _ _ E). by rewrite Hi.
Qed.
Lemma runs_response st m w : runs (server_send_response st m) w.
Proof. apply runs_bind; [apply runs_send|]. intros n ? _. destruct (n <? 0); apply runs_ret. Qed.
Lemma runs_reply {A} st m (a : A) w : runs (server_send_response st m;; mret a) w.
Proof. apply runs_bind; [apply runs_response|]. intros ?? _. apply runs_ret. Qed.
Lemma runs_unlink b p w : runs (unlink_if b p) w.
Proof. destruct b; [by apply runs_mod|apply runs_ret]. Qed.

Lemma runs_send_content fuel : ∀ c w, (length c ≤ fuel)%nat → runs (send_content fuel c) w.
Proof.
  induction fuel as [|fuel IH]; intros [|b c] w Hl; try (rewrite send_content_nil; apply runs_ret).
  { simpl in Hl. lia. }
  rewrite send_content_cons. apply runs_bind.
  - destruct (send_loop_script _ (take (Z.to_nat 4096) (b :: c)) w.(net) (le_n _)) as (r & s & u & E & Hi & _).
    apply (runs_net _ _ _ _ E). by rewrite Hi.
  - intros r w' _. destruct (r <? 0); [apply runs_ret|]. apply IH. rewrite length_drop. simpl in *. lia.
Qed.

Lemma avail_cons x xs : avail (x :: xs) = (length (default [] x) + avail xs)%nat.
Proof. reflexivity. Qed.
Lemma recv_avail n s : 0 < n → ∃ r s', recv n s = Ret (r, s') ∧
  (avail s'.(inbox) + length r.2 = avail s.(inbox))%nat ∧ (r.1 ≤ 0 ∧ r.2 = [] ∨ 0 < r.1 ∧ r.1 = strlen r.2) ∧ strlen r.2 ≤ n.
Proof.
  intros Hn. unfold recv, strlen. destruct (inbox s) as [|[c|] xs] eqn:Ei; [| |].
  - eexists _, _. split; [done|]. rewrite Ei. cbn [fst snd length]. split_and!; [lia|by left|lia].
  - destruct (Z.leb_spec (Z.of_nat (length c)) n); eexists _, _; (split; [done|]);
      cbn [fst snd inbox]; rewrite !avail_cons; cbn [default from_option id].
    + split_and!; [lia| |lia]. destruct c; [by left|right; simpl; lia].
    + rewrite length_take, length_drop. split_and!; [lia|right; lia|lia].
  - eexists _, _. split; [done|]. cbn [fst snd inbox]. rewrite avail_cons. cbn [default from_option id length]. split_and!; [lia|by left|lia].
Qed.
Lemma recv_loop_avail fuel : ∀ need got s, need ≤ Z.of_nat fuel → ∃ r s', recv_loop fuel need got s = Ret (r, s') ∧
  (avail s'.(inbox) + length r.2 = avail s.(inbox) + length got)%nat ∧
  (r.1 = -1 ∨ r.1 = 0 ∧ strlen got + need ≤ strlen r.2).
Proof.
  unfold strlen. induction fuel as [|fuel IH]; intros need got s Hf; cbn [recv_loop];
    (destruct (Z.leb_spec need 0) as [Hz|Hz]; [eexists _, _; split; [done|]; simpl; lia|]); [lia|].
  destruct (recv_avail need s Hz) as (r & s1 & E & Ha & Hr & Hm). unfold strlen in *. c_step E.
  destruct (Z.leb_spec r.1 0); [eexists _, _; split; [done|]; simpl|].
  - destruct Hr as [[_ Hr]|]; [rewrite Hr in Ha; simpl in Ha|]; lia.
  - destruct (IH (need - r.1) (got ++ r.2) s1) as (q & s2 & E2 & Ha2 & Hq); [lia|]. exists q, s2.
    rewrite length_app in *. split; [done|]. lia.
Qed.

Lemma runs_recv_content fuel path off : ∀ pos rem w, rem ≤ Z.of_nat fuel → runs (recv_content fuel path off pos rem) w.
Proof.
  induction fuel as [|fuel IH]; intros pos rem w Hf; cbn [recv_content];
    (destruct (Z.leb_spec rem 0) as [Hz|Hz]; [apply runs_ret|]); [lia|].
  destruct (recv_avail (if rem <? 4096 then rem else 4096) w.(net)) as (r & s & E & Ha & Hr & _); [case_match; lia|].
  apply runs_bind; [by apply (runs_net _ _ _ _ E); lia|]. intros q w1 H1.
  rewrite (on_net_run _ _ _ _ E) in H1. injection H1 as <- <-.
  destruct (Z.leb_spec r.1 0); [apply runs_bind; [apply runs_unlink|intros ?? _; apply runs_ret]|].
  apply runs_bind; [apply runs_write_ok|]. intros ok w2 _.
  destruct (negb ok); [apply runs_bind; [apply runs_unlink|intros ?? _; apply runs_ret]|].
  apply runs_bind; [by apply runs_mod|]. intros [] w3 _. apply IH. lia.
Qed.

(** The handlers other than LIST return whatever happens. *)
Ltac runs_tac :=
  repeat match goal with
  | |- runs (mret _) _ => apply runs_ret
  | |- runs (server_send_response _ _) _ => apply runs_response
  | |- runs (on_net (send _)) _ => apply runs_send
  | |- runs c_get _ => apply runs_get
  | |- runs (c_mod _) _ => by apply runs_mod
  | |- runs (send_content _ _) _ => apply runs_send_content; rewrite length_drop; lia
  | |- runs (recv_content _ _ _ _ _) _ => apply runs_recv_content; lia
  | |- runs (_ ≫= _) _ => apply runs_bind; [|intros ?? _]
  | |- runs (if ?b then _ else _) _ => destruct b
  | |- runs (match ?o with Some _ => _ | None => _ end) _ => destruct o as [[]|]
  end.
Lemma runs_send_file n off w : runs (server_send_file shared_dir dir_size n off) w.
Proof. unfold server_send_file. runs_tac. Qed.
Lemma runs_recv_file n size off w : runs (server_recv_file shared_dir n size off) w.
Proof. unfold server_recv_file. runs_tac. Qed.
Lemma runs_delete n w : runs (server_delete_file shared_dir n) w.
Proof. unfold server_delete_file. runs_tac. Qed.
Lemma runs_mkdir n w : runs (server_mkdir shared_dir strerror n) w.
Proof. unfold server_mkdir. runs_tac. Qed.
Lemma runs_rmdir n w : runs (server_rmdir shared_dir strerror n) w.
Proof. unfold server_rmdir. runs_tac. Qed.

(** The lines LIST prints for a listing: one per regular file with no leading dot. *)
Definition listed (rd : list (list byte)) (fl : gmap (list byte) (list byte)) : list (list byte) :=
  omap (λ n, match n with
             | x2e :: _ => None
             | _ => (λ c, list_line n (strlen c)) <$> fl !! file_path shared_dir n
             end) rd.
Lemma list_loop_listed rd fl : ∀ st, list_loop shared_dir rd fl st = sn_all 4096 (listed rd fl) st.
Proof.
  induction rd as [|n rd IH]; intros st; [done|]. cbn [list_loop]. change (listed (n :: rd) fl) with
    (match (match n with
             | x2e :: _ => None
             | _ => (λ c, list_line n (strlen c)) <$> fl !! file_path shared_dir n
             end) with Some l => l :: listed rd fl | None => listed rd fl end).
  assert (H : ∀ o : option (list byte), ((match o with Some c => sn 4096 (list_line n (strlen c)) | None => mret tt end);;
      list_loop shared_dir rd fl) st = sn_all 4096 (match ((λ c, list_line n (strlen c)) <$> o) with
        Some l => l :: listed rd fl | None => listed rd fl end) st).
  { intros [c|]; cbn [fmap option_fmap option_map sn_all]; [|by apply IH].
    apply bind_ext; [done|]. intros [] st'. apply IH. }
  destruct n as [|b n]; [apply H|]. destruct b; first [apply H|apply IH].
Qed.

(** The lines before the last one are longer than the buffer. *)
Definition overflows (lines : list (list byte)) : Prop :=
  ∃ ls l, lines = ls ++ [l] ∧ 4096 < strlen (mjoin ls).
Lemma runs_list_files rd w :
  runs (server_list_files shared_dir rd) w ∨
  server_list_files shared_dir rd w = UB ∧ overflows (listed rd w.(files)).
Proof.
  assert (Hsn : (∃ st, list_loop shared_dir rd w.(files) ([], 0) = Ret (tt, st)) ∨
    list_loop shared_dir rd w.(files) ([], 0) = UB ∧ overflows (listed rd w.(files))).
  { rewrite list_loop_listed. destruct (listed rd (files w)) as [|l ls _] using rev_ind; [left; by eexists|].
    pose proof (sn_all_run 4096 ls l [] ltac:(lia)) as Hr. rewrite take_nil in Hr.
    change (strlen []) with 0 in Hr. rewrite Hr by lia. destruct (Z.ltb_spec 4096 (strlen ([] ++ mjoin ls)));
      [right; split; [done|by exists ls, l]|left; by eexists]. }
  unfold server_list_files, runs. erewrite !bind_Ret by done.
  destruct (negb (bool_decide (shared_dir ∈ fdirs w))); [left; apply runs_reply|].
  destruct Hsn as [[[text off] ->]|[-> Ho]]; [left|by right].
  apply runs_bind; [apply runs_send|intros ?? _]. apply runs_bind; [apply runs_send|intros ?? _]. apply runs_ret.
Qed.

(** Commands with a name. *)
Definition named (c : Z) : Prop := c ∈ [CMD_DOWNLOAD; CMD_UPLOAD; CMD_DELETE; CMD_MKDIR; CMD_RMDIR].
(** What makes the server read or write out of bounds while it serves a header. *)
Definition overrun (h : protocol_header_t) (rd : list (list byte)) (w : world) : Prop :=
  h.(cmd) = CMD_LIST ∧ overflows (listed rd w.(files)) ∨ named h.(cmd) ∧ x00 ∉ h.(filename).

Lemma runs_named {A} (k : list byte → C world A) h rd w : named h.(cmd) → (∀ n w, runs (k n) w) →
  runs (n ← c_lift (field_string h.(filename)); k n;; mret false) w ∨
  (n ← c_lift (field_string h.(filename)); k n;; mret false) w = UB ∧ overrun h rd w.
Proof.
  intros Hn H. unfold field_string. case_bool_decide; [left|right; split; [done|by right]].
  apply runs_bind; [by eexists _, _|]. intros n ? _. apply runs_bind; [apply H|]. intros ?? _. apply runs_ret.
Qed.
Lemma runs_dispatch h rd w :
  runs (dispatch shared_dir strerror dir_size h rd) w ∨
  dispatch shared_dir strerror dir_size h rd w = UB ∧ overrun h rd w.
Proof.
  unfold dispatch. destruct (Z.eqb_spec h.(cmd) CMD_LIST) as [E|_].
  { destruct (runs_list_files rd w) as [H|[E2 Ho]]; [left; apply runs_bind; [done|intros ?? _; apply runs_ret]|right].
    split; [unfold mbind, C_bind; by rewrite E2|by left]. }
  assert (Hc : ∀ c, named c → cmd h = c → named (cmd h)) by congruence.
  destruct (Z.eqb_spec h.(cmd) CMD_DOWNLOAD) as [E|_].
  { apply (runs_named (λ n, server_send_file shared_dir dir_size n h.(offset))); [eapply Hc, E; by repeat constructor|].
    intros. apply runs_send_file. }
  destruct (Z.eqb_spec h.(cmd) CMD_UPLOAD) as [E|_].
  { apply (runs_named (λ n, server_recv_file shared_dir n h.(data_len) h.(offset))); [eapply Hc, E; by repeat constructor|].
    intros. apply runs_recv_file. }
  destruct (Z.eqb_spec h.(cmd) CMD_DELETE) as [E|_].
  { apply (runs_named (server_delete_file shared_dir)); [eapply Hc, E; by repeat constructor|apply runs_delete]. }
  destruct (Z.eqb_spec h.(cmd) CMD_MKDIR) as [E|_].
  { apply (runs_named (server_mkdir shared_dir strerror)); [eapply Hc, E; by repeat constructor|apply runs_mkdir]. }
  destruct (Z.eqb_spec h.(cmd) CMD_RMDIR) as [E|_].
  { apply (runs_named (server_rmdir shared_dir strerror)); [eapply Hc, E; by repeat constructor|apply runs_rmdir]. }
  left. unfold server_pwd. runs_tac.
Qed.

(** A session returns, or ends in such an overrun after commands that were confined. *)
Lemma session_ends fuel rd : ∀ k w, (avail w.(net).(inbox) < fuel)%nat →
  ∃ w1, confined w w1 ∧
    (session shared_dir strerror dir_size fuel rd k w = Ret (tt, w1) ∨
     session shared_dir strerror dir_size fuel rd k w = UB ∧
     ∃ k' bs w2, on_net (recv_all sizeof_header) w1 = Ret ((0, bs), w2) ∧ overrun (bytes_header bs) (rd k') w2).
Proof.
  induction fuel as [|fuel IH]; intros k w Hf; [lia|]. cbn [session]. erewrite bind_Ret by done.
  destruct (negb (running w)); [exists w; split; [apply confined_refl|by left]|].
  destruct (recv_loop_avail sizeof_header (Z.of_nat sizeof_header) [] w.(net)) as (r & s & E & Ha & Hr); [done|].
  change (recv_loop sizeof_header (Z.of_nat sizeof_header) []) with (recv_all sizeof_header) in E.
  apply on_net_run in E. c_step E. pose proof (on_net_confined _ _ _ _ E) as Hc.
  destruct Hr as [Hr|[Hr Hl]]; rewrite Hr.
  { rewrite (proj2 (Z.ltb_lt _ _)) by lia. eexists. split; [exact Hc|by left]. }
  rewrite (proj2 (Z.ltb_ge _ _)) by lia. destruct (negb _).
  { destruct (runs_reply STATUS_ERROR (Some (str "Invalid protocol")) tt (set_net s w)) as ([] & w' & E' & _).
    exists w'. split; [|by left]. apply bind_inv in E' as (? & w2 & E' & Hw). injection Hw as <-.
    apply response_confined in E'. by eapply confined_trans. }
  destruct (runs_dispatch (bytes_header r.2) (rd k) (set_net s w)) as [(stop & w' & E' & Hav)|[E' Ho]].
  - c_step E'. apply dispatch_confined in E'. pose proof (confined_trans _ _ _ Hc E').
    destruct stop; [exists w'; split; [done|by left]|].
    destruct (IH (S k) w') as (w1 & Hc1 & H1).
    { unfold strlen in Hl. cbn [net set_net length] in *. unfold sizeof_header in Hl. lia. }
    exists w1. split; [by eapply confined_trans|]. exact H1.
  - exists w. split; [apply confined_refl|right]. split; [unfold mbind, C_bind; by rewrite E'|].
    exists k, r.2, (set_net s w). split; [|done]. rewrite E. by destruct r; simpl in Hr; subst.
Qed.

(** C10. Confinement: whatever a client sends in a whole session (any headers,
    any data, any kernel behaviour), the only files and directories the server
    creates, changes or removes are the shared directory itself and its entries
    whose name contains neither a slash nor two consecutive dots.  Every session
    ends: it returns, or, after such changes only, it meets a header it serves
    out of bounds, which is a LIST whose lines before the last one exceed the
    4096-byte buffer or a command whose 256-byte name holds no NUL. *)
Theorem session_confinement fuel rd w : (avail w.(net).(inbox) < fuel)%nat →
  ∃ w1,
    (∀ p, w1.(files) !! p ≠ w.(files) !! p ∨ ¬ (p ∈ w1.(fdirs) ↔ p ∈ w.(fdirs)) →
       p = shared_dir ∨
       ∃ name, p = take (Z.to_nat 511) (shared_dir ++ str "/" ++ name) ∧
         name ≠ [] ∧ name ≠ str "." ∧ x2f ∉ name ∧ find_sub (str "..") name = None) ∧
    (session shared_dir strerror dir_size fuel rd 0 w = Ret (tt, w1) ∨
     session shared_dir strerror dir_size fuel rd 0 w = UB ∧
     ∃ k bs w2, on_net (recv_all sizeof_header) w1 = Ret ((0, bs), w2) ∧ overrun (bytes_header bs) (rd k) w2).
Proof.
  intros Hfuel. destruct (session_ends fuel rd 0 w Hfuel) as (w1 & [Hf Hd] & H). exists w1. split; [|exact H].
  intros p Hp.
  assert (∃ n, bad_name n = false ∧ p = entry shared_dir n) as (n & Hn & ->)
    by (destruct Hp; [by apply Hf|by apply Hd]).
  destruct (decide (n = [])) as [->|Hn0]; [by left|].
  destruct (decide (n = str ".")) as [->|Hn1]; [by left|].
  right. exists n. rewrite entry_file_path by done. split; [done|]. unfold bad_name in Hn.
  destruct (find_sub (str "..") n); [done|]. destruct (find_byte x2f n) eqn:E; [done|].
  split_and!; [done|done|by apply find_byte_None|done].
Qed.

(** ** Transfers *)

Lemma write_at_in c pos bs : (pos ≤ length c)%nat →
  write_at c pos bs = take pos c ++ bs ++ drop (pos + length bs) c.
Proof. intros H. unfold write_at. replace (pos - length c)%nat with 0%nat by lia. done. Qed.
Lemma length_write_at c pos bs : (pos ≤ length c)%nat →
  (pos + length bs ≤ length (write_at c pos bs))%nat.
Proof. intros H. rewrite write_at_in, !length_app, length_take by done. lia. Qed.
Lemma write_at_app c pos a b : (pos ≤ length c)%nat →
  write_at (write_at c pos a) (pos + length a) b = write_at c pos (a ++ b).
Proof.
  intros H. pose proof (length_write_at c pos a H). rewrite (write_at_in (write_at c pos a)) by lia.
  rewrite !write_at_in by done. rewrite length_app.
  assert (Hl : length (take pos c ++ a) = (pos + length a)%nat).
  { rewrite length_app, length_take. lia. }
  rewrite (assoc_L (++) (take pos c) a). rewrite take_app_length' by done.
  rewrite <- Hl at 1. rewrite drop_app_add, drop_drop. rewrite <- !(assoc_L (++)).
  do 3 f_equal. f_equal. lia.
Qed.

(** Receiving into a file, however the data arrives. *)
Lemma recv_content_run fuel path off : ∀ pos rem w c,
  w.(writes) = [] → w.(files) !! path = Some c → (pos ≤ length c)%nat → 0 ≤ rem ≤ Z.of_nat fuel →
  rem ≤ strlen (pending w.(net).(inbox)) →
  ∃ s, recv_content fuel path off pos rem w =
      Ret (SUCCESS, set_net s (set_files (<[path :=
        write_at c pos (take (Z.to_nat rem) (pending w.(net).(inbox)))]> w.(files)) w)) ∧
    pending s.(inbox) = drop (Z.to_nat rem) (pending w.(net).(inbox)) ∧
    s.(sent) = w.(net).(sent) ∧ s.(sends) = w.(net).(sends).
Proof.
  induction fuel as [|fuel IH]; intros pos rem w c Hw Hf Hpos Hrem Hpend.
  all: assert (Hzero : rem = 0 → ∃ s, Ret (SUCCESS, w) = Ret (SUCCESS, set_net s (set_files (<[path :=
        write_at c pos (take (Z.to_nat rem) (pending w.(net).(inbox)))]> w.(files)) w)) ∧
      pending s.(inbox) = drop (Z.to_nat rem) (pending w.(net).(inbox)) ∧
      s.(sent) = w.(net).(sent) ∧ s.(sends) = w.(net).(sends)).
  1, 3: intros ->; exists (net w); rewrite take_0, write_at_in by done; simpl;
      rewrite Nat.add_0_r, take_drop, insert_id by done; rewrite drop_0; by destruct w.
  { cbn [recv_content]. rewrite (proj2 (Z.leb_le _ _)) by lia. apply Hzero. lia. }
  cbn [recv_content]. destruct (Z.leb_spec rem 0) as [Hz|Hz]; [apply Hzero; lia|].
  destruct (recv_pending (if rem <? 4096 then rem else 4096) (net w)) as
    (bs & s & Hr & Hne & Hlen & Hpd & Hsent & Hsds & _).
  { case_match; lia. } { intros E. rewrite E in Hpend. unfold strlen in Hpend. simpl in Hpend. lia. }
  erewrite bind_Ret by (apply on_net_run; exact Hr). cbn [fst snd].
  assert (0 < strlen bs) by (unfold strlen; destruct bs; simpl; [done|lia]).
  assert (strlen bs ≤ rem) by (destruct (Z.ltb_spec rem 4096); lia).
  rewrite (proj2 (Z.leb_gt _ _)) by lia.
  erewrite bind_Ret by (unfold write_ok; simpl; by rewrite Hw). cbn [negb].
  erewrite bind_Ret by reflexivity. simpl files. rewrite Hf. cbn [from_option id].
  unfold strlen in *.
  edestruct (IH (pos + length bs)%nat (rem - Z.of_nat (length bs))
    (set_files (<[path := write_at c pos bs]> (files w)) (set_net s w)) (write_at c pos bs))
    as (s' & E & Hp' & Hs' & Hsd').
  { done. } { simpl. by rewrite lookup_insert_eq. } { by apply length_write_at. } { lia. }
  { simpl. rewrite Hpd, length_app in Hpend. lia. }
  exists s'. split.
  - rewrite E. unfold set_net, set_files. simpl. do 3 f_equal. rewrite insert_insert_eq. f_equal.
    rewrite write_at_app by done. f_equal. rewrite Hpd.
    replace (Z.to_nat rem) with (length bs + Z.to_nat (rem - Z.of_nat (length bs)))%nat by lia.
    by rewrite take_app_add.
  - simpl in Hp'. split_and!; [|by rewrite Hs'|by rewrite Hsd'].
    rewrite Hp', Hpd.
    replace (Z.to_nat rem) with (length bs + Z.to_nat (rem - Z.of_nat (length bs)))%nat by lia.
    by rewrite drop_app_add.
Qed.

(** With a kernel that accepts everything. *)
Definition put (bs : list byte) (w : world) : world :=
  set_net (Sock (w.(net).(sent) ++ bs) [] w.(net).(inbox) w.(net).(closed)) w.
Lemma put_put a b w : put b (put a w) = put (a ++ b) w.
Proof. unfold put, set_net. simpl. by rewrite (assoc_L (++)). Qed.

Definition reply (st : Z) (m : list byte) : list byte :=
  response_bytes (Response (u32 st) 0 (strncpy_zeroed 256 255 m)).

Lemma net_send_open d w : w.(net).(sends) = [] → on_net (send d) w = Ret (strlen d, put d w).
Proof. intros H. apply on_net_run. unfold send. by rewrite H. Qed.
Lemma reply_open st m w : w.(net).(sends) = [] →
  server_send_response st (Some m) w = Ret (SUCCESS, put (reply st m) w).
Proof.
  intros H. unfold server_send_response. c_step (net_send_open (reply st m) w H).
  by rewrite (proj2 (Z.ltb_ge _ _)) by (unfold strlen; lia).
Qed.
Lemma net_send_all_open d w : w.(net).(sends) = [] → on_net (send_all d) w = Ret (0, put d w).
Proof. intros H. apply on_net_run. rewrite send_all_open by done. unfold wrote. by rewrite H. Qed.
Lemma put_nil w : w.(net).(sends) = [] → put [] w = w.
Proof. intros H. unfold put, set_net. rewrite app_nil_r, <- H. by destruct w as [[] ? ? ? ? ?]. Qed.

Lemma send_content_open fuel : ∀ c w, w.(net).(sends) = [] → (length c ≤ fuel)%nat →
  send_content fuel c w = Ret (tt, put c w).
Proof.
  induction fuel as [|fuel IH]; intros [|b c] w Hs Hf; cbn [length] in Hf;
    [by rewrite send_content_nil, put_nil|lia|by rewrite send_content_nil, put_nil|].
  rewrite send_content_cons. erewrite bind_Ret by (by apply net_send_all_open).
  rewrite (proj2 (Z.ltb_ge _ _)) by lia. rewrite IH; [|done|rewrite length_drop; cbn [length]; lia].
  by rewrite put_put, take_drop.
Qed.

Lemma upload_run name size off w c0 :
  bad_name name = false → entry shared_dir name ∉ w.(denied) →
  entry shared_dir name ∉ w.(fdirs) → shared_dir ∈ w.(fdirs) → w.(writes) = [] → w.(net).(sends) = [] →
  0 ≤ off < 2 ^ 63 → 0 ≤ size ≤ strlen (pending w.(net).(inbox)) →
  c0 = (if 0 <? off then default [] (w.(files) !! entry shared_dir name) else []) →
  (Z.to_nat off ≤ length c0)%nat →
  ∃ s, server_recv_file shared_dir name size off w = Ret (SUCCESS, set_net s (set_files
      (<[entry shared_dir name :=
           write_at c0 (Z.to_nat off) (take (Z.to_nat size) (pending w.(net).(inbox)))]> w.(files)) w)) ∧
    s.(sent) = w.(net).(sent) ++ reply STATUS_OK (str "File uploaded successfully") ∧
    s.(sends) = [] ∧ pending s.(inbox) = drop (Z.to_nat size) (pending w.(net).(inbox)).
Proof.
  intros Hn Hd Hdir Hsh Hw Hs Hoff Hsz Hc0 Hlen. unfold server_recv_file. rewrite Hn.
  erewrite bind_Ret by done. rewrite (bool_decide_eq_false_2 (_ ∈ denied w)) by done.
  rewrite (bool_decide_eq_false_2 (entry _ _ ∈ _)), bool_decide_eq_true_2 by done. cbn [orb negb].
  unfold seek_pos. rewrite (proj2 (Z.ltb_lt off _)) by lia.
  erewrite bind_Ret by reflexivity. rewrite <- Hc0.
  set (w0 := set_files (<[entry shared_dir name := c0]> (files w)) w).
  destruct (recv_content_run (Z.to_nat size) (entry shared_dir name) off (Z.to_nat off) size w0 c0)
    as (s & E & Hp & Hsent & Hsds); [done|simpl; by rewrite lookup_insert_eq|done|lia|simpl; lia|].
  c_step E. cbn [negb]. change (negb (SUCCESS =? SUCCESS)) with false. cbv iota.
  erewrite bind_Ret by (apply reply_open; simpl; by rewrite Hsds).
  eexists. split; [unfold put, set_net, set_files; simpl; by rewrite insert_insert_eq|].
  simpl. rewrite Hsent, Hp. by split_and!.
Qed.

Lemma download_run name off w c :
  bad_name name = false → entry shared_dir name ∉ w.(denied) →
  w.(files) !! entry shared_dir name = Some c → w.(net).(sends) = [] →
  0 ≤ off ≤ strlen c →
  server_send_file shared_dir dir_size name off w =
    Ret (SUCCESS, put (response_bytes (Response (if 0 <? off then STATUS_PARTIAL else STATUS_OK)
                         (u32 (strlen c - off)) (strncpy_zeroed 256 255 (str "File: " ++ name))) ++
                       drop (Z.to_nat off) c) w).
Proof.
  intros Hn Hd Hf Hs Hoff. unfold server_send_file. rewrite Hn. erewrite bind_Ret by done.
  rewrite bool_decide_eq_false_2, Hf by done. rewrite (proj2 (Z.ltb_ge _ _)) by lia.
  erewrite bind_Ret by (by apply net_send_open).
  erewrite bind_Ret by (apply send_content_open; [done|rewrite length_drop; lia]).
  by rewrite put_put.
Qed.

(** Upload then download: data uploaded under a valid name, in whatever
    pieces the network delivers it, is stored exactly, and a later download from
    any offset returns exactly the rest of it after the announcing response. *)
Theorem upload_download name data rest off w :
  bad_name name = false → entry shared_dir name ∉ w.(denied) →
  entry shared_dir name ∉ w.(fdirs) → shared_dir ∈ w.(fdirs) → w.(writes) = [] → w.(net).(sends) = [] →
  pending w.(net).(inbox) = data ++ rest → 0 ≤ off ≤ strlen data →
  ∃ w1 w2, server_recv_file shared_dir name (strlen data) 0 w = Ret (SUCCESS, w1) ∧
    w1.(files) = <[entry shared_dir name := data]> w.(files) ∧
    pending w1.(net).(inbox) = rest ∧
    server_send_file shared_dir dir_size name off w1 = Ret (SUCCESS, w2) ∧
    w2.(net).(sent) = w.(net).(sent) ++ reply STATUS_OK (str "File uploaded successfully") ++
      response_bytes (Response (if 0 <? off then STATUS_PARTIAL else STATUS_OK)
        (u32 (strlen data - off)) (strncpy_zeroed 256 255 (str "File: " ++ name))) ++
      drop (Z.to_nat off) data.
Proof.
  intros Hn Hd Hdir Hsh Hw Hs Hp Hoff.
  destruct (upload_run name (strlen data) 0 w [] Hn Hd Hdir Hsh Hw Hs) as (s1 & E & Hsent & Hsd & Hp1);
    [lia|rewrite Hp; unfold strlen; rewrite length_app; lia|done|simpl; lia|].
  unfold strlen in Hp1, E at 2. rewrite Hp, Nat2Z.id, take_app_length in E.
  rewrite Hp, Nat2Z.id, drop_app_length in Hp1.
  assert (Hwa : write_at [] (Z.to_nat 0) data = data).
  { rewrite write_at_in by (simpl; lia). simpl. by rewrite drop_nil, app_nil_r. }
  rewrite Hwa in E.
  do 2 eexists. split_and!; [exact E|done|done| |].
  - apply (download_run name off _ data Hn); [done|simpl; by rewrite lookup_insert_eq|done|done].
  - simpl. by rewrite Hsent, <- (assoc_L (++)).
Qed.

(** Resuming an upload: when the file already holds the first [k] bytes,
    uploading the remaining ones at offset [k] completes it. *)
Theorem upload_resume name data rest k w :
  bad_name name = false → entry shared_dir name ∉ w.(denied) →
  entry shared_dir name ∉ w.(fdirs) → shared_dir ∈ w.(fdirs) → w.(writes) = [] → w.(net).(sends) = [] →
  0 < k ≤ strlen data → k < 2 ^ 63 →
  w.(files) !! entry shared_dir name = Some (take (Z.to_nat k) data) →
  pending w.(net).(inbox) = drop (Z.to_nat k) data ++ rest →
  ∃ w', server_recv_file shared_dir name (strlen data - k) k w = Ret (SUCCESS, w') ∧
    w'.(files) = <[entry shared_dir name := data]> w.(files).
Proof.
  intros Hn Hd Hdir Hsh Hw Hs Hk Hk63 Hf Hp. unfold strlen in *.
  destruct (upload_run name (strlen data - k) k w (take (Z.to_nat k) data) Hn Hd Hdir Hsh Hw Hs)
    as (s & E & _).
  { lia. }
  { rewrite Hp. unfold strlen. rewrite length_app, length_drop. lia. }
  { by rewrite (proj2 (Z.ltb_lt _ _)), Hf by lia. }
  { rewrite length_take. lia. }
  eexists. split; [exact E|]. cbn [files set_net set_files]. rewrite Hp. f_equal.
  replace (Z.to_nat (strlen data - k)) with (length (drop (Z.to_nat k) data))
    by (unfold strlen; rewrite length_drop; lia).
  rewrite take_app_length, write_at_in by (rewrite length_take; lia).
  rewrite take_take, Nat.min_id, (drop_ge (take _ _)) by (rewrite length_take, length_drop; lia).
  by rewrite app_nil_r, take_drop.
Qed.

(** ** LIST *)

Lemma list_line_length n sz : (48 ≤ length (list_line n sz))%nat.
Proof.
  unfold list_line, padr, padl. rewrite !length_app, !length_replicate. simpl. lia.
Qed.

(** The directory loop prints one line per regular file. *)
Lemma list_loop_lines names fl : ∀ st,
  Forall (λ n, n ≠ [] ∧ head n ≠ Some x2e ∧ is_Some (fl !! file_path shared_dir n)) names →
  ∃ lines, length lines = length names ∧ Forall (λ l, 48 ≤ length l)%nat lines ∧
    list_loop shared_dir names fl st = sn_all 4096 lines st.
Proof.
  induction names as [|n names IH]; intros st Hall.
  { exists []. split_and!; [done|constructor|done]. }
  apply Forall_cons in Hall as [(Hne & Hdot & [c Hc]) Hall].
  assert (Hl : ∀ st', ∃ lines, length lines = length names ∧ Forall (λ l, 48 ≤ length l)%nat lines ∧
    list_loop shared_dir names fl st' = sn_all 4096 lines st') by (intros; by apply IH).
  assert (Hstep : (match n with
       | x2e :: _ => mret tt
       | _ => match fl !! file_path shared_dir n with
              | Some content => sn 4096 (list_line n (strlen content))
              | None => mret tt end end) = (sn 4096 (list_line n (strlen c)) : C (list byte * Z) unit)).
  { rewrite Hc. destruct n as [|b n]; [done|]. simpl in Hdot. destruct b; try done. }
  cbn [list_loop]. rewrite Hstep.
  destruct (sn 4096 (list_line n (strlen c)) st) as [[[] st1]| | |] eqn:E.
  - destruct (Hl st1) as (lines & ? & ? & E2). exists (list_line n (strlen c) :: lines).
    split_and!; [simpl; lia|constructor; [apply list_line_length|done]|].
    cbn [sn_all]. c_step E. by c_step E.
  - destruct (Hl st) as (lines & ? & ? & _). exists (list_line n (strlen c) :: lines).
    split_and!; [simpl; lia|constructor; [apply list_line_length|done]|].
    cbn [sn_all]. unfold mbind, C_bind. by rewrite E.
  - unfold sn in E. destruct st. by case_match.
  - unfold sn in E. destruct st. by case_match.
Qed.

(** LIST overruns its buffer: in a directory with 87 or more visible regular
    files the offset exceeds the 4096-byte buffer and the next snprintf writes
    outside it. *)
Theorem list_files_overflow names w :
  shared_dir ∈ w.(fdirs) → (87 ≤ length names)%nat →
  Forall (λ n, n ≠ [] ∧ head n ≠ Some x2e ∧ is_Some (w.(files) !! file_path shared_dir n)) names →
  server_list_files shared_dir names w = UB.
Proof.
  intros Hd Hlen Hall. unfold server_list_files. erewrite bind_Ret by done.
  rewrite bool_decide_eq_true_2 by done. cbn [negb].
  destruct (list_loop_lines names (files w) ([], 0) Hall) as (lines & Hl & H48 & ->).
  induction lines as [|l lines _] using rev_ind; [simpl in Hl; lia|].
  pose proof (sn_all_run 4096 lines l [] ltac:(lia)) as Hrun.
  rewrite take_nil in Hrun. change (strlen []) with 0 in Hrun. rewrite Hrun by lia.
  rewrite (proj2 (Z.ltb_lt _ _)); [done|]. cbn [app].
  apply Forall_app in H48 as [H48 _]. rewrite length_app in Hl. simpl in Hl.
  assert (Hsum : (48 * length lines ≤ length (mjoin lines))%nat).
  { clear -H48. induction H48 as [|x xs Hx _ IH]; [done|].
    change (mjoin (x :: xs)) with (x ++ mjoin xs). rewrite length_app. simpl length. lia. }
  unfold strlen. lia.
Qed.

(** ** RMDIR *)

(** RMDIR with an empty name is not refused: it removes the shared directory
    itself when that is empty, after which every LIST fails and no file can be
    uploaded. *)
Lemma rmdir_empty_name w :
  shared_dir ∈ w.(fdirs) → shared_dir ∉ w.(denied) → w.(files) !! shared_dir = None →
  dir_used shared_dir w = false → w.(net).(sends) = [] →
  ∃ w1, server_rmdir shared_dir strerror [] w = Ret (SUCCESS, w1) ∧
    w1.(fdirs) = w.(fdirs) ∖ {[ shared_dir ]} ∧
    w1.(net).(sent) = w.(net).(sent) ++ reply STATUS_OK (str "Directory removed") ∧
    (∀ rd, server_list_files shared_dir rd w1 =
       Ret (ERR_FILE_OPEN, put (reply STATUS_ERROR (str "Failed to open directory")) w1)) ∧
    ∀ name size off, bad_name name = false → off ≤ 0 →
      server_recv_file shared_dir name size off w1 =
        Ret (ERR_FILE_OPEN, put (reply STATUS_ERROR (str "Failed to create file")) w1).
Proof.
  clear dir_size. intros Hd Hden Hf Hu Hs. unfold server_rmdir.
  change (bad_name []) with false. cbv iota. cbn [entry]. erewrite bind_Ret by done.
  rewrite bool_decide_eq_false_2 by (rewrite Hf; apply is_Some_None).
  rewrite bool_decide_eq_true_2 by done. cbn [negb]. rewrite bool_decide_eq_false_2 by done.
  rewrite bool_decide_eq_false_2, Hu by done. erewrite bind_Ret by reflexivity.
  erewrite bind_Ret by (by apply reply_open). eexists. split; [reflexivity|].
  split_and!; [done|done| |].
  - intros rd. unfold server_list_files. erewrite bind_Ret by done.
    rewrite bool_decide_eq_false_2 by (simpl; set_solver). cbn [negb].
    by erewrite bind_Ret by (by apply reply_open).
  - intros name size off Hn Hoff. unfold server_recv_file. rewrite Hn. erewrite bind_Ret by done.
    rewrite (bool_decide_eq_false_2 (shared_dir ∈ _)) by (simpl; set_solver).
    rewrite orb_true_r, (proj2 (Z.ltb_ge _ _)) by lia.
    by erewrite bind_Ret by (by apply reply_open).
Qed.

End spec.

(** ** The client table *)

Inductive client_op := AddClient (fd : Z) | RemoveClient (fd : Z).

Fixpoint run_table (ops : list client_op) (t : table) : list Z * table :=
  match ops with
  | [] => ([], t)
  | AddClient fd :: ops' =>
      let '(i, t1) := add_client t fd in let '(rs, t2) := run_table ops' t1 in (i :: rs, t2)
  | RemoveClient fd :: ops' => run_table ops' (remove_client t fd)
  end.

(** What the table promises: a set of at most [max] connected descriptors. *)
Fixpoint run_set (max : Z) (ops : list client_op) (s : gset Z) : list bool * gset Z :=
  match ops with
  | [] => ([], s)
  | AddClient fd :: ops' =>
      let b := Z.of_nat (size s) <? max in
      let '(bs, s2) := run_set max ops' (if b then {[ fd ]} ∪ s else s) in (b :: bs, s2)
  | RemoveClient fd :: ops' => run_set max ops' (s ∖ {[ fd ]})
  end.
(** The kernel never hands out a descriptor that is still connected. *)
Fixpoint fresh_fds (max : Z) (ops : list client_op) (s : gset Z) : Prop :=
  match ops with
  | [] => True
  | AddClient fd :: ops' =>
      fd ∉ s ∧ fresh_fds max ops' (if Z.of_nat (size s) <? max then {[ fd ]} ∪ s else s)
  | RemoveClient fd :: ops' => fresh_fds max ops' (s ∖ {[ fd ]})
  end.

Definition active_fds (cs : list client_info_t) : list Z := cfd <$> filter (λ c, active c = true) cs.

Record table_inv (max : Z) (t : table) (s : gset Z) : Prop := {
  ti_len : Z.of_nat (length t.(clients)) = max;
  ti_nodup : NoDup (active_fds t.(clients));
  ti_set : list_to_set (active_fds t.(clients)) = s;
  ti_count : t.(client_count) = Z.of_nat (length (active_fds t.(clients)))
}.

Lemma active_fds_app a b : active_fds (a ++ b) = active_fds a ++ active_fds b.
Proof. unfold active_fds. by rewrite filter_app, fmap_app. Qed.
Lemma active_fds_length cs : (length (active_fds cs) ≤ length cs)%nat.
Proof. unfold active_fds. rewrite length_fmap. apply length_filter. Qed.
Lemma active_fds_full cs : Forall (λ c, active c = true) cs → length (active_fds cs) = length cs.
Proof.
  unfold active_fds. rewrite length_fmap. induction 1 as [|c cs Hc _ IH]; [done|].
  rewrite filter_cons_True by done. simpl. by rewrite IH.
Qed.
Lemma active_fds_true fd cs : active_fds (Client fd true :: cs) = fd :: active_fds cs.
Proof. done. Qed.
Lemma active_fds_false c cs : active c = false → active_fds (c :: cs) = active_fds cs.
Proof. intros H. unfold active_fds. rewrite filter_cons_False; [done|]. by rewrite H. Qed.

Lemma claim_slot_spec fd cs : ∀ i,
  match claim_slot fd cs i with
  | Some (j, cs') => ∃ a c b, cs = a ++ c :: b ∧ active c = false ∧
      Forall (λ c, active c = true) a ∧ j = i + Z.of_nat (length a) ∧ cs' = a ++ Client fd true :: b
  | None => Forall (λ c, active c = true) cs
  end.
Proof.
  induction cs as [|c cs IH]; intros i; simpl; [by constructor|].
  destruct (active c) eqn:Ha; simpl.
  - specialize (IH (i + 1)). destruct (claim_slot fd cs (i + 1)) as [[j cs']|]; simpl; [|by constructor].
    destruct IH as (a & c' & b & -> & Hc & Hall & -> & ->). exists (c :: a), c', b.
    split_and!; [done|done|by constructor|simpl; lia|done].
  - exists [], c, cs. split_and!; [done|done|constructor|simpl; lia|done].
Qed.
Lemma release_slot_spec fd cs :
  match release_slot fd cs with
  | Some cs' => ∃ a b, cs = a ++ Client fd true :: b ∧ cs' = a ++ Client (-1) false :: b
  | None => fd ∉ active_fds cs
  end.
Proof.
  induction cs as [|[f act] cs IH]; simpl; [apply not_elem_of_nil|]. destruct act; simpl.
  - destruct (Z.eqb_spec f fd) as [->|Hne]; [by exists [], cs|].
    destruct (release_slot fd cs) as [cs'|]; simpl.
    + destruct IH as (a & b & -> & ->). by exists (Client f true :: a), b.
    + rewrite active_fds_true. by apply not_elem_of_cons.
  - destruct (release_slot fd cs) as [cs'|]; simpl; [|done].
    destruct IH as (a & b & -> & ->). by exists (Client f false :: a), b.
Qed.
Lemma ti_size max t s : table_inv max t s → Z.of_nat (size s) = Z.of_nat (length (active_fds t.(clients))).
Proof. intros [_ Hn <- _]. by rewrite size_list_to_set. Qed.

(** Adding a descriptor that is not connected. *)
Lemma add_client_inv max t s fd : table_inv max t s → fd ∉ s →
  ∃ i t', add_client t fd = (i, t') ∧
    if Z.of_nat (size s) <? max
    then 0 ≤ i < max ∧ t'.(clients) !! Z.to_nat i = Some (Client fd true) ∧
         table_inv max t' ({[ fd ]} ∪ s)
    else i = -1 ∧ t' = t.
Proof.
  intros Hi Hfd. rewrite (ti_size _ _ _ Hi). destruct Hi as [Hl Hn Hs Hc]. unfold add_client.
  pose proof (claim_slot_spec fd (clients t) 0) as H.
  destruct (claim_slot fd (clients t) 0) as [[i cs']|].
  - destruct H as (a & c & b & E & Hcf & Ha & -> & ->). do 2 eexists. split; [done|].
    pose proof (active_fds_length a). pose proof (active_fds_length b).
    rewrite E, active_fds_app, active_fds_false in * by done.
    rewrite length_app in *. simpl length in *.
    rewrite (proj2 (Z.ltb_lt _ _)) by lia. split_and!; [lia|lia| |].
    { cbn [clients]. rewrite Z.add_0_l, Nat2Z.id. by apply list_lookup_middle. }
    assert (Hfd' : fd ∉ active_fds a ++ active_fds b)
      by (rewrite <- Hs in Hfd; by rewrite elem_of_list_to_set in Hfd).
    split; simpl; rewrite ?active_fds_app, ?active_fds_true, ?length_app; simpl.
    + lia.
    + rewrite <- Permutation_middle. by constructor.
    + rewrite <- Hs, !list_to_set_app_L. simpl. set_solver.
    + lia.
  - do 2 eexists. split; [done|]. by rewrite active_fds_full, Hl, (proj2 (Z.ltb_ge _ _)) by done.
Qed.

Lemma remove_client_inv max t s fd : table_inv max t s →
  table_inv max (remove_client t fd) (s ∖ {[ fd ]}).
Proof.
  intros [Hl Hn Hs Hc]. unfold remove_client. pose proof (release_slot_spec fd (clients t)) as H.
  destruct (release_slot fd (clients t)) as [cs'|].
  - destruct H as (a & b & E & ->). rewrite E, active_fds_app, active_fds_true in *.
    rewrite <- Permutation_middle in Hn. apply NoDup_cons in Hn as [Hfd Hn].
    rewrite length_app in *. simpl length in *.
    split; simpl; rewrite ?active_fds_app, ?active_fds_false, ?length_app by done; simpl.
    + lia.
    + done.
    + rewrite <- Hs, !list_to_set_app_L. simpl. apply set_eq. intros x.
      rewrite not_elem_of_app in Hfd. set_solver.
    + lia.
  - split; [done|done| |done]. rewrite Hs. rewrite <- Hs in *. set_solver.
Qed.

Lemma run_table_inv max ops : ∀ t s, table_inv max t s → fresh_fds max ops s →
  table_inv max (run_table ops t).2 (run_set max ops s).2 ∧
  (λ i, 0 <=? i) <$> (run_table ops t).1 = (run_set max ops s).1.
Proof.
  induction ops as [|[fd|fd] ops IH]; intros t s Hi Hf;
    cbn [run_table run_set fresh_fds] in *; [done| |].
  - destruct Hf as [Hfd Hf]. destruct (add_client_inv max t s fd Hi Hfd) as (i & t' & -> & H).
    destruct (Z.of_nat (size s) <? max).
    + destruct H as (Hr & _ & Hi'). destruct (IH _ _ Hi' Hf) as [H1 H2].
      destruct (run_table ops t'), (run_set max ops ({[fd]} ∪ s)). cbn [fst snd] in *. split; [done|].
      rewrite fmap_cons, H2. f_equal. apply Z.leb_le. lia.
    + destruct H as [-> ->]. destruct (IH _ _ Hi Hf) as [H1 H2].
      destruct (run_table ops t), (run_set max ops s). cbn [fst snd] in *. split; [done|].
      by rewrite fmap_cons, H2.
  - apply IH; [by apply remove_client_inv|done].
Qed.

(** [server_stop] leaves no slot active. *)
Lemma close_all_inactive t : active_fds (close_all t).(clients) = [].
Proof.
  unfold close_all. simpl. induction (clients t) as [|[f []] cs IH]; simpl; [done| |];
    by rewrite active_fds_false.
Qed.

(** C11. The client table is a bounded set: along any sequence of connections and
    disconnections, a connection is accepted exactly when fewer than [max_clients]
    descriptors are connected, the active slots hold exactly the connected
    descriptors, once each, and [client_count] is their number. *)
Theorem client_table_refines max ops :
  0 ≤ max → fresh_fds max ops ∅ →
  let t := (run_table ops (server_init_table max)).2 in
  let s := (run_set max ops ∅).2 in
  (λ i, 0 <=? i) <$> (run_table ops (server_init_table max)).1 = (run_set max ops ∅).1 ∧
  NoDup (active_fds t.(clients)) ∧ (∀ fd, fd ∈ active_fds t.(clients) ↔ fd ∈ s) ∧
  t.(client_count) = Z.of_nat (size s) ∧ t.(client_count) ≤ max.
Proof.
  intros Hm Hf t s.
  assert (H0 : table_inv max (server_init_table max) ∅).
  { assert (Hnil : active_fds (replicate (Z.to_nat max) (Client (-1) false)) = [])
      by (clear; induction (Z.to_nat max); [done|by simpl; rewrite active_fds_false]).
    split; simpl; rewrite ?Hnil, ?length_replicate; [lia|constructor|done|done]. }
  destruct (run_table_inv max ops _ _ H0 Hf) as [Hi Hr]. fold t s in Hi. pose proof (ti_size _ _ _ Hi).
  destruct Hi as [Hl Hn Hs Hc]. pose proof (active_fds_length (clients t)).
  split_and!; [done|done| |lia|lia]. intros fd. rewrite <- Hs. by rewrite elem_of_list_to_set.
Qed.

(** ** Concrete instances *)

Definition wit_dir : list byte := str "shared".
Definition wit_net (chunks : list (list byte)) : sock := Sock [] [] (Some <$> chunks) true.
Definition wit_world (fs : gmap (list byte) (list byte)) (chunks : list (list byte)) : world :=
  World (wit_net chunks) fs {[ wit_dir ]} ∅ [] true.
Definition wit_errno (e : Z) : list byte := dec e.

Definition wit_mkdir : list byte :=
  header_bytes (Header PROTOCOL_MAGIC CMD_MKDIR 0 0 0 (strncpy_zeroed 256 255 (str "d"))).

Lemma wit_not_dir n : n ≠ wit_dir → n ∉ ({[ wit_dir ]} : gset (list byte)).
Proof. intros H E. by apply elem_of_singleton in E. Qed.

Lemma wit_has_dir fs chunks : wit_dir ∈ (wit_world fs chunks).(fdirs).
Proof. cbn [wit_world fdirs]. set_solver. Qed.

Lemma session_confinement_witness : let w := wit_world ∅ [wit_mkdir] in
  ∃ w1,
    (∀ p, w1.(files) !! p ≠ w.(files) !! p ∨ ¬ (p ∈ w1.(fdirs) ↔ p ∈ w.(fdirs)) →
       p = wit_dir ∨
       ∃ name, p = take (Z.to_nat 511) (wit_dir ++ str "/" ++ name) ∧
         name ≠ [] ∧ name ≠ str "." ∧ x2f ∉ name ∧ find_sub (str "..") name = None) ∧
    (session wit_dir wit_errno 4096 281 (λ _, []) 0 w = Ret (tt, w1) ∨
     session wit_dir wit_errno 4096 281 (λ _, []) 0 w = UB ∧
     ∃ (k : nat) bs w2, on_net (recv_all sizeof_header) w1 = Ret ((0, bs), w2) ∧
       overrun wit_dir (bytes_header bs) [] w2).
Proof. apply (session_confinement wit_dir wit_errno 4096). vm_compute. lia. Defined.

Lemma upload_download_witness :
  let w := wit_world ∅ [str "hello "; str "world!!"] in
  ∃ w1 w2, server_recv_file wit_dir (str "f") 11 0 w = Ret (SUCCESS, w1) ∧
    pending w1.(net).(inbox) = str "!!" ∧
    server_send_file wit_dir 4096 (str "f") 6 w1 = Ret (SUCCESS, w2) ∧
    drop (length w2.(net).(sent) - 5) w2.(net).(sent) = str "world".
Proof.
  intros w. destruct (upload_download wit_dir 4096 (str "f") (str "hello world") (str "!!") 6 w)
    as (w1 & w2 & E1 & Hf & Hp & E2 & Hs); [reflexivity|apply not_elem_of_empty|
    by apply wit_not_dir|apply wit_has_dir|reflexivity|reflexivity|reflexivity|
    unfold strlen; simpl; lia|].
  exists w1, w2. split_and!; [exact E1|exact Hp|exact E2|]. rewrite Hs. vm_compute. reflexivity.
Defined.

Lemma upload_resume_witness :
  let w := wit_world {[ str "shared/f" := str "hello " ]} [str "wor"; str "ld"] in
  ∃ w', server_recv_file wit_dir (str "f") 5 6 w = Ret (SUCCESS, w') ∧
    w'.(files) = <[str "shared/f" := str "hello world"]> w.(files).
Proof.
  intros w. apply (upload_resume wit_dir (str "f") (str "hello world") [] 6 w);
    [reflexivity|apply not_elem_of_empty|by apply wit_not_dir|apply wit_has_dir|reflexivity
    |reflexivity|unfold strlen; simpl; lia|lia|by vm_compute|reflexivity].
Defined.

Definition wit_names : list (list byte) := (λ n, str "f" ++ dec (Z.of_nat n)) <$> seq 0 87.
Lemma list_files_overflow_witness :
  server_list_files wit_dir wit_names
    (wit_world (list_to_map ((λ n, (file_path wit_dir n, [])) <$> wit_names)) []) = UB.
Proof.
  apply list_files_overflow; [apply wit_has_dir|vm_compute; lia|].
  assert (H : forallb (λ n, negb (bool_decide (n = [])) && negb (bool_decide (head n = Some x2e)) &&
      bool_decide (is_Some ((list_to_map ((λ n, (file_path wit_dir n, [])) <$> wit_names)
        : gmap (list byte) (list byte)) !! file_path wit_dir n))) wit_names = true)
    by (vm_compute; reflexivity).
  apply Forall_forall. intros n Hn. rewrite forallb_forall in H. specialize (H n).
  rewrite <- list_elem_of_In in H. specialize (H Hn).
  apply andb_true_iff in H as [[H1 H2]%andb_true_iff H3].
  apply negb_true_iff, bool_decide_eq_false_1 in H1, H2. by apply bool_decide_eq_true_1 in H3.
Defined.

Lemma rmdir_empty_name_example :
  ∃ w1, server_rmdir wit_dir wit_errno [] (wit_world ∅ []) = Ret (SUCCESS, w1) ∧
    w1.(fdirs) = {[ wit_dir ]} ∖ {[ wit_dir ]}.
Proof.
  destruct (rmdir_empty_name wit_dir wit_errno (wit_world ∅ [])) as (w1 & E & Hd & _);
    [apply wit_has_dir|apply not_elem_of_empty|reflexivity|by vm_compute|reflexivity|].
  exists w1. split; [exact E|exact Hd].
Defined.

Definition wit_ops : list client_op :=
  [AddClient 5; AddClient 6; AddClient 7; RemoveClient 5; AddClient 8].
Lemma client_table_refines_witness :
  (run_table wit_ops (server_init_table 2)).1 = [0; 1; -1; 0] ∧
  (run_table wit_ops (server_init_table 2)).2.(client_count) =
    Z.of_nat (size (run_set 2 wit_ops ∅).2).
Proof.
  split; [by vm_compute|]. apply (client_table_refines 2 wit_ops); [lia|].
  cbn [fresh_fds wit_ops]. split_and!; try apply not_elem_of_empty; try done;
    apply bool_decide_eq_false_1; by vm_compute.
Defined.

End FileServerSpec.
