(* ===== verification/EpollWrap.v ===== *)
(** * linux-file-server: the wrappers around epoll (linux-file-server/src/epoll_wrap.c)

    The kernel is a parameter: the class [Kernel] has the three system calls, [KernelLaws]
    what their manual pages promise of the interest list. *)

From stdpp Require Import gmap.
From S2P Require Import Prelude Calls.

Module EpollWrap.
Import Calls.

Definition EPOLL_CLOEXEC : Z := 524288.
Definition EINTR : Z := 4.
Inductive op := EPOLL_CTL_ADD | EPOLL_CTL_MOD | EPOLL_CTL_DEL.
(** [data] is the pointer given by the caller. *)
Record epoll_event := Event { events : Z; data : Z }.

Class Kernel (K : Type) := {
  epoll_create1 : Z → C K Z;
  epoll_ctl : Z → op → Z → option epoll_event → C K Z;
  (* the error number, or the events stored *)
  epoll_wait : Z → Z → Z → C K (Z + list epoll_event)
}.

Section wrap.
Context {K : Type} `{Kernel K}.

Definition epoll_wrap_create : C K Z :=
  epfd ← epoll_create1 EPOLL_CLOEXEC;
  if epfd <? 0 then mret (-1) else mret epfd.
Definition epoll_wrap_add (epfd fd ev arg : Z) : C K Z :=
  r ← epoll_ctl epfd EPOLL_CTL_ADD fd (Some (Event ev arg));
  if r <? 0 then mret (-1) else mret 0.
Definition epoll_wrap_mod (epfd fd ev arg : Z) : C K Z :=
  r ← epoll_ctl epfd EPOLL_CTL_MOD fd (Some (Event ev arg));
  if r <? 0 then mret (-1) else mret 0.
Definition epoll_wrap_del (epfd fd : Z) : C K Z :=
  r ← epoll_ctl epfd EPOLL_CTL_DEL fd None;
  if r <? 0 then mret (-1) else mret 0.
(** The result, and the events in the caller's array. *)
Definition epoll_wrap_wait (epfd max_events timeout_ms : Z) : C K (Z * list epoll_event) :=
  r ← epoll_wait epfd max_events timeout_ms;
  match r with
  | inl errno => if errno =? EINTR then mret (0, []) else mret (-1, [])
  | inr evs => mret (Z.of_nat (length evs), evs)
  end.

(** ** What is watched *)

Definition interests := gmap Z epoll_event.
(** What a call that succeeds does to the interest list, and when it may. *)
Definition ctl_effect (o : op) (fd : Z) (e : option epoll_event) (m : interests) : option interests :=
  match o, e, m !! fd with
  | EPOLL_CTL_ADD, Some e, None => Some (<[fd := e]> m)
  | EPOLL_CTL_MOD, Some e, Some _ => Some (<[fd := e]> m)
  | EPOLL_CTL_DEL, _, Some _ => Some (delete fd m)
  | _, _, _ => None
  end.
Class KernelLaws := {
  watched : Z → K → interests;
  ctl_law : ∀ epfd o fd e, ∀ k, wp (epoll_ctl epfd o fd e) (λ r k',
    (r < 0 ∧ watched epfd k' = watched epfd k) ∨ (0 ≤ r ∧ ctl_effect o fd e (watched epfd k) = Some (watched epfd k'))) k;
  wait_law : ∀ epfd n t, ∀ k, 0 < n → wp (epoll_wait epfd n t) (λ r k', watched epfd k' = watched epfd k ∧
    ∀ evs, r = inr evs → Z.of_nat (length evs) ≤ n ∧ ∀ e, e ∈ evs → ∃ fd e0, watched epfd k !! fd = Some e0 ∧ data e = data e0) k
}.
(** The calls of a program on one epoll instance, and the map a reader expects. *)
Inductive call := Add (fd ev arg : Z) | Mod (fd ev arg : Z) | Del (fd : Z) | Wait (max timeout : Z).
Definition run (epfd : Z) (c : call) : C K (Z * list epoll_event) :=
  match c with
  | Add fd ev arg => r ← epoll_wrap_add epfd fd ev arg; mret (r, [])
  | Mod fd ev arg => r ← epoll_wrap_mod epfd fd ev arg; mret (r, [])
  | Del fd => r ← epoll_wrap_del epfd fd; mret (r, [])
  | Wait n t => epoll_wrap_wait epfd n t
  end.
Fixpoint runs (epfd : Z) (cs : list call) : C K (list (Z * list epoll_event)) :=
  match cs with
  | [] => mret []
  | c :: cs' => r ← run epfd c; rs ← runs epfd cs'; mret (r :: rs)
  end.
Definition wanted (c : call) (m : interests) : interests :=
  match c with Add fd ev arg | Mod fd ev arg => <[fd := Event ev arg]> m | Del fd => delete fd m | Wait _ _ => m end.
(** A result is right for the map before the call: 0 only for a call that changes the map
    as asked and was possible, -1 without a change; events are of watched descriptors. *)
Definition answer_ok (c : call) (r : Z * list epoll_event) (m m' : interests) : Prop :=
  match c with
  | Wait n _ => m' = m ∧ -1 ≤ r.1 ≤ n ∧ (r.1 = Z.of_nat (length r.2) ∨ r = (-1, [])) ∧ ∀ e, e ∈ r.2 → ∃ fd e0, m !! fd = Some e0 ∧ data e = data e0
  | Add fd _ _ => (r.1 = 0 ∧ m !! fd = None ∧ m' = wanted c m) ∨ (r.1 = -1 ∧ m' = m)
  | Mod fd _ _ | Del fd => (r.1 = 0 ∧ is_Some (m !! fd) ∧ m' = wanted c m) ∨ (r.1 = -1 ∧ m' = m)
  end.
Fixpoint answers_ok (cs : list call) (rs : list (Z * list epoll_event)) (m m' : interests) : Prop :=
  match cs, rs with
  | [], [] => m' = m
  | c :: cs', r :: rs' => ∃ m1, answer_ok c r m m1 ∧ answers_ok cs' rs' m1 m'
  | _, _ => False
  end.
Definition sane (c : call) : Prop := match c with Wait n _ => 0 < n | _ => True end.

Context `{!KernelLaws}.
Lemma run_ok epfd c k : sane c → wp (run epfd c) (λ r k', answer_ok c r (watched epfd k) (watched epfd k')) k.
Proof.
  intros Hc. destruct c as [fd ev arg|fd ev arg|fd|n t]; cbn [run];
    try (apply wp_bind, wp_bind; eapply wp_mono; [apply ctl_law|]; cbn; intros r k' [[Hr E]|[Hr E]];
      [rewrite (proj2 (Z.ltb_lt _ _)) by done; apply wp_ret, wp_ret; by right|];
      rewrite (proj2 (Z.ltb_ge _ _)) by done; apply wp_ret, wp_ret; left; unfold ctl_effect in E; destruct (watched epfd k !! fd) eqn:El; [|try done]; try done; by injection E as <-).
  apply wp_bind. eapply wp_mono; [by apply wait_law|]. cbn. intros [errno|evs] k' [E Hev].
  - destruct (errno =? EINTR); apply wp_ret; (split_and!; [done|cbn in *; lia|cbn in *; lia| |by intros e ?%elem_of_nil]); [by left|by right].
  - destruct (Hev evs eq_refl) as [Hl Hin]. apply wp_ret. split_and!; [done|cbn in *; lia|cbn in *; lia|by left|done].
Qed.
(** Whatever sequence of wrapper calls is made and whichever of them fail, the results are
    those of the map a reader keeps: a descriptor is watched with the events and the pointer
    of the last successful add or mod, a failed call changes nothing, an interrupted wait
    counts as no event, and every event carries the pointer of a watched descriptor. *)
Theorem epoll_tracks epfd cs k : Forall sane cs →
  ∃ rs k', runs epfd cs k = Ret (rs, k') ∧ answers_ok cs rs (watched epfd k) (watched epfd k').
Proof.
  intros Hs. apply (wp_returns (runs epfd cs) (λ rs k', answers_ok cs rs (watched epfd k) (watched epfd k'))).
  revert k. induction Hs as [|c cs Hc Hs IH]; intros k; cbn [runs]; [by apply wp_ret|].
  apply wp_bind. eapply wp_mono; [by apply run_ok|]. cbn. intros r k1 Hr. apply wp_bind. eapply wp_mono; [apply IH|]. cbn. intros rs k2 Hrs.
  apply wp_ret. by exists (watched epfd k1).
Qed.
End wrap.
Arguments KernelLaws _ {_}.

(** ** A kernel *)

(** One instance, no failure but the documented ones, every watched descriptor ready. *)
Definition simple_ctl (o : op) (fd : Z) (e : option epoll_event) : C interests Z := λ m,
  match ctl_effect o fd e m with Some m' => Ret (0, m') | None => Ret (-1, m) end.
#[local] Instance simple_kernel : Kernel interests := {|
  epoll_create1 := λ _, mret 3; epoll_ctl := λ _, simple_ctl;
  epoll_wait := λ _ n _ m, Ret (inr (take (Z.to_nat n) ((map_to_list m).*2)), m)
|}.
#[local] Instance simple_laws : KernelLaws interests.
Proof.
  refine {| watched := λ _ m, m |}.
  - intros epfd o fd e m. unfold epoll_ctl, simple_kernel, simple_ctl, wp. destruct (ctl_effect o fd e m) as [m'|]; eexists _, _; (split; [reflexivity|]); [by right|by left].
  - intros epfd n t m Hn. eexists _, _. split; [reflexivity|]. split; [done|]. intros evs [= <-]. rewrite length_take. split; [lia|].
    intros e He. apply elem_of_take in He as (i & He & _). apply list_lookup_fmap_Some in He as ([fd e0] & -> & He%list_elem_of_lookup_2%elem_of_map_to_list). by exists fd, e0.
Defined.
Lemma epoll_tracks_witness :
  ∃ rs k', runs 3 [Add 5 1 80; Add 5 1 81; Wait 10 0; Del 5; Wait 10 0] (∅ : interests) = Ret (rs, k') ∧
    answers_ok [Add 5 1 80; Add 5 1 81; Wait 10 0; Del 5; Wait 10 0] rs (watched 3 ∅) (watched 3 k').
Proof. apply (epoll_tracks 3). repeat constructor. Defined.
End EpollWrap.
