(* ===== verification/ServerLoop.v ===== *)
(** * linux-file-server: the accept loop and its workers
    (server_start and server_handle_client of server.c on the pool of thread_pool.c)

    The main thread accepts, enters a connection in the client table and hands it to the
    pool; workers take connections, serve them and take them out of the table.  The steps
    are the critical sections: those of [ThreadPool] on its linked queue and those of
    [FileServer] on its table.  What a session does is [FileServer.session]. *)

From stdpp Require Import gmap.
From S2P Require Import Prelude ThreadPool FileServer.

Module ServerLoop.
Import ThreadPool FileServer.
#[local] Arguments Z.to_nat : simpl never.

(** ** The system *)

(** The main thread waits for a connection or has entered one in the table. *)
Inductive mpc := MWait | MAdded (fd idx : Z).
(** What a worker that serves knows: the slot it was given and the descriptor it read;
    [closing] when it has left the table and not closed the connection yet. *)
Record srv := Srv { main : mpc; tab : table; tp : pstate; sessions : gmap nat (Z * Z); closing : gmap nat Z; opened : gset Z }.
Definition server_handle_client : Z := 1.
Definition slot (t : table) (idx : Z) (c : client_info_t) : Prop := 0 ≤ idx ∧ t.(clients) !! Z.to_nat idx = Some c.

Inductive sstep : srv → srv → Prop :=
  | ss_accept t p se cl op fd idx t' :
      (* the kernel gives a descriptor that is not open *)
      fd ∉ op → 0 ≤ fd → add_client t fd = (idx, t') → 0 ≤ idx →
      sstep (Srv MWait t p se cl op) (Srv (MAdded fd idx) t' p se cl ({[fd]} ∪ op))
  | ss_full t p se cl op fd idx t' :
      (* answered "Server full" and closed *)
      fd ∉ op → 0 ≤ fd → add_client t fd = (idx, t') → idx < 0 →
      sstep (Srv MWait t p se cl op) (Srv MWait t' p se cl op)
  | ss_submit fd idx t p ws s k x se cl op mem p' :
      p.(heap) !! mem = None → thread_pool_add_task p server_handle_client idx mem = Ret (0, p') →
      sstep (Srv (MAdded fd idx) t (PState p ws s k x) se cl op)
            (Srv MWait t (PState p' ws (s ++ [(server_handle_client, idx)]) k x) se cl op)
  | ss_submit_fail fd idx t p ws s k x se cl op mem p' :
      thread_pool_add_task p server_handle_client idx mem = Ret (-1, p') →
      sstep (Srv (MAdded fd idx) t (PState p ws s k x) se cl op)
            (Srv MWait (remove_client t fd) (PState p' ws s k x) se cl (op ∖ {[fd]}))
  | ss_begin m t p ws s k x se cl op i task p' idx c :
      ws !! i = Some WIdle → worker_section p = Ret (WTask task, p') →
      call_of p.(heap) task = Some (server_handle_client, idx) → slot t idx c →
      sstep (Srv m t (PState p ws s k x) se cl op)
            (Srv m t (PState p' (<[i := WRunning task]> ws) s (k ++ [(server_handle_client, idx)]) x) (<[i := (idx, c.(cfd))]> se) cl op)
  | ss_leave m t p se cl op i idx fd :
      se !! i = Some (idx, fd) →
      sstep (Srv m t p se cl op) (Srv m (remove_client t fd) p (delete i se) (<[i := fd]> cl) op)
  | ss_close m t p ws s k x se cl op i fd task c p' :
      cl !! i = Some fd → ws !! i = Some (WRunning task) → worker_run p task = Ret (c, p') →
      sstep (Srv m t (PState p ws s k x) se cl op)
            (Srv m t (PState p' (<[i := WIdle]> ws) s k (x ++ option_list c)) se (delete i cl) (op ∖ {[fd]})).
Inductive sreach (s0 : srv) : srv → Prop :=
  | sr_refl : sreach s0 s0
  | sr_step s1 s2 : sreach s0 s1 → sstep s1 s2 → sreach s0 s2.

(** ** The client table *)

Lemma claim_slot_at fd cs : ∀ i0, match claim_slot fd cs i0 with
  | Some (idx, cs') => ∃ j c, idx = i0 + Z.of_nat j ∧ cs !! j = Some c ∧ c.(active) = false ∧ cs' = <[j := Client fd true]> cs
  | None => ∀ j c, cs !! j = Some c → c.(active) = true
  end.
Proof.
  induction cs as [|c cs IH]; intros i0; cbn [claim_slot]; [done|]. destruct (active c) eqn:Ea; cbn [negb].
  - specialize (IH (i0 + 1)). destruct (claim_slot fd cs (i0 + 1)) as [[idx cs']|]; cbn.
    + destruct IH as (j & c' & -> & Hj & Hc & ->). exists (S j), c'. split_and!; [lia|done|done|done].
    + intros [|j] c' H; [by injection H as <-|by eapply IH].
  - exists 0%nat, c. split_and!; [lia|done|done|done].
Qed.
Lemma add_client_at t fd : let '(idx, t') := add_client t fd in
  idx = -1 ∧ t' = t ∨ 0 ≤ idx ∧ (∃ c, slot t idx c ∧ c.(active) = false) ∧
    t' = Table (<[Z.to_nat idx := Client fd true]> t.(clients)) (t.(client_count) + 1).
Proof.
  unfold add_client. pose proof (claim_slot_at fd t.(clients) 0) as H. destruct (claim_slot fd (clients t) 0) as [[idx cs]|]; [|by left].
  destruct H as (j & c & -> & Hj & Hc & ->). right. split; [lia|]. replace (Z.to_nat (0 + Z.of_nat j)) with j by lia. split; [|done].
  exists c. split; [|done]. split; [lia|]. by replace (Z.to_nat (0 + Z.of_nat j)) with j by lia.
Qed.
Lemma release_slot_at fd cs j : cs !! j = Some (Client fd true) → (∀ j', cs !! j' = Some (Client fd true) → j' = j) →
  release_slot fd cs = Some (<[j := Client (-1) false]> cs).
Proof.
  revert j. induction cs as [|c cs IH]; intros j Hj Hu; [done|]. cbn [release_slot]. destruct (active c && (cfd c =? fd)) eqn:E.
  - apply andb_true_iff in E as [Ea Ef]. apply Z.eqb_eq in Ef. assert (j = 0%nat) as ->; [|done]. symmetry. apply Hu. cbn. f_equal. destruct c; cbn in *; by subst.
  - destruct j as [|j]; [injection Hj as ->; cbn in E; by rewrite Z.eqb_refl in E|]. cbn in Hj. rewrite (IH j Hj); [done|].
    intros j' H'. specialize (Hu (S j') H'). lia.
Qed.

Lemma slot_fun t i c c' : slot t i c → slot t i c' → c = c'.
Proof. intros [_ H] [_ H']. congruence. Qed.
Lemma slot_update t idx c0 c n j c' : slot t idx c0 → slot (Table (<[Z.to_nat idx := c]> t.(clients)) n) j c' ↔ if decide (j = idx) then c' = c else slot t j c'.
Proof.
  intros [Hi Hc]. unfold slot. cbn [clients]. destruct (decide (j = idx)) as [->|Hne].
  - rewrite list_lookup_insert_eq by by eapply lookup_lt_Some. split; [by intros [_ [= ->]]|by intros ->].
  - split; intros [Hj H]; (split; [done|]); [rewrite list_lookup_insert_ne in H by lia; done|rewrite list_lookup_insert_ne by lia; done].
Qed.

(** Every active slot has one owner: the main thread, a waiting task or a session. *)
Record owned (t : table) (own : list Z) (op : gset Z) : Prop := {
  ow_nodup : NoDup own;
  ow_active : ∀ idx, idx ∈ own → ∃ fd, slot t idx (Client fd true);
  ow_all : ∀ idx fd, slot t idx (Client fd true) → idx ∈ own;
  ow_count : t.(client_count) = Z.of_nat (length own);
  ow_fds : ∀ i j fd, slot t i (Client fd true) → slot t j (Client fd true) → i = j;
  ow_open : ∀ i fd, slot t i (Client fd true) → fd ∈ op ∧ 0 ≤ fd
}.
Lemma owned_perm t own own' op : own ≡ₚ own' → owned t own op → owned t own' op.
Proof. intros Hp [H1 H2 H3 H4 H5 H6]. split; try done; by setoid_rewrite <- Hp. Qed.
Lemma owned_length t own op : owned t own op → (length own ≤ length t.(clients))%nat.
Proof.
  intros [H1 H2 _ _ _ _]. rewrite <- (Nat2Z.id (length t.(clients))), <- (length_seqZ 0). apply submseteq_length, NoDup_submseteq; [done|].
  intros idx Hi. destruct (H2 idx Hi) as (fd & Hge & Hl). apply lookup_lt_Some in Hl. apply elem_of_seqZ. lia.
Qed.
Lemma owned_add t own op fd idx t' : owned t own op → fd ∉ op → 0 ≤ fd → add_client t fd = (idx, t') → 0 ≤ idx →
  owned t' (idx :: own) ({[fd]} ∪ op) ∧ slot t' idx (Client fd true) ∧ length t'.(clients) = length t.(clients) ∧
  ∀ j f, slot t' j (Client f true) ↔ j = idx ∧ f = fd ∨ slot t j (Client f true).
Proof.
  intros [H1 H2 H3 H4 H5 H6] Hfd Hge Ha Hi. pose proof (add_client_at t fd) as H. rewrite Ha in H. destruct H as [[-> _]|(_ & (c & Hc & Hca) & ->)]; [lia|].
  assert (Hs : ∀ j f, slot (Table (<[Z.to_nat idx := Client fd true]> t.(clients)) (t.(client_count) + 1)) j (Client f true) ↔ j = idx ∧ f = fd ∨ slot t j (Client f true)).
  { intros j f. rewrite (slot_update _ _ _ _ _ _ _ Hc). case_decide as Hd.
    - subst j. split; [intros [= ->]; by left|intros [[_ ->]|Hs]; [done|]]. pose proof (slot_fun _ _ _ _ Hc Hs). by subst.
    - naive_solver. }
  assert (Hni : idx ∉ own) by (intros (f & Hf)%H2; pose proof (slot_fun _ _ _ _ Hc Hf); by subst).
  assert (Hnf : ∀ j, ¬ slot t j (Client fd true)) by (intros j (? & _)%H6; done).
  split; [split|split_and!].
  - by constructor.
  - intros j [->|Hj]%elem_of_cons; [exists fd; apply Hs; by left|]. destruct (H2 j Hj) as [f Hf]. exists f. apply Hs. by right.
  - intros j f [[-> _]|Hj]%Hs; [by left|right; by eapply H3].
  - cbn [client_count length]. lia.
  - intros i j f [[-> ->]|Hf]%Hs [[-> Hff]|Hj]%Hs; subst; try done; [by destruct (Hnf j)|by destruct (Hnf i)|by eapply H5].
  - intros j f [[-> ->]|Hj]%Hs; [split; [set_solver|done]|]. destruct (H6 _ _ Hj). split; [set_solver|done].
  - apply Hs. by left.
  - cbn. by rewrite length_insert.
  - exact Hs.
Qed.
Lemma owned_remove t own op op' fd idx : owned t (idx :: own) op → slot t idx (Client fd true) → (∀ f, f ∈ op → f ≠ fd → f ∈ op') →
  owned (remove_client t fd) own op' ∧ length (remove_client t fd).(clients) = length t.(clients) ∧
  ∀ j f, slot (remove_client t fd) j (Client f true) ↔ j ≠ idx ∧ slot t j (Client f true).
Proof.
  intros [H1 H2 H3 H4 H5 H6] Hs Hop. apply NoDup_cons in H1 as [Hni H1]. unfold remove_client.
  rewrite (release_slot_at fd (clients t) (Z.to_nat idx)); [|apply Hs|].
  2:{ intros j Hj. assert (Z.of_nat j = idx); [|lia]. apply (H5 _ _ fd); [|done]. split; [lia|]. by rewrite Nat2Z.id. }
  assert (Hsl : ∀ j f, slot (Table (<[Z.to_nat idx := Client (-1) false]> t.(clients)) (t.(client_count) - 1)) j (Client f true) ↔ j ≠ idx ∧ slot t j (Client f true)).
  { intros j f. rewrite (slot_update _ _ _ _ _ _ _ Hs). case_decide; naive_solver. }
  split; [split|split].
  - done.
  - intros j Hj. destruct (H2 j ltac:(by right)) as [f Hf]. exists f. apply Hsl. split; [by intros ->|done].
  - intros j f [Hne Hj]%Hsl. by apply H3, elem_of_cons in Hj as [|].
  - cbn [client_count]. cbn [length] in H4. lia.
  - intros i j f [_ Hi]%Hsl [_ Hj]%Hsl. by eapply H5.
  - intros j f [Hne Hj]%Hsl. destruct (H6 _ _ Hj). split; [|done]. apply Hop; [done|]. intros ->. by apply Hne, (H5 _ _ fd).
  - cbn. by rewrite length_insert.
  - exact Hsl.
Qed.

(** ** The invariant *)

Definition pending (p : pstate) : list (Z * Z) := drop (length p.(taken)) p.(submitted).
Definition added (m : mpc) : list Z := match m with MAdded _ idx => [idx] | MWait => [] end.
Definition owners (st : srv) : list Z := added st.(main) ++ (pending st.(tp)).*2 ++ (map_to_list st.(sessions)).*2.*1.
#[local] Arguments pending : simpl never.
#[local] Arguments owners : simpl never.
Record inv (max : Z) (st : srv) : Prop := {
  in_pool : pinv st.(tp);
  in_running : st.(tp).(pool).(shutdown) = false;
  in_max : st.(tp).(pool).(max_tasks) = 2 * max;
  in_len : Z.of_nat (length st.(tab).(clients)) = max;
  in_pos : 0 < max;
  in_calls : Forall (λ c, c.1 = server_handle_client) (pending st.(tp));
  in_owned : owned st.(tab) (owners st) st.(opened);
  in_sessions : ∀ w idx fd, st.(sessions) !! w = Some (idx, fd) → slot st.(tab) idx (Client fd true);
  in_main : ∀ fd idx, st.(main) = MAdded fd idx → slot st.(tab) idx (Client fd true);
  in_workers : ∀ w, (∃ task, st.(tp).(workers) !! w = Some (WRunning task)) ↔ is_Some (st.(sessions) !! w) ∨ is_Some (st.(closing) !! w);
  in_excl : ∀ w, is_Some (st.(sessions) !! w) → st.(closing) !! w = None;
  in_closing : ∀ w fd, st.(closing) !! w = Some fd → fd ∈ st.(opened) ∧ (∀ i, ¬ slot st.(tab) i (Client fd true)) ∧ ∀ w', st.(closing) !! w' = Some fd → w' = w
}.

Lemma pending_spec p l : pinv_at p l → pending p = omap (call_of p.(pool).(heap)) l ∧ length (pending p) = length l.
Proof.
  intros H. destruct H as [Hc _ _ _ _ _ _ Htk _ _]. unfold pending. rewrite <- Htk, drop_app_length. split; [done|].
  clear Htk. revert Hc. generalize (task_head (pool p)). induction l as [|a l IH]; intros q; [done|]. intros (_ & _ & t & Ht & Hc).
  cbn [omap list_omap]. unfold call_of at 1. rewrite Ht. cbn. f_equal. by eapply IH.
Qed.
Lemma owners_bound max st : inv max st → Z.of_nat (length (pending st.(tp)) + size st.(sessions) + length (added st.(main))) ≤ max.
Proof.
  intros H. pose proof (owned_length _ _ _ (in_owned _ _ H)) as Hl. unfold owners in Hl. rewrite !length_app, !length_fmap in Hl.
  rewrite length_map_to_list in Hl. rewrite <- (in_len _ _ H). lia.
Qed.

(** ** The steps keep it *)

Lemma start_inv_loop n max init create p0 : thread_pool_create n (2 * max) true init true create = Some p0 →
  inv max (Srv MWait (server_init_table max) (PState p0 (replicate (Z.to_nat n) WIdle) [] [] []) ∅ ∅ ∅).
Proof.
  intros Hp. destruct (start_inv _ _ _ _ _ Hp) as [_ Hpi]. unfold thread_pool_create in Hp.
  destruct (Z.leb_spec n 0), (Z.leb_spec (2 * max) 0); try done. cbn [orb] in Hp. destruct (negb (forallb id init)); [done|]. cbn [negb] in Hp.
  destruct (negb _) in Hp; [done|]. injection Hp as <-.
  assert (Hsl : ∀ i fd, ¬ slot (server_init_table max) i (Client fd true)) by (intros i fd [_ [[=] _]%lookup_replicate]).
  split; cbn [main tab tp sessions closing opened pool shutdown max_tasks]; try done.
  - cbn. rewrite length_replicate. lia.
  - lia.
  - unfold owners. cbn. rewrite map_to_list_empty. cbn. split; try done; [constructor|by intros ? ?%elem_of_nil|by intros ? ? ?%Hsl|by intros ? ? ? ?%Hsl|by intros ? ? ?%Hsl].
  - intros w. cbn [workers]. split.
    + intros [task [[=] _]%lookup_replicate].
    + intros [[? [=]]|[? [=]]].
Qed.
Lemma pending_snoc p ws s k x c p' : (length k ≤ length s)%nat → pending (PState p' ws (s ++ [c]) k x) = pending (PState p ws s k x) ++ [c].
Proof. intros H. unfold pending. cbn [taken submitted]. by rewrite drop_app_le. Qed.
Lemma taken_length p : pinv p → (length p.(taken) ≤ length p.(submitted))%nat.
Proof. intros [l H]. rewrite <- (pi_taken _ _ H), length_app. lia. Qed.
Lemma worker_update (ws : list wpc) i w v : is_Some (ws !! i) → (∃ task, <[i := v]> ws !! w = Some (WRunning task)) ↔
  if decide (w = i) then (∃ task, v = WRunning task) else ∃ task, ws !! w = Some (WRunning task).
Proof.
  intros [y Hy]. case_decide as Hd; [subst; rewrite list_lookup_insert_eq by (by eapply lookup_lt_Some); naive_solver|by rewrite list_lookup_insert_ne].
Qed.
Lemma pool_fields p fn a mem r p' : thread_pool_add_task p fn a mem = Ret (r, p') → p'.(shutdown) = p.(shutdown) ∧ p'.(max_tasks) = p.(max_tasks).
Proof. unfold thread_pool_add_task. intros H. repeat (case_match; try done); by injection H as <- <-. Qed.
Lemma section_fields p d p' : worker_section p = Ret (d, p') → p'.(shutdown) = p.(shutdown) ∧ p'.(max_tasks) = p.(max_tasks).
Proof. unfold worker_section. intros H. repeat (case_match; try done); by injection H as <- <-. Qed.
Lemma run_fields p task c p' : worker_run p task = Ret (c, p') → p'.(shutdown) = p.(shutdown) ∧ p'.(max_tasks) = p.(max_tasks).
Proof. unfold worker_run. intros H. repeat (case_match; try done); by injection H as <- <-. Qed.

Lemma accept_inv max t p se cl op fd idx t' : inv max (Srv MWait t p se cl op) → fd ∉ op → 0 ≤ fd → add_client t fd = (idx, t') → 0 ≤ idx →
  inv max (Srv (MAdded fd idx) t' p se cl ({[fd]} ∪ op)).
Proof.
  intros [] Hfd Hge Ha Hi. cbn in *. destruct (owned_add _ _ _ _ _ _ in_owned0 Hfd Hge Ha Hi) as (Ho & Hs & Hlen & Hall).
  split; cbn; try done.
  - by rewrite Hlen.
  - intros w i f H. apply Hall. right. by eapply in_sessions0.
  - by intros f i [= <- <-].
  - intros w f Hw. destruct (in_closing0 w f Hw) as (H1 & H2 & H3). split_and!; [set_solver| |done].
    intros i [[-> ->]|H]%Hall; [done|by eapply H2].
Qed.
Lemma remove_inv max m m' t p se se' cl op op' fd idx : inv max (Srv m t p se cl op) → owners (Srv m t p se cl op) ≡ₚ idx :: owners (Srv m' t p se' cl op) →
  slot t idx (Client fd true) → (∀ f, f ∈ op → f ≠ fd → f ∈ op') → (∀ f i, m' = MAdded f i → m = MAdded f i) → (∀ w y, se' !! w = Some y → se !! w = Some y) →
  owned (remove_client t fd) (owners (Srv m' (remove_client t fd) p se' cl op')) op' ∧ Z.of_nat (length (remove_client t fd).(clients)) = max ∧
  (∀ w i f, se' !! w = Some (i, f) → slot (remove_client t fd) i (Client f true)) ∧ (∀ f i, m' = MAdded f i → slot (remove_client t fd) i (Client f true)) ∧
  (∀ i f, slot (remove_client t fd) i (Client f true) ↔ i ≠ idx ∧ slot t i (Client f true)).
Proof.
  intros [] Hp Hs Hop Hm Hse. cbn in *. apply (owned_perm _ _ _ _ Hp) in in_owned0. assert (Hnd := ow_nodup _ _ _ in_owned0). apply NoDup_cons in Hnd as [Hni _].
  destruct (owned_remove _ _ _ op' _ _ in_owned0 Hs Hop) as (Ho & Hlen & Hall). split_and!; [exact Ho|by rewrite Hlen| | |exact Hall].
  - intros w i f Hw. apply Hall. split; [|by eapply in_sessions0, Hse]. intros ->. apply Hni. unfold owners. cbn [main tp sessions]. apply elem_of_app. right. apply elem_of_app. right.
    apply list_elem_of_fmap. exists (idx, f). split; [done|]. apply list_elem_of_fmap. exists (w, (idx, f)). split; [done|]. by apply elem_of_map_to_list.
  - intros f i E. apply Hall. split; [|by eapply in_main0, Hm]. intros ->. apply Hni. unfold owners. subst m'. cbn. by left.
Qed.

Lemma delete_sessions (se : gmap nat (Z * Z)) i idx fd : se !! i = Some (idx, fd) → (map_to_list se).*2.*1 ≡ₚ idx :: (map_to_list (delete i se)).*2.*1.
Proof. intros H. rewrite <- (map_to_list_delete _ _ _ H). done. Qed.
Lemma insert_sessions (se : gmap nat (Z * Z)) i idx fd : se !! i = None → (map_to_list (<[i := (idx, fd)]> se)).*2.*1 ≡ₚ idx :: (map_to_list se).*2.*1.
Proof. intros H. by rewrite (map_to_list_insert _ _ _ H). Qed.
Lemma submit_fail_inv max fd idx t p ws s k x se cl op mem p' : inv max (Srv (MAdded fd idx) t (PState p ws s k x) se cl op) →
  thread_pool_add_task p server_handle_client idx mem = Ret (-1, p') → inv max (Srv MWait (remove_client t fd) (PState p' ws s k x) se cl (op ∖ {[fd]})).
Proof.
  intros H Ha. apply add_fail_same in Ha as ->. assert (Hs := in_main _ _ H fd idx eq_refl).
  destruct (remove_inv max _ MWait t _ se se cl op (op ∖ {[fd]}) fd idx H) as (H1 & H2 & H3 & H4 & H5); [done|done|set_solver|done|done|].
  destruct H. cbn in *. split; cbn; try done. intros w f Hw. destruct (in_closing0 w f Hw) as (Ho & Hn & Hu). split_and!; [|intros i [_ Hi]%H5; by eapply Hn|done].
  assert (f ≠ fd) by (intros ->; by eapply Hn). set_solver.
Qed.
Lemma begin_inv max m t p ws s k x se cl op i task p' idx c : inv max (Srv m t (PState p ws s k x) se cl op) →
  ws !! i = Some WIdle → worker_section p = Ret (WTask task, p') → call_of p.(heap) task = Some (server_handle_client, idx) → slot t idx c →
  inv max (Srv m t (PState p' (<[i := WRunning task]> ws) s (k ++ [(server_handle_client, idx)]) x) (<[i := (idx, c.(cfd))]> se) cl op).
Proof.
  intros H Hi Hw Hc Hs. destruct (in_pool _ _ H) as [l Hl]. cbn in Hl. destruct (take_inv _ _ _ _ _ _ _ _ _ Hl Hi Hw) as (l' & El & Hl'). rewrite Hc in Hl'. cbn [option_list] in Hl'.
  destruct (pending_spec _ _ Hl) as [Hp _]. destruct (pending_spec _ _ Hl') as [Hp' _]. cbn [pool] in Hp, Hp'.
  assert (Hpend : pending (PState p ws s k x) = (server_handle_client, idx) :: pending (PState p' (<[i := WRunning task]> ws) s (k ++ [(server_handle_client, idx)]) x)).
  { pose proof (pi_taken _ _ Hl') as T. cbn in T. unfold pending. cbn [taken submitted]. rewrite <- T, drop_app_length, <- (assoc_L (++)), drop_app_length. done. }
  assert (Hnone : se !! i = None ∧ cl !! i = None).
  { pose proof (in_workers _ _ H i) as Hww. cbn in Hww. split; [destruct (se !! i) eqn:E|destruct (cl !! i) eqn:E]; try done;
      (destruct Hww as [_ Hww]; destruct Hww as [task' Ht]; [rewrite ?E; eauto|congruence]). }
  assert (Hown : ∃ f, c = Client f true).
  { destruct (ow_active _ _ _ (in_owned _ _ H) idx) as [f Hf]; [|exists f; by eapply slot_fun]. unfold owners. cbn [main tp sessions]. rewrite Hpend. set_solver. }
  destruct Hown as [f ->]. cbn [cfd]. destruct Hnone as [Hn1 Hn2]. destruct H. cbn in *. destruct (section_fields _ _ _ Hw) as [Hsh Hmx].
  split; cbn; try done; try congruence.
  - by exists l'.
  - rewrite Hpend in in_calls0. by apply Forall_cons in in_calls0 as [_ ?].
  - eapply owned_perm; [|exact in_owned0]. unfold owners. cbn [main tp sessions]. rewrite Hpend, insert_sessions by done. cbn [fmap list_fmap snd]. solve_Permutation.
  - intros w j g. destruct (decide (w = i)) as [->|]; [rewrite lookup_insert_eq; by intros [= <- <-]|rewrite lookup_insert_ne by done; apply in_sessions0].
  - intros w. rewrite worker_update by by eexists. destruct (decide (w = i)) as [->|]; [|rewrite lookup_insert_ne by done; apply in_workers0].
    rewrite lookup_insert_eq. split; [left; by eexists|by exists task].
  - intros w. destruct (decide (w = i)) as [->|]; [done|rewrite lookup_insert_ne by done; apply in_excl0].
Qed.
Lemma leave_inv max m t p se cl op i idx fd : inv max (Srv m t p se cl op) → se !! i = Some (idx, fd) →
  inv max (Srv m (remove_client t fd) p (delete i se) (<[i := fd]> cl) op).
Proof.
  intros H Hi. assert (Hs := in_sessions _ _ H i idx fd Hi). cbn in Hs.
  destruct (remove_inv max m m t p se (delete i se) cl op op fd idx H) as (H1 & H2 & H3 & H4 & H5); try done.
  { unfold owners. cbn [main tp sessions]. rewrite (delete_sessions _ _ _ _ Hi). solve_Permutation. }
  { intros w y Hw. by apply lookup_delete_Some in Hw as [_ Hw]. }
  assert (Ho := ow_open _ _ _ (in_owned _ _ H) _ _ Hs). destruct H. cbn in *. split; cbn; try done.
  - intros w. rewrite in_workers0. destruct (decide (w = i)) as [->|]; [|by rewrite lookup_delete_ne, lookup_insert_ne].
    rewrite Hi, lookup_delete_eq, lookup_insert_eq. split; [right|left]; by eexists.
  - intros w [y Hw]. apply lookup_delete_Some in Hw as [Hne Hw]. rewrite lookup_insert_ne by done. apply in_excl0. by eexists.
  - assert (Hfd : ∀ w, cl !! w = Some fd → False) by (intros w Hw; destruct (in_closing0 w fd Hw) as (_ & Hn & _); by eapply Hn).
    intros w f Hw. destruct (decide (w = i)) as [->|Hne].
    + rewrite lookup_insert_eq in Hw. injection Hw as <-. split_and!; [apply Ho| |].
      * intros j Hj. apply H5 in Hj as [Hne Hj]. by eapply Hne, (ow_fds _ _ _ in_owned0).
      * intros w' Hw'. destruct (decide (w' = i)) as [|Hne]; [done|]. rewrite lookup_insert_ne in Hw' by done. by destruct (Hfd w').
    + rewrite lookup_insert_ne in Hw by done. destruct (in_closing0 w f Hw) as (Hof & Hn & Hu). split_and!; [done|intros j [_ Hj]%H5; by eapply Hn|].
      intros w' Hw'. destruct (decide (w' = i)) as [->|]; [rewrite lookup_insert_eq in Hw'; injection Hw' as <-; by destruct (Hfd w)|]. rewrite lookup_insert_ne in Hw' by done. by apply Hu.
Qed.
Lemma close_inv max m t p ws s k x se cl op i fd task c p' : inv max (Srv m t (PState p ws s k x) se cl op) → cl !! i = Some fd → ws !! i = Some (WRunning task) →
  worker_run p task = Ret (c, p') → inv max (Srv m t (PState p' (<[i := WIdle]> ws) s k (x ++ option_list c)) se (delete i cl) (op ∖ {[fd]})).
Proof.
  intros H Hi Hw Hr. destruct (in_pool _ _ H) as [l Hl]. cbn in Hl. pose proof (run_inv _ _ _ _ _ _ _ _ _ _ Hl Hw Hr) as Hl'. destruct (run_fields _ _ _ _ Hr) as [Hsh Hmx].
  destruct H. cbn in *. destruct (in_closing0 i fd Hi) as (Ho & Hn & Hu).
  assert (Hse : se !! i = None) by (destruct (se !! i) eqn:E; [|done]; by rewrite (in_excl0 i) in Hi by eauto).
  split; cbn; try done; try congruence.
  - by exists l.
  - destruct in_owned0 as [? ? ? ? ? H6]. split; try done. intros j f Hj. destruct (H6 j f Hj). assert (f ≠ fd) by (intros ->; by eapply Hn). set_solver.
  - intros w. rewrite worker_update by by eexists. destruct (decide (w = i)) as [->|]; [|rewrite lookup_delete_ne by done; apply in_workers0].
    rewrite Hse, lookup_delete_eq. split; [by intros [? [=]]|by intros [[? [=]]|[? [=]]]].
  - intros w Hww. destruct (decide (w = i)) as [->|]; [by rewrite lookup_delete_eq|rewrite lookup_delete_ne by done; by apply in_excl0].
  - intros w f [Hne Hf]%lookup_delete_Some. destruct (in_closing0 w f Hf) as (H1 & H2 & H3). split_and!; [|done|].
    + assert (f ≠ fd) by (intros ->; by destruct Hne; symmetry; apply Hu). set_solver.
    + intros w' [_ Hw']%lookup_delete_Some. by apply H3.
Qed.
Lemma submit_inv max fd idx t p ws s k x se cl op mem p' : inv max (Srv (MAdded fd idx) t (PState p ws s k x) se cl op) → p.(heap) !! mem = None →
  thread_pool_add_task p server_handle_client idx mem = Ret (0, p') → inv max (Srv MWait t (PState p' ws (s ++ [(server_handle_client, idx)]) k x) se cl op).
Proof.
  intros H Hm Ha. destruct (in_pool _ _ H) as [l Hl]. cbn in Hl. pose proof (add_inv _ _ _ _ _ _ _ _ _ _ Hl Hm Ha) as Hl'. destruct (pool_fields _ _ _ _ _ _ Ha) as [Hsh Hmx].
  assert (Hp : pending (PState p' ws (s ++ [(server_handle_client, idx)]) k x) = pending (PState p ws s k x) ++ [(server_handle_client, idx)]).
  { apply pending_snoc. apply (taken_length _ (in_pool _ _ H)). }
  destruct H. cbn in *. split; cbn; try done; try congruence.
  - by eexists.
  - rewrite Hp. apply Forall_app. split; [done|by repeat constructor].
  - eapply owned_perm; [|exact in_owned0]. unfold owners. cbn [main tp sessions added]. rewrite Hp, fmap_app. cbn [fmap list_fmap snd]. solve_Permutation.
Qed.
Lemma sstep_inv max st st' : sstep st st' → inv max st → inv max st'.
Proof.
  intros Hstep Hi. destruct Hstep.
  - by eapply accept_inv.
  - match goal with H0 : add_client _ _ = _ |- _ => pose proof (add_client_at t fd) as E; rewrite H0 in E end. destruct E as [[_ ->]|[? _]]; [done|lia].
  - by eapply submit_inv.
  - by eapply submit_fail_inv.
  - by eapply begin_inv.
  - by eapply leave_inv.
  - by eapply close_inv.
Qed.

Lemma sreach_inv max st0 st : sreach st0 st → inv max st0 → inv max st.
Proof. induction 1 as [|s1 s2 _ IH Hs]; [done|]. intros H. eapply sstep_inv; [exact Hs|by apply IH]. Qed.

(** ** Properties *)

(** C31. However connections arrive and workers are scheduled: the main thread never waits for
    room in the task queue, and handing a connection over fails only without memory; a
    worker that takes a task finds a connection in its slot; sessions have descriptors and
    slots of their own, which are open; and client_count counts the connections entered,
    waiting and served, at most max_clients. *)
Theorem server_loop_flows n max init create p0 st : thread_pool_create n (2 * max) true init true create = Some p0 →
  sreach (Srv MWait (server_init_table max) (PState p0 (replicate (Z.to_nat n) WIdle) [] [] []) ∅ ∅ ∅) st →
  (∀ fd idx mem, st.(main) = MAdded fd idx → mem ≠ 0 → st.(tp).(pool).(heap) !! mem = None →
     ∃ p', thread_pool_add_task st.(tp).(pool) server_handle_client idx mem = Ret (0, p')) ∧
  (∀ task p', worker_section st.(tp).(pool) = Ret (WTask task, p') → ∃ idx fd,
     call_of st.(tp).(pool).(heap) task = Some (server_handle_client, idx) ∧ slot st.(tab) idx (Client fd true) ∧ fd ∈ st.(opened)) ∧
  (∀ i j idx idx' fd fd', st.(sessions) !! i = Some (idx, fd) → st.(sessions) !! j = Some (idx', fd') →
     fd ∈ st.(opened) ∧ (idx = idx' ∨ fd = fd' → i = j)) ∧
  st.(tab).(client_count) = Z.of_nat (length (added st.(main)) + length (pending st.(tp)) + size st.(sessions)) ∧
  st.(tab).(client_count) ≤ max.
Proof.
  intros Hc Hr. apply (sreach_inv max) in Hr; [|by eapply start_inv_loop]. pose proof (owners_bound _ _ Hr) as Hb.
  assert (Hcount : st.(tab).(client_count) = Z.of_nat (length (added st.(main)) + length (pending st.(tp)) + size st.(sessions))).
  { rewrite (ow_count _ _ _ (in_owned _ _ Hr)). unfold owners. rewrite !length_app, !length_fmap, length_map_to_list. lia. }
  destruct (in_pool _ _ Hr) as [l Hl]. destruct (pending_spec _ _ Hl) as [Hp Hlen]. split_and!; [| | |done|lia].
  - intros fd idx mem Hm H0 Hf. rewrite Hm in Hb. cbn in Hb. pose proof (in_pos _ _ Hr). unfold thread_pool_add_task.
    change (server_handle_client =? 0) with false. cbv iota. rewrite (in_running _ _ Hr), (in_max _ _ Hr), (pi_count _ _ Hl), <- Hlen.
    rewrite (proj2 (Z.leb_gt _ _)), (proj2 (Z.eqb_neq mem 0)) by lia. destruct (Z.eqb_spec (task_tail (pool (tp st))) 0) as [|Ht]; cbn [negb]; [by eexists|].
    rewrite (pi_tail _ _ Hl) in Ht |- *. destruct (last l) as [b|] eqn:El; [|done]. cbn [default from_option id].
    destruct (chain_alloc _ _ _ b (pi_chain _ _ Hl)) as [[tb Hb'] _]; [apply last_Some in El as [l' ->]; set_solver|].
    rewrite lookup_insert_ne, Hb' by congruence. by eexists.
  - intros task p' Hw. assert (Hh : ∃ l', l = task :: l').
    { pose proof (pi_count _ _ Hl) as Hn. pose proof (pi_chain _ _ Hl) as Hch. unfold worker_section in Hw. rewrite (in_running _ _ Hr), Hn in Hw.
      destruct l as [|a l']; [done|]. rewrite (proj2 (Z.eqb_neq _ 0)) in Hw by (cbn; lia). cbn [andb negb] in Hw. destruct Hch as (Ha & Ha0 & ta & Hta & _).
      rewrite Ha, (proj2 (Z.eqb_neq a 0)), Hta in Hw by done. injection Hw as <- _. by exists l'. }
    destruct Hh as [l' ->]. destruct (chain_alloc _ _ _ task (pi_chain _ _ Hl)) as [[tt0 Ht] _]; [by left|]. cbn [omap list_omap] in Hp. unfold call_of in Hp at 1. rewrite Ht in Hp. cbn in Hp.
    pose proof (in_calls _ _ Hr) as Hcalls. rewrite Hp in Hcalls. apply Forall_cons in Hcalls as [Hcall _]. cbn in Hcall.
    exists (arg tt0). destruct (ow_active _ _ _ (in_owned _ _ Hr) (arg tt0)) as [fd Hs].
    { unfold owners. rewrite Hp. cbn. set_solver. }
    exists fd. split_and!; [unfold call_of; rewrite Ht; cbn; by rewrite Hcall|done|]. by apply (ow_open _ _ _ (in_owned _ _ Hr) _ _ Hs).
  - intros i j idx idx' fd fd' Hi Hj. assert (Hs := in_sessions _ _ Hr _ _ _ Hi). assert (Hs' := in_sessions _ _ Hr _ _ _ Hj).
    split; [by apply (ow_open _ _ _ (in_owned _ _ Hr) _ _ Hs)|]. intros He.
    assert (idx = idx') as <- by (destruct He as [|<-]; [done|by eapply (ow_fds _ _ _ (in_owned _ _ Hr))]).
    destruct (decide (i = j)) as [|Hne]; [done|exfalso]. pose proof (ow_nodup _ _ _ (in_owned _ _ Hr)) as Hnd. unfold owners in Hnd.
    apply NoDup_app in Hnd as (_ & _ & Hnd). apply NoDup_app in Hnd as (_ & _ & Hnd). rewrite (delete_sessions _ _ _ _ Hi) in Hnd. apply NoDup_cons in Hnd as [Hnd _].
    apply Hnd. apply list_elem_of_fmap. exists (idx, fd'). split; [done|]. apply list_elem_of_fmap. exists (j, (idx, fd')). split; [done|].
    apply elem_of_map_to_list. by rewrite lookup_delete_ne.
Qed.
Definition wit_pool2 : thread_pool_t := Pool ∅ 0 0 0 4 1 false.
Definition wit_added : srv :=
  Srv (MAdded 5 0) (Table [Client 5 true; Client (-1) false] 1) (PState wit_pool2 [WIdle] [] [] []) ∅ ∅ ({[5]} ∪ ∅).
Lemma server_loop_flows_witness : wit_added.(tab).(client_count) = 1 ∧ ∃ p', thread_pool_add_task wit_pool2 server_handle_client 0 64 = Ret (0, p').
Proof.
  destruct (server_loop_flows 1 2 [true; true; true] [true] wit_pool2 wit_added) as (H & _).
  - reflexivity.
  - apply (sr_step _ _ _ (sr_refl _)). apply (ss_accept _ _ _ _ ∅ 5 0); [set_solver|lia|reflexivity|lia].
  - split; [reflexivity|]. apply (H 5 0 64); [reflexivity|lia|reflexivity].
Defined.
End ServerLoop.
