(* ===== verification/ServerMain.v ===== *)
(** * linux-file-server: configuration, start-up and shutdown
    (main_server.c, and of server.c server_init, server_stop and the reload in server_start)

    Each system call succeeds or fails by a script; files to be read are an argument.  The
    log is [ServerLog]'s, options are [Getopt]'s.  The connections that server_start
    accepts are in [ServerLoop]; here it reloads the configuration.  Whether the workers
    get out of the sessions they serve, which the end of the program waits for, is a
    parameter: closing a descriptor does not wake a thread that is in recv. *)

From stdpp Require Import gmap.
From S2P Require Import Prelude Getopt ServerLog ThreadPool FileServer.

Module ServerMain.
Import ServerLog.
#[local] Arguments Z.to_nat : simpl never.

(** ** Configuration *)

Definition DEFAULT_PORT : Z := 8888.
Definition DEFAULT_BACKLOG : Z := 128.
Definition DEFAULT_MAX_CLIENTS : Z := 1024.
Definition DEFAULT_THREAD_NUM : Z := 4.
Definition DEFAULT_BUFFER_SIZE : Z := 4096.
Definition SERVER_VERSION : list byte := str "2.0.0".
Definition SERVER_NAME : list byte := str "LinuxFileServer".

Record server_config_t := Config {
  port : Z; backlog : Z; max_clients : Z; thread_num : Z; buffer_size : Z; log_level : log_level_t;
  log_dir : list byte; shared_dir : list byte; config_file : list byte
}.
Definition default_config : server_config_t :=
  Config DEFAULT_PORT DEFAULT_BACKLOG DEFAULT_MAX_CLIENTS DEFAULT_THREAD_NUM DEFAULT_BUFFER_SIZE LOG_INFO
    (str "./log") (str "./shared") (str "./config/server.conf").
Definition set_port (n : Z) (c : server_config_t) : server_config_t :=
  Config n c.(backlog) c.(max_clients) c.(thread_num) c.(buffer_size) c.(log_level) c.(log_dir) c.(shared_dir) c.(config_file).
Definition set_max_clients (n : Z) (c : server_config_t) : server_config_t :=
  Config c.(port) c.(backlog) n c.(thread_num) c.(buffer_size) c.(log_level) c.(log_dir) c.(shared_dir) c.(config_file).
Definition set_thread_num (n : Z) (c : server_config_t) : server_config_t :=
  Config c.(port) c.(backlog) c.(max_clients) n c.(buffer_size) c.(log_level) c.(log_dir) c.(shared_dir) c.(config_file).
Definition set_log_level (l : log_level_t) (c : server_config_t) : server_config_t :=
  Config c.(port) c.(backlog) c.(max_clients) c.(thread_num) c.(buffer_size) l c.(log_dir) c.(shared_dir) c.(config_file).
Definition set_log_dir (d : list byte) (c : server_config_t) : server_config_t :=
  Config c.(port) c.(backlog) c.(max_clients) c.(thread_num) c.(buffer_size) c.(log_level) (take 255 d) c.(shared_dir) c.(config_file).
Definition set_shared_dir (d : list byte) (c : server_config_t) : server_config_t :=
  Config c.(port) c.(backlog) c.(max_clients) c.(thread_num) c.(buffer_size) c.(log_level) c.(log_dir) (take 255 d) c.(config_file).
Definition set_config_file (f : list byte) (c : server_config_t) : server_config_t :=
  Config c.(port) c.(backlog) c.(max_clients) c.(thread_num) c.(buffer_size) c.(log_level) c.(log_dir) c.(shared_dir) (take 255 f).

(** [while ( *k == ' ') k++]. *)
Fixpoint skip_blanks (s : list byte) : list byte := match s with x20 :: s' => skip_blanks s' | _ => s end.
(** Key and value of a line; comments and lines without both give none. *)
Definition config_line (line : list byte) : option (list byte * list byte) :=
  match line with
  | x23 :: _ | x0a :: _ => None
  | _ =>
      match scan_set 63 (λ c, bool_decide (c ≠ x3d)) line with
      | Some (key, x3d :: r) =>
          match scan_set 191 (λ c, bool_decide (c ≠ x0a)) r with
          | Some (value, _) => Some (skip_blanks key, skip_blanks value)
          | None => None
          end
      | _ => None
      end
  end.
Definition level_of (v : list byte) : option log_level_t :=
  if bool_decide (v = str "debug") then Some LOG_DEBUG
  else if bool_decide (v = str "info") then Some LOG_INFO
  else if bool_decide (v = str "warn") then Some LOG_WARN
  else if bool_decide (v = str "error") then Some LOG_ERROR
  else None.
Definition apply_setting (kv : list byte * list byte) (c : server_config_t) : server_config_t :=
  let '(k, v) := kv in
  if bool_decide (k = str "port") then set_port (atoi v) c
  else if bool_decide (k = str "threads") then set_thread_num (atoi v) c
  else if bool_decide (k = str "max_clients") then set_max_clients (atoi v) c
  else if bool_decide (k = str "log_dir") then set_log_dir v c
  else if bool_decide (k = str "shared_dir") then set_shared_dir v c
  else if bool_decide (k = str "log_level") then match level_of v with Some l => set_log_level l c | None => c end
  else c.
Definition settings (text : list byte) : list (list byte * list byte) := omap config_line (lines 256 text).
Definition apply_settings (kvs : list (list byte * list byte)) (c : server_config_t) : server_config_t := foldl (λ c kv, apply_setting kv c) c kvs.

(** The first "-c" or "--config" that has a successor. *)
Fixpoint find_config (args : list (list byte)) (c : server_config_t) : server_config_t :=
  match args with
  | a :: args' =>
      match args' with
      | f :: _ => if bool_decide (a = str "-c") || bool_decide (a = str "--config") then set_config_file f c else find_config args' c
      | [] => c
      end
  | [] => c
  end.

Definition option_table : Getopt.table :=
  Getopt.Table [(x70, true); (x74, true); (x64, false); (x63, true); (x76, false); (x68, false)]
    [Getopt.Long (str "port") true x70; Getopt.Long (str "threads") true x74; Getopt.Long (str "daemon") false x64;
     Getopt.Long (str "config") true x63; Getopt.Long (str "verbose") false x76; Getopt.Long (str "help") false x68].
(** The options in order: a configuration and whether to become a daemon, or the exit
    status after the usage. *)
Fixpoint options (os : list Getopt.opt) (c : server_config_t) (d : bool) : (server_config_t * bool) + Z :=
  match os with
  | [] => inl (c, d)
  | Getopt.Opt x70 (Some v) :: os' => options os' (set_port (atoi v) c) d
  | Getopt.Opt x74 (Some v) :: os' => options os' (set_thread_num (atoi v) c) d
  | Getopt.Opt x64 _ :: os' => options os' c true
  | Getopt.Opt x63 _ :: os' => options os' c d
  | Getopt.Opt x76 _ :: os' => options os' (set_log_level LOG_DEBUG c) d
  | Getopt.Opt x68 _ :: _ => inr 0
  | _ => inr 1
  end.
Definition usage_text (prog : list byte) : list byte :=
  str "Usage: " ++ prog ++ str " [options]" ++ [x0a] ++
  str "Options:" ++ [x0a] ++
  str "  -p, --port <port>      Listen port (default: " ++ dec DEFAULT_PORT ++ str ")" ++ [x0a] ++
  str "  -t, --threads <num>    Worker threads (default: " ++ dec DEFAULT_THREAD_NUM ++ str ")" ++ [x0a] ++
  str "  -d, --daemon           Run as daemon" ++ [x0a] ++
  str "  -c, --config <file>    Config file path" ++ [x0a] ++
  str "  -v, --verbose          Verbose output" ++ [x0a] ++
  str "  -h, --help             Show this help" ++ [x0a].

(** ** The process *)

Inductive handle := Mutex | Clients | Pool | Listen | Epoll.
#[global] Instance handle_eq_dec : EqDecision handle.
Proof. solve_decision. Defined.
(** [ctx]: the configuration in the server context, set by a successful server_init. *)
Record world := World {
  lg : log; held : list handle; script : list bool; cwd : list byte; shared : gset (list byte); ctx : option server_config_t
}.
Definition on_log {A} (m : C log A) : C world A := λ w,
  match m w.(lg) with
  | Ret (a, l) => Ret (a, World l w.(held) w.(script) w.(cwd) w.(shared) w.(ctx))
  | UB => UB | Blocked => Blocked | Fuel => Fuel
  end.
(** A call that can fail; calls succeed when the script is used up. *)
Definition call : C world bool := λ w,
  Ret (default true (head w.(script)), World w.(lg) w.(held) (tail w.(script)) w.(cwd) w.(shared) w.(ctx)).
Definition hold (h : handle) : C world unit := c_mod (λ w, World w.(lg) (h :: w.(held)) w.(script) w.(cwd) w.(shared) w.(ctx)).
Definition release (h : handle) : C world unit :=
  c_mod (λ w, World w.(lg) (filter (λ x, x ≠ h) w.(held)) w.(script) w.(cwd) w.(shared) w.(ctx)).
Fixpoint release_all (hs : list handle) : C world unit := match hs with [] => mret tt | h :: hs' => release h;; release_all hs' end.
Definition acquire (h : handle) : C world bool := ok ← call; (if (ok : bool) then hold h else mret tt);; mret ok.
Definition set_ctx (c : server_config_t) : C world unit := c_mod (λ w, World w.(lg) w.(held) w.(script) w.(cwd) w.(shared) (Some c)).
Definition chdir (d : list byte) : C world unit := c_mod (λ w, World w.(lg) w.(held) w.(script) d w.(shared) w.(ctx)).
Definition make_dir (d : list byte) : C world unit := c_mod (λ w, World w.(lg) w.(held) w.(script) w.(cwd) ({[d]} ∪ w.(shared)) w.(ctx)).
(** A path name from the current directory. *)
Definition resolve (cwd p : list byte) : list byte := match p with x2f :: _ => p | _ => cwd ++ str "/" ++ p end.

Definition ERR_SOCKET : Z := -1.
Definition ERR_BIND : Z := -2.
Definition ERR_LISTEN : Z := -3.
Definition ERR_THREAD : Z := -11.
Definition ERR_MEMORY : Z := -12.

Section program.
Context (openable mkdir_ok : list byte → bool) (now : list byte) (strerror : list byte) (pid : Z).
Context (read_file : list byte → option (list byte)).
Context (sessions_end : bool).   (* every worker returns from the session it is in *)

Definition info (m : list byte) : C world unit := on_log (log_info openable now m).
Definition warn (m : list byte) : C world unit := on_log (log_warn openable now m).
Definition error (m : list byte) : C world unit := on_log (log_error openable now m).
Definition fatal (m : list byte) : C world unit := on_log (log_fatal openable now m).

Definition parse_config_file (path : list byte) (c : server_config_t) : C world (Z * server_config_t) :=
  match read_file path with
  | None => warn (str "Config file not found: " ++ path ++ str ", using defaults");; mret (-1, c)
  | Some text => mret (0, apply_settings (settings text) c)
  end.

(** What is released in a failing server_init, after the pool was made. *)
Definition undo (hs : list handle) (code : Z) : C world Z := release_all hs;; release_all [Pool; Clients; Mutex];; mret code.
Definition server_init (c : server_config_t) : C world Z :=
  ok ← acquire Mutex;
  if negb ok then error (str "Failed to init client mutex");; mret ERR_THREAD else
  ok ← (if c.(max_clients) <? 0 then mret false else acquire Clients);    (* a negative count is a huge size *)
  if negb ok then error (str "Failed to allocate client array");; release Mutex;; mret ERR_MEMORY else
  (if 2 ^ 30 <=? c.(max_clients) then c_ub else mret tt);;                (* max_clients * 2 *)
  ok ← call;
  match ThreadPool.thread_pool_create c.(thread_num) (c.(max_clients) * 2) ok [true; true; true] true (replicate (Z.to_nat c.(thread_num)) true) with
  | None => error (str "Failed to create thread pool");; release_all [Clients; Mutex];; mret ERR_THREAD
  | Some _ =>
      hold Pool;;
      ok ← acquire Listen;
      if negb ok then error (str "Failed to create socket: " ++ strerror);; undo [] ERR_SOCKET else
      ok ← call;
      (if (ok : bool) then mret tt else warn (str "Failed to set SO_REUSEADDR"));;
      ok ← call;
      if negb ok then error (str "Failed to bind port " ++ dec c.(port) ++ str ": " ++ strerror);; undo [Listen] ERR_BIND else
      ok ← call;
      if negb ok then error (str "Failed to listen: " ++ strerror);; undo [Listen] ERR_LISTEN else
      ok ← acquire Epoll;
      if negb ok then error (str "Failed to create epoll: " ++ strerror);; undo [Listen] ERR_SOCKET else
      ok ← call;
      if negb ok then error (str "Failed to add listen_fd to epoll: " ++ strerror);; undo [Epoll; Listen] ERR_SOCKET else
      set_ctx c;;
      info (str "Server initialized on port " ++ dec c.(port));;
      mret 0
  end.
(** [thread_pool_destroy] joins the workers; those without a session are woken. *)
Definition join_workers : C world unit := if sessions_end then mret tt else c_blocked.
Definition server_stop : C world unit :=
  release_all [Epoll; Listen];; join_workers;; release_all [Pool; Clients; Mutex];; info (str "Server stopped").

(** The reload after SIGHUP: only the level is taken over, by the logger and not by the
    configuration. *)
Definition reload_setting (kv : list byte * list byte) : C world unit :=
  if bool_decide (kv.1 = str "log_level") then match level_of kv.2 with Some l => on_log (log_set_level l) | None => mret tt end else mret tt.
Fixpoint reload_settings (kvs : list (list byte * list byte)) : C world unit :=
  match kvs with [] => mret tt | kv :: kvs' => reload_setting kv;; reload_settings kvs' end.
Definition reload (c : server_config_t) (file : option (list byte)) : C world unit :=
  info (str "SIGHUP received, reloading configuration...");;
  match file with
  | Some text => reload_settings (settings text);; info (str "Configuration reloaded successfully")
  | None => warn (str "Failed to open config file for reload: " ++ c.(config_file))
  end.
(** The turns of the loop: whether SIGHUP has come, with what the file then holds, and
    whether epoll_wait fails. *)
Record turn := Turn { t_reload : option (option (list byte)); t_wait_ok : bool }.
Fixpoint turns_loop (c : server_config_t) (ts : list turn) : C world unit :=
  match ts with
  | [] => mret tt
  | t :: ts' =>
      match t.(t_reload) with Some f => reload c f | None => mret tt end;;
      (if t.(t_wait_ok) then mret tt else error (str "epoll_wait failed: " ++ strerror));;
      turns_loop c ts'
  end.
Definition server_start (c : server_config_t) (ts : list turn) : C world Z :=
  info (str "Server started, waiting for connections (epoll)...");; turns_loop c ts;; mret 0.

(** From the configuration on. *)
Definition serve (c : server_config_t) (daemon_mode : bool) (ts : list turn) : C world Z :=
  z ← on_log (log_init openable mkdir_ok (Some c.(log_dir)) c.(log_level) now);
  if negb (z =? 0) then on_log (c_mod (print_err (str "Failed to initialize logging" ++ [x0a])));; mret 1 else
  info (str "SIGHUP handler installed for config hot reload (kill -HUP " ++ dec pid ++ str ")");;
  info (str "=== " ++ SERVER_NAME ++ str " v" ++ SERVER_VERSION ++ str " ===");;
  info (str "Port: " ++ dec c.(port) ++ str ", Threads: " ++ dec c.(thread_num) ++ str ", Max clients: " ++ dec c.(max_clients));;
  info (str "Shared dir: " ++ c.(shared_dir));;
  ok ← (if daemon_mode then
          info (str "Starting as daemon...");;
          ok ← call;
          (if (ok : bool) then chdir [];; info (str "Daemon started, PID: " ++ dec pid)
           else fatal (str "Failed to daemonize: " ++ strerror));;
          mret ok
        else mret true);
  if negb ok then on_log log_close;; mret 1 else
  w ← c_get;
  ok ← (if bool_decide (resolve w.(cwd) c.(shared_dir) ∈ w.(shared)) then mret true
        else ok ← call; (if (ok : bool) then make_dir (resolve w.(cwd) c.(shared_dir)) else mret tt);; mret ok);
  if negb ok then fatal (str "Failed to create shared directory: " ++ c.(shared_dir));; on_log log_close;; mret 1 else
  z ← server_init c;
  if negb (z =? 0) then fatal (str "Failed to initialize server");; on_log log_close;; mret 1 else
  info (str "Server starting...");;
  server_start c ts;;
  server_stop;;
  info (str "Server exited");;
  on_log log_close;;
  mret 0.
Definition main (prog : list byte) (args : list (list byte)) (ts : list turn) : C world Z :=
  let c := find_config args default_config in
  r ← parse_config_file c.(config_file) c;
  match options (Getopt.getopt_long option_table args).1 r.2 false with
  | inr status => on_log (c_mod (print_out (usage_text prog)));; mret status
  | inl (c, daemon_mode) => serve c daemon_mode ts
  end.
End program.
End ServerMain.
