(* ===== verification/ServerMainSpec.v ===== *)
(** * linux-file-server: configuration and start-up, properties

    The configuration is what the options say, else the file, else the defaults; whichever
    call fails, the program ends with a status and holds nothing, unless it waits for a
    session that does not end. *)

From stdpp Require Import gmap.
From S2P Require Import Prelude Calls Getopt ServerLog ThreadPool FileServer ServerMain.

Module ServerMainSpec.
Import Calls ServerLog ServerMain.
#[local] Arguments Z.to_nat : simpl never.

(** ** What the program holds *)

(** Free to be used, and not rotating: log_set_rotate is never called. *)
Definition calm (l : log) : Prop := l.(log_mutex) = false ∧ l.(rotate_max_size) ≤ 0.
Lemma check_calm openable l : l.(rotate_max_size) ≤ 0 → log_check_rotate openable l = Ret (tt, l).
Proof.
  intros Hr. unfold log_check_rotate. cbv [mbind C_bind c_get]. destruct (log_fp l) as [p|]; [|done]. by rewrite (proj2 (Z.leb_le _ _)).
Qed.
Lemma write_calm openable lv t m l : calm l → 0 ≤ lv ≤ 4 → ∃ l', log_write_impl openable lv t m l = Ret (tt, l') ∧ calm l' ∧ l'.(log_fp) = l.(log_fp).
Proof.
  intros [Hm Hr] Hl. unfold log_write_impl, lock. cbv [mbind C_bind c_get]. destruct (lv <? current_level l); [by exists l|]. rewrite Hm.
  rewrite (proj2 (Z.ltb_ge lv 0)), (proj2 (Z.ltb_ge 4 lv)) by lia. cbn [orb]. unfold c_mod.
  destruct l as [fp cl mx lp rs rn fs ds o e]. cbn [set_mutex print_out log_fp current_level log_mutex log_filepath rotate_max_size rotate_max_files files dirs out err] in *.
  destruct fp as [p|]; cbn [set_files log_fp current_level log_mutex log_filepath rotate_max_size rotate_max_files files dirs out err mret]; unfold mret, C_ret;
    rewrite check_calm by done; by eexists.
Qed.

Section program.
Context (openable mkdir_ok : list byte → bool) (now : list byte) (strerror : list byte) (pid : Z).
Context (read_file : list byte → option (list byte)) (sessions_end : bool).
Implicit Types Q : unit → world → Prop.

Lemma wp_on_log {A} (m : C log A) (Q : A → world → Prop) l h s d sh cx : wp m (λ a l', Q a (World l' h s d sh cx)) l → wp (on_log m) Q (World l h s d sh cx).
Proof. intros (a & l' & E & HQ). exists a, (World l' h s d sh cx). unfold on_log. cbn [lg]. by rewrite E. Qed.
Lemma wp_lock l (Q : unit → log → Prop) : calm l → Q tt (set_mutex true l) → wp lock Q l.
Proof. intros [Hm _] HQ. unfold lock. apply wp_bind, wp_get. rewrite Hm. by apply wp_mod. Qed.
Lemma wp_say lv m l h s d sh cx Q : calm l → 0 ≤ lv ≤ 4 → (∀ l', calm l' → l'.(log_fp) = l.(log_fp) → Q tt (World l' h s d sh cx)) →
  wp (on_log (log_write_impl openable lv now m)) Q (World l h s d sh cx).
Proof.
  intros Hc Hl HQ. destruct (write_calm openable lv now m l Hc Hl) as (l' & E & Hc' & Hf). exists tt, (World l' h s d sh cx).
  split; [|by apply HQ]. unfold on_log. cbn [lg]. by rewrite E.
Qed.
Lemma wp_info m l h s d sh cx Q : calm l → (∀ l', calm l' → l'.(log_fp) = l.(log_fp) → Q tt (World l' h s d sh cx)) → wp (info openable now m) Q (World l h s d sh cx).
Proof. intros. apply wp_say; done. Qed.
Lemma wp_warn m l h s d sh cx Q : calm l → (∀ l', calm l' → l'.(log_fp) = l.(log_fp) → Q tt (World l' h s d sh cx)) → wp (warn openable now m) Q (World l h s d sh cx).
Proof. intros. apply wp_say; done. Qed.
Lemma wp_error m l h s d sh cx Q : calm l → (∀ l', calm l' → l'.(log_fp) = l.(log_fp) → Q tt (World l' h s d sh cx)) → wp (error openable now m) Q (World l h s d sh cx).
Proof. intros. apply wp_say; done. Qed.
Lemma wp_fatal m l h s d sh cx Q : calm l → (∀ l', calm l' → l'.(log_fp) = l.(log_fp) → Q tt (World l' h s d sh cx)) → wp (fatal openable now m) Q (World l h s d sh cx).
Proof. intros. apply wp_say; done. Qed.
Lemma wp_syscall l h s d sh cx (Q : bool → world → Prop) :
  (∀ s', (Forall (λ b, b = true) s → Forall (λ b, b = true) s') → Q true (World l h s' d sh cx)) →
  (∀ s', ¬ Forall (λ b, b = true) s → Q false (World l h s' d sh cx)) → wp call Q (World l h s d sh cx).
Proof.
  intros Ht Hf. exists (default true (head s)), (World l h (tail s) d sh cx). split; [done|].
  destruct s as [|[] s]; cbn; [by apply Ht|apply Ht; by inversion 1|apply Hf; by inversion 1].
Qed.
Lemma wp_take x l h s d sh cx Q : Q tt (World l (x :: h) s d sh cx) → wp (hold x) Q (World l h s d sh cx).
Proof. by exists tt, (World l (x :: h) s d sh cx). Qed.
Lemma wp_give x h h' l s d sh cx Q : filter (λ y, y ≠ x) h = h' → Q tt (World l h' s d sh cx) → wp (release x) Q (World l h s d sh cx).
Proof. intros <- HQ. by exists tt, (World l (filter (λ y, y ≠ x) h) s d sh cx). Qed.
Lemma wp_close l h s d sh cx Q : calm l → (∀ l', calm l' → l'.(log_fp) = None → Q tt (World l' h s d sh cx)) → wp (on_log log_close) Q (World l h s d sh cx).
Proof.
  intros Hc HQ. apply wp_on_log. unfold log_close. apply wp_bind, wp_lock; [done|]. apply wp_bind, wp_mod, wp_mod, HQ; [|done]. split; [done|]. by destruct Hc.
Qed.
Lemma wp_level lv l h s d sh cx Q : calm l → (∀ l', calm l' → l'.(log_fp) = l.(log_fp) → Q tt (World l' h s d sh cx)) → wp (on_log (log_set_level lv)) Q (World l h s d sh cx).
Proof. intros [Hm Hr] HQ. eexists _, _. split; [reflexivity|]. by apply HQ. Qed.
Lemma wp_open dir lv l h s d sh cx (Q : Z → world → Prop) : calm l → l.(log_fp) = None →
  (∀ l', calm l' → Q 0 (World l' h s d sh cx)) →
  (∀ l', calm l' → l'.(log_fp) = None → mkdir_ok dir = false ∨ openable (log_name dir now) = false → Q (-1) (World l' h s d sh cx)) →
  wp (on_log (log_init openable mkdir_ok (Some dir) lv now)) Q (World l h s d sh cx).
Proof.
  intros Hc Hf H0 H1. apply wp_on_log. unfold log_init. apply wp_bind, wp_lock; [done|]. apply wp_bind, wp_mod, wp_bind, wp_get, wp_bind.
  set (l1 := set_level lv (set_mutex true l)). assert (Hl1 : l1.(rotate_max_size) ≤ 0) by by destruct Hc.
  assert (Hmake : ∀ Q' : bool → log → Prop, (∀ (b : bool) l2, l2.(rotate_max_size) ≤ 0 → l2.(log_fp) = None → (b = false → mkdir_ok dir = false) → Q' b l2) →
    wp (if bool_decide (dir ∈ l1.(dirs)) || bool_decide (is_Some (l1.(files) !! dir)) then mret true
        else if mkdir_ok dir then c_mod (add_dir dir);; mret true else mret false) Q' l1).
  { intros Q' HQ'. apply wp_if; [intros _; by apply wp_ret, HQ'|intros _]. apply wp_if; intros Em; [apply wp_bind, wp_mod|]; by apply wp_ret, HQ'. }
  apply Hmake. intros b l2 H2 Hf2 Hb. clear Hmake Hl1. subst l1. destruct b; cbn [negb].
  - apply wp_bind, wp_mod, wp_bind. unfold open_append. apply wp_if; intros Eo.
    + apply wp_bind, wp_mod, wp_ret, wp_bind, wp_mod, wp_ret, H0. by split.
    + apply wp_ret, wp_bind, wp_mod, wp_bind, wp_mod, wp_bind, wp_mod, wp_ret, H1; [by split|done|by right].
  - apply wp_bind, wp_mod, wp_bind, wp_mod, wp_ret, H1; [by split|done|left; by apply Hb].
Qed.

(** Ends of the program. *)
Definition ended (l : log) (h : list handle) : Prop := h = [] ∧ l.(log_fp) = None ∧ l.(log_mutex) = false.
Ltac say_step :=
  lazymatch goal with
  | |- wp (info _ _ _) _ _ => apply wp_info; [done|]
  | |- wp (warn _ _ _) _ _ => apply wp_warn; [done|]
  | |- wp (error _ _ _) _ _ => apply wp_error; [done|]
  | |- wp (fatal _ _ _) _ _ => apply wp_fatal; [done|]
  end; let l := fresh "l" in let H := fresh "Hc" in let E := fresh "Ef" in intros l H E.
Ltac run_step :=
  lazymatch goal with
  | |- wp (_ ≫= _) _ _ => apply wp_bind
  | |- wp (mret _) _ _ => apply wp_ret
  | |- wp (release _) _ _ => eapply wp_give; [vm_compute; reflexivity|]
  | |- wp (release_all _) _ _ => cbn [release_all]
  | |- wp (hold _) _ _ => apply wp_take
  | |- wp (set_ctx _) _ _ => apply wp_mod; cbn [lg held script cwd shared ctx]
  | |- wp call _ _ => apply wp_syscall; intros
  | |- wp (acquire _) _ _ => unfold acquire
  | |- wp (undo _ _ _) _ _ => unfold undo
  | |- wp (undo _ _) _ _ => unfold undo
  | |- wp (if negb true then _ else _) _ _ => cbv [negb]
  | |- wp (if negb false then _ else _) _ _ => cbv [negb]
  | |- wp (if true then _ else _) _ _ => cbv iota
  | |- wp (if false then _ else _) _ _ => cbv iota
  | |- wp (if _ then _ else _) _ _ => apply wp_if; intros
  | _ => say_step
  end.
(** A failing set-up: a call failed or a number was not positive. *)
Definition bad_numbers (c : server_config_t) : Prop := c.(max_clients) ≤ 0 ∨ c.(thread_num) ≤ 0.
Lemma pool_created n m ok : match ThreadPool.thread_pool_create n m ok [true; true; true] true (replicate (Z.to_nat n) true) with
  | Some _ => ok = true ∧ 0 < n ∧ 0 < m | None => ok = false ∨ n ≤ 0 ∨ m ≤ 0 end.
Proof.
  unfold ThreadPool.thread_pool_create. destruct (Z.leb_spec n 0); [by right; left|]. destruct (Z.leb_spec m 0); [by right; right|]. cbn [orb].
  destruct ok; [|by left]. cbn [negb forallb id andb]. assert (E : forallb id (take (Z.to_nat n) (replicate (Z.to_nat n) true)) = true).
  { rewrite take_ge by (by rewrite length_replicate). by induction (Z.to_nat n). }
  by rewrite E.
Qed.
Lemma wp_init c l s d sh cx (Q : Z → world → Prop) : calm l → c.(max_clients) < 2 ^ 30 →
  (∀ l' s', calm l' → l'.(log_fp) = l.(log_fp) → (Forall (λ b, b = true) s → Forall (λ b, b = true) s') →
     Q 0 (World l' [Epoll; Listen; Pool; Clients; Mutex] s' d sh (Some c))) →
  (∀ z l' s', z ≠ 0 → calm l' → l'.(log_fp) = l.(log_fp) → ¬ Forall (λ b, b = true) s ∨ bad_numbers c → Q z (World l' [] s' d sh cx)) →
  wp (server_init openable now strerror c) Q (World l [] s d sh cx).
Proof.
  intros Hc Hmax H0 H1. unfold server_init. repeat run_step.
  all: try (apply H1; [done|done|congruence|first [left; tauto|right; left; lia]]).
  all: try (exfalso; lia).
  all: lazymatch goal with |- wp match ThreadPool.thread_pool_create ?n ?m ?ok _ _ _ with _ => _ end _ _ => pose proof (pool_created n m ok) as Hp; destruct (ThreadPool.thread_pool_create n m ok _ _ _) end.
  all: repeat run_step.
  all: first [apply H0; [done|congruence|tauto]|apply H1; [done|done|congruence|first [left; tauto|right; unfold bad_numbers; intuition (done || lia)]]].
Qed.

Lemma wp_reload kvs l h s d sh cx Q : calm l → (∀ l', calm l' → l'.(log_fp) = l.(log_fp) → Q tt (World l' h s d sh cx)) → wp (reload_settings kvs) Q (World l h s d sh cx).
Proof.
  revert l. induction kvs as [|kv kvs IH]; intros l Hc HQ; cbn [reload_settings]; [by apply wp_ret, HQ|].
  apply wp_bind. unfold reload_setting. apply wp_if; [intros _|intros _; by apply wp_ret, IH].
  destruct (level_of kv.2) as [lv|]; [|by apply wp_ret, IH]. apply wp_level; [done|]. intros l' Hc' Hf. apply IH; [done|]. intros l2 H2 E2. apply HQ; [done|congruence].
Qed.
Lemma wp_turns c ts l h s d sh cx Q : calm l → (∀ l', calm l' → l'.(log_fp) = l.(log_fp) → Q tt (World l' h s d sh cx)) →
  wp (turns_loop openable now strerror c ts) Q (World l h s d sh cx).
Proof.
  revert l. induction ts as [|[r ok] ts IH]; intros l Hc HQ; cbn [turns_loop]; [by apply wp_ret, HQ|].
  assert (Hnext : ∀ l', calm l' → l'.(log_fp) = l.(log_fp) → wp ((if ok then mret tt else error openable now (str "epoll_wait failed: " ++ strerror));; turns_loop openable now strerror c ts) Q (World l' h s d sh cx)).
  { intros l1 H1 E1. apply wp_bind. destruct ok; [apply wp_ret|apply wp_error; [done|]; intros l2 H2 E2]; (apply IH; [done|]); intros l3 H3 E3; apply HQ; done || congruence. }
  apply wp_bind. destruct r as [f|]; cbn [t_reload t_wait_ok]; [|by apply wp_ret, Hnext]. unfold reload. apply wp_bind, wp_info; [done|]. intros l1 H1 E1.
  destruct f as [text|].
  - apply wp_bind, wp_reload; [done|]. intros l2 H2 E2. apply wp_info; [done|]. intros l3 H3 E3. apply Hnext; [done|congruence].
  - apply wp_warn; [done|]. intros l2 H2 E2. apply Hnext; [done|congruence].
Qed.
(** Why the program fails once it knows its configuration. *)
Definition blame (c : server_config_t) (s : list bool) : Prop :=
  ¬ Forall (λ b, b = true) s ∨ bad_numbers c ∨ mkdir_ok c.(log_dir) = false ∨ openable (log_name c.(log_dir) now) = false.
Definition finished (c : server_config_t) (s : list bool) (z : Z) (w : world) : Prop :=
  ended w.(lg) w.(held) ∧ (z = 0 ∧ w.(ctx) = Some c ∧ sessions_end = true ∨ z = 1 ∧ blame c s).
Lemma wp_last c s z h' l s' d sh cx : calm l → h' = [] → (z = 0 ∧ cx = Some c ∧ sessions_end = true ∨ z = 1 ∧ blame c s) →
  wp (on_log log_close;; mret z) (finished c s) (World l h' s' d sh cx).
Proof. intros Hc -> Hz. apply wp_bind, wp_close; [done|]. intros l' [Hm _] Hf. apply wp_ret. by split. Qed.
Lemma serve_finished c dm ts l s d sh cx : calm l → l.(log_fp) = None → c.(max_clients) < 2 ^ 30 →
  wpb (sessions_end = false) (serve openable mkdir_ok now strerror pid sessions_end c dm ts) (finished c s) (World l [] s d sh cx).
Proof.
  intros Hc Hf Hmax. unfold serve. apply wpb_bind, wp_open; [done|done| |].
  2:{ intros l' Hc' Hf' Hb. apply wp_wpb, wp_bind, wp_on_log, wp_mod, wp_ret. split; [split_and!; [done|done|by destruct Hc']|]. right. split; [done|]. right; right. tauto. }
  clear l Hc Hf. intros l Hc. cbn [negb Z.eqb].
  apply wpb_bind, wp_info; [done|]. intros l1 H1 _. apply wpb_bind, wp_info; [done|]. intros l2 H2 _. apply wpb_bind, wp_info; [done|]. intros l3 H3 _.
  apply wpb_bind, wp_info; [done|]. intros l4 H4 _. clear l l1 l2 l3 Hc H1 H2 H3. apply wpb_bind.
  assert (Hd : ∀ Q : bool → world → Prop,
    (∀ b l s' d', calm l → (b = true → Forall (λ b, b = true) s → Forall (λ b, b = true) s') → (b = false → ¬ Forall (λ b, b = true) s) → Q b (World l [] s' d' sh cx)) →
    wp (if dm then info openable now (str "Starting as daemon...");; ok ← call;
          (if (ok : bool) then chdir [];; info openable now (str "Daemon started, PID: " ++ dec pid)
           else fatal openable now (str "Failed to daemonize: " ++ strerror));; mret ok else mret true) Q (World l4 [] s d sh cx)).
  { intros Q HQ. destruct dm; [|by apply wp_ret, HQ]. apply wp_bind, wp_info; [done|]. intros l5 H5 _. apply wp_bind, wp_syscall.
    - intros s' Hs'. apply wp_bind, wp_bind, wp_mod. cbn [lg held script shared ctx]. apply wp_info; [done|]. intros l6 H6 _. by apply wp_ret, HQ.
    - intros s' Hs'. apply wp_bind, wp_fatal; [done|]. intros l6 H6 _. by apply wp_ret, HQ. }
  apply Hd. clear Hd. intros b l s' d' Hl Ht Hb. destruct b; cbn [negb].
  2:{ apply wp_wpb, wp_last; [done|done|]. right. split; [done|]. left. by apply Hb. }
  specialize (Ht eq_refl). apply wpb_bind, wp_get, wpb_bind. cbn [cwd shared].
  assert (Hm : ∀ Q : bool → world → Prop,
    (∀ b s2 sh', (b = true → Forall (λ b, b = true) s → Forall (λ b, b = true) s2) → (b = false → ¬ Forall (λ b, b = true) s) → Q b (World l [] s2 d' sh' cx)) →
    wp (if bool_decide (resolve d' c.(shared_dir) ∈ sh) then mret true
        else ok ← call; (if (ok : bool) then make_dir (resolve d' c.(shared_dir)) else mret tt);; mret ok) Q (World l [] s' d' sh cx)).
  { intros Q HQ. apply wp_if; [intros _; by apply wp_ret, HQ|intros _]. apply wp_bind, wp_syscall; intros s2 Hs2.
    - apply wp_bind, wp_mod, wp_ret. cbn [lg held script cwd shared ctx]. apply HQ; [by auto|done].
    - apply wp_bind, wp_ret, wp_ret, HQ; [done|]. intros _ H. by apply Hs2, Ht. }
  apply Hm. clear Hm. intros b s2 sh' H2t H2f. destruct b; cbn [negb].
  2:{ apply wpb_bind, wp_fatal; [done|]. intros l5 H5 _. apply wp_wpb, wp_last; [done|done|]. right. split; [done|]. left. by apply H2f. }
  specialize (H2t eq_refl). apply wpb_bind, wp_init; [done|done| |].
  - intros l5 s3 H5 _ _. cbn [negb Z.eqb]. apply wpb_bind, wp_info; [done|]. intros l6 H6 _. apply wpb_bind. unfold server_start. apply wp_bind, wp_info; [done|]. intros l7 H7 _.
    apply wp_bind, wp_turns; [done|]. intros l8 H8 _. apply wp_ret, wpb_bind_wait. unfold server_stop. cbn [release_all]. apply wpb_bind.
    do 2 (apply wp_bind; eapply wp_give; [vm_compute; reflexivity|]). apply wp_ret, wpb_bind_wait. unfold join_workers.
    destruct sessions_end eqn:Es; [|by apply wpb_blocked]. apply wp_wpb, wp_ret, wpb_bind.
    do 3 (apply wp_bind; eapply wp_give; [vm_compute; reflexivity|]). apply wp_ret, wp_wpb, wp_info; [done|]. intros l9 H9 _.
    apply wpb_bind, wp_info; [done|]. intros l10 H10 _. apply wp_wpb, wp_last; [done|done|by left].
  - intros z l5 s3 Hz H5 _ Hwhy. rewrite (proj2 (Z.eqb_neq z 0)) by done. cbn [negb]. apply wpb_bind, wp_fatal; [done|]. intros l6 H6 _. apply wp_wpb, wp_last; [done|done|].
    right. split; [done|]. unfold blame. tauto.
Qed.

(** The configuration: the file between the defaults and the options. *)
Definition file_config (args : list (list byte)) : server_config_t :=
  let c := find_config args default_config in
  match read_file c.(config_file) with Some text => apply_settings (settings text) c | None => c end.
Definition effective (args : list (list byte)) : (server_config_t * bool) + Z :=
  options (Getopt.getopt_long option_table args).1 (file_config args) false.

(** C29. Whatever the command line and the configuration file say (with fewer than 2^30
    clients) and whichever calls fail, the program returns or waits for ever for a worker
    whose session does not end.  When it returns it holds nothing, the log is closed, and it
    has served with the configuration in effect, the sessions ended, or ends with 1 because
    a call failed, a number was not positive or the log cannot be written. *)
Theorem main_releases prog args ts w : calm w.(lg) → w.(lg).(log_fp) = None → w.(held) = [] →
  (∀ c d, effective args = inl (c, d) → c.(max_clients) < 2 ^ 30) →
  let run := main openable mkdir_ok now strerror pid read_file sessions_end prog args ts w in
  (∃ z w', run = Ret (z, w') ∧ ended w'.(lg) w'.(held) ∧
   match effective args with
   | inl (c, _) => z = 0 ∧ w'.(ctx) = Some c ∧ sessions_end = true ∨ z = 1 ∧ blame c w.(script)
   | inr status => z = status
   end) ∨
  run = Blocked ∧ sessions_end = false.
Proof.
  intros Hc Hf Hh Hmax. destruct w as [l h s d sh cx]. cbn [lg held script] in *. subst h. apply wpb_outcome. unfold main, effective, file_config in *.
  set (c0 := find_config args default_config) in *.
  assert (Hgo : ∀ (c : server_config_t) (z : Z) l, calm l → l.(log_fp) = None →
    (∀ c' dm, options (Getopt.getopt_long option_table args).1 c false = inl (c', dm) → c'.(max_clients) < 2 ^ 30) →
    wpb (sessions_end = false) (match options (Getopt.getopt_long option_table args).1 (z, c).2 false with
        | inr status => on_log (c_mod (print_out (usage_text prog)));; mret status
        | inl (c, dm) => serve openable mkdir_ok now strerror pid sessions_end c dm ts
        end) (λ z w', ended w'.(lg) w'.(held) ∧ match options (Getopt.getopt_long option_table args).1 c false with
          | inl (c, _) => z = 0 ∧ w'.(ctx) = Some c ∧ sessions_end = true ∨ z = 1 ∧ blame c s | inr status => z = status end) (World l [] s d sh cx)).
  { clear l Hc Hf Hmax. intros c z l Hc Hf Hmax. cbn [snd]. destruct (options _ c false) as [[c' dm]|status].
    - by apply serve_finished; [| |eapply Hmax].
    - apply wp_wpb, wp_bind, wp_on_log, wp_mod, wp_ret. split; [|done]. split_and!; [done|done|by destruct Hc]. }
  apply wpb_bind. unfold parse_config_file. destruct (read_file (config_file c0)) as [text|].
  - by apply wp_ret, Hgo.
  - apply wp_bind, wp_warn; [done|]. intros l' Hc' Hf'. apply wp_ret, Hgo; [done|congruence|done].
Qed.
End program.

(** ** The configuration *)

(** Lines of a configuration file: a comment or an empty line, or a setting with blanks
    before the key and before the value.  Neither ends in a blank: such a blank is meant to
    be stripped and is not. *)
Inductive item := Note (c : list byte) | Setting (n : nat) (k : list byte) (m : nat) (v : list byte).
Definition render (i : item) : list byte :=
  match i with
  | Note c => c ++ [x0a]
  | Setting n k m v => (replicate n x20 ++ k ++ [x3d] ++ replicate m x20 ++ v) ++ [x0a]
  end.
Definition config_text (its : list item) : list byte := mjoin (render <$> its).







Definition wit_items : list item :=
  [Note (str "# port"); Setting 1 (str "port") 2 (str "9000"); Note []; Setting 0 (str "log_level") 0 (str "warn"); Setting 0 (str "threads") 0 (str "8")].
Definition wit_read (p : list byte) : option (list byte) := if decide (p = str "a.conf") then Some (config_text wit_items) else None.

Definition wit_world : world := World (start ∅ ∅) [] [true; true; true; true; true; true; true; false] (str "/srv") ∅ None.
Lemma main_releases_witness : ∃ w, main (λ _, true) (λ _, true) (str "now") (str "Address already in use") 7 wit_read true (str "server") [str "-p"; str "80"] [] wit_world = Ret (1, w) ∧
  ended w.(lg) w.(held).
Proof.
  destruct (main_releases (λ _, true) (λ _, true) (str "now") (str "Address already in use") 7 wit_read true (str "server") [str "-p"; str "80"] [] wit_world)
    as [(z & w & E & H & _)|[_ [=]]]; [by split|done|done| |].
  - assert (Ee : effective wit_read [str "-p"; str "80"] = inl (set_port 80 default_config, false)) by (vm_compute; reflexivity).
    intros c d H. rewrite Ee in H. by injection H as <- <-.
  - assert (Hz : match main (λ _, true) (λ _, true) (str "now") (str "Address already in use") 7 wit_read true (str "server") [str "-p"; str "80"] [] wit_world with Ret (z, _) => z = 1 | _ => False end)
      by (vm_compute; reflexivity).
    rewrite E in Hz. subst z. exists w. split; [exact E|exact H].
Defined.

(** A configuration file that is given in the same word as its option is not read; nor is
    a key that has a blank before the equals sign. *)
Lemma config_joined_ignored : (find_config [str "--config=a.conf"] default_config).(config_file) = str "./config/server.conf" ∧
  (find_config [str "-ca.conf"] default_config).(config_file) = str "./config/server.conf".
Proof. by split. Qed.
Lemma trailing_blank_ignored : (apply_settings (settings (str "port = 9000")) default_config).(port) = 8888.
Proof. by vm_compute. Qed.
(** As a daemon the program makes its shared directory below the root. *)
Lemma daemon_shared_dir : match serve (λ _, true) (λ _, true) (str "now") (str "") 7 true default_config true [] (World (start ∅ ∅) [] [] (str "/srv") ∅ None) with
  | Ret (z, w) => (z, elements w.(shared)) = (0, [str "/./shared"]) | _ => False end.
Proof. vm_compute. reflexivity. Qed.
End ServerMainSpec.
