(* ===== verification/FileClient.v ===== *)
(** * linux-file-server: the client (linux-file-server/src/client.c)

    The client runs on a [host]: its socket and local files are those of a
    [FileServer.world], with what it prints.  The context pointer is not NULL; the
    results of socket, inet_pton, connect and malloc are arguments; the log is not
    modelled. *)

From S2P Require Import Prelude Net FileServer.
Import Net Protocol FileServer.

Module FileClient.
#[local] Arguments Z.to_nat : simpl never.

Definition ERR_SOCKET : Z := -1.
Definition ERR_CONNECT : Z := -5.
Definition ERR_MEMORY : Z := -12.

(** ** Data *)

Record client_context_t := Ctx {
  sock_fd : Z;
  server_ip : list byte;          (* all 64 bytes *)
  server_port : Z;
  connected : bool
}.
Record client := ClientState { ctx : client_context_t; host : world; stdout : list byte }.

Definition set_ctx (c : client_context_t) (s : client) : client := ClientState c s.(host) s.(stdout).
Definition set_host (w : world) (s : client) : client := ClientState s.(ctx) w s.(stdout).
Definition printf (m : list byte) : C client unit := c_mod (λ s,
  ClientState s.(ctx) s.(host) (s.(stdout) ++ m)).
(** A call on the socket or the local files. *)
Definition on_host {A} (m : C world A) : C client A := λ s,
  match m s.(host) with
  | Ret (a, w) => Ret (a, set_host w s)
  | UB => UB | Blocked => Blocked | Fuel => Fuel
  end.
Definition on_sock {A} (m : C sock A) : C client A := on_host (on_net m).

(** ** Connecting *)

Definition client_init (ip : option (list byte)) (port : Z) : C client Z :=
  match ip with
  | None => mret ERR_MEMORY
  | Some ip => c_mod (set_ctx (Ctx (-1) (strncpy_zeroed 64 63 ip) port false));; mret SUCCESS
  end.

Definition client_connect (fd : Z) (pton_ok connect_ok : bool) : C client Z :=
  s ← c_get;
  let c := s.(ctx) in
  if fd <? 0 then c_mod (set_ctx (Ctx fd c.(server_ip) c.(server_port) c.(connected)));; mret ERR_SOCKET
  else if negb pton_ok || negb connect_ok then
    c_mod (set_ctx (Ctx (-1) c.(server_ip) c.(server_port) c.(connected)));; mret ERR_CONNECT
  else c_mod (set_ctx (Ctx fd c.(server_ip) c.(server_port) true));; mret SUCCESS.

(** A header as every command builds it: zeroed, then filled. *)
Definition make_header (cmd len off : Z) (name : list byte) : protocol_header_t :=
  Header PROTOCOL_MAGIC cmd len 0 off (strncpy_zeroed 256 255 name).
Definition send_header (h : protocol_header_t) : C client Z := on_sock (send (header_bytes h)).
(** The response, or [None] when it did not arrive. *)
Definition recv_response : C client (option response_header_t) :=
  r ← on_sock (recv_all sizeof_response);
  mret (if r.1 <? 0 then None else Some (bytes_response r.2)).

Definition client_disconnect : C client unit :=
  s ← c_get;
  if s.(ctx).(connected) then
    send_header (make_header CMD_QUIT 0 0 []);;
    on_sock close;;
    c_mod (λ s, set_ctx (Ctx (-1) s.(ctx).(server_ip) s.(ctx).(server_port) false) s)
  else mret tt.

(** ** Commands answered by a response alone *)

(** Send a header and print the message of the response after [label]. *)
Definition simple_command (h : protocol_header_t) (label : list byte) : C client Z :=
  s ← c_get;
  if negb s.(ctx).(connected) then mret ERR_CONNECT else
  n ← send_header h;
  if n <? 0 then mret ERR_SEND else
  resp ← recv_response;
  match resp with
  | None => mret ERR_RECV
  | Some r => m ← c_lift (field_string r.(message)); printf (label ++ str ": " ++ m ++ [x0a]);; mret SUCCESS
  end.
Definition client_delete_file (name : option (list byte)) : C client Z :=
  match name with
  | None => mret ERR_CONNECT
  | Some n => simple_command (make_header CMD_DELETE 0 0 n) (str "Delete " ++ n)
  end.
Definition client_mkdir (name : option (list byte)) : C client Z :=
  match name with
  | None => mret ERR_CONNECT
  | Some n => simple_command (make_header CMD_MKDIR 0 0 n) (str "Mkdir " ++ n)
  end.
Definition client_rmdir (name : option (list byte)) : C client Z :=
  match name with
  | None => mret ERR_CONNECT
  | Some n => simple_command (make_header CMD_RMDIR 0 0 n) (str "Rmdir " ++ n)
  end.
Definition client_pwd : C client Z :=
  simple_command (make_header CMD_PWD 0 0 []) (str "Remote directory").

(** ** LIST *)

(** [malloc(data_len + 1)] has the sum modulo 2^32: with the largest length the
    buffer is empty and any byte stored is outside it. *)
Definition client_list_files (malloc_ok : bool) : C client Z :=
  s ← c_get;
  if negb s.(ctx).(connected) then mret ERR_CONNECT else
  n ← send_header (make_header CMD_LIST 0 0 []);
  if n <? 0 then mret ERR_SEND else
  resp ← recv_response;
  match resp with
  | None => mret ERR_RECV
  | Some r =>
      if negb (r.(status) =? STATUS_OK) then
        m ← c_lift (field_string r.(message)); printf (str "Error: " ++ m ++ [x0a]);; mret ERR_PROTOCOL
      else if (0 <? r.(rdata_len)) && malloc_ok then
        got ← on_sock (recv_all (Z.to_nat r.(rdata_len)));
        if (u32 (r.(rdata_len) + 1) =? 0) && negb (bool_decide (got.2 = [])) then c_ub else
        (if got.1 =? 0 then
           printf ([x0a] ++ str "=== Server Files ===" ++ [x0a] ++ cstr got.2)
         else mret tt);;
        mret SUCCESS
      else mret SUCCESS
  end.

(** ** Transfers *)

Section transfer.
Context (dir_size : Z).   (* st_size of a directory *)

(** [open(path, O_RDONLY)] and fstat: the size reported and the bytes read. *)
Definition open_read (path : list byte) (w : world) : option (Z * list byte) :=
  if bool_decide (path ∈ w.(denied)) then None else
  match w.(files) !! path with
  | Some c => Some (strlen c, c)
  | None => if bool_decide (path ∈ w.(fdirs)) then Some (dir_size, []) else None
  end.
(** [open(path, O_WRONLY | O_CREAT)], with O_TRUNC when [trunc]. *)
Definition open_write (path : list byte) (trunc : bool) : C client bool :=
  s ← c_get;
  let w := s.(host) in
  if bool_decide (path ∈ w.(denied)) || bool_decide (path ∈ w.(fdirs)) then mret false else
  on_host (c_mod (set_files (<[path := if trunc then [] else default [] (w.(files) !! path)]> w.(files))));;
  mret true.

(** The name after the last slash. *)
Fixpoint after_slash (best path : list byte) : list byte :=
  match path with
  | [] => best
  | c :: p => if bool_decide (c = x2f) then after_slash p p else after_slash best p
  end.
Definition basename (path : list byte) : list byte := after_slash path path.

(** Sending the content in pieces of 4096 bytes; [false] when a send failed. *)
Fixpoint send_file (fuel : nat) (content : list byte) : C client bool :=
  match content with
  | [] => mret true
  | _ =>
    match fuel with
    | O => c_fuel
    | S fuel' =>
        r ← on_sock (send_all (take (Z.to_nat 4096) content));
        if r <? 0 then mret false else send_file fuel' (drop (Z.to_nat 4096) content)
    end
  end.

(** Saving [remaining] bytes at [pos]; an error only ends the loop. *)
Fixpoint save_loop (fuel : nat) (path : list byte) (pos : nat) (remaining : Z) : C client unit :=
  if remaining <=? 0 then mret tt else
  match fuel with
  | O => c_fuel
  | S fuel' =>
      r ← on_sock (recv (if remaining <? 4096 then remaining else 4096));
      if r.1 <=? 0 then mret tt else
      ok ← on_host write_ok;
      if negb ok then mret tt else
      on_host (c_mod (λ w, set_files (<[path := write_at (default [] (w.(files) !! path)) pos r.2]>
                                       w.(files)) w));;
      save_loop fuel' path (pos + length r.2) (remaining - r.1)
  end.
(** Reading and dropping [remaining] bytes. *)
Fixpoint skip_loop (fuel : nat) (remaining : Z) : C client unit :=
  if remaining <=? 0 then mret tt else
  match fuel with
  | O => c_fuel
  | S fuel' =>
      r ← on_sock (recv (if remaining <? 4096 then remaining else 4096));
      if r.1 <=? 0 then mret tt else skip_loop fuel' (remaining - r.1)
  end.

(** The part of the uploads behind the header: content, response, report. *)
Definition send_and_report (content : list byte) (report : list byte → list byte) : C client Z :=
  ok ← send_file (length content) content;
  if negb ok then mret ERR_SEND else
  resp ← recv_response;
  match resp with
  | None => mret ERR_RECV
  | Some r => m ← c_lift (field_string r.(message)); printf (report m);; mret SUCCESS
  end.

Definition client_upload_file (local_path remote_name : option (list byte)) : C client Z :=
  s ← c_get;
  match local_path with
  | Some local =>
    if negb s.(ctx).(connected) then mret ERR_CONNECT else
    match open_read local s.(host) with
    | None => printf (str "Error: Cannot open local file: " ++ local ++ [x0a]);; mret ERR_FILE_OPEN
    | Some (size, content) =>
        let name := default (basename local) remote_name in
        n ← send_header (make_header CMD_UPLOAD (u32 size) 0 name);
        if n <? 0 then mret ERR_SEND else
        send_and_report content (λ m, str "Upload " ++ name ++ str ": " ++ m ++ [x0a])
    end
  | None => mret ERR_CONNECT
  end.

Definition client_download_file (remote_name local_path : option (list byte)) : C client Z :=
  s ← c_get;
  match remote_name with
  | Some remote =>
    if negb s.(ctx).(connected) then mret ERR_CONNECT else
    let path := default remote local_path in
    n ← send_header (make_header CMD_DOWNLOAD 0 0 remote);
    if n <? 0 then mret ERR_SEND else
    resp ← recv_response;
    match resp with
    | None => mret ERR_RECV
    | Some r =>
        if negb (r.(status) =? STATUS_OK) then
          m ← c_lift (field_string r.(message)); printf (str "Error: " ++ m ++ [x0a]);; mret ERR_PROTOCOL
        else
          ok ← open_write path true;
          if negb ok then
            printf (str "Error: Cannot create local file: " ++ path ++ [x0a]);; mret ERR_FILE_OPEN
          else
            save_loop (Z.to_nat r.(rdata_len)) path 0 r.(rdata_len);;
            printf (str "Download " ++ remote ++ str ": " ++ dec r.(rdata_len) ++ str " bytes saved to " ++
                    path ++ [x0a]);;
            mret SUCCESS
    end
  | None => mret ERR_CONNECT
  end.

(** The size [stat] reports, if it succeeds. *)
Definition stat_size (path : list byte) (w : world) : option Z :=
  match w.(files) !! path with
  | Some c => Some (strlen c)
  | None => if bool_decide (path ∈ w.(fdirs)) then Some dir_size else None
  end.

Definition client_download_resume (remote_name local_path : option (list byte)) : C client Z :=
  s ← c_get;
  match remote_name with
  | Some remote =>
    if negb s.(ctx).(connected) then mret ERR_CONNECT else
    let path := default remote local_path in
    let local_size := default 0 (stat_size path s.(host)) in
    printf (match stat_size path s.(host) with
            | Some n => str "Local file exists: " ++ path ++ str " (" ++ dec n ++
                        str " bytes), requesting resume..." ++ [x0a]
            | None => str "No local file, starting full download..." ++ [x0a]
            end);;
    n ← send_header (make_header CMD_DOWNLOAD 0 local_size remote);
    if n <? 0 then mret ERR_SEND else
    resp ← recv_response;
    match resp with
    | None => mret ERR_RECV
    | Some r =>
        if negb (r.(status) =? STATUS_OK) && negb (r.(status) =? STATUS_PARTIAL) then
          m ← c_lift (field_string r.(message)); printf (str "Error: " ++ m ++ [x0a]);; mret ERR_PROTOCOL
        else
          let resume := (r.(status) =? STATUS_PARTIAL) && (0 <? local_size) in
          ok ← open_write path (negb resume);
          if negb ok then
            printf (str (if resume then "Error: Cannot open local file for resume: "
                         else "Error: Cannot create local file: ") ++ path ++ [x0a]);;
            mret ERR_FILE_OPEN
          else
            save_loop (Z.to_nat r.(rdata_len)) path (if resume then seek_pos local_size else 0%nat)
              r.(rdata_len);;
            printf (if r.(status) =? STATUS_PARTIAL then
                      str "Resume download " ++ remote ++ str ": +" ++ dec r.(rdata_len) ++
                      str " bytes (total " ++ dec (u64 (local_size + r.(rdata_len))) ++ str " bytes)" ++ [x0a]
                    else
                      str "Download " ++ remote ++ str ": " ++ dec r.(rdata_len) ++
                      str " bytes saved to " ++ path ++ [x0a]);;
            mret SUCCESS
    end
  | None => mret ERR_CONNECT
  end.

Definition client_upload_resume (local_path remote_name : option (list byte)) : C client Z :=
  s ← c_get;
  match local_path with
  | Some local =>
    if negb s.(ctx).(connected) then mret ERR_CONNECT else
    match open_read local s.(host) with
    | None => printf (str "Error: Cannot open local file: " ++ local ++ [x0a]);; mret ERR_FILE_OPEN
    | Some (size, content) =>
        let name := default (basename local) remote_name in
        n ← send_header (make_header CMD_DOWNLOAD 0 0 name);
        if n <? 0 then mret ERR_SEND else
        dl ← recv_response;
        match dl with
        | None => mret ERR_RECV
        | Some d =>
            let on_server := (d.(status) =? STATUS_OK) && (0 <? d.(rdata_len)) in
            (if on_server then skip_loop (Z.to_nat d.(rdata_len)) d.(rdata_len) else mret tt);;
            if on_server && negb (d.(rdata_len) <? u32 size) then
              printf (str "Server file is same size or larger, skipping upload" ++ [x0a]);; mret SUCCESS
            else
              let resume_offset := if on_server then d.(rdata_len) else 0 in
              (if on_server then
                 printf (str "Server file: " ++ dec d.(rdata_len) ++ str " bytes, local file: " ++ dec size ++
                         str " bytes, resuming from offset " ++ dec resume_offset ++ [x0a])
               else mret tt);;
              let send_size := u64 (size - resume_offset) in
              n ← send_header (make_header CMD_UPLOAD (u32 send_size) resume_offset name);
              if n <? 0 then mret ERR_SEND else
              send_and_report (drop (Z.to_nat resume_offset) content)
                (λ m, if 0 <? resume_offset then
                        str "Resume upload " ++ name ++ str ": +" ++ dec send_size ++ str " bytes (total " ++
                        dec size ++ str " bytes): " ++ m ++ [x0a]
                      else str "Upload " ++ name ++ str ": " ++ m ++ [x0a])
        end
    end
  | None => mret ERR_CONNECT
  end.

(** ** The interactive loop *)

Definition print_help : C client unit :=
  printf ([x0a] ++ str "=== Commands ===" ++ [x0a] ++
    str "  list              - List server files" ++ [x0a] ++
    str "  upload <file>     - Upload file to server" ++ [x0a] ++
    str "  download <file>   - Download file from server" ++ [x0a] ++
    str "  resume <file>     - Resume download (断点续传)" ++ [x0a] ++
    str "  resume-upload <f> - Resume upload (断点续传上传)" ++ [x0a] ++
    str "  delete <file>     - Delete file on server" ++ [x0a] ++
    str "  mkdir <dir>       - Create directory on server" ++ [x0a] ++
    str "  rmdir <dir>       - Remove directory on server" ++ [x0a] ++
    str "  pwd               - Show remote working directory" ++ [x0a] ++
    str "  help              - Show this help" ++ [x0a] ++
    str "  quit              - Exit" ++ [x0a] ++
    str "==================" ++ [x0a; x0a]).

(** [sscanf(line, "%63s %255s", cmd, arg)]; what is not found stays empty. *)
Definition split_line (line : list byte) : list byte * list byte :=
  match scan_word 63 line with
  | None => ([], [])
  | Some (c, r) => (c, match scan_word 255 r with Some (a, _) => a | None => [] end)
  end.

(** A command that needs an argument, or its usage line. *)
Definition with_arg (arg usage : list byte) (k : option (list byte) → C client Z) : C client unit :=
  match arg with
  | [] => printf (str "Usage: " ++ usage ++ [x0a])
  | _ => k (Some arg);; mret tt
  end.

(** One line of input; [true] ends the loop. *)
Definition client_line (malloc_ok : bool) (line : list byte) : C client bool :=
  let '(cmd, arg) := split_line line in
  if bool_decide (cmd = str "list") then client_list_files malloc_ok;; mret false
  else if bool_decide (cmd = str "upload") then
    with_arg arg (str "upload <local_file>") (λ a, client_upload_file a None);; mret false
  else if bool_decide (cmd = str "download") then
    with_arg arg (str "download <remote_file>") (λ a, client_download_file a None);; mret false
  else if bool_decide (cmd = str "resume") then
    with_arg arg (str "resume <remote_file>") (λ a, client_download_resume a None);; mret false
  else if bool_decide (cmd = str "resume-upload") then
    with_arg arg (str "resume-upload <local_file>") (λ a, client_upload_resume a None);; mret false
  else if bool_decide (cmd = str "delete") then
    with_arg arg (str "delete <remote_file>") client_delete_file;; mret false
  else if bool_decide (cmd = str "mkdir") then
    with_arg arg (str "mkdir <directory>") client_mkdir;; mret false
  else if bool_decide (cmd = str "rmdir") then
    with_arg arg (str "rmdir <directory>") client_rmdir;; mret false
  else if bool_decide (cmd = str "pwd") then client_pwd;; mret false
  else if bool_decide (cmd = str "help") then print_help;; mret false
  else if bool_decide (cmd = str "quit") || bool_decide (cmd = str "exit") then mret true
  else if bool_decide (cmd = []) then mret false
  else printf (str "Unknown command: " ++ cmd ++ [x0a]);; mret false.

(** The loop on standard input; every turn reads at least one byte. *)
Fixpoint input_loop (fuel : nat) (malloc_ok : bool) (stdin : list byte) : C client unit :=
  printf (str "ftp> ");;
  match stdin with
  | [] => mret tt
  | _ =>
    match fuel with
    | O => c_fuel
    | S fuel' =>
        let '(raw, rest) := fgets_line (Z.to_nat 511) stdin in
        let line := (span_n (Z.to_nat 512) (λ c, negb (bool_decide (c = x0a))) (cstr raw)).1 in
        stop ← client_line malloc_ok line;
        if (stop : bool) then mret tt else input_loop fuel' malloc_ok rest
    end
  end.
Definition client_interactive (malloc_ok : bool) (stdin : list byte) : C client unit :=
  print_help;; input_loop (length stdin) malloc_ok stdin.

End transfer.
End FileClient.
