(* ===== verification/FileClientSpec.v ===== *)
(** * linux-file-server: conversations of the client with the server

    Every theorem runs both programs: what one has sent is what the other has
    pending, cut into pieces at will. *)

From S2P Require Import Prelude Net FileServer FileServerSpec FileClient.
Import Net Protocol FileServer FileServerSpec FileClient.

Module FileClientSpec.
#[local] Arguments Z.to_nat : simpl never.

(** ** The client's side *)

(** The client with another socket state, and after sending. *)
Definition with_sock (s : sock) (c : client) : client := set_host (set_net s c.(host)) c.
Definition csay (bs : list byte) (c : client) : client := set_host (put bs c.(host)) c.
Definition cprint (m : list byte) (c : client) : client := ClientState c.(ctx) c.(host) (c.(stdout) ++ m).
Definition csock (c : client) : sock := c.(host).(net).

Lemma on_sock_run {A} (m : C sock A) c a s : m (csock c) = Ret (a, s) → on_sock m c = Ret (a, with_sock s c).
Proof. intros H. unfold on_sock, on_host. by rewrite (on_net_run m (host c) a s H). Qed.

Lemma send_header_open h c : (csock c).(sends) = [] →
  send_header h c = Ret (strlen (header_bytes h), csay (header_bytes h) c).
Proof. intros H. unfold send_header, on_sock, on_host. by rewrite net_send_open. Qed.

Lemma csay_nil c : (csock c).(sends) = [] → csay [] c = c.
Proof. intros H. unfold csay, set_host. rewrite put_nil by done. by destruct c. Qed.
Lemma csay_csay a b c : csay b (csay a c) = csay (a ++ b) c.
Proof. unfold csay, set_host. simpl. by rewrite put_put. Qed.

Lemma send_file_cons fuel b c : send_file (S fuel) (b :: c) =
  (r ← on_sock (send_all (take (Z.to_nat 4096) (b :: c)));
   if r <? 0 then mret false else send_file fuel (drop (Z.to_nat 4096) (b :: c))).
Proof. reflexivity. Qed.
Lemma send_file_nil fuel : send_file fuel [] = mret true.
Proof. by destruct fuel. Qed.
Lemma send_file_open fuel : ∀ d c, (csock c).(sends) = [] → (length d ≤ fuel)%nat →
  send_file fuel d c = Ret (true, csay d c).
Proof.
  induction fuel as [|fuel IH]; intros [|b d] c Hs Hf; cbn [length] in Hf;
    [by rewrite send_file_nil, csay_nil|lia|by rewrite send_file_nil, csay_nil|].
  rewrite send_file_cons.
  assert (Hsend : on_sock (send_all (take (Z.to_nat 4096) (b :: d))) c =
    Ret (0, csay (take (Z.to_nat 4096) (b :: d)) c)).
  { unfold on_sock, on_host. by rewrite net_send_all_open. }
  c_step Hsend. rewrite (proj2 (Z.ltb_ge _ _)) by lia.
  rewrite IH; [|done|rewrite length_drop; cbn [length]; lia]. by rewrite csay_csay, take_drop.
Qed.

(** A response as both sides see it. *)
Definition resp (st len : Z) (m : list byte) : response_header_t :=
  Response (u32 st) (u32 len) (strncpy_zeroed 256 255 m).
Lemma resp_ok st len m : wire_ok (resp st len m).
Proof. split; simpl; [apply u32_range|apply u32_range|apply length_strncpy_zeroed; lia]. Qed.
Lemma reply_resp st m : reply st m = encode (resp st 0 m).
Proof. done. Qed.

Lemma recv_response_pending r rest c : wire_ok r → pending (csock c).(inbox) = encode r ++ rest →
  ∃ s, recv_response c = Ret (Some r, with_sock s c) ∧ pending s.(inbox) = rest ∧
    s.(sent) = (csock c).(sent) ∧ s.(sends) = (csock c).(sends).
Proof.
  intros Hr Hp. destruct (recv_wire r rest (csock c) Hr Hp) as (s & E & Hrest & Hsent & Hsd).
  exists s. split; [|done]. unfold recv_response. change wire_size with sizeof_response in E.
  erewrite bind_Ret by (by apply on_sock_run). cbn [fst snd].
  by rewrite (decode_encode r Hr : bytes_response (encode r) = r).
Qed.

Lemma field_string_copied m : nonul m → strlen m ≤ 255 → field_string (strncpy_zeroed 256 255 m) = Ret m.
Proof.
  intros Hm Hl. unfold field_string. unfold strlen in Hl.
  rewrite cstr_strncpy_zeroed, take_ge by (done || lia).
  rewrite bool_decide_eq_true_2; [done|]. unfold strncpy_zeroed. apply elem_of_app. right.
  apply elem_of_replicate. split; [done|]. rewrite length_take. lia.
Qed.

(** Saving what arrives, however it is cut. *)
Lemma save_loop_run fuel path : ∀ pos rem c d, c.(host).(writes) = [] →
  c.(host).(files) !! path = Some d → (pos ≤ length d)%nat → 0 ≤ rem ≤ Z.of_nat fuel →
  rem ≤ strlen (pending (csock c).(inbox)) →
  ∃ s, save_loop fuel path pos rem c =
      Ret (tt, set_host (set_net s (set_files (<[path :=
        write_at d pos (take (Z.to_nat rem) (pending (csock c).(inbox)))]> c.(host).(files)) c.(host))) c) ∧
    pending s.(inbox) = drop (Z.to_nat rem) (pending (csock c).(inbox)) ∧
    s.(sent) = (csock c).(sent) ∧ s.(sends) = (csock c).(sends).
Proof.
  unfold csock.
  induction fuel as [|fuel IH]; intros pos rem c d Hw Hf Hpos Hrem Hpend.
  all: assert (Hzero : rem = 0 → ∃ s, Ret (tt, c) = Ret (tt, set_host (set_net s (set_files (<[path :=
        write_at d pos (take (Z.to_nat rem) (pending c.(host).(net).(inbox)))]> c.(host).(files)) c.(host))) c) ∧
      pending s.(inbox) = drop (Z.to_nat rem) (pending c.(host).(net).(inbox)) ∧
      s.(sent) = c.(host).(net).(sent) ∧ s.(sends) = c.(host).(net).(sends)).
  1, 3: intros ->; exists (net (host c)); rewrite take_0, write_at_in by done; simpl;
      rewrite Nat.add_0_r, take_drop, insert_id by done; rewrite drop_0; by destruct c as [? [] ?].
  { cbn [save_loop]. rewrite (proj2 (Z.leb_le _ _)) by lia. apply Hzero. lia. }
  cbn [save_loop]. destruct (Z.leb_spec rem 0) as [Hz|Hz]; [apply Hzero; lia|].
  destruct (recv_pending (if rem <? 4096 then rem else 4096) (net (host c))) as
    (bs & s & Hr & Hne & Hlen & Hpd & Hsent & Hsds & _).
  { case_match; lia. } { intros E. rewrite E in Hpend. unfold strlen in Hpend. simpl in Hpend. lia. }
  erewrite bind_Ret by (apply on_sock_run; exact Hr). cbn [fst snd].
  assert (0 < strlen bs) by (unfold strlen; destruct bs; simpl; [done|lia]).
  assert (strlen bs ≤ rem) by (destruct (Z.ltb_spec rem 4096); lia).
  rewrite (proj2 (Z.leb_gt _ _)) by lia.
  erewrite bind_Ret by (unfold on_host, write_ok; simpl; by rewrite Hw). cbn [negb].
  erewrite bind_Ret by reflexivity. cbv beta.
  cbn [files set_net set_host host with_sock]. rewrite Hf. cbn [from_option id].
  unfold strlen in *.
  edestruct (IH (pos + length bs)%nat (rem - Z.of_nat (length bs))
    (set_host (set_files (<[path := write_at d pos bs]> (files (host c))) (set_net s (host c))) c)
    (write_at d pos bs)) as (s' & E & Hp' & Hs' & Hsd').
  { done. } { simpl. by rewrite lookup_insert_eq. } { by apply length_write_at. } { lia. }
  { simpl. rewrite Hpd, length_app in Hpend. lia. }
  exists s'. assert (Hto : Z.to_nat rem = (length bs + Z.to_nat (rem - Z.of_nat (length bs)))%nat) by lia.
  split.
  - etransitivity; [exact E|]. unfold set_host, set_net, set_files. simpl. do 4 f_equal. rewrite insert_insert_eq. f_equal.
    rewrite write_at_app by done. f_equal. by rewrite Hpd, Hto, take_app_add.
  - simpl in Hp'. split_and!; [|by rewrite Hs'|by rewrite Hsd'].
    by rewrite Hp', Hpd, Hto, drop_app_add.
Qed.

Lemma skip_loop_run fuel : ∀ rem c, 0 ≤ rem ≤ Z.of_nat fuel → rem ≤ strlen (pending (csock c).(inbox)) →
  ∃ s, skip_loop fuel rem c = Ret (tt, with_sock s c) ∧
    pending s.(inbox) = drop (Z.to_nat rem) (pending (csock c).(inbox)) ∧
    s.(sent) = (csock c).(sent) ∧ s.(sends) = (csock c).(sends).
Proof.
  unfold csock. induction fuel as [|fuel IH]; intros rem c Hrem Hpend.
  { exists (net (host c)). cbn [skip_loop]. rewrite (proj2 (Z.leb_le _ _)) by lia.
    assert (rem = 0) as -> by lia. rewrite drop_0. split; [by destruct c as [? [] ?]|done]. }
  cbn [skip_loop]. destruct (Z.leb_spec rem 0) as [Hz|Hz].
  { exists (net (host c)). assert (rem = 0) as -> by lia. rewrite drop_0.
    split; [by destruct c as [? [] ?]|done]. }
  destruct (recv_pending (if rem <? 4096 then rem else 4096) (net (host c))) as
    (bs & s & Hr & Hne & Hlen & Hpd & Hsent & Hsds & _).
  { case_match; lia. } { intros E. rewrite E in Hpend. unfold strlen in Hpend. simpl in Hpend. lia. }
  erewrite bind_Ret by (apply on_sock_run; exact Hr). cbn [fst snd].
  assert (0 < strlen bs) by (unfold strlen; destruct bs; simpl; [done|lia]).
  assert (strlen bs ≤ rem) by (destruct (Z.ltb_spec rem 4096); lia).
  rewrite (proj2 (Z.leb_gt _ _)) by lia. unfold strlen in *.
  destruct (IH (rem - Z.of_nat (length bs)) (with_sock s c)) as (s' & E & Hp' & Hs' & Hsd');
    [lia|simpl; rewrite Hpd, length_app in Hpend; lia|].
  exists s'. split; [exact E|]. simpl in *. rewrite Hs', Hsd', Hp', Hpd. split_and!; [|done|done].
  replace (Z.to_nat rem) with (length bs + Z.to_nat (rem - Z.of_nat (length bs)))%nat by lia.
  by rewrite drop_app_add.
Qed.

(** ** The server's side: one command of a session *)

Record name_ok (n : list byte) : Prop := {
  no_nul : nonul n; no_len : strlen n ≤ 255; no_name : bad_name n = false
}.
Lemma make_header_ok c len off n : is_u32 c → is_u32 len → is_u64 off → wire_ok (make_header c len off n).
Proof.
  intros ? ? ?. split; simpl; try done; [unfold is_u32, PROTOCOL_MAGIC; lia..|].
  apply length_strncpy_zeroed. lia.
Qed.

Section server.
Context (shared_dir : list byte) (strerror : Z → list byte) (dir_size : Z).
Notation session := (session shared_dir strerror dir_size).
Notation entry := (entry shared_dir).

(** A server between two commands, on a kernel that takes what is sent. *)
Record serving (w : world) : Prop := {
  sv_running : w.(running) = true; sv_writes : w.(writes) = []; sv_sends : w.(net).(sends) = [];
  sv_dir : shared_dir ∈ w.(fdirs)
}.

Lemma session_step fuel rd k w h rest : w.(running) = true → wire_ok h → h.(magic) = PROTOCOL_MAGIC →
  pending w.(net).(inbox) = encode h ++ rest →
  ∃ s, session (S fuel) rd k w =
      (stop ← dispatch shared_dir strerror dir_size h (rd k);
       if (stop : bool) then mret tt else session fuel rd (S k)) (set_net s w) ∧
    pending s.(inbox) = rest ∧ s.(sent) = w.(net).(sent) ∧ s.(sends) = w.(net).(sends).
Proof.
  intros Hrun Hh Hm Hp. destruct (recv_wire h rest (net w) Hh Hp) as (s & E & Hrest & Hsent & Hsd).
  exists s. split; [|done]. cbn [FileServer.session]. erewrite bind_Ret by done. rewrite Hrun. cbn [negb].
  change wire_size with sizeof_header in E. erewrite bind_Ret by (by apply on_net_run). cbn [fst snd].
  change (0 <? 0) with false. cbv iota.
  rewrite (decode_encode h Hh : bytes_header (encode h) = h), Hm, Z.eqb_refl. done.
Qed.

Lemma serve_upload_at fuel rd k w name size off c0 rest :
  name_ok name → entry name ∉ w.(denied) → entry name ∉ w.(fdirs) → serving w →
  is_u32 size → 0 ≤ off < 2 ^ 63 →
  pending w.(net).(inbox) = encode (make_header CMD_UPLOAD size off name) ++ rest → size ≤ strlen rest →
  c0 = (if 0 <? off then default [] (w.(files) !! entry name) else []) → (Z.to_nat off ≤ length c0)%nat →
  ∃ s, session (S fuel) rd k w = session fuel rd (S k) (set_net s (set_files
         (<[entry name := write_at c0 (Z.to_nat off) (take (Z.to_nat size) rest)]> w.(files)) w)) ∧
    pending s.(inbox) = drop (Z.to_nat size) rest ∧ s.(sends) = [] ∧
    s.(sent) = w.(net).(sent) ++ reply STATUS_OK (str "File uploaded successfully").
Proof.
  intros [Hnul Hlen Hn] Hden Hdir [Hrun Hw Hs Hsh] Hsz Hoff Hp Hrest Hc0 Hpos.
  destruct (session_step fuel rd k w (make_header CMD_UPLOAD size off name) rest) as (s & E & Hps & Hsent & Hsd);
    [done|by apply make_header_ok; unfold is_u64, is_u32, CMD_UPLOAD in *; try lia|done|done|].
  destruct (upload_run shared_dir name size off (set_net s w) c0) as (s2 & E2 & Hsent2 & Hsd2 & Hp2);
    [done|done|done|done|done|simpl; congruence|done|simpl; rewrite Hps; unfold is_u32 in *; lia|done|done|].
  simpl in E2, Hsent2, Hp2. rewrite Hps in E2, Hp2. exists s2. rewrite E, Hsent2, Hsent.
  split_and!; try done. unfold dispatch, make_header. cbn [cmd filename data_len offset].
  change (CMD_UPLOAD =? CMD_LIST) with false. change (CMD_UPLOAD =? CMD_DOWNLOAD) with false.
  change (CMD_UPLOAD =? CMD_UPLOAD) with true. cbv iota.
  assert (Hfs : c_lift (field_string (strncpy_zeroed 256 255 name)) (set_net s w) = Ret (name, set_net s w))
    by (by unfold c_lift; rewrite field_string_copied).
  unfold mbind, C_bind in *. by rewrite Hfs, E2.
Qed.

Lemma serve_download fuel rd k w name off c rest :
  name_ok name → entry name ∉ w.(denied) → w.(files) !! entry name = Some c → serving w →
  0 ≤ off ≤ strlen c → off < 2 ^ 64 →
  pending w.(net).(inbox) = encode (make_header CMD_DOWNLOAD 0 off name) ++ rest →
  ∃ s, session (S fuel) rd k w = session fuel rd (S k) (set_net s w) ∧
    pending s.(inbox) = rest ∧ s.(sends) = [] ∧
    s.(sent) = w.(net).(sent) ++
      encode (resp (if 0 <? off then STATUS_PARTIAL else STATUS_OK) (strlen c - off) (str "File: " ++ name)) ++
      drop (Z.to_nat off) c.
Proof.
  intros [Hnul Hlen Hn] Hden Hf [Hrun Hw Hs Hsh] Hoff Hoff64 Hp.
  destruct (session_step fuel rd k w (make_header CMD_DOWNLOAD 0 off name) rest) as (s & E & Hps & Hsent & Hsd);
    [done|by apply make_header_ok; unfold is_u64, is_u32, CMD_DOWNLOAD in *; try lia|done|done|].
  pose proof (download_run shared_dir dir_size name off (set_net s w) c Hn Hden Hf
    ltac:(simpl; congruence) Hoff) as E2.
  eexists. rewrite E. unfold dispatch, make_header. cbn [cmd filename data_len offset].
  change (CMD_DOWNLOAD =? CMD_LIST) with false. change (CMD_DOWNLOAD =? CMD_DOWNLOAD) with true. cbv iota.
  assert (Hfs : c_lift (field_string (strncpy_zeroed 256 255 name)) (set_net s w) = Ret (name, set_net s w))
    by (by unfold c_lift; rewrite field_string_copied).
  unfold mbind, C_bind in *. rewrite Hfs, E2. split; [reflexivity|].
  unfold put. cbn [sent set_net net sends inbox]. rewrite Hsent. split_and!; [done|done|].
  unfold resp. by destruct (0 <? off).
Qed.

Lemma serve_quit fuel rd k w rest : serving w →
  pending w.(net).(inbox) = encode (make_header CMD_QUIT 0 0 []) ++ rest →
  ∃ s, session (S fuel) rd k w = Ret (tt, set_net s w) ∧
    s.(sent) = w.(net).(sent) ++ reply STATUS_OK (str "Goodbye").
Proof.
  intros [Hrun Hw Hs Hsh] Hp.
  destruct (session_step fuel rd k w (make_header CMD_QUIT 0 0 []) rest) as (s & E & Hps & Hsent & Hsd);
    [done|by apply make_header_ok; unfold is_u64, is_u32, CMD_QUIT in *; try lia|done|done|].
  rewrite E. unfold dispatch. cbn [cmd make_header].
  repeat match goal with
  | |- context [if CMD_QUIT =? CMD_QUIT then _ else _] => change (CMD_QUIT =? CMD_QUIT) with true
  | |- context [CMD_QUIT =? ?x] => change (CMD_QUIT =? x) with false
  end. cbv iota.
  pose proof (reply_open STATUS_OK (str "Goodbye") (set_net s w) ltac:(simpl; congruence)) as E2.
  unfold mbind, C_bind in *. rewrite E2. eexists. split; [reflexivity|]. simpl. by rewrite Hsent.
Qed.

(** A refused upload: the server answers and leaves the content unread. *)
Lemma serve_refused fuel rd k w name size off rest :
  nonul name → strlen name ≤ 255 → bad_name name = true → serving w → is_u32 size → is_u64 off →
  pending w.(net).(inbox) = encode (make_header CMD_UPLOAD size off name) ++ rest →
  ∃ s, session (S fuel) rd k w = session fuel rd (S k) (set_net s w) ∧ pending s.(inbox) = rest ∧
    s.(sends) = [] ∧ s.(sent) = w.(net).(sent) ++ reply STATUS_DENIED (str "Invalid filename").
Proof.
  intros Hnul Hlen Hn [Hrun Hw Hs Hsh] Hsz Hoff Hp.
  destruct (session_step fuel rd k w (make_header CMD_UPLOAD size off name) rest) as (s & E & Hps & Hsent & Hsd);
    [done|by apply make_header_ok; unfold is_u64, is_u32, CMD_UPLOAD in *; try lia|done|done|].
  pose proof (reply_open STATUS_DENIED (str "Invalid filename") (set_net s w) ltac:(simpl; congruence)) as E2.
  eexists. rewrite E. unfold dispatch, make_header. cbn [cmd filename data_len offset].
  change (CMD_UPLOAD =? CMD_LIST) with false. change (CMD_UPLOAD =? CMD_DOWNLOAD) with false.
  change (CMD_UPLOAD =? CMD_UPLOAD) with true. cbv iota.
  assert (Hfs : c_lift (field_string (strncpy_zeroed 256 255 name)) (set_net s w) = Ret (name, set_net s w))
    by (by unfold c_lift; rewrite field_string_copied).
  unfold server_recv_file, mbind, C_bind in *. rewrite Hfs, Hn, E2. split; [reflexivity|].
  unfold put. cbn [sent set_net net sends inbox]. by rewrite Hsent.
Qed.

(** ** Uploads *)

(** Content and report: the response's message is what the client prints. *)
Lemma send_and_report_run content report st m rest c : (csock c).(sends) = [] → nonul m → strlen m ≤ 255 →
  pending (csock c).(inbox) = encode (resp st 0 m) ++ rest →
  ∃ s, send_and_report content report c = Ret (SUCCESS, cprint (report m) (with_sock s c)) ∧
    s.(sent) = (csock c).(sent) ++ content ∧ pending s.(inbox) = rest ∧ s.(sends) = [].
Proof.
  intros Hs Hm Hml Hp. unfold send_and_report. erewrite bind_Ret by (by apply send_file_open).
  cbn [negb].
  destruct (recv_response_pending (resp st 0 m) rest (csay content c)) as (s & E & Hrest & Hsent & Hsd);
    [apply resp_ok|done|].
  c_step E. assert (Hfs : ∀ c', c_lift (S:=client) (field_string (message (resp st 0 m))) c' = Ret (m, c'))
    by (intros c'; unfold c_lift; simpl; by rewrite field_string_copied).
  erewrite bind_Ret by apply Hfs. erewrite bind_Ret by reflexivity.
  exists s. split; [reflexivity|]. by rewrite Hsent.
Qed.

Lemma client_upload_run local remote data name st m rest c :
  c.(ctx).(connected) = true → c.(host).(files) !! local = Some data → local ∉ c.(host).(denied) →
  (csock c).(sends) = [] → strlen data < 2 ^ 32 → name = default (basename local) remote →
  nonul m → strlen m ≤ 255 → pending (csock c).(inbox) = encode (resp st 0 m) ++ rest →
  ∃ s, client_upload_file dir_size (Some local) remote c =
      Ret (SUCCESS, cprint (str "Upload " ++ name ++ str ": " ++ m ++ [x0a]) (with_sock s c)) ∧
    s.(sent) = (csock c).(sent) ++ encode (make_header CMD_UPLOAD (strlen data) 0 name) ++ data ∧
    pending s.(inbox) = rest ∧ s.(sends) = [].
Proof.
  intros Hc Hf Hd Hs Hl -> Hm Hml Hp. unfold client_upload_file. erewrite bind_Ret by done.
  rewrite Hc. cbn [negb]. unfold open_read. rewrite bool_decide_eq_false_2, Hf by done.
  rewrite u32_small by (unfold strlen in *; lia).
  erewrite bind_Ret by (by apply send_header_open).
  rewrite (proj2 (Z.ltb_ge _ _)) by (unfold strlen; lia).
  match goal with |- context [send_and_report _ ?r ?c1] =>
    destruct (send_and_report_run data r st m rest c1) as (s & E & Hsent & Hrest & Hsd) end; try done.
  exists s. split; [exact E|]. rewrite Hsent. split_and!; [|done|done].
  cbn [csock csay put sent host set_host net set_net]. by rewrite (assoc_L (++)).
Qed.

(** Uploading several files, and quitting. *)
Fixpoint upload_each (paths : list (list byte)) : C client unit :=
  match paths with
  | [] => mret tt
  | p :: paths' => client_upload_file dir_size (Some p) None;; upload_each paths'
  end.
Definition upload_all (paths : list (list byte)) : C client unit := upload_each paths;; client_disconnect.

Definition request (u : list byte * list byte) : list byte :=
  encode (make_header CMD_UPLOAD (strlen u.2) 0 (basename u.1)) ++ u.2.
Definition requests (ups : list (list byte * list byte)) : list byte := mjoin (request <$> ups).
Definition replies (ups : list (list byte * list byte)) : list byte :=
  mjoin ((λ _, reply STATUS_OK (str "File uploaded successfully")) <$> ups).
Definition stored (fs : gmap (list byte) (list byte)) (u : list byte * list byte)
    : gmap (list byte) (list byte) := <[entry (basename u.1) := u.2]> fs.
Definition local_ok (c : client) (u : list byte * list byte) : Prop :=
  c.(host).(files) !! u.1 = Some u.2 ∧ u.1 ∉ c.(host).(denied) ∧ strlen u.2 < 2 ^ 32.
Definition remote_ok (w : world) (u : list byte * list byte) : Prop :=
  name_ok (basename u.1) ∧ entry (basename u.1) ∉ w.(denied) ∧ entry (basename u.1) ∉ w.(fdirs).
(** The client can read the file, of less than 4 GB, and the server can store it. *)
Definition can_upload (c : client) (w : world) (u : list byte * list byte) : Prop :=
  local_ok c u ∧ remote_ok w u.

Lemma requests_app a b : requests (a ++ b) = requests a ++ requests b.
Proof. unfold requests. by rewrite fmap_app, join_app. Qed.
Lemma requests_cons u ups : requests (u :: ups) = request u ++ requests ups.
Proof. done. Qed.
Lemma replies_cons u ups : replies (u :: ups) = reply STATUS_OK (str "File uploaded successfully") ++ replies ups.
Proof. done. Qed.
Lemma upload_each_app a b c : upload_each (a ++ b) c = (upload_each a;; upload_each b) c.
Proof.
  revert c. induction a as [|p a IH]; intros c; [done|]. cbn [app upload_each]. unfold mbind, C_bind in *.
  destruct (client_upload_file dir_size (Some p) None c) as [[? ?]| | |]; [apply IH|done..].
Qed.

Lemma disconnect_run c : c.(ctx).(connected) = true → (csock c).(sends) = [] →
  ∃ c', client_disconnect c = Ret (tt, c') ∧ c'.(ctx).(connected) = false ∧
    (csock c').(sent) = (csock c).(sent) ++ encode (make_header CMD_QUIT 0 0 []) ∧ (csock c').(closed) = true.
Proof.
  intros Hc Hs. unfold client_disconnect. erewrite bind_Ret by done. rewrite Hc.
  erewrite bind_Ret by (by apply send_header_open). erewrite bind_Ret by reflexivity.
  eexists. split; [reflexivity|]. done.
Qed.

(** The client with the replies to its uploads pending. *)
Lemma client_turns ups : ∀ c more, Forall (local_ok c) ups → c.(ctx).(connected) = true → (csock c).(sends) = [] →
  pending (csock c).(inbox) = replies ups ++ more →
  ∃ c', upload_each ups.*1 c = Ret (tt, c') ∧ (csock c').(sent) = (csock c).(sent) ++ requests ups ∧
    pending (csock c').(inbox) = more ∧ (csock c').(sends) = [] ∧ c'.(ctx) = c.(ctx) ∧
    c'.(host).(files) = c.(host).(files) ∧ c'.(host).(denied) = c.(host).(denied).
Proof.
  induction ups as [|u ups IH]; intros c more Hups Hc Hs Hp.
  - exists c. split_and!; try done. by rewrite app_nil_r.
  - apply Forall_cons in Hups as [(Hf & Hd & Hlen) Hups]. rewrite replies_cons, <- (assoc_L (++)) in Hp.
    destruct (client_upload_run u.1 None u.2 (basename u.1) STATUS_OK (str "File uploaded successfully")
      (replies ups ++ more) c) as (sc & E & Hsent & Hrest & Hsd); [done|done|done|done|done|done
      |vm_compute; repeat constructor; discriminate|vm_compute; discriminate|exact Hp|].
    destruct (IH (cprint (str "Upload " ++ basename u.1 ++ str ": " ++
        str "File uploaded successfully" ++ [x0a]) (with_sock sc c)) more) as (c' & Ec & Hsc & Hpc & Hsd' & Hctx & Hfs & Hdn);
      [exact Hups|done|done|exact Hrest|].
    exists c'. cbn [fmap list_fmap upload_each]. c_step E. rewrite Ec, Hsc, requests_cons.
    cbn [csock with_sock cprint host set_host net set_net]. rewrite Hsent. unfold request.
    split_and!; try done. by rewrite <- !(assoc_L (++)).
Qed.

(** Without an answer, the request has been sent whole and nothing else. *)
Lemma client_upload_waits u c : local_ok c u → c.(ctx).(connected) = true → (csock c).(sends) = [] →
  pending (csock c).(inbox) = [] →
  ∃ c', client_upload_file dir_size (Some u.1) None c = Ret (ERR_RECV, c') ∧
    (csock c').(sent) = (csock c).(sent) ++ request u.
Proof.
  intros (Hf & Hd & Hl) Hc Hs Hp. unfold client_upload_file. erewrite bind_Ret by done.
  rewrite Hc. cbn [negb]. unfold open_read. rewrite bool_decide_eq_false_2, Hf by done.
  rewrite u32_small by (unfold strlen in *; lia).
  erewrite bind_Ret by (by apply send_header_open).
  rewrite (proj2 (Z.ltb_ge _ _)) by (unfold strlen; lia).
  unfold send_and_report. erewrite bind_Ret by (by apply send_file_open). cbn [negb]. rewrite csay_csay.
  set (d := header_bytes _ ++ u.2).
  destruct (recv_loop_run sizeof_response (Z.of_nat sizeof_response) [] (csock (csay d c)))
    as (r & s & E & Hsent & _ & Hr); [done|done|].
  assert (Hp' : pending (inbox (csock (csay d c))) = []) by exact Hp. rewrite Hp', decide_False in Hr by (vm_compute; auto).
  change (recv_loop sizeof_response (Z.of_nat sizeof_response) []) with (recv_all sizeof_response) in E.
  unfold recv_response. apply on_sock_run in E. eexists. split.
  - etransitivity; [eapply bind_Ret; erewrite bind_Ret by exact E; by rewrite Hr|reflexivity].
  - exact Hsent.
Qed.

(** The server with the requests of some uploads pending. *)
Lemma server_turns ups rd : ∀ fuel k w more, Forall (remote_ok w) ups → Forall (λ u, strlen u.2 < 2 ^ 32) ups → serving w →
  pending w.(net).(inbox) = requests ups ++ more →
  ∃ w', session (length ups + fuel) rd k w = session fuel rd (length ups + k) w' ∧
    pending w'.(net).(inbox) = more ∧ w'.(net).(sent) = w.(net).(sent) ++ replies ups ∧
    w'.(files) = foldl stored w.(files) ups ∧ serving w'.
Proof.
  induction ups as [|u ups IH]; intros fuel k w more Hups Hlens Hsv Hp.
  - exists w. split_and!; try done. by rewrite app_nil_r.
  - apply Forall_cons in Hups as [(Hn & Hden & Hdir) Hups]. apply Forall_cons in Hlens as [Hlen Hlens].
    rewrite requests_cons, <- (assoc_L (++)) in Hp. unfold request in Hp. rewrite <- (assoc_L (++)) in Hp.
    assert (is_u32 (strlen u.2)) by (unfold is_u32, strlen in *; lia).
    destruct (serve_upload_at (length ups + fuel) rd k w (basename u.1) (strlen u.2) 0 [] (u.2 ++ requests ups ++ more))
      as (sw & E2 & Hrest2 & Hsd2 & Hsent2); [done|done|done|done|done|lia|done
      |unfold strlen; rewrite length_app; lia|done|simpl; lia|].
    assert (Hw : write_at [] (Z.to_nat 0) (take (Z.to_nat (strlen u.2)) (u.2 ++ requests ups ++ more)) = u.2).
    { unfold strlen. rewrite Nat2Z.id, take_app_length, write_at_in by (simpl; lia).
      simpl. by rewrite drop_nil, app_nil_r. }
    rewrite Hw in E2. unfold strlen in Hrest2. rewrite Nat2Z.id, drop_app_length in Hrest2.
    destruct (IH fuel (S k) (set_net sw (set_files (stored (files w) u) w)) more) as (w' & Ew & Hp' & Hs' & Hf' & Hsv');
      [done|done|by destruct Hsv|exact Hrest2|].
    exists w'. cbn [length Nat.add]. rewrite E2, replies_cons. split_and!; [|done| |done|done].
    + rewrite <- plus_n_Sm in Ew. exact Ew.
    + rewrite Hs'. cbn [net set_net]. by rewrite Hsent2, <- (assoc_L (++)).
Qed.
(** At the end of the input the session ends. *)
Lemma session_eof fuel rd k w : serving w → pending w.(net).(inbox) = [] →
  ∃ s, session (S fuel) rd k w = Ret (tt, set_net s w) ∧ s.(sent) = w.(net).(sent).
Proof.
  intros [Hrun _ _ _] Hp. cbn [FileServer.session]. erewrite bind_Ret by done. rewrite Hrun. cbn [negb].
  destruct (recv_loop_run sizeof_header (Z.of_nat sizeof_header) [] (net w)) as (r & s & E & Hsent & _ & Hr); [done|done|].
  rewrite Hp, decide_False in Hr by (vm_compute; auto).
  change (recv_loop sizeof_header (Z.of_nat sizeof_header) []) with (recv_all sizeof_header) in E.
  exists s. split; [|done]. erewrite bind_Ret by (by apply on_net_run). by rewrite Hr.
Qed.

(** C12. A whole session, both programs running, for files that the client can read
    and the server can store, on kernels that take every send whole and a disk that
    takes every write: the client uploads the files and disconnects.  However the
    network cuts the two streams, the client returns, the server's session ends, each
    file is stored under its base name with exactly its content, and what either side
    sent is what the other received.  And neither waits for what the other has not
    sent: with only the replies to the uploads so far, the client has sent the next
    request whole; with only the requests so far, the server has answered them all. *)
Theorem upload_session ups rd fuel k c w :
  Forall (can_upload c w) ups → c.(ctx).(connected) = true → (csock c).(sends) = [] → serving w →
  (length ups < fuel)%nat →
  (pending w.(net).(inbox) = requests ups ++ encode (make_header CMD_QUIT 0 0 []) →
   pending (csock c).(inbox) = replies ups ++ reply STATUS_OK (str "Goodbye") →
   ∃ c' w', upload_all ups.*1 c = Ret (tt, c') ∧ session fuel rd k w = Ret (tt, w') ∧
     (csock c').(sent) = (csock c).(sent) ++ pending w.(net).(inbox) ∧
     w'.(net).(sent) = w.(net).(sent) ++ pending (csock c).(inbox) ∧
     w'.(files) = foldl stored w.(files) ups ∧ c'.(ctx).(connected) = false) ∧
  (∀ ups1 u ups2, ups = ups1 ++ u :: ups2 →
    (∀ s, s.(sends) = [] → pending s.(inbox) = replies ups1 →
      ∃ c', upload_each (ups1 ++ [u]).*1 (with_sock s c) = Ret (tt, c') ∧
        (csock c').(sent) = s.(sent) ++ requests (ups1 ++ [u])) ∧
    (∀ s, s.(sends) = [] → pending s.(inbox) = requests (ups1 ++ [u]) →
      ∃ w', session fuel rd k (set_net s w) = Ret (tt, w') ∧
        w'.(net).(sent) = s.(sent) ++ replies (ups1 ++ [u]))).
Proof.
  intros Hups Hc Hs Hsv Hfuel. assert (Hl : Forall (local_ok c) ups) by (eapply Forall_impl; [exact Hups|by intros u []]).
  assert (Hr : Forall (remote_ok w) ups) by (eapply Forall_impl; [exact Hups|by intros u []]).
  assert (Hz : Forall (λ u, strlen u.2 < 2 ^ 32) ups) by (eapply Forall_impl; [exact Hl|by intros u (? & ? & ?)]).
  split.
  - intros Hpw Hpc. destruct (client_turns ups c _ Hl Hc Hs Hpc) as (c1 & E1 & Hs1 & _ & Hd1 & Hx1 & _).
    destruct (disconnect_run c1) as (c2 & E2 & Hc2 & Hs2 & _); [by rewrite Hx1|done|].
    destruct (server_turns ups rd (fuel - length ups) k w _ Hr Hz Hsv Hpw) as (w1 & E3 & Hp3 & Hs3 & Hf3 & Hsv3).
    replace (length ups + (fuel - length ups))%nat with fuel in E3 by lia.
    destruct (fuel - length ups)%nat as [|f] eqn:Ef; [lia|].
    destruct (serve_quit f rd (length ups + k) w1 [] Hsv3) as (s & E4 & Hs4); [by rewrite app_nil_r|].
    exists c2, (set_net s w1). rewrite E3, Hpw, Hpc, Hs2, Hs1. cbn [net set_net files set_net]. rewrite Hs4, Hs3.
    unfold upload_all. c_step E1. rewrite <- !(assoc_L (++)). done.
  - intros ups1 u ups2 ->. apply Forall_app in Hl as [Hl1 [Hlu _]%Forall_cons].
    apply Forall_app in Hr as [Hr1 [Hru _]%Forall_cons]. apply Forall_app in Hz as [Hz1 [Hzu _]%Forall_cons].
    rewrite length_app in Hfuel. cbn [length] in Hfuel. split; intros s Hsd Hp.
    + destruct (client_turns ups1 (with_sock s c) []) as (c1 & E1 & Hs1 & Hp1 & Hd1 & Hx1 & Hf1 & Hdn1);
        [done|done|done|by rewrite app_nil_r|].
      destruct (client_upload_waits u c1) as (c2 & E2 & Hs2); [by unfold local_ok; rewrite Hf1, Hdn1|by rewrite Hx1|done|done|].
      exists c2. rewrite fmap_app, upload_each_app. c_step E1. cbn [fmap list_fmap upload_each]. c_step E2.
      split; [done|]. rewrite Hs2, Hs1, requests_app, <- (assoc_L (++)). do 2 f_equal. by rewrite requests_cons, app_nil_r.
    + destruct (server_turns (ups1 ++ [u]) rd (fuel - length (ups1 ++ [u])) k (set_net s w) []) as (w1 & E3 & Hp3 & Hs3 & _ & Hsv3);
        [apply Forall_app; split; [exact Hr1|by apply Forall_singleton]|apply Forall_app; split; [exact Hz1|by apply Forall_singleton]
        |by destruct Hsv|by rewrite app_nil_r|].
      rewrite length_app in E3 at 1. cbn [length] in E3.
      destruct (fuel - length (ups1 ++ [u]))%nat as [|f] eqn:Ef; [rewrite length_app in Ef; cbn [length] in Ef; lia|].
      replace (length ups1 + 1 + S f)%nat with fuel in E3 by (rewrite length_app in Ef; cbn [length] in Ef; lia).
      destruct (session_eof f rd (length (ups1 ++ [u]) + k) w1 Hsv3 Hp3) as (s2 & E4 & Hs4).
      exists (set_net s2 w1). rewrite E3, E4. split; [done|]. cbn [net set_net] in *. by rewrite Hs4.
Qed.

(** ** Downloads *)

Lemma open_write_run path trunc c : path ∉ c.(host).(denied) → path ∉ c.(host).(fdirs) →
  open_write path trunc c = Ret (true, set_host (set_files
    (<[path := if trunc then [] else default [] (c.(host).(files) !! path)]> c.(host).(files)) c.(host)) c).
Proof.
  intros Hd Hdir. unfold open_write. erewrite bind_Ret by done.
  rewrite !bool_decide_eq_false_2 by done. done.
Qed.

(** What the client keeps of a download: the bytes at [pos] of what it had. *)
Lemma client_download_run remote local path st body rest c :
  c.(ctx).(connected) = true → (csock c).(sends) = [] → c.(host).(writes) = [] →
  path = default remote local → path ∉ c.(host).(denied) → path ∉ c.(host).(fdirs) →
  strlen body < 2 ^ 32 → st = STATUS_OK →
  pending (csock c).(inbox) = encode (resp st (strlen body) (str "File: " ++ remote)) ++ body ++ rest →
  ∃ c', client_download_file (Some remote) local c = Ret (SUCCESS, c') ∧
    c'.(host).(files) = <[path := body]> c.(host).(files) ∧
    (csock c').(sent) = (csock c).(sent) ++ encode (make_header CMD_DOWNLOAD 0 0 remote) ∧
    pending (csock c').(inbox) = rest.
Proof.
  intros Hc Hs Hw -> Hd Hdir Hl -> Hp. unfold client_download_file. erewrite bind_Ret by done.
  rewrite Hc. cbn [negb]. erewrite bind_Ret by (by apply send_header_open).
  rewrite (proj2 (Z.ltb_ge _ _)) by (unfold strlen; lia).
  destruct (recv_response_pending (resp STATUS_OK (strlen body) (str "File: " ++ remote)) (body ++ rest)
    (csay (encode (make_header CMD_DOWNLOAD 0 0 remote)) c)) as (s & E & Hrest & Hsent & Hsd);
    [apply resp_ok|done|].
  c_step E. change (status (resp STATUS_OK (strlen body) (str "File: " ++ remote)) =? STATUS_OK) with true.
  cbn [negb]. erewrite bind_Ret by (by apply open_write_run). cbn [negb].
  assert (Hlen : rdata_len (resp STATUS_OK (strlen body) (str "File: " ++ remote)) = strlen body)
    by (apply u32_small; unfold strlen in *; lia). rewrite Hlen.
  edestruct (save_loop_run (Z.to_nat (strlen body)) (default remote local) 0 (strlen body)) as (s2 & E2 & Hp2 & Hs2 & _);
    [| | | | |erewrite bind_Ret by exact E2].
  { exact Hw. } { simpl. by rewrite lookup_insert_eq. } { simpl. lia. } { unfold strlen. lia. }
  { cbn [csock host set_host net set_net set_files with_sock]. rewrite Hrest. unfold strlen. rewrite length_app. lia. }
  erewrite bind_Ret by reflexivity. eexists. split; [reflexivity|].
  cbn [csock host set_host net set_net set_files files inbox sent with_sock] in *. rewrite Hrest in *.
  unfold strlen in *. rewrite Nat2Z.id, take_app_length, drop_app_length, insert_insert_eq, ?write_at_in in * by (simpl; lia).
  simpl. rewrite drop_nil, app_nil_r. split_and!; [done| |done]. by rewrite Hs2, Hsent.
Qed.

Lemma client_resume_run remote local path k body rest c D :
  c.(ctx).(connected) = true → (csock c).(sends) = [] → c.(host).(writes) = [] →
  path = default remote local → path ∉ c.(host).(denied) → path ∉ c.(host).(fdirs) →
  strlen D < 2 ^ 32 → 0 ≤ k ≤ strlen D → body = drop (Z.to_nat k) D →
  c.(host).(files) !! path = Some (take (Z.to_nat k) D) →
  pending (csock c).(inbox) = encode (resp (if 0 <? k then STATUS_PARTIAL else STATUS_OK) (strlen D - k)
    (str "File: " ++ remote)) ++ body ++ rest →
  ∃ c', client_download_resume dir_size (Some remote) local c = Ret (SUCCESS, c') ∧
    c'.(host).(files) = <[path := D]> c.(host).(files) ∧
    (csock c').(sent) = (csock c).(sent) ++ encode (make_header CMD_DOWNLOAD 0 k remote) ∧
    pending (csock c').(inbox) = rest.
Proof.
  intros Hc Hs Hw -> Hd Hdir Hl Hk -> Hf Hp. unfold client_download_resume. erewrite bind_Ret by done.
  rewrite Hc. cbn [negb]. unfold strlen in Hl, Hk.
  assert (Hsize : stat_size dir_size (default remote local) (host c) = Some k).
  { unfold stat_size. rewrite Hf. unfold strlen. rewrite length_take. f_equal. lia. }
  rewrite Hsize. cbn [from_option id]. erewrite bind_Ret by reflexivity.
  erewrite bind_Ret by (by apply send_header_open).
  rewrite (proj2 (Z.ltb_ge (strlen _) _)) by (unfold strlen; lia).
  set (st := if 0 <? k then STATUS_PARTIAL else STATUS_OK) in *.
  match goal with |- context [csay _ ?c1] => set (c0 := c1) end.
  destruct (recv_response_pending (resp st (strlen D - k) (str "File: " ++ remote)) (drop (Z.to_nat k) D ++ rest)
    (csay (header_bytes (make_header CMD_DOWNLOAD 0 k remote)) c0)) as (s & E & Hrest & Hsent & Hsd);
    [apply resp_ok|done|].
  c_step E.
  assert (Hst : status (resp st (strlen D - k) (str "File: " ++ remote)) = st)
    by (unfold st; by destruct (0 <? k)).
  assert (Hlen : rdata_len (resp st (strlen D - k) (str "File: " ++ remote)) = strlen D - k)
    by (apply u32_small; unfold strlen in *; lia).
  rewrite Hst, Hlen.
  assert (Hok : negb (st =? STATUS_OK) && negb (st =? STATUS_PARTIAL) = false)
    by (unfold st; by destruct (0 <? k)).
  assert (Hres : (st =? STATUS_PARTIAL) && (0 <? k) = (0 <? k)) by (unfold st; by destruct (0 <? k)).
  rewrite Hok, Hres. erewrite bind_Ret by (by apply open_write_run). cbn [negb].
  set (d0 := if negb (0 <? k) then [] else default [] (files (host c) !! default remote local)).
  assert (Hd0 : d0 = take (Z.to_nat k) D).
  { unfold d0. rewrite Hf. destruct (Z.ltb_spec 0 k); [done|]. by replace k with 0 by lia. }
  assert (Hpos : (if 0 <? k then seek_pos k else 0%nat) = Z.to_nat k).
  { destruct (Z.ltb_spec 0 k); [|by replace k with 0 by lia]. unfold seek_pos.
    by rewrite (proj2 (Z.ltb_lt _ _)) by lia. }
  rewrite Hpos.
  edestruct (save_loop_run (Z.to_nat (strlen D - k)) (default remote local) (Z.to_nat k) (strlen D - k))
    as (s2 & E2 & Hp2 & Hs2 & _); [| | | | |erewrite bind_Ret by exact E2].
  { exact Hw. }
  { cbn [host set_host files set_files with_sock set_net]. by rewrite lookup_insert_eq. }
  { change (Z.to_nat k ≤ length d0)%nat. rewrite Hd0, length_take. lia. } { unfold strlen. lia. }
  { cbn [csock host set_host net set_net set_files with_sock]. rewrite Hrest. unfold strlen.
    rewrite length_app, length_drop. lia. }
  erewrite bind_Ret by reflexivity. eexists. split; [reflexivity|].
  cbn [csock host set_host net set_net set_files files inbox sent with_sock] in *. rewrite Hrest in *.
  replace (Z.to_nat (strlen D - k)) with (length (drop (Z.to_nat k) D)) in *
    by (unfold strlen; rewrite length_drop; lia).
  rewrite take_app_length, drop_app_length in *. split_and!; [|by rewrite Hs2, Hsent|done].
  rewrite insert_insert_eq. f_equal.
  change (write_at d0 (Z.to_nat k) (drop (Z.to_nat k) D) = D). rewrite Hd0, write_at_in by (rewrite length_take; lia).
  rewrite take_take, Nat.min_id, (drop_ge (take _ _)), app_nil_r by (rewrite length_take, length_drop; lia).
  by rewrite take_drop.
Qed.

(** The response and the bytes the server sends for a download from [k]. *)
Definition download_answer (remote D : list byte) (k : Z) : list byte :=
  encode (resp (if 0 <? k then STATUS_PARTIAL else STATUS_OK) (strlen D - k) (str "File: " ++ remote)) ++
  drop (Z.to_nat k) D.

(** C13. Resuming a download is equivalent to downloading anew: whatever prefix of
    the server's file the client holds, running the client's resume against the
    server transfers only the missing bytes and leaves the same local files as a
    complete download, namely the server's file; the server's files stay as they
    were. *)
Theorem download_resume_equiv fuel rd n remote local path D k c0 ck w0 wk rest0 restk :
  path = default remote local → name_ok remote → strlen D < 2 ^ 32 → 0 ≤ k ≤ strlen D →
  (* the two clients differ in their socket and in the local file *)
  c0.(ctx).(connected) = true → (csock c0).(sends) = [] → c0.(host).(writes) = [] →
  path ∉ c0.(host).(denied) → path ∉ c0.(host).(fdirs) →
  ck.(ctx) = c0.(ctx) → (csock ck).(sends) = [] →
  ck.(host) = set_net (csock ck) (set_files (<[path := take (Z.to_nat k) D]> c0.(host).(files)) c0.(host)) →
  (* two sessions of the same server *)
  serving w0 → w0.(files) !! entry remote = Some D → entry remote ∉ w0.(denied) →
  wk = set_net wk.(net) w0 → wk.(net).(sends) = [] →
  pending w0.(net).(inbox) = encode (make_header CMD_DOWNLOAD 0 0 remote) →
  pending (csock c0).(inbox) = download_answer remote D 0 ++ rest0 →
  pending wk.(net).(inbox) = encode (make_header CMD_DOWNLOAD 0 k remote) →
  pending (csock ck).(inbox) = download_answer remote D k ++ restk →
  ∃ c0' ck' s0' sk',
    client_download_file (Some remote) local c0 = Ret (SUCCESS, c0') ∧
    client_download_resume dir_size (Some remote) local ck = Ret (SUCCESS, ck') ∧
    session (S fuel) rd n w0 = session fuel rd (S n) (set_net s0' w0) ∧
    session (S fuel) rd n wk = session fuel rd (S n) (set_net sk' w0) ∧
    ck'.(host).(files) = c0'.(host).(files) ∧ c0'.(host).(files) !! path = Some D ∧
    (csock ck').(sent) = (csock ck).(sent) ++ pending wk.(net).(inbox) ∧
    sk'.(sent) = wk.(net).(sent) ++ download_answer remote D k.
Proof.
  intros Hpath Hn HD Hk Hc Hs Hw Hd Hdir Hctx Hsk Hhost Hsv Hf Hden Hwk Hsdk Hpw0 Hpc0 Hpwk Hpck.
  unfold strlen in HD, Hk.
  destruct (client_download_run remote local path STATUS_OK D rest0 c0) as (c0' & E0 & Hf0 & _ & _);
    try done.
  { rewrite Hpc0. unfold download_answer. rewrite Z.sub_0_r, <- (assoc_L (++)). done. }
  destruct (client_resume_run remote local path k (drop (Z.to_nat k) D) restk ck D)
    as (ck' & Ek & Hfk & Hsentk & _); try done.
  { by rewrite Hctx. } { by rewrite Hhost. } { by rewrite Hhost. } { by rewrite Hhost. }
  { rewrite Hhost. simpl. by rewrite lookup_insert_eq. }
  { rewrite Hpck. unfold download_answer. by rewrite <- (assoc_L (++)). }
  destruct (serve_download fuel rd n w0 remote 0 D [] Hn Hden Hf Hsv) as (s0 & Es0 & _);
    [unfold strlen; lia|lia|by rewrite app_nil_r|].
  assert (Hsvk : serving wk) by (rewrite Hwk; destruct Hsv; by split).
  destruct (serve_download fuel rd n wk remote k D [] Hn) as (sk & Esk & _ & _ & Hsent);
    [by rewrite Hwk|by rewrite Hwk|done|unfold strlen; lia|lia|by rewrite app_nil_r|].
  exists c0', ck', s0, sk. split_and!; [done|done|done| | | | |done].
  - rewrite Esk. by rewrite Hwk.
  - rewrite Hfk, Hf0, Hhost. simpl. by rewrite insert_insert_eq.
  - rewrite Hf0. apply lookup_insert_eq.
  - by rewrite Hsentk, Hpwk.
Qed.

(** ** Resumed and refused uploads *)

(** Dropping the server's copy, if there is one. *)
Lemma skip_if k rest body c : 0 ≤ k → strlen body = k → pending (csock c).(inbox) = body ++ rest →
  ∃ s, (if 0 <? k then skip_loop (Z.to_nat k) k else mret tt) c = Ret (tt, with_sock s c) ∧
    pending s.(inbox) = rest ∧ s.(sent) = (csock c).(sent) ∧ s.(sends) = (csock c).(sends).
Proof.
  intros Hk Hb Hp. unfold strlen in Hb. destruct (Z.ltb_spec 0 k).
  - destruct (skip_loop_run (Z.to_nat k) k c) as (s & E & Hp' & Hs & Hd);
      [lia|rewrite Hp; unfold strlen; rewrite length_app; lia|].
    exists s. split; [exact E|]. split; [|done]. rewrite Hp', Hp.
    replace (Z.to_nat k) with (length body) by lia. by rewrite drop_app_length.
  - exists (csock c). split; [by destruct c as [? [] ?]|]. split; [|done]. rewrite Hp.
    destruct body; [done|simpl in Hb; lia].
Qed.

Lemma client_upload_resume_run local remote data k name rest c :
  c.(ctx).(connected) = true → c.(host).(files) !! local = Some data → local ∉ c.(host).(denied) →
  (csock c).(sends) = [] → 0 ≤ k < strlen data → strlen data < 2 ^ 32 → name = default (basename local) remote →
  pending (csock c).(inbox) =
    encode (resp STATUS_OK k (str "File: " ++ name)) ++ take (Z.to_nat k) data ++
    reply STATUS_OK (str "File uploaded successfully") ++ rest →
  ∃ c', client_upload_resume dir_size (Some local) remote c = Ret (SUCCESS, c') ∧
    (csock c').(sent) = (csock c).(sent) ++ encode (make_header CMD_DOWNLOAD 0 0 name) ++
      encode (make_header CMD_UPLOAD (strlen data - k) k name) ++ drop (Z.to_nat k) data ∧
    pending (csock c').(inbox) = rest ∧ c'.(host).(files) = c.(host).(files).
Proof.
  intros Hc Hf Hd Hs Hk Hl -> Hp. unfold strlen in Hk, Hl. unfold client_upload_resume.
  erewrite bind_Ret by done. rewrite Hc. cbn [negb].
  unfold open_read. rewrite bool_decide_eq_false_2, Hf by done.
  erewrite bind_Ret by (by apply send_header_open).
  rewrite (proj2 (Z.ltb_ge (strlen _) _)) by (unfold strlen; lia).
  set (name := default (basename local) remote) in *.
  destruct (recv_response_pending (resp STATUS_OK k (str "File: " ++ name))
    (take (Z.to_nat k) data ++ reply STATUS_OK (str "File uploaded successfully") ++ rest)
    (csay (header_bytes (make_header CMD_DOWNLOAD 0 0 name)) c)) as (s & E & Hrest & Hsent & Hsd);
    [apply resp_ok|done|].
  c_step E. change (status (resp STATUS_OK k (str "File: " ++ name)) =? STATUS_OK) with true.
  assert (Hlen : rdata_len (resp STATUS_OK k (str "File: " ++ name)) = k) by (apply u32_small; lia).
  rewrite Hlen. cbn [andb].
  set (c1 := with_sock s (csay (header_bytes (make_header CMD_DOWNLOAD 0 0 name)) c)) in *.
  destruct (skip_if k (reply STATUS_OK (str "File uploaded successfully") ++ rest) (take (Z.to_nat k) data) c1)
    as (s1 & E1 & Hp1 & Hs1 & Hd1); [lia|unfold strlen; rewrite length_take; lia|exact Hrest|].
  c_step E1.
  rewrite u32_small by (unfold strlen; lia).
  rewrite (proj2 (Z.ltb_lt k (strlen data))) by (unfold strlen; lia). cbn [negb]. rewrite andb_false_r.
  assert (Hoff : (if 0 <? k then k else 0) = k) by (destruct (Z.ltb_spec 0 k); lia). rewrite Hoff.
  assert (Hpr : ∀ m c, ∃ m', (if 0 <? k then printf m else mret tt) c = Ret (tt, cprint m' c)).
  { intros m c'. destruct (0 <? k); [by eexists|]. exists []. unfold cprint. rewrite app_nil_r. by destruct c'. }
  match goal with |- context [if 0 <? k then printf ?m else mret tt] =>
    destruct (Hpr m (with_sock s1 c1)) as (m' & Em); c_step Em end.
  assert (Hsz : u64 (strlen data - k) = strlen data - k) by (apply u64_small; unfold strlen; lia).
  rewrite Hsz, u32_small by (unfold strlen; lia).
  erewrite bind_Ret by (apply send_header_open; cbn [csock cprint with_sock host set_host net set_net];
    by rewrite Hd1).
  rewrite (proj2 (Z.ltb_ge (strlen _) _)) by (unfold strlen; lia).
  match goal with |- context [send_and_report ?d ?r ?c2] =>
    destruct (send_and_report_run d r STATUS_OK (str "File uploaded successfully") rest c2)
      as (s3 & E3 & Hs3 & Hp3 & _) end;
    [done|vm_compute; repeat constructor; discriminate|vm_compute; discriminate|exact Hp1|].
  eexists. split; [exact E3|]. split_and!; [|exact Hp3|done].
  cbn [csock with_sock cprint host set_host net set_net]. rewrite Hs3.
  cbn [csock csay put sent cprint with_sock host set_host net set_net]. rewrite Hs1.
  cbn [csock c1 with_sock host set_host net set_net]. rewrite Hsent.
  cbn [csock csay put sent host set_host net set_net]. by rewrite <- !(assoc_L (++)).
Qed.

(** Resuming an upload: when the server holds the first [k] bytes of the
    client's file, the client finds that out, drops the bytes it is sent, and
    uploads only the rest; afterwards the server holds the whole file, and each
    side has received exactly what the other sent. *)
Theorem upload_resume_conversation fuel rd n local remote name data k c w crest rest :
  c.(ctx).(connected) = true → c.(host).(files) !! local = Some data → local ∉ c.(host).(denied) →
  (csock c).(sends) = [] → 0 ≤ k < strlen data → strlen data < 2 ^ 32 →
  name = default (basename local) remote → name_ok name →
  serving w → entry name ∉ w.(denied) → entry name ∉ w.(fdirs) →
  w.(files) !! entry name = Some (take (Z.to_nat k) data) →
  pending w.(net).(inbox) = encode (make_header CMD_DOWNLOAD 0 0 name) ++
    encode (make_header CMD_UPLOAD (strlen data - k) k name) ++ drop (Z.to_nat k) data ++ rest →
  pending (csock c).(inbox) = encode (resp STATUS_OK k (str "File: " ++ name)) ++ take (Z.to_nat k) data ++
    reply STATUS_OK (str "File uploaded successfully") ++ crest →
  ∃ c' w', client_upload_resume dir_size (Some local) remote c = Ret (SUCCESS, c') ∧
    session (S (S fuel)) rd n w = session fuel rd (S (S n)) w' ∧
    w'.(files) = <[entry name := data]> w.(files) ∧ c'.(host).(files) = c.(host).(files) ∧
    pending (csock c').(inbox) = crest ∧ pending w'.(net).(inbox) = rest ∧
    (csock c').(sent) ++ rest = (csock c).(sent) ++ pending w.(net).(inbox) ∧
    w'.(net).(sent) ++ crest = w.(net).(sent) ++ pending (csock c).(inbox).
Proof.
  intros Hc Hf Hd Hs Hk Hl Hname Hn Hsv Hden Hdir Hfw Hpw Hpc. unfold strlen in Hk, Hl.
  destruct (client_upload_resume_run local remote data k name crest c) as (c' & E & Hsent & Hp & Hfc); try done.
  destruct (serve_download (S fuel) rd n w name 0 (take (Z.to_nat k) data) (encode (make_header CMD_UPLOAD
    (strlen data - k) k name) ++ drop (Z.to_nat k) data ++ rest)) as (s1 & E1 & Hp1 & Hd1 & Hs1);
    [done|done|done|done|unfold strlen; lia|lia|done|].
  assert (Hlen : strlen (take (Z.to_nat k) data) = k) by (unfold strlen; rewrite length_take; lia).
  assert (Hdl : Z.to_nat (strlen data - k) = length (drop (Z.to_nat k) data))
    by (unfold strlen; rewrite length_drop; lia).
  destruct (serve_upload_at fuel rd (S n) (set_net s1 w) name (strlen data - k) k
    (if 0 <? k then default [] (w.(files) !! entry name) else []) (drop (Z.to_nat k) data ++ rest))
    as (s2 & E2 & Hp2 & Hd2 & Hs2); try done.
  { by destruct Hsv. } { unfold is_u32, strlen. lia. } { lia. }
  { unfold strlen. rewrite length_app, length_drop. lia. }
  { rewrite Hfw. destruct (Z.ltb_spec 0 k); simpl; rewrite ?length_take; lia. }
  assert (Hc0 : (if 0 <? k then default [] (w.(files) !! entry name) else []) = take (Z.to_nat k) data).
  { rewrite Hfw. destruct (Z.ltb_spec 0 k); [done|]. by replace k with 0 by lia. }
  rewrite Hc0, Hdl, take_app_length, write_at_in in E2 by (rewrite length_take; lia).
  rewrite take_take, Nat.min_id, (drop_ge (take _ _)), app_nil_r, take_drop in E2
    by (rewrite length_take, length_drop; lia).
  exists c'. eexists. split_and!; [done|by rewrite E1, E2|done|done|done| | |].
  - simpl. by rewrite Hp2, Hdl, drop_app_length.
  - rewrite Hsent, Hpw. by rewrite <- !(assoc_L (++)).
  - cbn [net set_net set_files]. rewrite Hs2. cbn [net set_net]. rewrite Hs1, Hpc, Hlen, Z.sub_0_r, drop_0.
    by rewrite <- !(assoc_L (++)).
Qed.

(** A client told that its upload is refused has sent the content already, and
    the server reads it as its next command. *)
Theorem refused_upload_runs_content fuel rd n local remote name h more c w crest :
  c.(ctx).(connected) = true → c.(host).(files) !! local = Some (encode h ++ more) →
  local ∉ c.(host).(denied) → (csock c).(sends) = [] → strlen (encode h ++ more) < 2 ^ 32 →
  name = default (basename local) remote → nonul name → strlen name ≤ 255 → bad_name name = true →
  wire_ok h → h.(magic) = PROTOCOL_MAGIC → serving w →
  pending w.(net).(inbox) =
    encode (make_header CMD_UPLOAD (strlen (encode h ++ more)) 0 name) ++ encode h ++ more →
  pending (csock c).(inbox) = reply STATUS_DENIED (str "Invalid filename") ++ crest →
  ∃ c' s, client_upload_file dir_size (Some local) remote c = Ret (SUCCESS, c') ∧
    (csock c').(sent) = (csock c).(sent) ++ pending w.(net).(inbox) ∧
    session (S (S fuel)) rd n w =
      (stop ← dispatch shared_dir strerror dir_size h (rd (S n));
       if (stop : bool) then mret tt else session fuel rd (S (S n))) (set_net s w) ∧
    pending s.(inbox) = more ∧ s.(sent) = w.(net).(sent) ++ reply STATUS_DENIED (str "Invalid filename").
Proof.
  intros Hc Hf Hd Hs Hl Hname Hnul Hlen Hn Hh Hm Hsv Hpw Hpc.
  destruct (client_upload_run local remote (encode h ++ more) name STATUS_DENIED (str "Invalid filename") crest c)
    as (sc & E & Hsent & _); try done; [vm_compute; repeat constructor; discriminate|].
  destruct (serve_refused (S fuel) rd n w name (strlen (encode h ++ more)) 0 (encode h ++ more))
    as (s1 & E1 & Hp1 & Hd1 & Hs1); try done.
  destruct Hsv as [Hrun Hw Hsd Hsh].
  destruct (session_step fuel rd (S n) (set_net s1 w) h more) as (s2 & E2 & Hp2 & Hs2 & _); try done.
  eexists _, s2. split; [exact E|]. split; [by rewrite Hpw|]. rewrite E1, E2. split; [done|].
  split; [done|]. by rewrite Hs2, <- Hs1.
Qed.

End server.
(** ** Concrete instances *)

(** A byte stream delivered as a first piece and the rest. *)
Definition cut (n : nat) (l : list byte) : list (list byte) := [take n l; drop n l].
Definition wit_client (fs : gmap (list byte) (list byte)) (chunks : list (list byte)) : client :=
  ClientState (Ctx 3 (strncpy_zeroed 64 63 (str "127.0.0.1")) 8888 true)
    (World (wit_net chunks) fs ∅ ∅ [] true) [].
Lemma wit_serving fs chunks : serving wit_dir (wit_world fs chunks).
Proof. split; [done|done|done|apply wit_has_dir]. Qed.
Lemma wit_name n : forallb (λ b, negb (bool_decide (b = x00))) n && (strlen n <=? 255) && negb (bad_name n)
  = true → name_ok n.
Proof.
  intros [[H1 H2]%andb_true_iff H3]%andb_true_iff. split; [|by apply Z.leb_le|by apply negb_true_iff].
  apply Forall_forall. intros b Hb ->. rewrite forallb_forall in H1.
  by apply list_elem_of_In, H1 in Hb.
Qed.

Definition wit_ups : list (list byte * list byte) :=
  [(str "/tmp/a", str "first file"); (str "b", str "")].
Definition wit_up_req : list byte := requests wit_ups ++ encode (make_header CMD_QUIT 0 0 []).
Definition wit_up_rep : list byte := replies wit_ups ++ reply STATUS_OK (str "Goodbye").
Definition wit_up_client : client := wit_client (list_to_map wit_ups) (cut 300 wit_up_rep).
Lemma upload_session_witness :
  ∃ c' w', upload_all 4096 wit_ups.*1 wit_up_client = Ret (tt, c') ∧
    session wit_dir wit_errno 4096 3 (λ _, []) 0 (wit_world ∅ (cut 7 wit_up_req)) = Ret (tt, w') ∧
    w'.(files) = foldl (stored wit_dir) ∅ wit_ups.
Proof.
  destruct (upload_session wit_dir wit_errno 4096 wit_ups (λ _, []) 3 0 wit_up_client
    (wit_world ∅ (cut 7 wit_up_req))) as [H _].
  { repeat (apply Forall_cons; split); [..|constructor].
    all: unfold can_upload, local_ok, remote_ok; split_and!; [vm_compute; reflexivity|apply not_elem_of_empty|vm_compute; reflexivity
      |apply wit_name; vm_compute; reflexivity|apply not_elem_of_empty|apply wit_not_dir; by vm_compute]. }
  { reflexivity. } { reflexivity. } { apply wit_serving. } { simpl. lia. }
  destruct H as (c' & w' & Ec & Ew & _ & _ & Hf & _); [vm_compute; reflexivity|vm_compute; reflexivity|].
  exists c', w'. split; [exact Ec|]. split; [exact Ew|exact Hf].
Defined.

Definition wit_D : list byte := str "hello world".
Definition wit_f : list byte := str "f".
Lemma download_resume_equiv_witness :
  let c0 := wit_client ∅ (cut 100 (download_answer wit_f wit_D 0)) in
  let ck := wit_client {[ wit_f := str "hello " ]} (cut 265 (download_answer wit_f wit_D 6)) in
  ∃ c0' ck', client_download_file (Some wit_f) None c0 = Ret (SUCCESS, c0') ∧
    client_download_resume 4096 (Some wit_f) None ck = Ret (SUCCESS, ck') ∧
    ck'.(host).(files) = c0'.(host).(files) ∧ c0'.(host).(files) !! wit_f = Some wit_D.
Proof.
  intros c0 ck.
  set (w0 := wit_world {[ str "shared/f" := wit_D ]} (cut 9 (encode (make_header CMD_DOWNLOAD 0 0 wit_f)))).
  set (wk := wit_world {[ str "shared/f" := wit_D ]} (cut 9 (encode (make_header CMD_DOWNLOAD 0 6 wit_f)))).
  destruct (download_resume_equiv wit_dir wit_errno 4096 0 (λ _, []) 0 wit_f None wit_f wit_D 6 c0 ck w0 wk [] [])
    as (c0' & ck' & _ & _ & E0 & Ek & _ & _ & Hf & HD & _);
    [reflexivity|apply wit_name; vm_compute; reflexivity|vm_compute; reflexivity|unfold strlen; simpl; lia
    |reflexivity|reflexivity|reflexivity|apply not_elem_of_empty|apply not_elem_of_empty|reflexivity|reflexivity
    |reflexivity|apply wit_serving|reflexivity|apply not_elem_of_empty|reflexivity|reflexivity
    |vm_compute; reflexivity|vm_compute; reflexivity|vm_compute; reflexivity|vm_compute; reflexivity|].
  exists c0', ck'. split; [exact E0|]. split; [exact Ek|]. split; [exact Hf|exact HD].
Defined.

Lemma upload_resume_conversation_witness :
  let c := wit_client {[ str "/d/f" := wit_D ]} (cut 3 (encode (resp STATUS_OK 6 (str "File: " ++ wit_f)) ++
    str "hello " ++ reply STATUS_OK (str "File uploaded successfully"))) in
  let w := wit_world {[ str "shared/f" := str "hello " ]} (cut 283 (encode (make_header CMD_DOWNLOAD 0 0 wit_f) ++
    encode (make_header CMD_UPLOAD 5 6 wit_f) ++ str "world")) in
  ∃ c' w', client_upload_resume 4096 (Some (str "/d/f")) None c = Ret (SUCCESS, c') ∧
    session wit_dir wit_errno 4096 2 (λ _, []) 0 w = session wit_dir wit_errno 4096 0 (λ _, []) 2 w' ∧
    w'.(files) = <[str "shared/f" := wit_D]> w.(files).
Proof.
  intros c w.
  destruct (upload_resume_conversation wit_dir wit_errno 4096 0 (λ _, []) 0 (str "/d/f") None wit_f wit_D 6 c w [] [])
    as (c' & w' & Ec & Ew & Hf & _);
    [reflexivity|reflexivity|apply not_elem_of_empty|reflexivity|unfold strlen; simpl; lia|vm_compute; reflexivity
    |reflexivity|apply wit_name; vm_compute; reflexivity|apply wit_serving|apply not_elem_of_empty
    |apply wit_not_dir; by vm_compute|reflexivity|vm_compute; reflexivity|vm_compute; reflexivity|].
  exists c', w'. split; [exact Ec|]. split; [exact Ew|exact Hf].
Defined.

(** A file whose content is a DELETE command, uploaded under a refused name. *)
Definition wit_evil : list byte := encode (make_header CMD_DELETE 0 0 wit_f).
Lemma refused_upload_runs_content_witness :
  let c := wit_client {[ str "evil" := wit_evil ]} [reply STATUS_DENIED (str "Invalid filename")] in
  let w := wit_world {[ str "shared/f" := wit_D ]}
    (cut 5 (encode (make_header CMD_UPLOAD 280 0 (str "..")) ++ wit_evil)) in
  ∃ c' s, client_upload_file 4096 (Some (str "evil")) (Some (str "..")) c = Ret (SUCCESS, c') ∧
    session wit_dir wit_errno 4096 2 (λ _, []) 0 w =
      (stop ← dispatch wit_dir wit_errno 4096 (make_header CMD_DELETE 0 0 wit_f) [];
       if (stop : bool) then mret tt else session wit_dir wit_errno 4096 0 (λ _, []) 2) (set_net s w).
Proof.
  intros c w.
  destruct (refused_upload_runs_content wit_dir wit_errno 4096 0 (λ _, []) 0 (str "evil") (Some (str ".."))
    (str "..") (make_header CMD_DELETE 0 0 wit_f) [] c w []) as (c' & s & Ec & _ & Ew & _);
    [reflexivity|vm_compute; reflexivity|apply not_elem_of_empty|reflexivity|vm_compute; reflexivity|reflexivity
    |vm_compute; repeat constructor; discriminate|vm_compute; discriminate|reflexivity
    |apply make_header_ok; vm_compute; split; (discriminate || reflexivity)|reflexivity|apply wit_serving
    |vm_compute; reflexivity|vm_compute; reflexivity|].
  exists c', s. split; [exact Ec|exact Ew].
Defined.

End FileClientSpec.
