(* ===== verification/ClientMain.v ===== *)
(** * linux-file-server: the client's program (linux-file-server/src/main_client.c)

    Options, the log on the terminal, and the client of [FileClient] from its
    initialisation to its disconnection; what client.c itself logs is not modelled. *)

From stdpp Require Import gmap.
From S2P Require Import Prelude Calls Net Getopt ServerLog FileServer FileServerSpec FileClient FileClientSpec.

Module ClientMain.
Import Net FileServer FileClient FileClientSpec Calls.
#[local] Arguments Z.to_nat : simpl never.

Definition DEFAULT_PORT : Z := 8888.
Record prog := Prog { cl : client; lg : ServerLog.log }.
Definition on_client {A} (m : C client A) : C prog A := λ p,
  match m p.(cl) with Ret (a, c) => Ret (a, Prog c p.(lg)) | UB => UB | Blocked => Blocked | Fuel => Fuel end.
Definition on_log {A} (m : C ServerLog.log A) : C prog A := λ p,
  match m p.(lg) with Ret (a, l) => Ret (a, Prog p.(cl) l) | UB => UB | Blocked => Blocked | Fuel => Fuel end.

Definition option_table : Getopt.table :=
  Getopt.Table [(x73, true); (x70, true); (x68, false)]
    [Getopt.Long (str "server") true x73; Getopt.Long (str "port") true x70; Getopt.Long (str "help") false x68].
Fixpoint options (os : list Getopt.opt) (ip : list byte) (port : Z) : (list byte * Z) + Z :=
  match os with
  | [] => inl (ip, port)
  | Getopt.Opt x73 (Some v) :: os' => options os' v port
  | Getopt.Opt x70 (Some v) :: os' => options os' ip (atoi v)
  | Getopt.Opt x68 _ :: _ => inr 0
  | _ => inr 1
  end.
Definition usage_text (name : list byte) : list byte :=
  str "Usage: " ++ name ++ str " [options]" ++ [x0a] ++ str "Options:" ++ [x0a] ++
  str "  -s, --server <ip>    Server IP (default: 127.0.0.1)" ++ [x0a] ++
  str "  -p, --port <port>    Server port (default: " ++ dec DEFAULT_PORT ++ str ")" ++ [x0a] ++
  str "  -h, --help           Show this help" ++ [x0a].

Section main.
Context (openable mkdir_ok : list byte → bool) (dir_size : Z) (time_str : list byte).
(** The descriptor of socket, and whether inet_pton, connect and malloc succeed. *)
Context (fd : Z) (pton_ok connect_ok malloc_ok : bool).

Definition main (name : list byte) (args : list (list byte)) (stdin : list byte) : C prog Z :=
  match options (Getopt.getopt_long option_table args).1 (str "127.0.0.1") DEFAULT_PORT with
  | inr status => on_client (printf (usage_text name));; mret status
  | inl (ip, port) =>
      on_log (ServerLog.log_init openable mkdir_ok None ServerLog.LOG_INFO time_str);;
      r ← on_client (client_init (Some ip) port);
      if negb (r =? SUCCESS) then
        on_log (ServerLog.log_fatal openable time_str (str "Failed to initialize client"));; mret 1
      else
      r ← on_client (client_connect fd pton_ok connect_ok);
      if negb (r =? SUCCESS) then
        on_log (ServerLog.log_fatal openable time_str (str "Failed to connect to server"));; mret 1
      else
      on_client (client_interactive dir_size malloc_ok stdin);;
      on_client client_disconnect;;
      on_log ServerLog.log_close;;
      mret 0
  end.

(** ** How it ends *)

Lemma on_client_run {A} (m : C client A) p a c : m p.(cl) = Ret (a, c) → on_client m p = Ret (a, Prog c p.(lg)).
Proof. intros E. unfold on_client. by rewrite E. Qed.
Lemma on_log_run {A} (m : C ServerLog.log A) p a l : m p.(lg) = Ret (a, l) → on_log m p = Ret (a, Prog p.(cl) l).
Proof. intros E. unfold on_log. by rewrite E. Qed.
Lemma init_run l : l.(ServerLog.log_mutex) = false →
  ServerLog.log_init openable mkdir_ok None ServerLog.LOG_INFO time_str l = Ret (0, ServerLog.set_level ServerLog.LOG_INFO l).
Proof. destruct l. cbn. intros ->. reflexivity. Qed.
Lemma fatal_run l msg : l.(ServerLog.log_mutex) = false → l.(ServerLog.log_fp) = None → l.(ServerLog.current_level) = ServerLog.LOG_INFO →
  ∃ l', ServerLog.log_fatal openable time_str msg l = Ret (tt, l') ∧ ServerLog.log_mutex l' = false ∧
    ServerLog.out l' = ServerLog.out l ++ ServerLog.log_line ServerLog.LOG_FATAL time_str msg.
Proof.
  destruct l. cbn. intros -> -> ->. unfold ServerLog.log_fatal, ServerLog.log_write_impl, ServerLog.lock, ServerLog.log_check_rotate. cbv [mbind C_bind c_get].
  cbn [ServerLog.current_level]. change (ServerLog.LOG_FATAL <? ServerLog.LOG_INFO) with false. cbn [ServerLog.log_mutex].
  change ((ServerLog.LOG_FATAL <? 0) || (4 <? ServerLog.LOG_FATAL)) with false. cbv zeta iota. eexists. split; [reflexivity|]. done.
Qed.

Lemma log_close_run l : l.(ServerLog.log_mutex) = false → ServerLog.log_close l = Ret (tt, ServerLog.set_mutex false (ServerLog.set_fp None (ServerLog.set_mutex true l))).
Proof. destruct l. cbn. by intros ->. Qed.
Lemma quit_line more f c : input_loop dir_size (S f) malloc_ok (str "quit" ++ [x0a] ++ more) c = Ret (tt, cprint (str "ftp> ") c).
Proof. cbn [input_loop]. erewrite bind_Ret by reflexivity. reflexivity. Qed.

(** The program's ends: the usage for -h or a bad option, before anything is opened; the
    fatal line and status 1 when no connection is made, with nothing sent; and a session
    whose first line is quit sends the QUIT header alone, closes and gives status 0. *)
Theorem client_main_ends name args stdin p : p.(lg).(ServerLog.log_mutex) = false → p.(lg).(ServerLog.log_fp) = None → (csock p.(cl)).(sends) = [] →
  match options (Getopt.getopt_long option_table args).1 (str "127.0.0.1") DEFAULT_PORT with
  | inr st => main name args stdin p = Ret (st, Prog (cprint (usage_text name) p.(cl)) p.(lg)) ∧ (st = 0 ∨ st = 1)
  | inl _ =>
      if (fd <? 0) || negb pton_ok || negb connect_ok then
        ∃ p', main name args stdin p = Ret (1, p') ∧ p'.(cl).(host) = p.(cl).(host) ∧
          p'.(lg).(ServerLog.out) = p.(lg).(ServerLog.out) ++ ServerLog.log_line ServerLog.LOG_FATAL time_str (str "Failed to connect to server")
      else ∀ more, stdin = str "quit" ++ [x0a] ++ more →
        ∃ p', main name args stdin p = Ret (0, p') ∧ p'.(cl).(ctx).(connected) = false ∧ (csock p'.(cl)).(closed) = true ∧
          (csock p'.(cl)).(sent) = (csock p.(cl)).(sent) ++ Protocol.encode (make_header CMD_QUIT 0 0 [])
  end.
Proof.
  intros Hm Hf Hs. unfold main. destruct (options _ _ _) as [[ip port]|st] eqn:Eo.
  2:{ split; [reflexivity|]. revert Eo. generalize (str "127.0.0.1"), DEFAULT_PORT. induction (Getopt.getopt_long option_table args).1 as [|[ch a|] os IH]; intros ip port; cbn [options]; [done| |intros [= <-]; by right].
      destruct ch; try (intros [= <-]; auto); destruct a; intros E; try (injection E as <-; by right); by eapply IH. }
  erewrite bind_Ret by (by apply on_log_run, init_run). erewrite bind_Ret by reflexivity. change (negb (SUCCESS =? SUCCESS)) with false; cbv iota.
  destruct ((fd <? 0) || negb pton_ok || negb connect_ok) eqn:Ec.
  - assert (∃ z c', client_connect fd pton_ok connect_ok (set_ctx (Ctx (-1) (strncpy_zeroed 64 63 ip) port false) (cl p)) = Ret (z, c') ∧ (z =? SUCCESS) = false ∧ c'.(host) = p.(cl).(host)) as (z & c' & E & Hz & Eh).
    { unfold client_connect. destruct (fd <? 0); [by eexists _, _|]. cbn in Ec. cbn. rewrite Ec. by eexists _, _. }
    erewrite bind_Ret by (apply on_client_run; exact E). rewrite Hz. cbn [negb].
    destruct (fatal_run (ServerLog.set_level ServerLog.LOG_INFO (lg p)) (str "Failed to connect to server")) as (l' & El & _ & Hout); [done..|].
    erewrite bind_Ret by (apply on_log_run; exact El). eexists. split; [reflexivity|]. by split.
  - intros more ->. apply orb_false_iff in Ec as [[Ec1 Ec2]%orb_false_iff Ec3].
    set (c1 := set_ctx (Ctx fd (strncpy_zeroed 64 63 ip) port true) (cl p)).
    erewrite bind_Ret by (apply on_client_run; unfold client_connect; cbn; rewrite Ec1, Ec2, Ec3; cbn; reflexivity). change (negb (SUCCESS =? SUCCESS)) with false; cbv iota.
    assert (∃ c2, client_interactive dir_size malloc_ok (str "quit" ++ [x0a] ++ more) c1 = Ret (tt, c2) ∧ c2.(ctx) = c1.(ctx) ∧ csock c2 = csock c1) as (c2 & E2 & Ec & Eh).
    { eexists. split; [|split; [|]]. unfold client_interactive. erewrite bind_Ret by reflexivity. rewrite length_app. apply quit_line.
      - reflexivity.
      - reflexivity. }
    erewrite bind_Ret by (apply on_client_run; exact E2).
    destruct (disconnect_run c2) as (c3 & E3 & Hc3 & Hs3 & Hcl3); [by rewrite Ec|by rewrite Eh|].
    erewrite bind_Ret by (apply on_client_run; exact E3).
    erewrite bind_Ret by (apply on_log_run; cbn [lg]; by apply log_close_run). eexists. split; [reflexivity|]. split_and!; [done|done|]. cbn [cl]. by rewrite Hs3, Eh.
Qed.
End main.

Lemma client_main_ends_witness :
  ∃ p', main (λ _, true) (λ _, true) 4096 (str "now") 3 true true true (str "client") [str "-p"; str "9000"] (str "quit" ++ [x0a] ++ str "list")
    (Prog (wit_client ∅ []) (ServerLog.start ∅ ∅)) = Ret (0, p') ∧ p'.(cl).(ctx).(connected) = false ∧ (csock p'.(cl)).(closed) = true ∧
    (csock p'.(cl)).(sent) = Protocol.encode (make_header CMD_QUIT 0 0 []).
Proof.
  apply (client_main_ends (λ _, true) (λ _, true) 4096 (str "now") 3 true true true (str "client") [str "-p"; str "9000"]
    (str "quit" ++ [x0a] ++ str "list") (Prog (wit_client ∅ []) (ServerLog.start ∅ ∅)) eq_refl eq_refl eq_refl (str "list") eq_refl).
Defined.
End ClientMain.
