(* ===== verification/Proxy.v ===== *)
(** * network-proxy: forwarding HTTP proxy (network-proxy/src/proxy.c)

    A handler runs on the client's socket and, once connected, on an upstream
    socket; the answers of getaddrinfo and connect are the parameter [upstream],
    those of select a script.  The accept loop and the workers interleave in the
    queue steps at the end. *)

From S2P Require Import Prelude Net.
Import Net Protocol.

Module Proxy.
#[local] Arguments Z.to_nat : simpl never.

Definition MAX_REQUEST_SIZE : Z := 8192.
Definition MAX_HOST_LENGTH : Z := 256.
Definition MAX_PATH_LENGTH : Z := 1024.
Definition TUNNEL_BUFFER_SIZE : Z := 4096.

(** ** Parsing *)

(** [sscanf(request, "%15s %2047s %15s", ...)]. *)
Definition proxy_parse_request_line (request : list byte)
    : option (list byte * list byte * list byte) :=
  '(method, r) ← scan_word 15 request;
  '(url, r) ← scan_word (Z.to_nat 2047) r;
  '(version, _) ← scan_word 15 r;
  Some (method, url, version).

Definition strip_scheme (url : list byte) : list byte :=
  if is_prefix (str "http://") url then drop 7 url
  else if is_prefix (str "https://") url then drop 8 url else url.
Definition host_char (c : byte) : bool := negb (bool_decide (c = x3a)) && negb (bool_decide (c = x2f)).
Definition not_slash (c : byte) : bool := negb (bool_decide (c = x2f)).

(** Host, port and path; [None] is the result -1. *)
Definition proxy_parse_url (url : list byte) : option (list byte * Z * list byte) :=
  let p := strip_scheme url in
  let '(host, r) := span_n (length p) host_char p in
  let '(port_str, r) :=
    match r with
    | x3a :: r' => let '(q, r2) := span_n (length r') not_slash r' in (Some q, r2)
    | _ => (None, r)
    end in
  if MAX_HOST_LENGTH <=? strlen host then None else
  match (match port_str with
         | Some q => if 16 <=? strlen q then None else Some (u16 (atoi q))
         | None => Some 80
         end) with
  | None => None
  | Some port =>
      Some (host, port, match r with
                        | x2f :: _ => take (Z.to_nat (MAX_PATH_LENGTH - 1)) r
                        | _ => str "/"
                        end)
  end.

(** ** State *)

Record proxy_stats_t := Stats {
  total_connections : Z; active_connections : Z; bytes_sent : Z; bytes_received : Z
}.
(** The two sockets of a handler; [upstream_sock] is [None] before the connection. *)
Record conn := Conn { client_sock : sock; upstream_sock : option sock; stats : proxy_stats_t }.
Definition set_stats (st : proxy_stats_t) (c : conn) : conn := Conn c.(client_sock) c.(upstream_sock) st.

Definition on_client {A} (m : C sock A) : C conn A := λ c,
  match m c.(client_sock) with
  | Ret (a, s) => Ret (a, Conn s c.(upstream_sock) c.(stats))
  | UB => UB | Blocked => Blocked | Fuel => Fuel
  end.
Definition on_upstream {A} (m : C sock A) : C conn A := λ c,
  match c.(upstream_sock) with
  | None => UB
  | Some u =>
      match m u with
      | Ret (a, s) => Ret (a, Conn c.(client_sock) (Some s) c.(stats))
      | UB => UB | Blocked => Blocked | Fuel => Fuel
      end
  end.

(** ** The tunnel *)

(** One return of select: interrupted, failed, timed out, or the readable ends. *)
Inductive select_t := Interrupted | Failed | Timeout | Readable (client upstream : bool).

Definition add_sent (n : Z) : C conn unit := c_mod (λ c,
  let s := c.(stats) in
  set_stats (Stats s.(total_connections) s.(active_connections) (u64 (s.(bytes_sent) + n)) s.(bytes_received)) c).
Definition add_received (n : Z) : C conn unit := c_mod (λ c,
  let s := c.(stats) in
  set_stats (Stats s.(total_connections) s.(active_connections) s.(bytes_sent) (u64 (s.(bytes_received) + n))) c).

(** One direction: [None] goes on, [Some r] returns [r]. *)
Definition relay (from : C sock (Z * list byte) → C conn (Z * list byte)) (to : C sock Z → C conn Z)
    (count : Z → C conn unit) : C conn (option Z) :=
  r ← from (recv TUNNEL_BUFFER_SIZE);
  if r.1 <=? 0 then mret (Some 0) else
  e ← to (send_all r.2);
  if e <? 0 then mret (Some (-1)) else count r.1;; mret None.
Definition relay_up : C conn (option Z) := relay on_client on_upstream add_sent.
Definition relay_down : C conn (option Z) := relay on_upstream on_client add_received.

(** After the script select times out. *)
Fixpoint proxy_tunnel (script : list select_t) : C conn Z :=
  match script with
  | [] => mret 0
  | Interrupted :: script' => proxy_tunnel script'
  | Failed :: _ => mret (-1)
  | Timeout :: _ => mret 0
  | Readable cl up :: script' =>
      a ← (if cl then relay_up else mret None);
      match a with
      | Some r => mret r
      | None =>
          b ← (if up then relay_down else mret None);
          match b with
          | Some r => mret r
          | None => proxy_tunnel script'
          end
      end
  end.

(** ** Requests *)

Definition error_text (status_code : Z) (message : list byte) : list byte :=
  str "HTTP/1.1 " ++ dec status_code ++ str " " ++ message ++ [x0d; x0a] ++
  str "Content-Type: text/html" ++ [x0d; x0a] ++ str "Connection: close" ++ [x0d; x0a; x0d; x0a] ++
  str "<html><body><h1>" ++ dec status_code ++ str " " ++ message ++ str "</h1></body></html>".
(** The buffer has 1024 bytes; the length sent is that of the whole text. *)
Definition proxy_send_error (status_code : Z) (message : list byte) : C sock unit :=
  let text := error_text status_code message in
  if 1024 <? strlen text then c_ub else
  send (if strlen text <? 1024 then text else take (Z.to_nat 1023) text ++ [x00]);; mret tt.

Section handlers.
Context (upstream : list byte → Z → option sock).

Definition refuse (status_code : Z) (message : list byte) : C conn unit :=
  on_client (proxy_send_error status_code message);; on_client close.
Definition connect_to (host : list byte) (port : Z) : C conn bool :=
  match upstream host port with
  | None => mret false
  | Some u => c_mod (λ c, Conn c.(client_sock) (Some u) c.(stats));; mret true
  end.
Definition tunnel_and_close (script : list select_t) : C conn unit :=
  proxy_tunnel script;; on_upstream close;; on_client close.

(** The request line with the path alone, and what follows the first line break;
    strcat is not bounded by the 8192-byte buffer. *)
Definition new_request (request method path version : list byte) : outcome (list byte) :=
  let line := take (Z.to_nat (MAX_REQUEST_SIZE - 1))
                (method ++ str " " ++ path ++ str " " ++ version ++ [x0d; x0a]) in
  match find_sub [x0d; x0a] request with
  | Some i =>
      let full := line ++ drop (i + 2) request in
      if strlen full <? MAX_REQUEST_SIZE then Ret full else UB
  | None => Ret line
  end.

Definition handle_http_proxy (script : list select_t) (request : list byte) : C conn unit :=
  match proxy_parse_request_line request with
  | None => refuse 400 (str "Bad Request")
  | Some (method, url, version) =>
    match proxy_parse_url url with
    | None => refuse 400 (str "Bad Request")
    | Some (host, port, path) =>
        ok ← connect_to host port;
        if negb ok then refuse 502 (str "Bad Gateway") else
        req ← c_lift (new_request request method path version);
        on_upstream (send req);;
        tunnel_and_close script
    end
  end.

(** strncpy stores at most 255 bytes and no terminator behind a longer name. *)
Definition copy_host (name : list byte) : outcome (list byte) :=
  if strlen name <? MAX_HOST_LENGTH - 1 then Ret name else UB.
Definition handle_connect (script : list select_t) (request : list byte) : C conn unit :=
  match proxy_parse_request_line request with
  | None => refuse 400 (str "Bad Request")
  | Some (_, host_port, _) =>
      let '(name, r) := span_n (length host_port) (λ c, negb (bool_decide (c = x3a))) host_port in
      let port := match r with _ :: q => u16 (atoi q) | [] => 443 end in
      host ← c_lift (copy_host name);
      ok ← connect_to host port;
      if negb ok then refuse 502 (str "Bad Gateway") else
      on_client (send (str "HTTP/1.1 200 Connection Established" ++ [x0d; x0a; x0d; x0a]));;
      tunnel_and_close script
  end.

Definition count_active (total active : Z) : C conn unit := c_mod (λ c,
  let s := c.(stats) in
  set_stats (Stats (u64 (s.(total_connections) + total)) (u64 (s.(active_connections) + active))
               s.(bytes_sent) s.(bytes_received)) c).
Definition handle_client (script : list select_t) : C conn unit :=
  r ← on_client (recv (MAX_REQUEST_SIZE - 1));
  if r.1 <=? 0 then on_client close else
  let buffer := cstr r.2 in
  count_active 1 1;;
  (match scan_word 15 buffer with
   | Some (method, _) =>
       if bool_decide (method = str "CONNECT") then handle_connect script buffer
       else handle_http_proxy script buffer
   | None => mret tt
   end);;
  count_active 0 (-1).

End handlers.

(** ** The server and its queue *)

Record proxy_server := Server {
  max_connections : Z; running : bool;
  connection_queue : list Z; queue_head : Z; queue_tail : Z; queue_size : Z
}.
(** [proxy_create] with the outcomes of its requests for resources. *)
Definition proxy_create (max_conn : Z) (malloc_ok socket_ok bind_ok queue_ok threads_ok : bool)
    : option proxy_server :=
  if negb malloc_ok then None else if negb socket_ok then None else if negb bind_ok then None
  else if negb queue_ok then None else if negb threads_ok then None
  else Some (Server max_conn false (replicate (Z.to_nat max_conn) 0) 0 0 0).

(** The critical section of the accept loop: whether the connection was queued. *)
Definition accept_connection (fd : Z) (s : proxy_server) : outcome (bool * proxy_server) :=
  if s.(queue_size) <? s.(max_connections) then
    match s.(connection_queue) !! Z.to_nat s.(queue_tail) with
    | None => UB
    | Some _ => Ret (true, Server s.(max_connections) s.(running)
                             (<[Z.to_nat s.(queue_tail) := fd]> s.(connection_queue)) s.(queue_head)
                             ((s.(queue_tail) + 1) `mod` s.(max_connections)) (s.(queue_size) + 1))
    end
  else Ret (false, s).

(** The critical section of [worker_thread]; [None] is no connection. *)
Definition worker_take (s : proxy_server) : outcome (option Z * proxy_server) :=
  if (s.(queue_size) =? 0) && s.(running) then Blocked
  else if 0 <? s.(queue_size) then
    match s.(connection_queue) !! Z.to_nat s.(queue_head) with
    | None => UB
    | Some fd => Ret (Some fd, Server s.(max_connections) s.(running) s.(connection_queue)
                                 ((s.(queue_head) + 1) `mod` s.(max_connections)) s.(queue_tail)
                                 (s.(queue_size) - 1))
    end
  else Ret (None, s).

(** [proxy_start] and [proxy_stop] on the flag. *)
Definition set_running (b : bool) (s : proxy_server) : proxy_server :=
  Server s.(max_connections) b s.(connection_queue) s.(queue_head) s.(queue_tail) s.(queue_size).

End Proxy.
