(* ===== verification/ProxySpec.v ===== *)
(** * network-proxy: URL syntax, the tunnel, forwarded requests, the queue *)

From S2P Require Import Prelude Queue Net Proxy.
Import Queue Net Protocol Proxy.

Module ProxySpec.
#[local] Arguments Z.to_nat : simpl never.

(** ** URLs *)

Inductive scheme := Http | Https | NoScheme.
Definition scheme_text (s : scheme) : list byte :=
  match s with Http => str "http://" | Https => str "https://" | NoScheme => [] end.
Definition print_url (s : scheme) (host : list byte) (port : option Z) (path : list byte) : list byte :=
  scheme_text s ++ host ++ match port with Some p => x3a :: dec p | None => [] end ++ path.
(** A host name and a path as the parser delimits them. *)
Definition host_ok (h : list byte) : Prop := Forall (λ c, host_char c = true) h ∧ strlen h < MAX_HOST_LENGTH.
Definition path_ok (p : list byte) : Prop := head p = Some x2f ∧ strlen p < MAX_PATH_LENGTH.

Lemma strip_scheme_print s r : (s = NoScheme → is_prefix (str "http://") r = false ∧ is_prefix (str "https://") r = false) →
  strip_scheme (scheme_text s ++ r) = r.
Proof.
  intros H. unfold strip_scheme. destruct s; [done|done|]. destruct (H eq_refl) as [H1 H2].
  cbn [scheme_text app]. by rewrite H1, H2.
Qed.
(** A host followed by a port or a path does not read as a scheme. *)
Lemma host_no_scheme q h r : Forall (λ c, host_char c = true) q → Forall (λ c, host_char c = true) h →
  match r with [] => True | c :: _ => host_char c = false end → (∀ t, r ≠ str "://" ++ t) →
  is_prefix (q ++ str "://") (h ++ r) = false.
Proof.
  intros Hq Hh Hr Hno. destruct (is_prefix _ _) eqn:E; [|done]. apply is_prefix_spec in E as [t E].
  rewrite <- (assoc_L (++)) in E. set (n := (length h + length q)%nat).
  pose proof (span_n_exact n host_char h r ltac:(lia) Hh Hr) as E1. rewrite E in E1.
  rewrite (span_n_exact n host_char q) in E1 by (done || lia). injection E1 as _ <-. by destruct (Hno t).
Qed.

Lemma digit_host c : is_digit c = true → host_char c = true ∧ not_slash c = true ∧ c ≠ x2f.
Proof. destruct c; intros H; try (by vm_compute in H); by repeat split. Qed.

(** The part of a URL behind the host. *)
Definition url_tail (port : option Z) (path : list byte) : list byte :=
  match port with Some p => x3a :: dec p | None => [] end ++ path.
Lemma url_tail_head port path : path = [] ∨ path_ok path → (∀ p, port = Some p → 0 ≤ p < 2 ^ 16) →
  match url_tail port path with [] => True | c :: _ => host_char c = false end ∧
  ∀ t, url_tail port path ≠ str "://" ++ t.
Proof.
  intros Hpath Hport. unfold url_tail. destruct port as [p|].
  - destruct (dec_spec p) as (Hd & Hne & _); [specialize (Hport p eq_refl); lia|]. split; [done|].
    intros t E. injection E as E. destruct (dec p) as [|c ds]; [done|].
    apply Forall_cons in Hd as [Hc _]. injection E as -> _. by vm_compute in Hc.
  - destruct Hpath as [->|[Hh _]]; [by split|]. destruct path as [|c path]; [done|].
    injection Hh as ->. by split.
Qed.

(** The path a URL stands for. *)
Definition url_path (path : list byte) : list byte := match path with [] => str "/" | _ => path end.
Lemma parse_print_url sch host port path :
  host_ok host → (∀ p, port = Some p → 0 ≤ p < 2 ^ 16) → path = [] ∨ path_ok path →
  proxy_parse_url (print_url sch host port path) = Some (host, default 80 port, url_path path).
Proof.
  intros [Hh Hhl] Hport Hpath. destruct (url_tail_head port path Hpath Hport) as [Hhead Hno].
  unfold print_url. fold (url_tail port path). unfold proxy_parse_url.
  rewrite strip_scheme_print.
  2:{ intros _. split; [apply (host_no_scheme (str "http"))|apply (host_no_scheme (str "https"))];
      try done; by repeat constructor. }
  rewrite (span_n_exact _ host_char host) by (done || rewrite length_app; lia).
  assert (Hp : match path with x2f :: _ => take (Z.to_nat (MAX_PATH_LENGTH - 1)) path | _ => str "/" end =
    url_path path).
  { destruct Hpath as [->|[Hhd Hpl]]; [done|]. destruct path as [|c path]; [done|]. injection Hhd as ->.
    cbn [url_path]. apply take_ge. unfold strlen, MAX_PATH_LENGTH in *. lia. }
  unfold url_tail in *. destruct port as [p|]; cbn [app from_option].
  - specialize (Hport p eq_refl). destruct (dec_spec p) as (Hd & Hne & _); [lia|].
    rewrite (span_n_exact _ not_slash (dec p)).
    + rewrite (proj2 (Z.leb_gt _ _)) by done.
      assert (strlen (dec p) ≤ 5) as Hl.
      { unfold dec. rewrite (proj2 (Z.ltb_ge _ _)) by lia.
        pose proof (digits_length 64 p 5 ltac:(lia) ltac:(lia)). unfold strlen. lia. }
      rewrite (proj2 (Z.leb_gt _ _)) by lia. rewrite atoi_dec by lia.
      unfold u16. rewrite Z.mod_small by lia. by rewrite Hp.
    + rewrite length_app. lia.
    + eapply Forall_impl; [exact Hd|]. intros c Hc. by apply digit_host in Hc as (_ & ? & _).
    + destruct Hpath as [->|[Hhd _]]; [done|]. destruct path; [done|]. by injection Hhd as ->.
  - assert (Hr : match path with x3a :: r' => let '(q, r2) := span_n (length r') not_slash r' in (Some q, r2)
      | _ => (None, path) end = (None, path)).
    { destruct Hpath as [->|[Hhd _]]; [done|]. destruct path; [done|]. by injection Hhd as ->. }
    rewrite Hr, (proj2 (Z.leb_gt _ _)) by done. by rewrite Hp.
Qed.

(** URL syntax: a URL printed from a host, an optional port and an optional
    path, with or without a scheme, is parsed back to them; the port defaults to 80
    and the path to a slash. *)
Theorem proxy_url_roundtrip sch host port path :
  host_ok host → (∀ p, port = Some p → 0 ≤ p < 2 ^ 16) → path = [] ∨ path_ok path →
  proxy_parse_url (print_url sch host port path) =
    Some (host, default 80 port, url_path path).
Proof. apply parse_print_url. Qed.

(** ** The tunnel *)

Definition count_sent (n : Z) (s : proxy_stats_t) : proxy_stats_t :=
  Stats s.(total_connections) s.(active_connections) (u64 (s.(bytes_sent) + n)) s.(bytes_received).
Definition count_received (n : Z) (s : proxy_stats_t) : proxy_stats_t :=
  Stats s.(total_connections) s.(active_connections) s.(bytes_sent) (u64 (s.(bytes_received) + n)).

(** Everything that can still be received, behind errors too. *)
Definition arriving (xs : list (option (list byte))) : list byte := mjoin (default [] <$> xs).
Lemma arriving_cons x xs : arriving (x :: xs) = default [] x ++ arriving xs.
Proof. reflexivity. Qed.
Lemma recv_arriving n s : 0 < n → ∃ q s', recv n s = Ret (q, s') ∧ s'.(sent) = s.(sent) ∧ s'.(sends) = s.(sends) ∧
  arriving s.(inbox) = q.2 ++ arriving s'.(inbox) ∧ (q.1 ≤ 0 ∧ q.2 = [] ∨ q.1 = strlen q.2 ∧ q.2 ≠ []).
Proof.
  intros Hn. unfold recv. destruct (inbox s) as [|[[|b c]|] xs] eqn:Ei.
  - do 2 eexists. split; [done|]. rewrite Ei. split_and!; try done. by left.
  - change (strlen [] <=? n) with (0 <=? n). rewrite (proj2 (Z.leb_le _ _)) by lia.
    do 2 eexists. split; [done|]. split_and!; try done. by left.
  - destruct (Z.leb_spec (strlen (b :: c)) n) as [Hl|Hl]; do 2 eexists; (split; [done|]); cbn [fst snd inbox].
    + split_and!; try done. by right.
    + assert (Ht : strlen (take (Z.to_nat n) (b :: c)) = n) by (unfold strlen in *; rewrite length_take; lia).
      split_and!; try done; [|right; split; [done|]].
      * rewrite !arriving_cons. cbn [default from_option id]. by rewrite (assoc_L (++)), take_drop.
      * intros E. rewrite E in Ht. unfold strlen in Ht. simpl in Ht. lia.
  - do 2 eexists. split; [done|]. split_and!; try done. by left.
Qed.

(** Some answer of the kernel to a send is a failure. *)
Definition can_fail (ns : list Z) : Prop := ∃ n, n ≤ 0 ∧ n ∈ ns.

(** One direction on its two sockets: the piece taken from the source is passed on
    whole ([None]), the source has ended, or a send fails after a part of the piece. *)
Inductive moved (from to from' to' : sock) (st st' : proxy_stats_t) (count : Z → proxy_stats_t → proxy_stats_t)
    : option Z → Prop :=
  | moved_piece bs : bs ≠ [] → arriving from.(inbox) = bs ++ arriving from'.(inbox) →
      to'.(sent) = to.(sent) ++ bs → st' = count (strlen bs) st → to'.(sends) `suffix_of` to.(sends) →
      moved from to from' to' st st' count None
  | moved_end : arriving from.(inbox) = arriving from'.(inbox) → to' = to → st' = st →
      moved from to from' to' st st' count (Some 0)
  | moved_fail bs k : arriving from.(inbox) = bs ++ arriving from'.(inbox) → to'.(sent) = to.(sent) ++ take k bs →
      st' = st → can_fail to.(sends) → moved from to from' to' st st' count (Some (-1)).

Ltac relay_run from to count :=
  unfold relay_up, relay_down, relay;
  let q := fresh "q" in let s := fresh "s" in let E := fresh "E" in
  destruct (recv_arriving TUNNEL_BUFFER_SIZE from) as (q & s & E & Hsent & Hsd & Ha & Hq); [done|];
  unfold mbind, C_bind, on_client, on_upstream; cbn [client_sock upstream_sock stats]; rewrite E;
  cbn [client_sock upstream_sock stats];
  destruct Hq as [[Hle H0]|[Hr Hne]];
  [ rewrite (proj2 (Z.leb_le _ _)) by done; rewrite H0 in Ha;
    do 2 eexists; exists s, to; split_and!; [reflexivity|done|done|done|by apply moved_end]
  | rewrite (proj2 (Z.leb_gt _ _)) by (rewrite Hr; unfold strlen; destruct q.2; [done|simpl; lia]);
    destruct (send_loop_script (length q.2) q.2 to) as (e & t & us & Et & Hi & Hus & He); [done|];
    unfold send_all; cbn [client_sock upstream_sock stats]; rewrite Et;
    destruct He as [(-> & _ & Hts)|(-> & oks & m & -> & _ & Hm & _ & Hts)];
    [ do 2 eexists; exists s, t; split_and!; [reflexivity|done|done|done|];
      apply (moved_piece _ _ _ _ _ _ _ q.2); [done|done|done|by rewrite Hr|by exists us]
    | do 2 eexists; exists s, t; split_and!; [reflexivity|done|done|done|];
      eapply (moved_fail _ _ _ _ _ _ _ q.2); [done|exact Hts|done|];
      exists m; split; [done|rewrite Hus; set_solver] ] ].

Lemma relay_up_run cl u st : ∃ o st' cl' u', relay_up (Conn cl (Some u) st) = Ret (o, Conn cl' (Some u') st') ∧
  u'.(inbox) = u.(inbox) ∧ cl'.(sent) = cl.(sent) ∧ cl'.(sends) = cl.(sends) ∧ moved cl u cl' u' st st' count_sent o.
Proof. relay_run cl u count_sent. Qed.
Lemma relay_down_run cl u st : ∃ o st' u' cl', relay_down (Conn cl (Some u) st) = Ret (o, Conn cl' (Some u') st') ∧
  cl'.(inbox) = cl.(inbox) ∧ u'.(sent) = u.(sent) ∧ u'.(sends) = u.(sends) ∧ moved u cl u' cl' st st' count_received o.
Proof. relay_run u cl count_received. Qed.

Definition stats_ok (s : proxy_stats_t) : Prop :=
  is_u64 s.(total_connections) ∧ is_u64 s.(active_connections) ∧ is_u64 s.(bytes_sent) ∧
  is_u64 s.(bytes_received).
Definition counted (n m : Z) (s : proxy_stats_t) : proxy_stats_t := count_sent n (count_received m s).

(** What a finished tunnel has done: [a] and [b] are the bytes it took from the client
    and from upstream, [fa] and [fb] what was passed on. *)
Definition tunnelled (script : list select_t) (cl u cl' u' : sock) (st st' : proxy_stats_t) (r : Z) : Prop :=
  ∃ a b fa fb, arriving cl.(inbox) = a ++ arriving cl'.(inbox) ∧ arriving u.(inbox) = b ++ arriving u'.(inbox) ∧
    u'.(sent) = u.(sent) ++ fa ∧ cl'.(sent) = cl.(sent) ++ fb ∧
    (r = 0 ∧ fa = a ∧ fb = b ∧ st' = counted (strlen a) (strlen b) st ∨
     r = -1 ∧ fa `prefix_of` a ∧ fb `prefix_of` b ∧
       (Failed ∈ script ∧ fa = a ∧ fb = b ∨ can_fail u.(sends) ∧ fb = b ∨ can_fail cl.(sends) ∧ fa = a)).

Lemma count_zero s : stats_ok s → counted 0 0 s = s.
Proof.
  intros (_ & _ & ? & ?). destruct s as [t a bs br]. unfold counted, count_sent, count_received. simpl in *.
  by rewrite !Z.add_0_r, !u64_small.
Qed.
Lemma u64_add_l x y : u64 (u64 x + y) = u64 (x + y).
Proof. unfold u64. by rewrite Z.add_mod_idemp_l by lia. Qed.
Lemma stats_ok_sent n s : stats_ok s → stats_ok (count_sent n s).
Proof. intros (? & ? & ? & ?). split_and!; try done; apply u64_range. Qed.
Lemma stats_ok_received n s : stats_ok s → stats_ok (count_received n s).
Proof. intros (? & ? & ? & ?). split_and!; try done; apply u64_range. Qed.

Lemma can_fail_suffix l l' : l' `suffix_of` l → can_fail l' → can_fail l.
Proof. intros [k ->] (n & Hn & Hin). exists n. set_solver. Qed.

Lemma tunnelled_nothing script cl u st r : stats_ok st → r = 0 ∨ r = -1 ∧ Failed ∈ script → tunnelled script cl u cl u st st r.
Proof.
  intros Hst Hr. exists [], [], [], []. rewrite !app_nil_r. split_and!; try done.
  destruct Hr as [->|[-> Hf]]; [left; by rewrite count_zero|right]. split_and!; [done|done|done|by left].
Qed.
(** A piece moved upstream in front of the rest of a run. *)
Lemma tunnelled_up script cl u st bs cl1 u1 cl' u' st' r :
  arriving cl.(inbox) = bs ++ arriving cl1.(inbox) → u1.(inbox) = u.(inbox) → cl1.(sent) = cl.(sent) →
  cl1.(sends) = cl.(sends) → u1.(sends) `suffix_of` u.(sends) →
  u1.(sent) = u.(sent) ++ bs → tunnelled script cl1 u1 cl' u' (count_sent (strlen bs) st) st' r →
  tunnelled script cl u cl' u' st st' r.
Proof.
  intros Hp Hi Hc Hcs Hus Hu (a & b & fa & fb & Ha & Hb & Hu' & Hc' & Hr).
  exists (bs ++ a), b, (bs ++ fa), fb. rewrite Hi in Hb. rewrite Hc in Hc'. rewrite Hcs in Hr.
  split_and!; [by rewrite Hp, Ha, (assoc_L (++))|done|by rewrite Hu', Hu, (assoc_L (++))|done|].
  destruct Hr as [(-> & -> & -> & ->)|(-> & Hfa & Hfb & Hr)]; [left|right].
  - split_and!; [done|done|done|]. unfold counted, count_sent, count_received. simpl. f_equal. rewrite u64_add_l.
    unfold strlen. rewrite length_app. f_equal. lia.
  - split_and!; [done|by apply prefix_app|done|].
    destruct Hr as [(? & -> & ->)|[[Hf ->]|[? ->]]]; [by left|right; left|by right; right].
    split; [by eapply can_fail_suffix|done].
Qed.
Lemma tunnelled_down script cl u st bs cl1 u1 cl' u' st' r :
  arriving u.(inbox) = bs ++ arriving u1.(inbox) → cl1.(inbox) = cl.(inbox) → u1.(sent) = u.(sent) →
  u1.(sends) = u.(sends) → cl1.(sends) `suffix_of` cl.(sends) →
  cl1.(sent) = cl.(sent) ++ bs → tunnelled script cl1 u1 cl' u' (count_received (strlen bs) st) st' r →
  tunnelled script cl u cl' u' st st' r.
Proof.
  intros Hp Hi Hu Hus Hcs Hc (a & b & fa & fb & Ha & Hb & Hu' & Hc' & Hr).
  exists a, (bs ++ b), fa, (bs ++ fb). rewrite Hi in Ha. rewrite Hu in Hu'. rewrite Hus in Hr.
  split_and!; [done|by rewrite Hp, Hb, (assoc_L (++))|done|by rewrite Hc', Hc, (assoc_L (++))|].
  destruct Hr as [(-> & -> & -> & ->)|(-> & Hfa & Hfb & Hr)]; [left|right].
  - split_and!; [done|done|done|]. unfold counted, count_sent, count_received. simpl. f_equal. rewrite u64_add_l.
    unfold strlen. rewrite length_app. f_equal. lia.
  - split_and!; [done|done|by apply prefix_app|].
    destruct Hr as [(? & -> & ->)|[[? ->]|[Hf ->]]]; [by left|by right; left|right; right].
    split; [by eapply can_fail_suffix|done].
Qed.

(** The end of a direction ends the run. *)
Lemma moved_up_end script cl u cl1 u1 st st1 r : stats_ok st → u1.(inbox) = u.(inbox) → cl1.(sent) = cl.(sent) →
  moved cl u cl1 u1 st st1 count_sent (Some r) → tunnelled script cl u cl1 u1 st st1 r.
Proof.
  intros Hst Hi Hc Hm. inversion Hm as [|? ?|bs k Hbs Hs ? ?]; subst.
  - exists [], [], [], []. rewrite Hc, !app_nil_r. split_and!; try done. left. by rewrite count_zero.
  - exists bs, [], (take k bs), []. rewrite Hc, Hi, app_nil_r. split_and!; try done. right.
    split_and!; [done|exists (drop k bs); by rewrite take_drop|done|by right; left].
Qed.
Lemma moved_down_end script cl u cl1 u1 st st1 r : stats_ok st → cl1.(inbox) = cl.(inbox) → u1.(sent) = u.(sent) →
  moved u cl u1 cl1 st st1 count_received (Some r) → tunnelled script cl u cl1 u1 st st1 r.
Proof.
  intros Hst Hi Hc Hm. inversion Hm as [|? ?|bs k Hbs Hs ? ?]; subst.
  - exists [], [], [], []. rewrite Hc, !app_nil_r. split_and!; try done. left. by rewrite count_zero.
  - exists [], bs, [], (take k bs). rewrite Hc, Hi, app_nil_r. split_and!; try done. right.
    split_and!; [done|done|exists (drop k bs); by rewrite take_drop|by right; right].
Qed.
Lemma tunnelled_more e script cl u cl' u' st st' r : tunnelled script cl u cl' u' st st' r →
  tunnelled (e :: script) cl u cl' u' st st' r.
Proof.
  intros (a & b & fa & fb & Ha & Hb & Hu & Hc & Hr). exists a, b, fa, fb. split_and!; try done.
  destruct Hr as [?|(? & ? & ? & [[? ?]|?])]; [by left|right..]; split_and!; try done; [left|by right].
  split; [by apply list_elem_of_further|done].
Qed.

(** C19. The tunnel: whatever select reports and however either kernel cuts the
    streams, the tunnel returns 0 or -1.  Each byte it takes from one side it sends to
    the other, in order, without loss, repetition or alteration: with result 0 exactly
    the bytes taken have been sent, which are also what the statistics count.  With
    result -1 select failed, with nothing lost, or a send failed: then a prefix of the
    bytes taken for that side has been sent, and all of those for the other. *)
Theorem proxy_tunnel_relays script : ∀ cl u st, stats_ok st →
  ∃ r cl' u' st', proxy_tunnel script (Conn cl (Some u) st) = Ret (r, Conn cl' (Some u') st') ∧
    tunnelled script cl u cl' u' st st' r.
Proof.
  induction script as [|e script IH]; intros cl u st Hst; cbn [proxy_tunnel].
  { do 4 eexists. split; [reflexivity|]. apply tunnelled_nothing; [done|by left]. }
  destruct e as [| | |rc ru].
  { destruct (IH cl u st Hst) as (r & cl' & u' & st' & E & H). exists r, cl', u', st'. split; [done|by apply tunnelled_more]. }
  { do 4 eexists. split; [reflexivity|]. apply tunnelled_nothing; [done|right; split; [done|by constructor]]. }
  { do 4 eexists. split; [reflexivity|]. apply tunnelled_nothing; [done|by left]. }
  (* the upstream direction and what follows it *)
  assert (Hdown : ∀ cl u st, stats_ok st → ∃ r cl' u' st',
    (b ← (if ru then relay_down else mret None);
     match b with Some r => mret r | None => proxy_tunnel script end) (Conn cl (Some u) st) =
      Ret (r, Conn cl' (Some u') st') ∧ tunnelled script cl u cl' u' st st' r).
  { clear cl u st Hst. intros cl u st Hst. destruct ru; [|by apply IH].
    destruct (relay_down_run cl u st) as (o & st1 & u1 & cl1 & E & Hi & Hs & Hsd & Hm). c_step E.
    destruct o as [r|].
    - do 4 eexists. split; [reflexivity|]. by apply moved_down_end.
    - inversion Hm as [bs Hne Hp Hto Hst1 Hsuf| |]. subst st1.
      destruct (IH cl1 u1 _ (stats_ok_received (strlen bs) st Hst)) as (r & cl' & u' & st' & E2 & Ht).
      exists r, cl', u', st'. split; [done|]. by apply (tunnelled_down _ _ _ _ bs cl1 u1). }
  destruct rc.
  2:{ destruct (Hdown cl u st Hst) as (r & cl' & u' & st' & E & H). exists r, cl', u', st'. split; [done|by apply tunnelled_more]. }
  destruct (relay_up_run cl u st) as (o & st1 & cl1 & u1 & E & Hi & Hs & Hsd & Hm). c_step E.
  destruct o as [r|].
  - do 4 eexists. split; [reflexivity|]. by apply moved_up_end.
  - inversion Hm as [bs Hne Hp Hto Hst1 Hsuf| |]. subst st1.
    destruct (Hdown cl1 u1 _ (stats_ok_sent (strlen bs) st Hst)) as (r & cl' & u' & st' & E2 & Ht).
    exists r, cl', u', st'. split; [done|]. apply tunnelled_more. by apply (tunnelled_up _ _ _ _ bs cl1 u1).
Qed.

(** ** A request through the proxy *)


Definition word_ok (n : Z) (w : list byte) : Prop :=
  w ≠ [] ∧ strlen w ≤ n ∧ Forall (λ c, is_space c = false ∧ c ≠ x00) w.
Definition request_text (method url version rest : list byte) : list byte :=
  method ++ x20 :: url ++ x20 :: version ++ x0d :: x0a :: rest.

Lemma word_no_space n w : word_ok n w → Forall (λ c, is_space c = false) w.
Proof. intros (_ & _ & H). eapply Forall_impl; [exact H|]. by intros c []. Qed.
Lemma word_no_cr n w : word_ok n w → Forall (λ c, c ≠ x0d) w.
Proof. intros (_ & _ & H). eapply Forall_impl; [exact H|]. intros c [Hc _] ->. discriminate Hc. Qed.

Lemma scan_word_text n w r : (0 ≤ n) → word_ok n w → match r with [] => True | c :: _ => is_space c = true end →
  scan_word (Z.to_nat n) (w ++ r) = Some (w, r).
Proof.
  intros Hn Hw Hr. pose proof (word_no_space n w Hw). destruct Hw as (? & Hl & _).
  apply scan_word_exact; try done. unfold strlen in Hl. lia.
Qed.

Lemma parse_request_text m url v rest : word_ok 15 m → word_ok 2047 url → word_ok 15 v →
  proxy_parse_request_line (request_text m url v rest) = Some (m, url, v).
Proof.
  intros Hm Hu Hv. unfold proxy_parse_request_line, request_text.
  change 15%nat with (Z.to_nat 15). rewrite scan_word_text by done. cbn [mbind option_bind].
  rewrite scan_word_space, scan_word_text by done. cbn [mbind option_bind].
  rewrite scan_word_space, scan_word_text by done. done.
Qed.



Section handler.
Context (upstream : list byte → Z → option sock).



(** ** What the handlers do not check *)

(** The request line is parsed across line breaks: the rewritten line takes words
    from the following lines and what is appended behind it is not shorter. *)
Lemma split_request_overflows m v path rest : word_ok 15 m → word_ok 15 v →
  strlen path < MAX_PATH_LENGTH → MAX_REQUEST_SIZE ≤ strlen m + strlen path + strlen v + 4 + strlen rest →
  new_request (m ++ [x0d; x0a] ++ rest) m path v = UB.
Proof.
  intros Hm Hv Hp Hl. unfold new_request.
  change (m ++ [x0d; x0a] ++ rest) with (m ++ x0d :: x0a :: rest).
  rewrite (find_crlf m) by by apply word_no_cr with 15. rewrite drop_app_add. change (drop 2 (x0d :: x0a :: rest)) with rest.
  destruct Hm as (_ & Hm & _), Hv as (_ & Hv & _). unfold strlen, MAX_PATH_LENGTH, MAX_REQUEST_SIZE in *.
  rewrite take_ge by (rewrite !length_app; simpl; lia).
  by rewrite (proj2 (Z.ltb_ge _ _)) by (rewrite !length_app; simpl; lia).
Qed.

(** A CONNECT request for a name of 255 or more bytes. *)
Lemma connect_long_host_ub script m name r v rest c : word_ok 15 m → word_ok 2047 (name ++ r) → word_ok 15 v →
  Forall (λ c, c ≠ x3a) name → match r with [] => True | c :: _ => c = x3a end → MAX_HOST_LENGTH - 1 ≤ strlen name →
  handle_connect upstream script (request_text m (name ++ r) v rest) c = UB.
Proof.
  intros Hm Hu Hv Hn Hr Hl. unfold handle_connect. rewrite parse_request_text by done.
  rewrite (span_n_exact _ _ name r).
  2:{ rewrite length_app. lia. }
  2:{ eapply Forall_impl; [exact Hn|]. intros x Hx. by rewrite bool_decide_eq_false_2. }
  2:{ destruct r as [|x r]; [done|]. by rewrite Hr. }
  unfold copy_host. rewrite (proj2 (Z.ltb_ge _ _)) by done. done.
Qed.

(** A first packet of white space: the handler returns and the socket stays open. *)
Lemma blank_request_leaks script st xs :
  ∃ st', handle_client upstream script (Conn (Sock [] [] (Some (str "  ") :: xs) false) None st) =
    Ret (tt, Conn (Sock [] [] xs false) None st').
Proof.
  eexists. unfold handle_client.
  erewrite bind_Ret by reflexivity. cbn [fst snd]. change (strlen (str "  ") <=? 0) with false. cbv iota.
  erewrite bind_Ret by reflexivity. change (scan_word 15 (cstr (str "  "))) with (@None (list byte * list byte)).
  erewrite bind_Ret by reflexivity. reflexivity.
Qed.

End handler.

(** ** The connection queue *)

Definition server_ok (s : proxy_server) : Prop :=
  ring_ok s.(connection_queue) s.(max_connections) s.(queue_head) s.(queue_tail) s.(queue_size).
Definition queue_of (s : proxy_server) : list Z :=
  ring_list s.(connection_queue) s.(max_connections) s.(queue_head) s.(queue_size).

Lemma proxy_fifo_put s fd : server_ok s →
  if decide (Z.of_nat (length (queue_of s)) < s.(max_connections))
  then ∃ s', accept_connection fd s = Ret (true, s') ∧ server_ok s' ∧ queue_of s' = queue_of s ++ [fd] ∧
         s'.(max_connections) = s.(max_connections)
  else accept_connection fd s = Ret (false, s).
Proof.
  intros Hok. unfold queue_of. rewrite (ring_ok_length _ _ _ _ _ Hok). unfold accept_connection. case_decide.
  - destruct (ring_ok_put _ _ _ _ _ fd Hok) as ([x Hx] & Hok' & Hl); [done|].
    rewrite (proj2 (Z.ltb_lt _ _)), Hx by done. eexists. split; [reflexivity|]. done.
  - by rewrite (proj2 (Z.ltb_ge _ _)) by lia.
Qed.
Lemma proxy_fifo_take s : server_ok s →
  match queue_of s with
  | fd :: l => ∃ s', worker_take s = Ret (Some fd, s') ∧ server_ok s' ∧ queue_of s' = l ∧
                 s'.(max_connections) = s.(max_connections)
  | [] => worker_take s = Blocked ∨ worker_take s = Ret (None, s)
  end.
Proof.
  intros Hok. pose proof (ring_ok_length _ _ _ _ _ Hok) as Hl. fold (queue_of s) in Hl. unfold worker_take.
  destruct (decide (0 < s.(queue_size))) as [Hpos|Hz].
  - destruct (ring_ok_take _ _ _ _ _ Hok Hpos) as (fd & E & Hok' & Hq). fold (queue_of s) in Hq. rewrite Hq.
    rewrite (proj2 (Z.eqb_neq _ _)), (proj2 (Z.ltb_lt _ _)), E by lia. eexists. split; [reflexivity|]. done.
  - destruct (queue_of s) as [|fd l]; [|simpl in Hl; lia].
    rewrite (proj2 (Z.ltb_ge _ _)) by lia. rewrite <- Hl. cbn. destruct (running s); [by left|by right].
Qed.
#[global] Instance proxy_fifo : Fifo proxy_server Z := {|
  fifo_put_law := proxy_fifo_put; fifo_take_law := proxy_fifo_take
|}.

(** The connection queue: from a created server with a positive limit, in
    every interleaving of the accept loop, the workers and the stop request the
    workers receive the connections in the order they were queued, each exactly
    once, no slot outside the queue is touched, and a connection is refused only
    while max_connections are waiting. *)
Theorem proxy_queue_fifo max_conn s0 h :
  proxy_create max_conn true true true true true = Some s0 → 0 < max_conn →
  reach (λ s s', s' = set_running false s) (History (set_running true s0) [] [] []) h →
  h.(taken) ++ queue_of h.(queue) = h.(accepted) ∧
  (∀ fd, accept_connection fd h.(queue) ≠ UB) ∧ worker_take h.(queue) ≠ UB ∧
  ∀ h', step (λ s s', s' = set_running false s) h h' → h'.(refused) ≠ h.(refused) →
    max_conn ≤ Z.of_nat (length (queue_of h.(queue))).
Proof.
  intros Hc Hm Hr. injection Hc as <-.
  refine (fifo_history (Q := proxy_server) (A := Z) _ _ _ _ _ _ Hr).
  - by intros s s' ->.
  - apply ring_ok_empty; [done|apply length_replicate].
  - done.
Qed.

(** ** Witnesses *)

Definition wit_stats : proxy_stats_t := Stats 0 0 0 0.
Lemma wit_stats_ok : stats_ok wit_stats.
Proof. by repeat split. Qed.
Definition wit_host : list byte := str "example.org".
Lemma wit_host_ok : host_ok wit_host.
Proof. split; [by repeat constructor|reflexivity]. Qed.
Lemma wit_port_ok p : Some 8080 = Some p → 0 ≤ p < 2 ^ 16.
Proof. intros [= <-]. lia. Qed.
Lemma wit_path_ok : path_ok (str "/a").
Proof. by split. Qed.

Lemma proxy_url_roundtrip_witness :
  proxy_parse_url (str "http://example.org:8080/a") = Some (str "example.org", 8080, str "/a").
Proof.
  exact (proxy_url_roundtrip Http wit_host (Some 8080) (str "/a") wit_host_ok wit_port_ok (or_intror wit_path_ok)).
Defined.

Lemma proxy_tunnel_relays_witness :
  let cl := Sock [] [] [Some (str "ping")] false in
  let u := Sock [] [2] [Some (str "pong")] false in
  let script := [Interrupted; Readable true true; Timeout] in
  ∃ r cl' u' st', proxy_tunnel script (Conn cl (Some u) wit_stats) = Ret (r, Conn cl' (Some u') st') ∧
    tunnelled script cl u cl' u' wit_stats st' r.
Proof.
  intros cl u script. exact (proxy_tunnel_relays script cl u wit_stats wit_stats_ok).
Defined.



Lemma proxy_queue_fifo_witness :
  ∃ h : history proxy_server Z,
    reach (λ s s', s' = set_running false s)
      (History (set_running true (Server 2 false [0; 0] 0 0 0)) [] [] []) h ∧
    h.(accepted) = [7] ∧ h.(taken) ++ queue_of h.(queue) = h.(accepted).
Proof.
  set (s0 := Server 2 false [0; 0] 0 0 0).
  set (h := History (Server 2 true [7; 0] 0 1 1) [7] [] []).
  assert (Hr : reach (λ s s', s' = set_running false s) (History (set_running true s0) [] [] []) h).
  { eapply reach_step; [apply reach_refl|]. by apply (step_accept _ (set_running true s0) [] [] [] 7). }
  exists h. split; [exact Hr|]. split; [reflexivity|].
  destruct (proxy_queue_fifo 2 s0 h) as (H & _); [reflexivity|lia|exact Hr|exact H].
Defined.

End ProxySpec.
