(* ===== verification/ProxyLife.v ===== *)
(** * network-proxy: the server's life (proxy_create, proxy_start, proxy_stop, proxy_destroy
    and proxy_get_stats of network-proxy/src/proxy.c)

    The process is the one of [Process], the queue that of [Proxy], the threads those of
    [ConnPool]. *)

From stdpp Require Import gmap relations.
From S2P Require Import Prelude Calls Queue Process ConnPool Proxy ProxySpec.

Module ProxyLife.
Import Calls Queue Process Proxy ProxySpec.
#[local] Arguments Z.to_nat : simpl never.

Inductive handle := HServer | HListen | HQueue | HThreads | HSync | HLog | HThread | HInfo | HUpstream.
#[global] Instance handle_eq_dec : EqDecision handle.
Proof. solve_decision. Defined.
#[local] Notation proc := (Process.proc handle).
Inductive proxy_mode_t := PROXY_MODE_FORWARD | PROXY_MODE_REVERSE | PROXY_MODE_TRANSPARENT.
Record proxy_config_t := Config {
  listen_port : Z; mode : proxy_mode_t; conn_limit : Z; thread_pool_size : Z; enable_logging : bool; log_file : option (list byte)
}.
Definition PROXY_DEFAULT_CONFIG : proxy_config_t := Config 8080 PROXY_MODE_FORWARD 100 4 true (Some (str "proxy.log")).

Definition proxy_create (c : proxy_config_t) : C proc (option proxy_server) :=
  ok ← acquire HServer;
  if negb ok then mret None else
  ok ← acquire HListen;
  if negb ok then release HServer;; mret None else
  ok ← call;
  if negb ok then release HListen;; release HServer;; mret None else
  ok ← acquire HQueue;
  if negb ok then release HListen;; release HServer;; mret None else
  ok ← acquire HThreads;
  if negb ok then release HQueue;; release HListen;; release HServer;; mret None else
  hold HSync;;
  (if c.(enable_logging) && bool_decide (is_Some c.(log_file)) then acquire HLog else mret true);;
  mret (Proxy.proxy_create c.(conn_limit) true true true true true).
Definition mode_text (m : proxy_mode_t) : list byte :=
  match m with PROXY_MODE_FORWARD => str "Forward" | PROXY_MODE_REVERSE => str "Reverse" | PROXY_MODE_TRANSPARENT => str "Transparent" end.
(** Whether the workers leave their connections and their loop, so that they can be joined,
    is a parameter; [ConnPool] tells when. *)
Definition proxy_stop (workers_end : bool) : C proc unit := join_threads HThread workers_end.
Definition proxy_start (workers_end : bool) (c : proxy_config_t) (s : proxy_server) (rs : list accepted) : C proc Z :=
  ok ← call;
  if negb ok then mret (-1) else
  print (str "Proxy server listening on port " ++ dec c.(listen_port) ++ [x0a]);;
  print (str "Mode: " ++ mode_text c.(mode) ++ [x0a]);;
  ok ← create_threads HThread (Z.to_nat c.(thread_pool_size));
  if negb ok then mret (-1) else
  accept_loop accept_connection running set_running (λ _, proxy_stop workers_end) rs (set_running true s);;
  mret 0.
(** Threads that were not joined use what is destroyed here. *)
Definition proxy_destroy : C proc unit :=
  unused HThread;; release HListen;; release HQueue;; release HThreads;; release HLog;; release HSync;; release HServer.
Definition proxy_get_stats (s : proxy_stats_t) : Z * proxy_stats_t := (0, s).
(** The first address getaddrinfo gives is the only one tried; [true] is a descriptor. *)
Definition proxy_connect_upstream : C proc bool :=
  ok ← acquire HInfo;
  if negb ok then mret false else
  ok ← acquire HUpstream;
  if negb ok then release HInfo;; mret false else
  ok ← call;
  if negb ok then release HUpstream;; release HInfo;; mret false else
  release HInfo;;
  mret true.
(** A client of the interface: a server created, started until it is stopped, destroyed. *)
Definition lifetime (workers_end : bool) (c : proxy_config_t) (rs : list accepted) : C proc (option Z) :=
  s ← proxy_create c;
  match s with
  | None => mret None
  | Some s => z ← proxy_start workers_end c s rs; proxy_destroy;; mret (Some z)
  end.

(** ** What is held at the end *)

Definition fresh_server (c : proxy_config_t) : proxy_server := Server c.(conn_limit) false (replicate (Z.to_nat c.(conn_limit)) 0) 0 0 0.
Lemma proxy_ok_fresh c b : 0 < c.(conn_limit) → server_ok (set_running b (fresh_server c)).
Proof. intros H. apply ring_ok_empty; [done|apply length_replicate]. Qed.
Lemma accept_keeps fd s : server_ok s → ∃ b s', accept_connection fd s = Ret (b, s') ∧ server_ok s' ∧ running s' = running s.
Proof.
  intros Hs. pose proof (proxy_fifo_put s fd Hs) as He. case_decide; [|by eexists _, _].
  destruct He as (s' & E & Hs' & _). eexists _, _. split_and!; [done..|]. unfold accept_connection in E. repeat case_match; try done. by injection E as <-.
Qed.
Lemma proxy_running_set b s : server_ok s → server_ok (set_running b s) ∧ running (set_running b s) = b.
Proof. done. Qed.
Definition base : list handle := [HSync; HThreads; HQueue; HListen; HServer].
Lemma proxy_create_ends {B} c p (k : option proxy_server → C proc B) f : p.(held) = [] →
  (∀ p', all_ok 5 p.(script) = false → p'.(held) = [] → ends (k None p') f) →
  (∀ p', all_ok 5 p.(script) = true → p'.(held) = base ∨ p'.(held) = HLog :: base →
     p'.(script) = drop (if c.(enable_logging) && bool_decide (is_Some c.(log_file)) then 6 else 5) p.(script) → ends (k (Some (fresh_server c)) p') f) →
  ends ((proxy_create c ≫= k) p) f.
Proof.
  intros Hp HN HS. unfold proxy_create. cbn [all_ok] in HN, HS. rewrite !andb_assoc in *.
  apply ends_assoc, ends_acquire; intros p1 E1 S1. destruct (default true (head (script p))); cbn [negb andb] in *; [|apply HN; [done|congruence]].
  apply ends_assoc, ends_acquire; intros p2 E2 S2. rewrite S1 in *. destruct (default true (head (tail (script p)))); cbn [negb andb] in *; [|apply HN; [done|cbn; by rewrite E2, E1, Hp]].
  apply ends_assoc, ends_call; intros p3 E3 S3. rewrite S2 in *. destruct (default true _); cbn [negb andb] in *; [|apply HN; [done|cbn; by rewrite E3, E2, E1, Hp]].
  apply ends_assoc, ends_acquire; intros p4 E4 S4. rewrite S3 in *. destruct (default true _); cbn [negb andb] in *; [|apply HN; [done|cbn; by rewrite E4, E3, E2, E1, Hp]].
  apply ends_assoc, ends_acquire; intros p5 E5 S5. rewrite S4 in *. destruct (default true _); cbn [negb andb] in *; [|apply HN; [done|cbn; by rewrite E5, E4, E3, E2, E1, Hp]].
  apply ends_assoc, ends_mod. rewrite E4, E3, E2, E1, Hp in E5. destruct (_ && bool_decide _).
  - apply ends_assoc, ends_acquire. cbn [held script]. intros p6 E6 S6. apply HS; [done|rewrite E6, E5; destruct (default true _); auto|].
    rewrite S6, S5. destruct (script p) as [|? [|? [|? [|? [|? [|]]]]]]; done.
  - apply HS; cbn; [done|left; by rewrite E5|]. rewrite S5. destruct (script p) as [|? [|? [|? [|? [|]]]]]; done.
Qed.
Lemma proxy_destroy_ends {A} (z : A) l p : l = base ∨ l = HLog :: base → p.(held) = l → ends ((proxy_destroy;; mret z) p) (Returns z []).
Proof.
  intros Hl Hp. unfold proxy_destroy. apply ends_assoc, ends_unused; [rewrite Hp; destruct Hl as [-> | ->]; set_solver|].
  destruct p as [h sc o e]. cbn in Hp. subst h. eexists. split; [reflexivity|]. by destruct Hl as [-> | ->].
Qed.
Lemma proxy_destroy_used {A} (z : A) k l p : (0 < k)%nat → p.(held) = replicate k HThread ++ l → ends ((proxy_destroy;; mret z) p) Undefined.
Proof. intros Hk Hp. unfold proxy_destroy. apply ends_assoc, ends_used. rewrite Hp. destruct k; [lia|by left]. Qed.

(** The end of a proxy that is created, started and destroyed, [b] telling whether a stop
    ended its accept loop. *)
Definition proxy_fate (workers_end : bool) (c : proxy_config_t) (b : bool) (sc : list bool) : fate handle (option Z) :=
  if negb (all_ok 5 sc) then Returns None [] else
  let sc := drop (if c.(enable_logging) && bool_decide (is_Some c.(log_file)) then 6 else 5) sc in
  if negb (default true (head sc)) then Returns (Some (-1)) [] else
  let n := Z.to_nat c.(thread_pool_size) in let k := good_calls n (tail sc) in
  if (k <? n)%nat then (if (k =? 0)%nat then Returns (Some (-1)) [] else Undefined) else
  if (n =? 0)%nat then Returns (Some 0) [] else
  if b then (if workers_end then Returns (Some 0) [] else Waits) else Undefined.
(** It gives back everything, its log file included, or waits for workers that do not end;
    undefined is what it does after a failed accept, or when not the first thread but a
    later one cannot be made: the threads go on with a server that is gone. *)
Theorem proxy_gives_back we c rs p b : p.(held) = [] → 0 < c.(conn_limit) → ending true rs = Some b →
  ends (lifetime we c rs p) (proxy_fate we c b p.(script)).
Proof.
  intros Hp Hc Hb. unfold lifetime, proxy_fate. apply proxy_create_ends; [done| |].
  { intros p' -> Hp'. by apply ends_ret. }
  intros p1 -> Hl S1. cbn [negb]. rewrite <- S1. set (n := Z.to_nat c.(thread_pool_size)).
  unfold proxy_start. apply ends_assoc, ends_call. intros p2 E2 S2. destruct (default true (head (script p1))); cbn [negb].
  2: { eapply ends_bind; [reflexivity|]. by apply (proxy_destroy_ends _ (held p1)). }
  apply ends_assoc, ends_mod, ends_assoc, ends_mod, ends_assoc, ends_threads. cbn [held script]. intros p3 E3. rewrite S2, E2 in *. fold n in E3 |- *.
  set (k := good_calls n (tail (script p1))) in *. pose proof (good_calls_le n (tail (script p1)) : (k ≤ n)%nat) as Hk.
  destruct (Nat.eqb_spec k n) as [Ekn|Hkn]; cbn [negb].
  2: { rewrite (proj2 (Nat.ltb_lt k n)) by lia. eapply ends_bind; [reflexivity|]. destruct (Nat.eqb_spec k 0) as [Ek0|Hk0].
       - rewrite Ek0 in E3. by apply (proxy_destroy_ends _ (held p1)); [|rewrite E3].
       - apply (proxy_destroy_used _ k (held p1)); [lia|done]. }
  rewrite (proj2 (Nat.ltb_ge k n)) by lia. clearbody k. subst k.
  assert (Hok : server_ok (set_running true (fresh_server c))) by by apply proxy_ok_fresh. apply ends_assoc.
  assert (Hno : HThread ∉ p1.(held)) by (destruct Hl as [-> | ->]; set_solver).
  apply (ends_accept accept_connection running set_running _ server_ok accept_keeps proxy_running_set HThread we n p1.(held) _ _ rs _ p3 b); [done..| | | |].
  - intros _ g Hj HK. by apply ends_join, HK.
  - intros _ Hin ->. unfold proxy_stop, join_threads. erewrite bind_Ret by reflexivity. by rewrite bool_decide_true.
  - intros p4 E4 Hj. eapply ends_bind; [reflexivity|]. destruct (Nat.eqb_spec n 0) as [En|Hn].
    + rewrite En in E4. apply (proxy_destroy_ends _ (held p1)); [done|]. by destruct b.
    + destruct b; [rewrite Hj by done; by apply (proxy_destroy_ends _ (held p1))|]. apply (proxy_destroy_used _ n (held p1)); [lia|done].
  - intros -> Hn ->. by destruct (Nat.eqb_spec n 0).
Qed.
Lemma proxy_gives_back_witness :
  ends (lifetime true PROXY_DEFAULT_CONFIG [AIntr; AConn 5; AStop false SIGINT] (Proc [] [true; true; true; true; true; false] [] [])) (Returns (Some 0) []) ∧
  ends (lifetime true PROXY_DEFAULT_CONFIG [AFail] (Proc [] [true; true; true; true; true; false; true; true; false] [] [])) Undefined.
Proof.
  split.
  - apply (proxy_gives_back true PROXY_DEFAULT_CONFIG [AIntr; AConn 5; AStop false SIGINT] (Proc [] [true; true; true; true; true; false] [] []) true); reflexivity.
  - apply (proxy_gives_back true PROXY_DEFAULT_CONFIG [AFail] (Proc [] [true; true; true; true; true; false; true; true; false] [] []) false); reflexivity.
Defined.

(** What is left of a connection attempt is the connection. *)
Lemma connect_upstream_ends p : p.(held) = [] → ends (proxy_connect_upstream p) (if all_ok 3 p.(script) then Returns true [HUpstream] else Returns false []).
Proof.
  intros Hp. unfold proxy_connect_upstream. cbn [all_ok].
  apply ends_acquire; intros p1 E1 S1. destruct (default true (head (script p))); cbn [negb andb]; [|apply ends_ret; congruence].
  apply ends_acquire; intros p2 E2 S2. rewrite S1 in *. destruct (default true _); cbn [negb andb]; [|apply ends_mod, ends_ret; cbn; by rewrite E2, E1, Hp].
  apply ends_call; intros p3 E3 S3. rewrite S2 in *. destruct (default true _); cbn [negb andb]; repeat apply ends_mod; apply ends_ret; cbn; by rewrite E3, E2, E1, Hp.
Qed.

(** ** Stopping *)

Lemma proxy_stop_fine s : server_ok s → server_ok (set_running false s) ∧ running (set_running false s) = false ∧ queue_of (set_running false s) = queue_of s.
Proof. done. Qed.
Lemma proxy_put_fine fd s b s' : server_ok s → accept_connection fd s = Ret (b, s') → server_ok s' ∧ queue_of s' = queue_of s ++ if b then [fd] else [].
Proof.
  intros Hs E. pose proof (proxy_fifo_put s fd Hs) as He. case_decide.
  - destruct He as (s1 & E1 & ? & ? & _). rewrite E1 in E. by injection E as <- <-.
  - rewrite He in E. injection E as <- <-. by rewrite app_nil_r.
Qed.
Lemma proxy_take_fine s o s' : server_ok s → worker_take s = Ret (o, s') → server_ok s' ∧ queue_of s = option_list o ++ queue_of s'.
Proof.
  intros Hs E. pose proof (proxy_fifo_take s Hs) as Ht. destruct (queue_of s) eqn:Eq.
  - destruct Ht as [Ht|Ht]; rewrite Ht in E; [done|]. injection E as <- <-. by rewrite Eq.
  - destruct Ht as (s1 & E1 & ? & ? & _). rewrite E1 in E. injection E as <- <-. cbn. by split; [|congruence].
Qed.
Lemma proxy_take_off s : server_ok s → running s = false → ∃ o s', worker_take s = Ret (o, s') ∧ running s' = false.
Proof.
  intros Hs Ho. pose proof (proxy_fifo_take s Hs) as Ht. destruct (queue_of s) as [|fd l].
  - unfold worker_take in *. rewrite Ho, andb_false_r in *. destruct Ht as [Ht|Ht]; [|by exists None, s]. repeat case_match; done.
  - destruct Ht as (s' & E & _). exists (Some fd), s'. split; [done|]. unfold worker_take in E. repeat case_match; try done. by injection E as _ <-.
Qed.
#[global] Instance proxy_pool : ConnPool.Server proxy_server := {|
  ConnPool.is_running := running; ConnPool.stop_running := set_running false; ConnPool.put := accept_connection; ConnPool.take_conn := worker_take;
  ConnPool.server_fine := server_ok; ConnPool.conns := queue_of; ConnPool.stop_law := proxy_stop_fine; ConnPool.put_law := proxy_put_fine; ConnPool.take_law := proxy_take_fine;
  ConnPool.take_stopped := proxy_take_off
|}.

(** proxy_stop from a signal handler: it returns within 6 n + 2 steps of the n workers if
    the main thread was outside its critical section, no worker about to wait, and the
    tunnels and requests of all clients, those that wait included, come to an end. *)
Theorem proxy_stop_returns answers c n s s1 k s' : 0 < c.(conn_limit) →
  rtc (ConnPool.any_step answers) (ConnPool.started (set_running true (fresh_server c)) n) s →
  ConnPool.sig s = ConnPool.HNone → ConnPool.step answers s s1 → ConnPool.sig s1 = ConnPool.HFlagged →
  ConnPool.main_holds (ConnPool.main s) = false → ConnPool.WSleepy ∉ ConnPool.workers s → (∀ fd, ConnPool.attended s fd → answers fd) →
  nsteps (ConnPool.waiting answers) k s1 s' → (k ≤ 6 * n + 2)%nat ∧ ∃ s2, ConnPool.step answers s' s2.
Proof. intros Hc. apply (ConnPool.stop_in_time (Q := proxy_server)). by apply proxy_ok_fresh. Qed.

(** Where it does not return: a worker that misses the broadcast sent without the mutex
    sleeps while it is joined; a handler that interrupted the critical section waits for
    workers that wait for the mutex its own thread holds; and a worker waits for a client
    that sends nothing. *)
Theorem proxy_stop_hangs answers c fd : 0 < c.(conn_limit) → 0 ≤ fd →
  let s0 := ConnPool.started (set_running true (fresh_server c)) 1 in
  (∃ s, rtc (ConnPool.step answers) s0 s ∧ ConnPool.sig s = ConnPool.HJoin ∧ ConnPool.workers s = [ConnPool.WAsleep] ∧
     ConnPool.main_holds (ConnPool.main s) = false ∧ ∀ s', ¬ ConnPool.step answers s s') ∧
  (∃ s, rtc (ConnPool.step answers) s0 s ∧ ConnPool.sig s = ConnPool.HJoin ∧ ConnPool.main s = ConnPool.MHold fd ∧ ∀ s', ¬ ConnPool.any_step answers s s') ∧
  (¬ answers fd → ∃ s, rtc (ConnPool.step answers) s0 s ∧ ConnPool.sig s = ConnPool.HJoin ∧ ConnPool.workers s = [ConnPool.WServe fd] ∧
     ConnPool.main_holds (ConnPool.main s) = false ∧ ∀ s', ¬ ConnPool.any_step answers s s').
Proof.
  intros Hc Hfd s0. split_and!; [by apply (ConnPool.stop_loses_wakeup (Q := proxy_server))|by apply (ConnPool.stop_deadlocks (Q := proxy_server))|].
  intros Ha. set (q := set_running true (fresh_server c)). pose proof (proxy_ok_fresh c true Hc : server_ok q) as Hq.
  assert (Eq : queue_of q = []) by (by unfold queue_of, q, fresh_server). pose proof (proxy_fifo_put q fd Hq) as Hp. rewrite Eq, decide_True in Hp by (cbn; lia).
  destruct Hp as (q1 & E1 & Hq1 & El & _). pose proof (proxy_fifo_take q1 Hq1) as Ht. rewrite El in Ht. destruct Ht as (q2 & E2 & _).
  by apply (ConnPool.stop_waits_for_client (Q := proxy_server) answers q fd q1 q2).
Qed.
Lemma proxy_stop_hangs_witness :
  ∃ s, rtc (ConnPool.step (λ _, False)) (ConnPool.started (set_running true (fresh_server PROXY_DEFAULT_CONFIG)) 1) s ∧
    ConnPool.sig s = ConnPool.HJoin ∧ ConnPool.main s = ConnPool.MHold 7 ∧ ∀ s', ¬ ConnPool.any_step (λ _, False) s s'.
Proof. apply (proxy_stop_hangs (λ _, False) PROXY_DEFAULT_CONFIG 7); [reflexivity|lia]. Defined.
End ProxyLife.
