(* ===== verification/IpcBench.v ===== *)
(** * ipc-bench: set-up and release of the benchmarks, statistics and the program
    (ipc-bench/src/bench_pipe.c, bench_fifo.c, bench_mqueue.c, bench_shm.c, bench_unix.c,
    bench_tcp.c, utils.c, main.c)

    A benchmark function holds descriptors, semaphores, a mapping, a buffer and a child,
    and makes names in the file system; each system call succeeds or fails by a script.
    The message rounds, which the child answers, are one call here: [IpcRounds] has
    them.  Samples are doubles; the sorting of qsort is an argument. *)

From Stdlib Require Import Floats.SpecFloat.
From stdpp Require Import gmap.
From S2P Require Import Prelude Double Getopt.
Import Double.

Module IpcBench.

(** ** What a benchmark holds *)

Inductive handle := Fd (k : nat) | Sem (k : nat) | Mapping | Buffer | Child.
#[global] Instance handle_eq_dec : EqDecision handle.
Proof. solve_decision. Defined.
Record world := World { held : list handle; names : gset (list byte); script : list bool }.
(** The next result of a call that can fail; calls succeed when the script is used up. *)
Definition call : C world bool := λ w, Ret (default true (head w.(script)), World w.(held) w.(names) (tail w.(script))).
Definition hold (h : handle) : C world unit := c_mod (λ w, World (h :: w.(held)) w.(names) w.(script)).
Definition release (h : handle) : C world unit := c_mod (λ w, World (filter (λ x, x ≠ h) w.(held)) w.(names) w.(script)).
Definition link (p : list byte) : C world unit := c_mod (λ w, World w.(held) ({[p]} ∪ w.(names)) w.(script)).
Definition unlink (p : list byte) : C world unit := c_mod (λ w, World w.(held) (w.(names) ∖ {[p]}) w.(script)).
(** Acquire handles with one call; make a name with one call. *)
Fixpoint hold_all (hs : list handle) : C world unit := match hs with [] => mret tt | h :: hs' => hold h;; hold_all hs' end.
Fixpoint release_all (hs : list handle) : C world unit := match hs with [] => mret tt | h :: hs' => release h;; release_all hs' end.
Definition acquire (hs : list handle) : C world bool := ok ← call; (if (ok : bool) then hold_all hs else mret tt);; mret ok.
Definition make (p : list byte) : C world bool := ok ← call; (if (ok : bool) then link p else mret tt);; mret ok.
(** Make a name and get a handle for it, as shm_open and mq_open do. *)
Definition make_open (p : list byte) (h : handle) : C world bool :=
  ok ← call; (if (ok : bool) then link p;; hold h else mret tt);; mret ok.

(** ** The benchmarks *)

Definition fail : C world Z := mret (-1).
(** From the buffer to the end of the rounds; a failure leaves only the buffer freed. *)
Definition rounds (finish : C world unit) : C world Z :=
  ok ← acquire [Buffer];
  if negb ok then fail else
  ok ← call;
  release Buffer;;
  if negb ok then fail else finish;; mret 0.

(** p2c is 0 and 1, c2p is 2 and 3. *)
Definition bench_pipe_parent_child : C world Z :=
  ok ← acquire [Fd 0; Fd 1];
  if negb ok then fail else
  ok ← acquire [Fd 2; Fd 3];
  if negb ok then release_all [Fd 0; Fd 1];; fail else
  ok ← acquire [Child];
  if negb ok then release_all [Fd 0; Fd 1; Fd 2; Fd 3];; fail else
  release_all [Fd 0; Fd 3];;
  rounds (release_all [Fd 1; Fd 2; Child]).

Definition FIFO_P2C : list byte := str "/tmp/ipc_bench_fifo_p2c".
Definition FIFO_C2P : list byte := str "/tmp/ipc_bench_fifo_c2p".
Definition bench_fifo : C world Z :=
  unlink FIFO_P2C;; unlink FIFO_C2P;;
  ok ← make FIFO_P2C;
  if negb ok then fail else
  ok ← make FIFO_C2P;
  if negb ok then unlink FIFO_P2C;; fail else
  ok ← acquire [Child];
  if negb ok then unlink FIFO_P2C;; unlink FIFO_C2P;; fail else
  ok ← acquire [Fd 0];
  if negb ok then unlink FIFO_P2C;; unlink FIFO_C2P;; fail else
  ok ← acquire [Fd 1];
  if negb ok then release (Fd 0);; unlink FIFO_P2C;; unlink FIFO_C2P;; fail else
  ok ← acquire [Buffer];
  if negb ok then release_all [Fd 0; Fd 1];; fail else
  ok ← call;
  release Buffer;;
  if negb ok then fail else
  release_all [Fd 0; Fd 1; Child];; unlink FIFO_P2C;; unlink FIFO_C2P;; mret 0.

Definition MQ_P2C : list byte := str "/ipc_bench_mq_p2c".
Definition MQ_C2P : list byte := str "/ipc_bench_mq_c2p".
Definition bench_mqueue : C world Z :=
  unlink MQ_P2C;; unlink MQ_C2P;;
  ok ← make_open MQ_P2C (Fd 0);
  if negb ok then fail else
  ok ← make_open MQ_C2P (Fd 1);
  if negb ok then release (Fd 0);; unlink MQ_P2C;; fail else
  ok ← acquire [Child];
  if negb ok then release_all [Fd 0; Fd 1];; unlink MQ_P2C;; unlink MQ_C2P;; fail else
  release (Fd 1);;
  ok ← acquire [Fd 2];
  if negb ok then fail else
  rounds (release_all [Fd 0; Fd 2; Child];; unlink MQ_P2C;; unlink MQ_C2P).

Definition SHM_NAME : list byte := str "/ipc_bench_shm".
Definition SHM_SEM_PROD : list byte := str "/ipc_bench_sem_prod".
Definition SHM_SEM_CONS : list byte := str "/ipc_bench_sem_cons".
(** shm_open, ftruncate and mmap; -1 has released what was acquired. *)
Definition shm_setup : C world bool :=
  unlink SHM_NAME;;
  ok ← make_open SHM_NAME (Fd 0);
  if negb ok then mret false else
  ok ← call;
  if negb ok then release (Fd 0);; unlink SHM_NAME;; mret false else
  ok ← acquire [Mapping];
  if negb ok then release (Fd 0);; unlink SHM_NAME;; mret false else mret true.
Definition shm_release : C world unit := release_all [Mapping; Fd 0];; unlink SHM_NAME.
Definition bench_shm : C world Z :=
  ok ← shm_setup;
  if negb ok then fail else
  ok ← acquire [Child];
  if negb ok then shm_release;; fail else
  ok ← acquire [Buffer];
  if negb ok then fail else
  release_all [Buffer; Child];; shm_release;; mret 0.
Definition bench_shm_semaphore : C world Z :=
  ok ← shm_setup;
  if negb ok then fail else
  unlink SHM_SEM_PROD;; unlink SHM_SEM_CONS;;
  prod ← make_open SHM_SEM_PROD (Sem 0);
  cons ← make_open SHM_SEM_CONS (Sem 1);
  if negb prod || negb cons then shm_release;; unlink SHM_SEM_PROD;; unlink SHM_SEM_CONS;; fail else
  ok ← acquire [Child];
  if negb ok then shm_release;; unlink SHM_SEM_PROD;; unlink SHM_SEM_CONS;; fail else
  ok ← acquire [Buffer];
  if negb ok then fail else
  release_all [Buffer; Child; Sem 0; Sem 1];; unlink SHM_SEM_PROD;; unlink SHM_SEM_CONS;; shm_release;; mret 0.

Definition UNIX_SOCK_PATH : list byte := str "/tmp/ipc_bench_unix.sock".
Definition DGRAM_CLIENT : list byte := str "/tmp/ipc_bench_unix_dgram_client.sock".
(** 0 listens, 1 is the connection. *)
Definition bench_unix_stream : C world Z :=
  unlink UNIX_SOCK_PATH;;
  ok ← acquire [Fd 0];
  if negb ok then fail else
  ok ← make UNIX_SOCK_PATH;
  if negb ok then release (Fd 0);; unlink UNIX_SOCK_PATH;; fail else
  ok ← call;
  if negb ok then release (Fd 0);; unlink UNIX_SOCK_PATH;; fail else
  ok ← acquire [Child];
  if negb ok then release (Fd 0);; unlink UNIX_SOCK_PATH;; fail else
  ok ← acquire [Fd 1];
  if negb ok then release (Fd 0);; unlink UNIX_SOCK_PATH;; fail else
  rounds (release_all [Fd 1; Fd 0; Child];; unlink UNIX_SOCK_PATH).
(** The child binds and removes its own name. *)
Definition bench_unix_dgram : C world Z :=
  unlink UNIX_SOCK_PATH;; unlink DGRAM_CLIENT;;
  ok ← acquire [Fd 0];
  if negb ok then fail else
  ok ← make UNIX_SOCK_PATH;
  if negb ok then release (Fd 0);; unlink UNIX_SOCK_PATH;; fail else
  ok ← acquire [Child];
  if negb ok then release (Fd 0);; unlink UNIX_SOCK_PATH;; fail else
  rounds (release_all [Fd 0; Child];; unlink UNIX_SOCK_PATH).
Definition bench_tcp_loopback : C world Z :=
  ok ← acquire [Fd 0];
  if negb ok then fail else
  ok ← call;
  if negb ok then release (Fd 0);; fail else
  ok ← call;
  if negb ok then release (Fd 0);; fail else
  ok ← acquire [Child];
  if negb ok then release (Fd 0);; fail else
  ok ← acquire [Fd 1];
  if negb ok then release (Fd 0);; fail else
  ok ← acquire [Buffer];
  if negb ok then release (Fd 1);; fail else
  ok ← call;
  release Buffer;;
  if negb ok then fail else
  release_all [Fd 1; Fd 0; Child];; mret 0.

(** ** Statistics (utils.c) *)

Record timespec := Timespec { tv_sec : Z; tv_nsec : Z }.
Definition time_diff_us (start end_ : timespec) : double :=
  let sec := of_Z (end_.(tv_sec) - start.(tv_sec)) in
  let nsec := of_Z (end_.(tv_nsec) - start.(tv_nsec)) in
  fadd (fmul sec (of_Z 1000000)) (fdiv nsec (of_Z 1000)).
Definition generate_test_data (len : nat) : list byte := (λ i, z2b (Z.land (Z.of_nat i) 255)) <$> seq 0 len.
Definition compare_double (a b : double) : Z := if flt a b then -1 else if flt b a then 1 else 0.

(** [count] is the length of [data]. *)
Record latency_collector_t := Collector { data : list double; capacity : Z }.
(** The collector and its array are allocated. *)
Definition collector_new (capacity : Z) (ok1 ok2 : bool) : option latency_collector_t :=
  if ok1 && ok2 then Some (Collector [] capacity) else None.
Definition collector_record (us : double) (c : latency_collector_t) : latency_collector_t :=
  if Z.of_nat (length c.(data)) <? c.(capacity) then Collector (c.(data) ++ [us]) c.(capacity) else c.

Record bench_result_t := Result {
  latency_us : double; throughput_mbps : double; min_us : double; max_us : double; p50_us : double; p99_us : double;
  iterations : Z; msg_size : Z
}.
Definition zero : double := S754_zero false.
(** The double nearest to 0.99. *)
Definition c099 : double := fdiv (of_Z 99) (of_Z 100).

Section program.
(** qsort with compare_double. *)
Context (qsort : list double → list double).

Definition sort_doubles (l : list double) : list double := qsort l.
(** [data[i]] for [0 <= i < count]. *)
Definition at_index (l : list double) (i : Z) : outcome double :=
  if 0 <=? i then match l !! Z.to_nat i with Some x => Ret x | None => UB end else UB.
Definition p99_index (count : Z) : outcome Z :=
  match trunc (fmul (of_Z count) c099) with Some i => Ret i | None => UB end.
Definition collector_compute_stats (c : latency_collector_t) : C bench_result_t unit :=
  r ← c_get;
  let count := Z.of_nat (length c.(data)) in
  if count =? 0 then mret tt else
  let d := sort_doubles c.(data) in
  let total := foldl fadd zero d in
  let latency := fdiv total (of_Z count) in
  lo ← c_lift (at_index d 0);
  hi ← c_lift (at_index d (count - 1));
  p50 ← c_lift (at_index d (count `div` 2));
  i99 ← c_lift (p99_index count);
  p99 ← c_lift (at_index d i99);
  c_put (Result latency (fdiv (of_Z r.(msg_size)) latency) lo hi p50 p99 count r.(msg_size)).

(** ** The program (main.c) *)

Record bench_test_t := Test { t_name : list byte; description : list byte }.
Definition tests : list bench_test_t :=
  [Test (str "pipe") (str "Pipe (parent-child)"); Test (str "fifo") (str "FIFO (named pipe)");
   Test (str "mqueue") (str "POSIX Message Queue"); Test (str "shm") (str "Shared Memory (busy wait)");
   Test (str "shm-sem") (str "Shared Memory + Semaphore"); Test (str "unix-stream") (str "Unix Domain Socket (stream)");
   Test (str "unix-dgram") (str "Unix Domain Socket (dgram)"); Test (str "tcp") (str "TCP Loopback")].
Definition BENCH_MSG_SIZE : Z := 4096.
Definition BENCH_ITERATIONS : Z := 10000.
Definition padl (w : nat) (s : list byte) : list byte := replicate (w - length s) x20 ++ s.

Definition row (cells : list (list byte)) : list byte :=
  match cells with [] => [] | n :: cs => padr 16 n ++ mjoin ((λ c, x20 :: padl 12 c) <$> cs) ++ [x0a] end.
Definition bench_print_header : list byte :=
  row [str "Test"; str "Avg(us)"; str "Min(us)"; str "Max(us)"; str "P50(us)"; str "P99(us)"] ++
  row (str "----------------" :: replicate 5 (str "------------")).
Definition bench_print_result (n : list byte) (r : bench_result_t) : list byte :=
  row (n :: (fixed 2 <$> [r.(latency_us); r.(min_us); r.(max_us); r.(p50_us); r.(p99_us)])).
(** A member of the JSON object; the quotes are those of the code. *)
Definition quoted (s : list byte) : list byte := x22 :: s ++ [x22].
Definition member (k : list byte) (v : double) : list byte := x2c :: quoted k ++ x3a :: fixed 2 v.
Definition json_result (n : list byte) (r : bench_result_t) : list byte :=
  str "  {" ++ quoted (str "name") ++ str ":" ++ quoted n ++ member (str "latency_us") r.(latency_us) ++
  member (str "throughput_mbps") r.(throughput_mbps) ++ member (str "min_us") r.(min_us) ++ member (str "max_us") r.(max_us) ++
  member (str "p50_us") r.(p50_us) ++ member (str "p99_us") r.(p99_us) ++ str "}".

(** What happens in the [k]-th call of run_test: whether the collector is allocated, and
    the latencies that the benchmark measured; its result is not looked at. *)
Record measured := Measured { allocated : bool; samples : list double }.
Context (runs : nat → measured).

Definition run_test (k : nat) (t : bench_test_t) (size iters : Z) (json : bool) : outcome (list byte) :=
  match collector_new iters (runs k).(allocated) true with
  | None => Ret []
  | Some c =>
      let c := foldl (λ c us, collector_record us c) c (runs k).(samples) in
      match collector_compute_stats c (Result zero zero zero zero zero zero 0 size) with
      | Ret (_, r) => Ret (if json then json_result t.(t_name) r else bench_print_result t.(t_name) r)
      | UB => UB | Blocked => Blocked | Fuel => Fuel
      end
  end.
Definition o_bind {A B} (o : outcome A) (f : A → outcome B) : outcome B :=
  match o with Ret a => f a | UB => UB | Blocked => Blocked | Fuel => Fuel end.
Definition comma (b : bool) : list byte := if b then x2c :: [x0a] else [].
(** All tests from the [k]-th on. *)
Fixpoint run_all (k : nat) (ts : list bench_test_t) (size iters : Z) (json : bool) : outcome (list byte) :=
  match ts with
  | [] => Ret []
  | t :: ts' =>
      o_bind (run_test k t size iters json) (λ o,
      o_bind (run_all (S k) ts' size iters json) (λ os, Ret (comma (json && (0 <? k)%nat) ++ o ++ os)))
  end.
(** The tests that are named; [first] until one has been run. *)
Fixpoint run_named (k : nat) (ns : list (list byte)) (first : bool) (size iters : Z) (json : bool) : outcome (list byte) :=
  match ns with
  | [] => Ret []
  | n :: ns' =>
      match head (filter (λ t, t.(t_name) = n) tests) with
      | None => run_named k ns' first size iters json
      | Some t =>
          o_bind (run_test k t size iters json) (λ o,
          o_bind (run_named (S k) ns' false size iters json) (λ os, Ret (comma (json && negb first) ++ o ++ os)))
      end
  end.

Definition option_table : Getopt.table := Getopt.Table
  [(x73, true); (x6e, true); (x61, false); (x6c, false); (x6a, false); (x68, false)]
  [Getopt.Long (str "size") true x73; Getopt.Long (str "count") true x6e; Getopt.Long (str "all") false x61;
   Getopt.Long (str "list") false x6c; Getopt.Long (str "json") false x6a; Getopt.Long (str "help") false x68].
Record config := Config { o_size : Z; o_count : Z; o_all : bool; o_json : bool }.
Definition default_config : config := Config BENCH_MSG_SIZE BENCH_ITERATIONS false false.
Inductive parsed := Run (c : config) | List | Help (status : Z).
Fixpoint options (c : config) (os : list Getopt.opt) : parsed :=
  match os with
  | [] => Run c
  | Getopt.Opt x73 (Some v) :: os' => options (Config (atoi v) c.(o_count) c.(o_all) c.(o_json)) os'
  | Getopt.Opt x6e (Some v) :: os' => options (Config c.(o_size) (atoi v) c.(o_all) c.(o_json)) os'
  | Getopt.Opt x61 _ :: os' => options (Config c.(o_size) c.(o_count) true c.(o_json)) os'
  | Getopt.Opt x6c _ :: _ => List
  | Getopt.Opt x6a _ :: os' => options (Config c.(o_size) c.(o_count) c.(o_all) true) os'
  | Getopt.Opt x68 _ :: _ => Help 0
  | _ => Help 1
  end.
Definition test_lines (indent : list byte) : list byte :=
  mjoin ((λ t, indent ++ padr 16 t.(t_name) ++ str " " ++ t.(description) ++ [x0a]) <$> tests).
Definition usage_lines : list (list byte) :=
  [[]; str "IPC Performance Benchmark Tool"; []; str "Options:";
   str "  -s, --size <bytes>    Message size (default: 4096)"; str "  -n, --count <num>     Iterations (default: 10000)";
   str "  -a, --all             Run all tests"; str "  -l, --list            List available tests";
   str "  -j, --json            Output JSON format"; str "  -h, --help            Show this help"; []; str "Available tests:"].
Definition print_usage (prog : list byte) : list byte :=
  str "Usage: " ++ prog ++ str " [options] [test...]" ++ [x0a] ++ mjoin ((λ l, l ++ [x0a]) <$> usage_lines) ++ test_lines (str "  ").
Definition title (c : config) : list byte :=
  str "IPC Performance Benchmark" ++ [x0a] ++ str "Message size: " ++ dec c.(o_size) ++ str " bytes, Iterations: " ++ dec c.(o_count) ++
  [x0a; x0a] ++ bench_print_header.
(** The exit status and standard output. *)
Definition main (prog : list byte) (args : list (list byte)) : outcome (Z * list byte) :=
  let '(os, operands) := Getopt.getopt_long option_table args in
  match options default_config os with
  | List => Ret (0, test_lines [])
  | Help st => Ret (st, print_usage prog)
  | Run c =>
      if (c.(o_size) <=? 0) || (c.(o_count) <=? 0) then Ret (1, []) else
      o_bind (if c.(o_all) || bool_decide (operands = []) then run_all 0 tests c.(o_size) c.(o_count) c.(o_json)
              else run_named 0 operands true c.(o_size) c.(o_count) c.(o_json)) (λ o,
      Ret (0, if c.(o_json) then str "[" ++ [x0a] ++ o ++ [x0a] ++ str "]" ++ [x0a] else title c ++ o))
  end.

End program.
End IpcBench.
