(* ===== verification/IpcBenchSpec.v ===== *)
(** * ipc-bench: what the benchmarks leave behind, statistics and the report

    A benchmark that returns 0 has released everything; the statistics are order
    statistics of the samples, with indices in range for every number of iterations; the
    JSON report is an array of the selected tests. *)

From Stdlib Require Import Floats.SpecFloat Sorting.Sorted.
From stdpp Require Import gmap sorting.
From S2P Require Import Prelude Double Getopt Calls IpcBench.
Import Double Calls.

Module IpcBenchSpec.
Import IpcBench.

(** ** What is held *)

Inductive bench := Pipe | Fifo | Mqueue | Shm | ShmSem | UnixStream | UnixDgram | Tcp.
Definition run (b : bench) : C world Z :=
  match b with
  | Pipe => bench_pipe_parent_child | Fifo => bench_fifo | Mqueue => bench_mqueue | Shm => bench_shm
  | ShmSem => bench_shm_semaphore | UnixStream => bench_unix_stream | UnixDgram => bench_unix_dgram | Tcp => bench_tcp_loopback
  end.
(** The names that a benchmark uses. *)
Definition own (b : bench) : gset (list byte) :=
  match b with
  | Pipe | Tcp => ∅ | Fifo => {[FIFO_P2C; FIFO_C2P]} | Mqueue => {[MQ_P2C; MQ_C2P]} | Shm => {[SHM_NAME]}
  | ShmSem => {[SHM_NAME; SHM_SEM_PROD; SHM_SEM_CONS]} | UnixStream => {[UNIX_SOCK_PATH]} | UnixDgram => {[UNIX_SOCK_PATH; DGRAM_CLIENT]}
  end.

(** What a run may end with, from the script [s]. *)
Definition ends (b : bench) (ns : gset (list byte)) (s : list bool) (z : Z) (w : world) : Prop :=
  (z = 0 ∨ z = -1 ∧ ¬ Forall (λ b, b = true) s) ∧
  (z = 0 → w.(held) = [] ∧ w.(names) = ns ∖ own b) ∧
  (z = -1 → Child ∉ w.(held) → b ≠ ShmSem → w.(held) = []).

(** Runs as predicate transformers. *)
Lemma wp_release x h h' ns s Q : filter (λ y, y ≠ x) h = h' → Q tt (World h' ns s) → wp (release x) Q (World h ns s).
Proof. intros <- HQ. by exists tt, (World (filter (λ y, y ≠ x) h) ns s). Qed.
Lemma wp_hold x h ns s Q : Q tt (World (x :: h) ns s) → wp (hold x) Q (World h ns s).
Proof. by exists tt, (World (x :: h) ns s). Qed.
Lemma wp_link p h ns s Q : Q tt (World h ({[p]} ∪ ns) s) → wp (link p) Q (World h ns s).
Proof. by exists tt, (World h ({[p]} ∪ ns) s). Qed.
Lemma wp_unlink p h ns s Q : Q tt (World h (ns ∖ {[p]}) s) → wp (unlink p) Q (World h ns s).
Proof. by exists tt, (World h (ns ∖ {[p]}) s). Qed.
Lemma wp_call h ns s Q :
  (∀ s', (Forall (λ b, b = true) s → Forall (λ b, b = true) s') → Q true (World h ns s')) →
  (∀ s', ¬ Forall (λ b, b = true) s → Q false (World h ns s')) → wp call Q (World h ns s).
Proof.
  intros Ht Hf. exists (default true (head s)), (World h ns (tail s)). split; [done|].
  destruct s as [|[] s]; cbn; [by apply Ht|apply Ht; by inversion 1|apply Hf; by inversion 1].
Qed.
Ltac run_step :=
  match goal with
  | |- wp (_ ≫= _) _ _ => apply wp_bind
  | |- wp (mret _) _ _ => apply wp_ret
  | |- wp (release _) _ _ => eapply wp_release; [vm_compute; reflexivity|]
  | |- wp (hold _) _ _ => apply wp_hold
  | |- wp (link _) _ _ => apply wp_link
  | |- wp (unlink _) _ _ => apply wp_unlink
  | |- wp call _ _ => apply wp_call; intros
  | |- wp (acquire _) _ _ => unfold acquire
  | |- wp (make _) _ _ => unfold make
  | |- wp (make_open _ _) _ _ => unfold make_open
  | |- wp (rounds _) _ _ => unfold rounds
  | |- wp fail _ _ => unfold fail
  | |- wp shm_setup _ _ => unfold shm_setup
  | |- wp shm_release _ _ => unfold shm_release
  | |- wp (if ?b then _ else _) _ _ => simpl b; cbv iota
  | |- wp (release_all _) _ _ => cbn [release_all]
  | |- wp (hold_all _) _ _ => cbn [hold_all]
  end.
Ltac leaf := split_and!; cbn [held names];
  [first [by left|right; split; [done|tauto]]|first [by intros|intros _; split; [done|unfold own; set_solver]]
  |first [by intros|intros _ Hc; exfalso; apply Hc; repeat first [by apply list_elem_of_here|apply list_elem_of_further]|by intros _ _ []]].
Lemma bench_ok b ns s : wp (run b) (ends b ns s) (World [] ns s).
Proof.
  destruct b; unfold run; [unfold bench_pipe_parent_child|unfold bench_fifo|unfold bench_mqueue|unfold bench_shm
    |unfold bench_shm_semaphore|unfold bench_unix_stream|unfold bench_unix_dgram|unfold bench_tcp_loopback];
    repeat run_step; try leaf.
Qed.

(** Every benchmark returns 0 or -1, and -1 only when a call failed.  When it returns 0 it
    holds nothing any more and its names are gone from the file system; when it fails
    before the child is started it holds nothing either, except for the semaphores. *)
Theorem bench_releases b ns s : ∃ z w, run b (World [] ns s) = Ret (z, w) ∧
  (z = 0 ∨ z = -1 ∧ ¬ Forall (λ b, b = true) s) ∧
  (z = 0 → w.(held) = [] ∧ w.(names) = ns ∖ own b) ∧
  (z = -1 → Child ∉ w.(held) → b ≠ ShmSem → w.(held) = []).
Proof. destruct (bench_ok b ns s) as (z & w & E & H). by exists z, w. Qed.
Lemma bench_releases_witness : ∃ w, run Fifo (World [] {[FIFO_P2C]} []) = Ret (0, w) ∧ w.(held) = [].
Proof.
  destruct (bench_releases Fifo {[FIFO_P2C]} []) as (z & w & E & [->|[_ H]] & H0 & _); [|destruct H; constructor].
  exists w. split; [exact E|]. by apply H0.
Defined.

(** A failing round leaves the child and two descriptors, or the names in the file system;
    failing to open the second semaphore leaves the first. *)
Lemma failed_round_leaks :
  (∃ w, run Pipe (World [] ∅ [true; true; true; true; false]) = Ret (-1, w) ∧ w.(held) = [Child; Fd 2; Fd 1]) ∧
  (∃ w, run Fifo (World [] ∅ [true; true; true; true; true; true; false]) = Ret (-1, w) ∧
    w.(held) = [Fd 1; Fd 0; Child] ∧ FIFO_P2C ∈ w.(names)).
Proof. split; eexists; split_and!; try (vm_compute; reflexivity). Qed.
Lemma semaphore_leaks : ∃ w, run ShmSem (World [] ∅ [true; true; true; true; false]) = Ret (-1, w) ∧ w.(held) = [Sem 0].
Proof. eexists. split; by vm_compute. Qed.

(** ** Statistics *)

Definition number (x : double) : Prop := x ≠ S754_nan.
Lemma number_key x : number x → ∃ k, float_key x = Some k.
Proof. destruct x; try done; intros; by eexists. Qed.
Lemma c099_val : c099 = S754_finite false 8917127262193582 (-53).
Proof. by vm_compute. Qed.
Lemma p99_index_range count : 0 < count < 2 ^ 31 → ∃ i, p99_index count = Ret i ∧ count `div` 2 ≤ i < count.
Proof.
  intros Hc. destruct (of_Z_pos count) as (m & e & E & Hv & He & _); [lia|]. unfold p99_index, fmul. rewrite E, c099_val. cbn [SFmul xorb].
  assert (Hp : val (Zpos (m * 8917127262193582)) (e + -53) * 2 ^ 3000 = val count 0 * val 8917127262193582 (-53)).
  { rewrite <- Hv, Pos2Z.inj_mul. apply val_mul; unfold emin in He; lia. }
  assert (Hk : ∀ a ea, -1500 ≤ ea → val (count * a) ea * 2 ^ 3000 = val count 0 * val a ea) by (intros a ea; apply (val_mul count 0 a ea); lia).
  assert (Hc0 : 0 < val count 0) by (apply val_pos; lia). pose proof pow_3000.
  destruct (trunc_between (binary_round_aux 53 1024 false (Zpos (m * 8917127262193582)) (e + -53) loc_Exact) (count * 1) (-1) (count * 127) (-7)) as (i & Ei & Hlo & Hhi).
  - apply round_lower; [lia|unfold emin in He; lia|split; [lia|done]|]. apply (Z.mul_le_mono_pos_r _ _ (2 ^ 3000)); [done|]. rewrite Hp, Hk by lia.
    apply Z.mul_le_mono_nonneg_l; [lia|]. apply (val_le _ _ _ _ (-53)); [lia..|]. vm_compute. discriminate.
  - apply round_upper; [lia|unfold emin in He; lia|split; [lia|done]|lia| |done]. apply (Z.mul_le_mono_pos_r _ _ (2 ^ 3000)); [done|]. rewrite Hp, Hk by lia.
    apply Z.mul_le_mono_nonneg_l; [lia|]. apply (val_le _ _ _ _ (-53)); [lia..|]. vm_compute. discriminate.
  - rewrite Ei. exists i. split; [done|]. split.
    + pose proof (Z.mul_div_le count 2 ltac:(lia)). apply Hlo. rewrite Z.mul_1_r. replace 0 with (-1 + 1) by lia. rewrite <- val_shift by lia. change (2 ^ 1) with 2. apply val_mono; lia.
    + apply Hhi. replace 0 with (-7 + 7) by lia. rewrite <- val_shift by lia. unfold val. apply Z.mul_lt_mono_pos_r; [apply Z.pow_pos_nonneg; lia|lia].
Qed.

(** [a <= b] on numbers is an order, and it is what compare_double compares. *)
Lemma fle_lex a b ka kb : float_key a = Some ka → float_key b = Some kb → fle a b = true ↔ lex ka kb ≠ Gt.
Proof. intros Ha Hb. unfold fle, SFleb. rewrite compare_lex, Ha, Hb. by destruct (lex ka kb). Qed.
Lemma lex_flip a b : lex a b = CompOpp (lex b a).
Proof.
  unfold lex. rewrite (Z.compare_antisym b.1.1), (Z.compare_antisym b.1.2), (Z.compare_antisym b.2).
  by destruct (b.1.1 ?= a.1.1), (b.1.2 ?= a.1.2).
Qed.
Lemma compare_fle a b : number a → number b → compare_double a b ≤ 0 → fle a b = true.
Proof.
  intros [ka Ha]%number_key [kb Hb]%number_key. rewrite (fle_lex _ _ _ _ Ha Hb). unfold compare_double, flt, SFltb.
  rewrite !compare_lex, Ha, Hb, (lex_flip kb ka). by destruct (lex ka kb).
Qed.

Section stats.
Context (qsort : list double → list double).
(** qsort permutes, and puts numbers in the order of compare_double. *)
Context (Hperm : ∀ l, qsort l ≡ₚ l).
Context (Hsort : ∀ l, Forall number l → ∀ i j a b, (i ≤ j)%nat → qsort l !! i = Some a → qsort l !! j = Some b → compare_double a b ≤ 0).

Lemma at_index_ok l i : 0 ≤ i < Z.of_nat (length l) → ∃ x, at_index l i = Ret x ∧ l !! Z.to_nat i = Some x.
Proof.
  intros Hi. unfold at_index. rewrite (proj2 (Z.leb_le 0 i)) by lia.
  destruct (lookup_lt_is_Some_2 l (Z.to_nat i)) as [x Hx]; [lia|]. exists x. by rewrite Hx.
Qed.

(** With at least one sample and at most INT_MAX, all of them numbers, the statistics
    are taken from the sorted samples at indices in range: the least and the greatest
    sample, and two in between in the right order. *)
Lemma stats_run c r0 : Forall number c.(data) → 0 < Z.of_nat (length c.(data)) < 2 ^ 31 → ∃ r i99,
  collector_compute_stats qsort c r0 = Ret (tt, r) ∧ r.(iterations) = Z.of_nat (length c.(data)) ∧ r.(msg_size) = r0.(msg_size) ∧
  (∀ x, x ∈ c.(data) → fle r.(min_us) x = true ∧ fle x r.(max_us) = true) ∧
  r.(min_us) ∈ c.(data) ∧ r.(max_us) ∈ c.(data) ∧
  qsort c.(data) !! (length c.(data) / 2)%nat = Some r.(p50_us) ∧ qsort c.(data) !! i99 = Some r.(p99_us) ∧
  fle r.(min_us) r.(p50_us) = true ∧ fle r.(p50_us) r.(p99_us) = true ∧ fle r.(p99_us) r.(max_us) = true.
Proof.
  intros Hn Hlen. set (l := c.(data)) in *. set (d := qsort l). set (count := Z.of_nat (length l)) in *.
  assert (Hd : length d = length l) by (unfold d; by rewrite (Hperm l)).
  assert (Hnd : Forall number d) by (unfold d; by rewrite Hperm).
  assert (Hle : ∀ i j a b, (i ≤ j)%nat → d !! i = Some a → d !! j = Some b → fle a b = true).
  { intros i j a b Hij Ha Hb. rewrite Forall_lookup in Hnd. apply compare_fle; [by eapply Hnd|by eapply Hnd|by eapply (Hsort l Hn i j)]. }
  destruct (p99_index_range count Hlen) as (i99 & E99 & H99).
  pose proof (Z.div_lt count 2 ltac:(lia) ltac:(lia)). pose proof (Z.div_pos count 2 ltac:(lia) ltac:(lia)).
  destruct (at_index_ok d 0) as (lo & Elo & Hlo); [lia|]. destruct (at_index_ok d (count - 1)) as (hi & Ehi & Hhi); [lia|].
  destruct (at_index_ok d (count `div` 2)) as (p50 & E50 & H50); [lia|]. destruct (at_index_ok d i99) as (p99 & Ep99 & Hp99); [lia|].
  eexists _, (Z.to_nat i99). split.
  { unfold collector_compute_stats. erewrite bind_Ret by reflexivity. fold l count. rewrite (proj2 (Z.eqb_neq count 0)) by lia.
    unfold sort_doubles. fold d. erewrite bind_Ret by (unfold c_lift; by rewrite Elo). erewrite bind_Ret by (unfold c_lift; by rewrite Ehi).
    erewrite bind_Ret by (unfold c_lift; by rewrite E50). erewrite bind_Ret by (unfold c_lift; by rewrite E99).
    erewrite bind_Ret by (unfold c_lift; by rewrite Ep99). reflexivity. }
  cbn [iterations msg_size min_us max_us p50_us p99_us]. split_and!; try done.
  - intros x Hx. rewrite <- (Hperm l) in Hx. apply list_elem_of_lookup in Hx as [k Hk]. pose proof (lookup_lt_Some _ _ _ Hk) as Hk'. fold d in Hk, Hk'.
    split; [eapply (Hle _ k _ _ _ Hlo Hk)|eapply (Hle k _ _ _ _ Hk Hhi)]; lia.
  - rewrite <- (Hperm l). by eapply list_elem_of_lookup_2.
  - rewrite <- (Hperm l). by eapply list_elem_of_lookup_2.
  - rewrite <- H50. f_equal. rewrite <- (Nat2Z.id (length l / 2)), Nat2Z.inj_div. done.
  - eapply (Hle _ _ _ _ _ Hlo H50).
  - eapply (Hle _ _ _ _ _ H50 Hp99).
  - eapply (Hle _ _ _ _ _ Hp99 Hhi).
  Unshelve. all: lia.
Qed.

(** ** The report *)

Context (runs : nat → measured).
Definition recorded (k : nat) (iters : Z) : latency_collector_t :=
  foldl (λ c us, collector_record us c) (Collector [] iters) (runs k).(samples).
(** A measurement that a report can be made from. *)
Definition measured_ok (k : nat) : Prop := (runs k).(allocated) = true ∧ Forall number (runs k).(samples).
(** [r] are the statistics of the [k]-th measurement. *)
Definition stats_of (k : nat) (size iters : Z) (r : bench_result_t) : Prop :=
  collector_compute_stats qsort (recorded k iters) (Result zero zero zero zero zero zero 0 size) = Ret (tt, r).

(** The collector holds the first [iters] samples. *)
Lemma recorded_take k iters : 0 ≤ iters → (recorded k iters).(data) = take (Z.to_nat iters) (runs k).(samples).
Proof.
  intros Hi. unfold recorded. assert (H : ∀ l c, c.(capacity) = iters → Z.of_nat (length c.(data)) ≤ iters →
    (foldl (λ c us, collector_record us c) c l).(data) = c.(data) ++ take (Z.to_nat iters - length c.(data)) l).
  { induction l as [|us l IH]; intros c Hc Hl; [by rewrite take_nil, app_nil_r|]. cbn [foldl]. unfold collector_record at 2.
    destruct (Z.ltb_spec (Z.of_nat (length c.(data))) c.(capacity)).
    - rewrite IH; cbn [data capacity]; [|done|rewrite length_app; simpl; lia]. rewrite length_app, <- (assoc_L (++)). f_equal.
      replace (Z.to_nat iters - length (data c))%nat with (S (Z.to_nat iters - (length (data c) + length [us])))%nat by (simpl; lia). done.
    - rewrite IH by done. replace (Z.to_nat iters - length (data c))%nat with 0%nat by lia. done. }
  rewrite H; cbn [data capacity length]; [|done|lia]. by rewrite Nat.sub_0_r.
Qed.
Lemma stats_exist k size iters : measured_ok k → 0 < iters < 2 ^ 31 → ∃ r, stats_of k size iters r.
Proof.
  intros [_ Hn] Hi. unfold stats_of. pose proof (recorded_take k iters ltac:(lia)) as Hd. destruct (decide (data (recorded k iters) = [])) as [E|E].
  - unfold collector_compute_stats. rewrite E. by eexists.
  - destruct (stats_run (recorded k iters) (Result zero zero zero zero zero zero 0 size)) as (r & _ & Er & _); [|split|by exists r].
    + rewrite Hd. by apply Forall_take.
    + destruct (data (recorded k iters)); [done|simpl; lia].
    + rewrite Hd, length_take. lia.
Qed.
Lemma run_test_json k t size iters r : measured_ok k → stats_of k size iters r →
  run_test qsort runs k t size iters true = Ret (json_result t.(t_name) r).
Proof. intros [Ha _] Hr. unfold run_test, collector_new. rewrite Ha. cbn [andb]. unfold stats_of, recorded in Hr. by rewrite Hr. Qed.

(** The members of an array, separated as the report separates them. *)
Fixpoint join (items : list (list byte)) : list byte :=
  match items with [] => [] | [x] => x | x :: xs => x ++ [x2c; x0a] ++ join xs end.
Definition rest (items : list (list byte)) : list byte := mjoin ((λ x, [x2c; x0a] ++ x) <$> items).
Lemma join_rest x xs : join (x :: xs) = x ++ rest xs.
Proof. revert x. induction xs as [|y xs IH]; intros x; [by rewrite app_nil_r|]. 
  change (x ++ [x2c; x0a] ++ join (y :: xs) = x ++ ([x2c; x0a] ++ y) ++ rest xs). by rewrite IH.
Qed.

(** [items] are the results of the tests [ts], measured from the [k]-th run on. *)
Inductive reported (size iters : Z) : nat → list bench_test_t → list (list byte) → Prop :=
  | rep_nil k : reported size iters k [] []
  | rep_cons k t ts r items : stats_of k size iters r → reported size iters (S k) ts items →
      reported size iters k (t :: ts) (json_result t.(t_name) r :: items).
Definition selected (operands : list (list byte)) : list bench_test_t := omap (λ n, head (filter (λ t, t.(t_name) = n) tests)) operands.

Section report.
Context (size iters : Z) (Hiters : 0 < iters < 2 ^ 31) (Hruns : ∀ k, measured_ok k).
Lemma run_all_report ts : ∀ k, ∃ items, reported size iters k ts items ∧
  run_all qsort runs k ts size iters true = Ret (if (0 <? k)%nat then rest items else join items).
Proof.
  induction ts as [|t ts IH]; intros k; [exists []; split; [constructor|by destruct (0 <? k)%nat]|].
  destruct (stats_exist k size iters (Hruns k) Hiters) as [r Hr]. destruct (IH (S k)) as (items & Hi & E).
  exists (json_result t.(t_name) r :: items). split; [by constructor|]. cbn [run_all].
  rewrite (run_test_json k t size iters r (Hruns k) Hr). cbn [o_bind]. rewrite E. cbn [o_bind andb]. f_equal.
  change (0 <? S k)%nat with true. cbv iota. unfold comma. destruct (0 <? k)%nat; [done|]. by rewrite join_rest.
Qed.
Lemma run_named_report ns : ∀ k first, ∃ items, reported size iters k (selected ns) items ∧
  run_named qsort runs k ns first size iters true = Ret (if first : bool then join items else rest items).
Proof.
  induction ns as [|n ns IH]; intros k first; [exists []; split; [constructor|by destruct first]|].
  unfold selected. cbn [omap list_omap run_named]. destruct (head (filter (λ t, t.(t_name) = n) tests)) as [t|] eqn:Et; cbn [run_named].
  - destruct (stats_exist k size iters (Hruns k) Hiters) as [r Hr]. destruct (IH (S k) false) as (items & Hi & E).
    exists (json_result t.(t_name) r :: items). split; [by constructor|].
    rewrite (run_test_json k t size iters r (Hruns k) Hr). cbn [o_bind]. rewrite E. cbn [o_bind andb]. f_equal.
    unfold comma. destruct first; cbn [negb]; [by rewrite join_rest|done].
  - apply IH.
Qed.
End report.
End stats.

(** The statistics of a collector with 1 to INT_MAX samples, none of them NaN: the index
    of the 99th percentile is always in range, the minimum, the median, the 99th
    percentile and the maximum are samples in ascending order, and all samples lie
    between the first and the last. *)
Theorem stats_ordered qsort c r0 : (∀ l, qsort l ≡ₚ l) →
  (∀ l, Forall number l → ∀ i j a b, (i ≤ j)%nat → qsort l !! i = Some a → qsort l !! j = Some b → compare_double a b ≤ 0) →
  Forall number c.(data) → 0 < Z.of_nat (length c.(data)) < 2 ^ 31 → ∃ r i99,
  collector_compute_stats qsort c r0 = Ret (tt, r) ∧ r.(iterations) = Z.of_nat (length c.(data)) ∧ r.(msg_size) = r0.(msg_size) ∧
  (∀ x, x ∈ c.(data) → fle r.(min_us) x = true ∧ fle x r.(max_us) = true) ∧
  r.(min_us) ∈ c.(data) ∧ r.(max_us) ∈ c.(data) ∧
  qsort c.(data) !! (length c.(data) / 2)%nat = Some r.(p50_us) ∧ qsort c.(data) !! i99 = Some r.(p99_us) ∧
  fle r.(min_us) r.(p50_us) = true ∧ fle r.(p50_us) r.(p99_us) = true ∧ fle r.(p99_us) r.(max_us) = true.
Proof. intros. by apply stats_run. Qed.

(** With --json, however the options are spelled and whatever operands follow, the output
    is an array with one member for each selected test, in order: all of them when -a is
    given or no test is named, else those named, unknown names left out. *)
Theorem json_report qsort runs prog ws os operands c : (∀ l, qsort l ≡ₚ l) →
  (∀ l, Forall number l → ∀ i j a b, (i ≤ j)%nat → qsort l !! i = Some a → qsort l !! j = Some b → compare_double a b ≤ 0) →
  (∀ k, measured_ok runs k) → Getopt.command_line option_table os ws → Forall (λ w, head w ≠ Some x2d) operands →
  options default_config os = Run c → c.(o_json) = true → 0 < c.(o_size) → 0 < c.(o_count) < 2 ^ 31 → ∃ items,
  main qsort runs prog (ws ++ operands) = Ret (0, str "[" ++ [x0a] ++ join items ++ [x0a] ++ str "]" ++ [x0a]) ∧
  reported qsort runs c.(o_size) c.(o_count) 0 (if c.(o_all) || bool_decide (operands = []) then tests else selected operands) items.
Proof.
  intros Hp Hs Hruns Hcl Hops Hc Hj Hsz Hn. unfold main. rewrite (Getopt.getopt_line_operands _ _ _ _ Hcl Hops), Hc, Hj.
  rewrite !(proj2 (Z.leb_gt _ _)) by lia. cbn [orb].
  destruct (o_all c || bool_decide (operands = [])).
  - destruct (run_all_report qsort Hp Hs runs c.(o_size) c.(o_count) Hn Hruns tests 0) as (items & Hi & ->). by exists items.
  - destruct (run_named_report qsort Hp Hs runs c.(o_size) c.(o_count) Hn Hruns operands 0 true) as (items & Hi & ->). by exists items.
Qed.

(** *** A sorting function *)

Definition ascending (a b : double) : Prop := compare_double a b ≤ 0.
#[local] Instance ascending_dec : RelDecision ascending.
Proof. intros a b. unfold ascending. apply _. Defined.
#[local] Instance ascending_total : Total ascending.
Proof.
  intros a b. unfold ascending, compare_double, flt, SFltb. rewrite !compare_lex. destruct (float_key a) as [ka|], (float_key b) as [kb|]; try (by left).
  rewrite (lex_flip kb ka). destruct (lex ka kb); cbn; [by left|by left|by right].
Qed.
Lemma lex_le_trans a b c : lex a b ≠ Gt → lex b c ≠ Gt → lex a c ≠ Gt.
Proof.
  intros H1 H2. destruct (lex a b) eqn:E; [|by rewrite (lex_trans a b c E H2)|done].
  assert (a = b) as ->; [|done]. destruct a as [[? ?] ?], b as [[? ?] ?]. unfold lex in E. cbn in E.
  repeat match goal with H : match ?x ?= ?y with _ => _ end = Eq |- _ => destruct (Z.compare_spec x y); try done
    | H : (?x ?= ?y) = Eq |- _ => apply Z.compare_eq in H end. by subst.
Qed.
Lemma fle_trans a b c : fle a b = true → fle b c = true → fle a c = true.
Proof.
  unfold fle, SFleb. rewrite !compare_lex. destruct (float_key a) as [ka|], (float_key b) as [kb|], (float_key c) as [kc|]; try done.
  pose proof (lex_le_trans ka kb kc). destruct (lex ka kb), (lex kb kc), (lex ka kc); naive_solver.
Qed.
Lemma fle_compare a b : fle a b = true → compare_double a b ≤ 0.
Proof.
  unfold fle, SFleb, compare_double, flt, SFltb. rewrite !compare_lex. destruct (float_key a) as [ka|], (float_key b) as [kb|]; try done.
  rewrite (lex_flip kb ka). by destruct (lex ka kb).
Qed.
Definition sorter : list double → list double := merge_sort ascending.
Lemma sorter_perm l : sorter l ≡ₚ l.
Proof. apply merge_sort_Permutation. Qed.
Lemma sorter_sorted l : Forall number l → ∀ i j a b, (i ≤ j)%nat → sorter l !! i = Some a → sorter l !! j = Some b → compare_double a b ≤ 0.
Proof.
  intros Hn i j a b Hij Ha Hb. apply fle_compare.
  assert (Hs : StronglySorted (λ a b, fle a b = true) (sorter l)).
  { apply Sorted_StronglySorted; [intros ???; apply fle_trans|]. pose proof (Sorted_merge_sort ascending l) as H.
    assert (Hn' : Forall number (sorter l)) by (by rewrite sorter_perm). fold sorter in H. revert H Hn'. generalize (sorter l). clear.
    induction 1 as [|x l Hl IH Hx]; [constructor|]. intros [Hnx Hnl]%Forall_cons. constructor; [by apply IH|].
    destruct Hx as [|y l Hxy]; [constructor|]. apply Forall_cons in Hnl as [Hny _]. constructor. by apply compare_fle. }
  destruct (decide (i = j)) as [->|].
  { rewrite Ha in Hb. injection Hb as ->. assert (Hb : number b) by (rewrite <- (sorter_perm l) in Hn; by eapply Forall_lookup_1).
    apply compare_fle; [done..|]. unfold compare_double. by rewrite flt_irrefl. }
  eapply (StronglySorted_app_1_elem_of (λ a b, fle a b = true) (take j (sorter l)) (drop j (sorter l))).
  - by rewrite take_drop.
  - apply list_elem_of_lookup. exists i. rewrite lookup_take_lt by lia. done.
  - apply list_elem_of_lookup. exists 0%nat. rewrite lookup_drop. by rewrite Nat.add_0_r.
Qed.

Definition three : latency_collector_t := Collector [of_Z 30; of_Z 10; of_Z 20] 10.
Lemma stats_ordered_witness : ∃ r, collector_compute_stats sorter three (Result zero zero zero zero zero zero 0 64) = Ret (tt, r) ∧
  r.(min_us) = of_Z 10 ∧ r.(p50_us) = of_Z 20 ∧ r.(p99_us) = of_Z 30 ∧ fle r.(min_us) r.(p50_us) = true.
Proof.
  destruct (stats_ordered sorter three (Result zero zero zero zero zero zero 0 64) sorter_perm sorter_sorted)
    as (r & i & E & _ & _ & _ & _ & _ & _ & _ & Hle & _).
  - by repeat constructor.
  - done.
  - exists r. vm_compute in E. injection E as <-. split_and!; try (vm_compute; reflexivity).
Defined.
Definition wit_runs (k : nat) : measured := Measured true [of_Z 3; of_Z 1].
Lemma json_report_witness : ∃ items, main sorter wit_runs (str "ipc-bench") [str "--json"; str "-n"; str "5"; str "tcp"; str "none"; str "pipe"] =
  Ret (0, str "[" ++ [x0a] ++ join items ++ [x0a] ++ str "]" ++ [x0a]) ∧ length items = 2%nat.
Proof.
  destruct (json_report sorter wit_runs (str "ipc-bench") [str "--json"; str "-n"; str "5"]
    [Getopt.Opt x6a None; Getopt.Opt x6e (Some (str "5"))] [str "tcp"; str "none"; str "pipe"] (Config 4096 5 false true) sorter_perm sorter_sorted)
    as (items & E & Hr).
  - intros k. split; [done|]. by repeat constructor.
  - apply (Getopt.cl_cons _ _ _ [str "--json"]); [by apply (Getopt.sp_long option_table (Getopt.Long (str "json") false x6a)); vm_compute; try done; set_solver|].
    apply (Getopt.cl_cons _ _ _ [str "-n"; str "5"] []); [by apply Getopt.sp_apart|constructor].
  - by repeat constructor.
  - done.
  - done.
  - done.
  - done.
  - exists items. split; [exact E|]. cbn [o_all orb] in Hr. rewrite bool_decide_false in Hr by done.
    assert (Es : selected [str "tcp"; str "none"; str "pipe"] = [Test (str "tcp") (str "TCP Loopback"); Test (str "pipe") (str "Pipe (parent-child)")])
      by (vm_compute; reflexivity).
    rewrite Es in Hr. inversion Hr as [|? ? ? ? ? _ H2]; subst. inversion H2 as [|? ? ? ? ? _ H3]; subst. by inversion H3.
Defined.
End IpcBenchSpec.
