(* ===== verification/IpcRounds.v ===== *)
(** * ipc-bench: the message rounds between parent and child

    The loops of the benchmarks as step relations of two processes.  [Echo]: both
    directions are bounded channels, as in bench_pipe.c, bench_fifo.c, bench_tcp.c
    and bench_unix.c (bytes through pipes and sockets, any number at a time), in
    bench_mqueue.c and the datagram benchmark (one message) and in the semaphore
    benchmark of bench_shm.c (units).  [Handshake]: the two flags of the busy-wait
    benchmark of bench_shm.c. *)

From stdpp Require Import relations.
From S2P Require Import Prelude.

(** ** Rounds over two bounded channels *)

Module Echo.

(** What a process does next: send from position [k] of its buffer, or receive to it. *)
Inductive phase := Sending (k : nat) | Receiving (k : nat).
(** [round] is the loop counter [i]. *)
Record process (A : Type) := Process { round : nat; at_ : phase; buf : list A }.
Arguments Process {A}. Arguments round {A}. Arguments at_ {A}. Arguments buf {A}.
Record conf (A : Type) := Conf { first : process A; second : process A; ch12 : list A; ch21 : list A }.
Arguments Conf {A}. Arguments first {A}. Arguments second {A}. Arguments ch12 {A}. Arguments ch21 {A}.

Section rounds.
Context {A : Type}.
(** [size] is msg_size, [cap] the room of a channel, [n] the number of iterations. *)
Context (size cap n : nat).

(** write: [k] units accepted by the kernel; the loop goes on until all are sent. *)
Inductive send (c : list A) : process A → process A → list A → Prop :=
  | send_some i pos b k : (pos < size)%nat → (0 < k ≤ size - pos)%nat → (length c + k ≤ cap)%nat →
      send c (Process i (Sending pos) b) (Process i (Sending (pos + k)) b) (c ++ take k (drop pos b)).
(** read: [k] units delivered to the position reached. *)
Inductive receive : list A → process A → process A → list A → Prop :=
  | receive_some c i pos b k : (pos < size)%nat → (0 < k ≤ size - pos)%nat → (k ≤ length c)%nat →
      receive c (Process i (Receiving pos) b)
        (Process i (Receiving (pos + k)) (take pos b ++ take k c ++ drop (pos + k) b)) (drop k c).

(** The process that sends first: send all, receive all, next round. *)
Inductive first_moves : process A → process A → Prop :=
  | first_sent i b : first_moves (Process i (Sending size) b) (Process i (Receiving 0) b)
  | first_received i b : first_moves (Process i (Receiving size) b) (Process (S i) (Sending 0) b).
(** The process that answers: receive all, send all, next round. *)
Inductive second_moves : process A → process A → Prop :=
  | second_received i b : second_moves (Process i (Receiving size) b) (Process i (Sending 0) b)
  | second_sent i b : second_moves (Process i (Sending size) b) (Process (S i) (Receiving 0) b).

Inductive step : conf A → conf A → Prop :=
  | first_sends p p' q c c' d : (round p < n)%nat → send c p p' c' → step (Conf p q c d) (Conf p' q c' d)
  | first_receives p p' q c d d' : (round p < n)%nat → receive d p p' d' → step (Conf p q c d) (Conf p' q c d')
  | first_goes_on p p' q c d : (round p < n)%nat → first_moves p p' → step (Conf p q c d) (Conf p' q c d)
  | second_receives p q q' c c' d : (round q < n)%nat → receive c q q' c' → step (Conf p q c d) (Conf p q' c' d)
  | second_sends p q q' c d d' : (round q < n)%nat → send d q q' d' → step (Conf p q c d) (Conf p q' c d')
  | second_goes_on p q q' c d : (round q < n)%nat → second_moves q q' → step (Conf p q c d) (Conf p q' c d).

Definition start (data junk : list A) : conf A := Conf (Process 0 (Sending 0) data) (Process 0 (Receiving 0) junk) [] [].
Definition finished (s : conf A) : Prop := round s.(first) = n ∧ round s.(second) = n.
End rounds.

(** *** The benchmarks *)

(** bytes through a pipe or a FIFO (64 KiB) or a stream socket with [room] bytes. *)
Definition pipe_step (msg_size iterations : nat) : conf byte → conf byte → Prop := step msg_size (Z.to_nat 65536) iterations.
Definition stream_step (room msg_size iterations : nat) : conf byte → conf byte → Prop := step msg_size room iterations.
(** Message queues of ten messages; datagrams. *)
Definition mqueue_step (iterations : nat) : conf (list byte) → conf (list byte) → Prop := step 1 10 iterations.
Definition dgram_step (room iterations : nat) : conf (list byte) → conf (list byte) → Prop := step 1 room iterations.
(** sem_post and sem_wait: a counter is a channel of units. *)
Definition semaphore_step (sem_value_max iterations : nat) : conf unit → conf unit → Prop := step 1 sem_value_max iterations.

End Echo.

(** ** The busy-wait flags *)

Module Handshake.

(** Where the parent is: before [ready = 1], in the loop on [done], before [done = 0]. *)
Inductive parent_at := Announce | AwaitDone | ClearDone.
(** Where the child is: in the loop on [ready], before [done = 1], before [ready = 0]. *)
Inductive child_at := AwaitReady | SetDone | ClearReady.
Record flags := Flags { ready : bool; done_ : bool; p_round : nat; p_at : parent_at; c_round : nat; c_at : child_at }.
#[global] Instance parent_at_eq_dec : EqDecision parent_at.
Proof. solve_decision. Defined.
#[global] Instance child_at_eq_dec : EqDecision child_at.
Proof. solve_decision. Defined.
#[global] Instance flags_eq_dec : EqDecision flags.
Proof. solve_decision. Defined.

Section processes.
Context (iterations : nat).

(** One access to a flag; the barriers between them keep their order. *)
Definition parent_step (s : flags) : option flags :=
  if bool_decide (p_round s < iterations)%nat then
    Some match p_at s with
         | Announce => Flags true (done_ s) (p_round s) AwaitDone (c_round s) (c_at s)
         | AwaitDone => if done_ s then Flags (ready s) (done_ s) (p_round s) ClearDone (c_round s) (c_at s) else s
         | ClearDone => Flags (ready s) false (S (p_round s)) Announce (c_round s) (c_at s)
         end
  else None.
Definition child_step (s : flags) : option flags :=
  if bool_decide (c_round s < iterations)%nat then
    Some match c_at s with
         | AwaitReady => if ready s then Flags (ready s) (done_ s) (p_round s) (p_at s) (c_round s) SetDone else s
         | SetDone => Flags (ready s) true (p_round s) (p_at s) (c_round s) ClearReady
         | ClearReady => Flags false (done_ s) (p_round s) (p_at s) (S (c_round s)) AwaitReady
         end
  else None.
Inductive flag_step (s : flags) : flags → Prop :=
  | parent_steps s' : parent_step s = Some s' → flag_step s s'
  | child_steps s' : child_step s = Some s' → flag_step s s'.
Definition flags_start : flags := Flags false false 0 Announce 0 AwaitReady.
Definition flags_finished (s : flags) : Prop := p_round s = iterations ∧ c_round s = iterations.
(** Every flag_step leads back to the same state, and somebody still waits. *)
Definition spins_forever (s : flags) : Prop := ¬ flags_finished s ∧ ∀ s', flag_step s s' → s' = s.
End processes.

End Handshake.
