(* ===== verification/IpcRoundsSpec.v ===== *)
(** * ipc-bench: the rounds of the benchmarks complete, the busy wait may not

    [EchoSpec]: with any room in the channels and any scheduling, all iterations are
    made and the parent gets back what it sent.  [HandshakeSpec]: with two iterations
    the flags of the busy-wait benchmark can be left so that both processes wait for
    each other for ever. *)

From stdpp Require Import relations.
From S2P Require Import Prelude IpcRounds.

Module EchoSpec.
Import Echo.
#[local] Arguments Nat.sub : simpl never.

Section spec.
Context {A : Type} (size cap n : nat) (data : list A).

(** Units sent and received since the start. *)
Definition sent1 (p : process A) : nat := size * round p + match at_ p with Sending k => k | Receiving _ => size end.
Definition recv1 (p : process A) : nat := size * round p + match at_ p with Sending _ => 0 | Receiving k => k end.
Definition recv2 (q : process A) : nat := size * round q + match at_ q with Receiving k => k | Sending _ => size end.
Definition sent2 (q : process A) : nat := size * round q + match at_ q with Receiving _ => 0 | Sending k => k end.
Definition pos (p : process A) : nat := match at_ p with Sending k | Receiving k => k end.
Definition at_index (p : process A) : nat := size * round p + pos p.
(** [c] is a piece of the endless repetition of the data, from position [a]. *)
Definition piece (a : nat) (c : list A) : Prop := ∀ j x, c !! j = Some x → data !! ((a + j) `mod` size)%nat = Some x.

Record ok1 (p : process A) : Prop := {
  o1_pos : (pos p ≤ size)%nat; o1_buf : buf p = data;
  o1_end : (round p < n)%nat ∨ round p = n ∧ at_ p = Sending 0
}.
Record ok2 (q : process A) : Prop := {
  o2_pos : (pos q ≤ size)%nat; o2_len : length (buf q) = size;
  o2_buf : match at_ q with Receiving k => take k (buf q) = take k data ∧ ((0 < round q)%nat → buf q = data) | Sending _ => buf q = data end;
  o2_end : (round q < n)%nat ∨ round q = n ∧ at_ q = Receiving 0
}.
Record inv (s : conf A) : Prop := {
  i_1 : ok1 s.(first); i_2 : ok2 s.(second);
  i_12 : (recv2 s.(second) + length s.(ch12) = sent1 s.(first))%nat; i_p12 : piece (recv2 s.(second)) s.(ch12);
  i_21 : (recv1 s.(first) + length s.(ch21) = sent2 s.(second))%nat; i_p21 : piece (recv1 s.(first)) s.(ch21)
}.
(** Units still to be moved, and ends of loops still to be reached. *)
Definition left_ (s : conf A) : nat :=
  (size * n - sent1 s.(first)) + (size * n - recv1 s.(first)) + (size * n - recv2 s.(second)) + (size * n - sent2 s.(second)) +
  (2 * (n - round s.(first)) - match at_ s.(first) with Sending _ => 0 | Receiving _ => 1 end) +
  (2 * (n - round s.(second)) - match at_ s.(second) with Receiving _ => 0 | Sending _ => 1 end).

Context (Hdata : length data = size) (Hsize : (0 < size)%nat).

Lemma mod_pos i k : (k < size)%nat → ((size * i + k) `mod` size)%nat = k.
Proof. intros. rewrite Nat.add_comm, Nat.mul_comm, Nat.Div0.mod_add. by apply Nat.mod_small. Qed.
Lemma piece_take i k c l : piece (size * i + k) c → (l ≤ length c)%nat → (k + l ≤ size)%nat → take l c = take l (drop k data).
Proof.
  intros Hp Hl Hk. apply list_eq. intros j. destruct (decide (j < l)%nat).
  2:{ rewrite !lookup_take_ge by lia. done. }
  rewrite !lookup_take_lt, lookup_drop by lia. destruct (lookup_lt_is_Some_2 c j ltac:(lia)) as [x Hx].
  rewrite Hx. rewrite <- (Hp _ _ Hx), <- (mod_pos i (k + j)) by lia. do 2 f_equal. lia.
Qed.
Lemma piece_drop a k c : piece a c → piece (a + k) (drop k c).
Proof. intros Hp j x Hj. rewrite lookup_drop in Hj. rewrite <- (Hp _ _ Hj). do 2 f_equal. lia. Qed.
Lemma piece_app a c i k l : piece a c → (a + length c = size * i + k)%nat → (k + l ≤ size)%nat → piece a (c ++ take l (drop k data)).
Proof.
  intros Hp Ha Hk j x Hj. apply lookup_app_Some in Hj as [Hj|[Hge Hj]]; [by apply Hp|].
  apply lookup_take_Some in Hj as [Hj Hl]. rewrite lookup_drop in Hj. rewrite <- Hj.
  rewrite <- (mod_pos i (k + (j - length c))) by lia. do 2 f_equal. lia.
Qed.
Lemma patch k l : take k data ++ take l (drop k data) ++ drop (k + l) data = data.
Proof. by rewrite <- drop_drop, take_drop, take_drop. Qed.

Ltac crush := unfold sent1, recv1, recv2, sent2, pos in *; cbn [round at_ buf first second ch12 ch21] in *;
  rewrite ?length_app, ?length_take, ?length_drop in *; try lia; try nia.

Lemma inv_start junk : length junk = size → inv (start data junk).
Proof.
  intros. split; try done; try (unfold start; cbn; crush; fail).
  - split; [unfold start, pos; cbn; lia|done|]. destruct (decide (n = 0%nat)); [by right|left; unfold start; cbn; lia].
  - split; [unfold start, pos; cbn; lia|done|split; [done|cbn; lia]|]. destruct (decide (n = 0%nat)); [by right|left; unfold start; cbn; lia].
Qed.
(** What a send and a receive do when the buffer holds the data. *)
Lemma send_data c p p' c' : send size cap c p p' c' → buf p = data → ∃ i k l,
  p = Process i (Sending k) data ∧ p' = Process i (Sending (k + l)) data ∧ c' = c ++ take l (drop k data) ∧
  length c' = (length c + l)%nat ∧ (0 < l)%nat ∧ (k + l ≤ size)%nat.
Proof. intros [i k b l] Hb. cbn in Hb. subst b. exists i, k, l. split_and!; try done; crush. Qed.
Lemma receive_data c p p' c' a : receive size c p p' c' → at_index p = a → piece a c → ∃ i k l b,
  p = Process i (Receiving k) b ∧ p' = Process i (Receiving (k + l)) (take k b ++ take l (drop k data) ++ drop (k + l) b) ∧
  c' = drop l c ∧ (0 < l)%nat ∧ (k + l ≤ size)%nat ∧ (l ≤ length c)%nat.
Proof.
  intros [? i k b l] Ha Hp. exists i, k, l, b. split_and!; try done; try crush. cbn in Ha. subst a.
  by rewrite (piece_take i k _ l Hp) by lia.
Qed.

Lemma rounds_le i k : (i < n)%nat → (k ≤ size)%nat → (size * i + k ≤ size * n)%nat.
Proof. intros. pose proof (Nat.mul_le_mono_l (S i) n size ltac:(lia)). lia. Qed.
Lemma next_end i : (i < n)%nat → (S i < n)%nat ∨ S i = n.
Proof. lia. Qed.

Lemma first_inv p p' q c c' d d' : (round p < n)%nat → inv (Conf p q c d) →
  (send size cap c p p' c' ∧ d' = d ∨ receive size d p p' d' ∧ c' = c ∨ first_moves size p p' ∧ c' = c ∧ d' = d) →
  inv (Conf p' q c' d') ∧ (left_ (Conf p' q c' d') < left_ (Conf p q c d))%nat.
Proof.
  intros Hn [[P1 B1 E1] O2 H12 Q12 H21 Q21] Hs. cbn [first second ch12 ch21] in *.
  pose proof (o2_pos q O2) as P2. destruct Hs as [[Hm ->]|[[Hm ->]|(Hm & -> & ->)]].
  - destruct (send_data _ _ _ _ Hm B1) as (i & k & l & -> & -> & -> & Hl & ? & ?). cbn [round at_ buf] in *.
    pose proof (rounds_le i (k + l) Hn ltac:(lia)). unfold left_, sent1, recv1 in *. cbn [first second round at_] in *.
    split; [split; cbn [first second ch12 ch21]; try done|lia].
    + split; [unfold pos; cbn; lia|done|by left].
    + unfold sent1; cbn [round at_]; lia.
    + eapply piece_app; [done|exact H12|lia].
  - assert (HQ : piece (at_index p) d) by (destruct Hm; exact Q21).
    destruct (receive_data _ _ _ _ _ Hm eq_refl HQ) as (i & k & l & b & -> & -> & -> & ? & ? & ?). cbn in B1. subst b.
    cbn [round at_ buf] in *. pose proof (rounds_le i (k + l) Hn ltac:(lia)). unfold left_, sent1, recv1 in *. cbn [first second round at_] in *.
    split; [split; cbn [first second ch12 ch21]; try done|lia].
    + split; [unfold pos; cbn; lia|apply patch|by left].
    + unfold recv1; cbn [round at_]. rewrite length_drop. lia.
    + unfold recv1; cbn [round at_]. rewrite Nat.add_assoc. by apply piece_drop.
  - pose proof (rounds_le (round p) size Hn ltac:(lia)).
    destruct Hm as [i b|i b]; cbn in B1; subst b; unfold left_, sent1, recv1 in *; cbn [first second round at_] in *;
      (split; [split; cbn [first second ch12 ch21]; unfold sent1, recv1; cbn [round at_]; try done; try lia|lia]).
    + split; [unfold pos; cbn; lia|done|by left].
    + split; [unfold pos; cbn; lia|done|]. cbn. destruct (next_end i Hn); [by left|by right].
    + by rewrite Nat.mul_succ_r, Nat.add_0_r.
Qed.
(** The child's buffer after a receive. *)
Lemma filled k l b : length b = size → (k + l ≤ size)%nat → take k b = take k data →
  let b' := take k b ++ take l (drop k data) ++ drop (k + l) b in length b' = size ∧ take (k + l) b' = take (k + l) data.
Proof.
  intros Hb Hk Hp b'. subst b'. rewrite Hp. split.
  - rewrite !length_app, !length_take, !length_drop. lia.
  - rewrite (assoc_L (++)), take_take_drop, take_app_le by (rewrite length_take; lia). by rewrite take_take, Nat.min_id.
Qed.
Lemma second_inv p q q' c c' d d' : (round q < n)%nat → inv (Conf p q c d) →
  (send size cap d q q' d' ∧ c' = c ∨ receive size c q q' c' ∧ d' = d ∨ second_moves size q q' ∧ c' = c ∧ d' = d) →
  inv (Conf p q' c' d') ∧ (left_ (Conf p q' c' d') < left_ (Conf p q c d))%nat.
Proof.
  intros Hn [O1 [P2 L2 B2 E2] H12 Q12 H21 Q21] Hs. cbn [first second ch12 ch21] in *.
  destruct Hs as [[Hm ->]|[[Hm ->]|(Hm & -> & ->)]].
  - assert (B : buf q = data) by (destruct Hm; exact B2).
    destruct (send_data _ _ _ _ Hm B) as (i & k & l & -> & -> & -> & Hl & ? & ?). cbn [round at_ buf] in *.
    pose proof (rounds_le i (k + l) Hn ltac:(lia)). unfold left_, sent2, recv2 in *. cbn [first second round at_] in *.
    split; [split; cbn [first second ch12 ch21]; try done|lia].
    + split; [unfold pos; cbn; lia|done|done|by left].
    + unfold sent2; cbn [round at_]; lia.
    + eapply piece_app; [done|exact H21|lia].
  - assert (HQ : piece (at_index q) c) by (destruct Hm; exact Q12).
    destruct (receive_data _ _ _ _ _ Hm eq_refl HQ) as (i & k & l & b & -> & -> & -> & ? & ? & ?).
    cbn [round at_ buf] in *. destruct B2 as [B2 B2']. destruct (filled k l b L2 ltac:(lia) B2) as [F1 F2].
    pose proof (rounds_le i (k + l) Hn ltac:(lia)). unfold left_, sent2, recv2 in *. cbn [first second round at_] in *.
    split; [split; cbn [first second ch12 ch21]; try done|lia].
    + split; [unfold pos; cbn; lia|done|split; [done|]|by left]. intros Hi. rewrite (B2' Hi). apply patch.
    + unfold recv2; cbn [round at_]. rewrite length_drop. lia.
    + unfold recv2; cbn [round at_]. rewrite Nat.add_assoc. by apply piece_drop.
  - pose proof (rounds_le (round q) size Hn ltac:(lia)).
    destruct Hm as [i b|i b]; cbn [round at_ buf] in *; unfold left_, sent2, recv2 in *; cbn [first second round at_] in *;
      (split; [split; cbn [first second ch12 ch21]; unfold sent2, recv2; cbn [round at_]; try done; try lia|lia]).
    + destruct B2 as [B2 _]. rewrite <- L2, firstn_all, L2, <- Hdata, firstn_all in B2.
      split; [unfold pos; cbn; lia|done|done|by left].
    + split; [unfold pos; cbn; lia|done|by split|]. cbn. destruct (next_end i Hn); [by left|by right].
    + by rewrite Nat.mul_succ_r, Nat.add_0_r.
Qed.
Lemma inv_step s s' : inv s → step size cap n s s' → inv s' ∧ (left_ s' < left_ s)%nat.
Proof.
  intros Hi Hs. destruct Hs; first [eapply first_inv; [done|exact Hi|]|eapply second_inv; [done|exact Hi|]]; naive_solver.
Qed.
(** A process in the middle of a loop moves if its channel lets it. *)
Lemma can_send c i k (b : list A) : length b = size → (k < size)%nat → (length c < cap)%nat →
  ∃ p' c', send size cap c (Process i (Sending k) b) p' c'.
Proof. intros. do 2 eexists. apply (send_some _ _ c i k b 1); lia. Qed.
Lemma can_receive c i k (b : list A) : (k < size)%nat → (0 < length c)%nat → ∃ p' c', receive size c (Process i (Receiving k) b) p' c'.
Proof. intros. do 2 eexists. apply (receive_some _ c i k b 1); lia. Qed.
Lemma second_can p q c d : inv (Conf p q c d) → (round q < n)%nat →
  match at_ q with Receiving k => k = size ∨ (0 < length c)%nat | Sending k => k = size ∨ (length d < cap)%nat end →
  ∃ s', step size cap n (Conf p q c d) s'.
Proof.
  intros [_ [P2 L2 _ _] _ _ _ _] Hn Hq. cbn [first second ch12 ch21] in *. destruct q as [i [k|k] b]; cbn [round at_ buf pos] in *; unfold pos in P2; cbn in P2.
  - destruct (decide (k = size)) as [->|]; [eexists; apply second_goes_on; [done|constructor]|].
    destruct (can_send d i k b) as (? & ? & ?); [done|lia|by destruct Hq|]. eexists. by apply second_sends.
  - destruct (decide (k = size)) as [->|]; [eexists; apply second_goes_on; [done|constructor]|].
    destruct (can_receive c i k b) as (? & ? & ?); [lia|by destruct Hq|]. eexists. by apply second_receives.
Qed.
Lemma first_can p q c d : inv (Conf p q c d) → (round p < n)%nat →
  match at_ p with Receiving k => k = size ∨ (0 < length d)%nat | Sending k => k = size ∨ (length c < cap)%nat end →
  ∃ s', step size cap n (Conf p q c d) s'.
Proof.
  intros [[P1 B1 _] _ _ _ _ _] Hn Hp. cbn [first second ch12 ch21] in *. destruct p as [i [k|k] b]; cbn [round at_ buf pos] in *; unfold pos in P1; cbn in P1; subst b.
  - destruct (decide (k = size)) as [->|]; [eexists; apply first_goes_on; [done|constructor]|].
    destruct (can_send c i k data) as (? & ? & ?); [done|lia|by destruct Hp|]. eexists. by apply first_sends.
  - destruct (decide (k = size)) as [->|]; [eexists; apply first_goes_on; [done|constructor]|].
    destruct (can_receive d i k data) as (? & ? & ?); [lia|by destruct Hp|]. eexists. by apply first_receives.
Qed.
Lemma rounds_cmp a b x y : (size * a + x ≤ size * b + y)%nat → (y < size)%nat → (a ≤ b)%nat.
Proof. intros. destruct (decide (a ≤ b)%nat); [done|]. pose proof (Nat.mul_le_mono_l (S b) a size ltac:(lia)). lia. Qed.
Lemma rounds_cmp' a b x y : (size * a + x ≤ size * b + y)%nat → (y < size + x)%nat → (a ≤ b)%nat.
Proof. intros. destruct (decide (a ≤ b)%nat); [done|]. pose proof (Nat.mul_le_mono_l (S b) a size ltac:(lia)). lia. Qed.

Lemma progress s : (0 < cap)%nat → inv s → finished n s ∨ ∃ s', step size cap n s s'.
Proof.
  intros Hcap Hi. pose proof Hi as [[P1 B1 E1] [P2 L2 B2 E2] H12 _ H21 _]. destruct s as [p q c d]. unfold finished. cbn [first second ch12 ch21] in *.
  destruct (decide (round p = n ∧ round q = n)) as [|Hnf]; [by left|right].
  destruct p as [i pa pb], q as [j qa qb]; cbn [round at_ buf] in *. unfold pos, sent1, recv1, recv2, sent2 in *. cbn [round at_] in *.
  destruct pa as [k|k], (decide (i = n)) as [->|Hin].
  - apply (second_can _ _ _ _ Hi); cbn [round at_]; [lia|]. destruct E1 as [|[_ [= ->]]]; [lia|].
    destruct qa as [k2|k2]; pose proof (rounds_cmp' n j 0 k2); left; nia.
  - destruct (decide (k = size ∨ length c < cap)%nat); [by apply (first_can _ _ _ _ Hi); cbn; [lia|]|].
    assert (j < n)%nat. { destruct E2 as [|[-> ->]]; [done|]. pose proof (rounds_le i k). lia. }
    apply (second_can _ _ _ _ Hi); cbn [round at_]; [lia|]. destruct qa as [k2|k2]; [|lia].
    left. pose proof (rounds_cmp (S j) i 0 k ltac:(lia) ltac:(lia)). pose proof (rounds_cmp' (S j) j 0 k2 ltac:(nia)). lia.
  - destruct E1 as [|[_ [=]]]. lia.
  - destruct (decide (k = size ∨ 0 < length d)%nat); [by apply (first_can _ _ _ _ Hi); cbn; [lia|]|].
    assert (j < n)%nat. { destruct E2 as [|[-> ->]]; [done|]. pose proof (rounds_le i (S k)). lia. }
    apply (second_can _ _ _ _ Hi); cbn [round at_]; [lia|]. destruct qa as [k2|k2]; [lia|].
    pose proof (rounds_cmp i j k 0 ltac:(lia) ltac:(lia)). pose proof (rounds_cmp j i 0 k ltac:(lia) ltac:(lia)).
    replace j with i in * by lia. lia.
Qed.
Lemma reachable_inv s t : rtc (step size cap n) s t → inv s → inv t.
Proof. induction 1; [done|]. intros. apply IHrtc. by eapply inv_step. Qed.
Lemma run_length s t k : nsteps (step size cap n) k s t → inv s → (k + left_ t ≤ left_ s)%nat.
Proof.
  induction 1 as [|k s t u Hs _ IH]; [lia|]. intros Hi. destruct (inv_step s t Hi Hs) as [Hi' Hl]. specialize (IH Hi'). lia.
Qed.
Lemma left_start junk : left_ (start data junk) = (4 * n * (size + 1))%nat.
Proof. unfold left_, start, sent1, recv1, recv2, sent2. cbn [first second round at_]. lia. Qed.
Lemma finished_empty s : inv s → finished n s → ch12 s = [] ∧ ch21 s = [] ∧ ((0 < n)%nat → buf (second s) = data).
Proof.
  intros [[P1 B1 E1] [P2 L2 B2 E2] H12 _ H21 _] [F1 F2]. destruct s as [[i pa pb] [j qa qb] c d]. cbn in *. subst.
  destruct E1 as [|[_ ->]]; [lia|]. destruct E2 as [|[_ ->]]; [lia|].
  unfold sent1, recv1, sent2, recv2 in *. cbn in *. split_and!; [apply nil_length_inv; lia|apply nil_length_inv; lia|tauto].
Qed.
End spec.

(** C24. However the two processes are scheduled and however many units the kernel moves in
    each call, the rounds never get stuck and come to their end after boundedly many
    calls; the parent then has what it sent, the child too, and the channels are empty. *)
Theorem rounds_complete {A} (size cap n : nat) (data junk : list A) :
  length data = size → length junk = size → (0 < size)%nat → (0 < cap)%nat →
  ∀ s k, nsteps (step size cap n) k (start data junk) s →
  (finished n s ∨ ∃ s', step size cap n s s') ∧ (k ≤ 4 * n * (size + 1))%nat ∧ buf (first s) = data ∧
  (finished n s → ch12 s = [] ∧ ch21 s = [] ∧ ((0 < n)%nat → buf (second s) = data)).
Proof.
  intros Hd Hj Hs Hc s k Hk. assert (H0 : inv size n data (start data junk)) by by apply inv_start.
  assert (Hl : (k + left_ size n s ≤ left_ size n (start data junk))%nat) by (eapply run_length with (data := data); [exact Hd|exact Hs|exact Hk|exact H0]).
  rewrite left_start in Hl by done. assert (Hi : inv size n data s) by (eapply reachable_inv with (s := start data junk); [done|done|by eapply rtc_nsteps_2|done]).
  split_and!; [by apply progress with (data := data)|lia|apply Hi|intros; by apply finished_empty with (size := size)].
Qed.
Lemma rounds_complete_witness : ∃ s, nsteps (stream_step 2 2 1) 9 (start [x00; x01] [x00; x00]) s ∧ finished 1 s ∧ buf (first s) = [x00; x01].
Proof.
  assert (H : ∃ s, nsteps (stream_step 2 2 1) 9 (start [x00; x01] [x00; x00]) s ∧ finished 1 s).
  { eexists. split.
    - eapply nsteps_l; [eapply first_sends; [simpl; lia|eapply (send_some _ _ _ _ _ _ 2); simpl; lia]|].
      eapply nsteps_l; [eapply second_receives; [simpl; lia|eapply (receive_some _ _ _ _ _ 1); simpl; lia]|].
      eapply nsteps_l; [eapply second_receives; [simpl; lia|eapply (receive_some _ _ _ _ _ 1); simpl; lia]|].
      eapply nsteps_l; [eapply first_goes_on; [simpl; lia|constructor]|].
      eapply nsteps_l; [eapply second_goes_on; [simpl; lia|constructor]|].
      eapply nsteps_l; [eapply second_sends; [simpl; lia|eapply (send_some _ _ _ _ _ _ 2); simpl; lia]|].
      eapply nsteps_l; [eapply second_goes_on; [simpl; lia|constructor]|].
      eapply nsteps_l; [eapply first_receives; [simpl; lia|eapply (receive_some _ _ _ _ _ 2); simpl; lia]|].
      eapply nsteps_l; [eapply first_goes_on; [simpl; lia|constructor]|]. constructor.
    - done. }
  destruct H as (s & Hs & Hf). exists s. split_and!; [done|done|].
  apply (rounds_complete 2 2 1 [x00; x01] [x00; x00] eq_refl eq_refl ltac:(lia) ltac:(lia) s 9 Hs).
Defined.
End EchoSpec.

Module HandshakeSpec.
Import Handshake.

Section spec.
Context (n : nat).

(** The parent announces its second message before the child has withdrawn the first;
    the child then withdraws the second. *)
Definition lost : flags := Flags false false 1 AwaitDone 1 AwaitReady.
Lemma step_by (who : bool) s t s' : (if who then parent_step n s else child_step n s) = Some t → rtc (flag_step n) t s' → rtc (flag_step n) s s'.
Proof. intros H. apply rtc_l. destruct who; [by apply parent_steps|by apply child_steps]. Qed.
Lemma reach_lost : (1 < n)%nat → rtc (flag_step n) flags_start lost.
Proof.
  intros Hn. unfold flags_start, lost.
  do 1 (eapply (step_by true); [unfold parent_step; cbn; rewrite bool_decide_true by lia; reflexivity|]).
  do 2 (eapply (step_by false); [unfold child_step; cbn; rewrite bool_decide_true by lia; reflexivity|]).
  do 3 (eapply (step_by true); [unfold parent_step; cbn; rewrite bool_decide_true by lia; reflexivity|]).
  eapply (step_by false); [unfold child_step; cbn; rewrite bool_decide_true by lia; reflexivity|]. cbn. constructor.
Qed.
Lemma lost_spins : (1 < n)%nat → spins_forever n lost.
Proof.
  intros Hn. split; [intros [H _]; cbn in H; lia|].
  intros s' [? H|? H]; unfold parent_step, child_step in H; cbn in H; rewrite bool_decide_true in H by lia; by injection H as <-.
Qed.

(** A list of states that is closed under steps. *)
Definition closed (l : list flags) : bool :=
  forallb (λ s, forallb (λ o, match o with Some t => bool_decide (t ∈ l) | None => true end) [parent_step n s; child_step n s]) l.
Lemma closed_rtc l s t : closed l = true → rtc (flag_step n) s t → s ∈ l → t ∈ l.
Proof.
  intros Hc. induction 1 as [|s t u Hs _ IH]; [done|]. intros Hl. apply IH. unfold closed in Hc.
  rewrite forallb_forall in Hc. specialize (Hc s ltac:(by apply list_elem_of_In)). cbn in Hc.
  rewrite !andb_true_iff in Hc. destruct Hc as (H1 & H2 & _).
  destruct Hs as [? E|? E]; [rewrite E in H1|rewrite E in H2]; by apply bool_decide_eq_true in H1 || apply bool_decide_eq_true in H2.
Qed.
(** Alternate the two processes. *)
Fixpoint alternate (k : nat) (s : flags) : flags :=
  match k with
  | O => s
  | S k' => let t := default s (parent_step n s) in alternate k' (default t (child_step n t))
  end.
Lemma default_step (o : option flags) s : (∀ t, o = Some t → flag_step n s t) → rtc (flag_step n) s (default s o).
Proof. destruct o; intros H; [|done]. by apply rtc_once, H. Qed.
Lemma alternate_rtc k s : rtc (flag_step n) s (alternate k s).
Proof.
  revert s. induction k as [|k IH]; intros s; [done|]. cbn [alternate]. etrans; [apply default_step, parent_steps|].
  etrans; [apply default_step, child_steps|]. apply IH.
Qed.
End spec.

(** The states of a single round. *)
Definition single_round : list flags :=
  [Flags false false 0 Announce 0 AwaitReady; Flags true false 0 AwaitDone 0 AwaitReady; Flags true false 0 AwaitDone 0 SetDone;
   Flags true true 0 AwaitDone 0 ClearReady; Flags true true 0 ClearDone 0 ClearReady; Flags true false 1 Announce 0 ClearReady;
   Flags false true 0 AwaitDone 1 AwaitReady; Flags false true 0 ClearDone 1 AwaitReady; Flags false false 1 Announce 1 AwaitReady].
Lemma single_round_closed : closed 1 single_round = true.
Proof. by vm_compute. Qed.
Lemma single_round_finishes : forallb (λ s, bool_decide (alternate 1 6 s = Flags false false 1 Announce 1 AwaitReady)) single_round = true.
Proof. by vm_compute. Qed.

(** C25. The busy-wait benchmark sets done before it withdraws ready: with two or more
    iterations there is a run after which parent and child both spin for ever.  With one
    iteration that cannot happen, from every state the end can be reached. *)
Theorem shm_busy_wait_deadlock iterations :
  ((1 < iterations)%nat → ∃ s, rtc (flag_step iterations) flags_start s ∧ spins_forever iterations s) ∧
  ∀ s, rtc (flag_step 1) flags_start s → ∃ t, rtc (flag_step 1) s t ∧ flags_finished 1 t.
Proof.
  split.
  - intros Hn. exists lost. split; [by apply reach_lost|by apply lost_spins].
  - intros s Hs. apply (closed_rtc 1 single_round flags_start s single_round_closed) in Hs; [|by left].
    pose proof single_round_finishes as Hf. rewrite forallb_forall in Hf. specialize (Hf s ltac:(by apply list_elem_of_In)).
    apply bool_decide_eq_true in Hf. exists (alternate 1 6 s). split; [apply alternate_rtc|by rewrite Hf].
Qed.
Lemma shm_busy_wait_deadlock_witness : ∃ s, rtc (flag_step 10000) flags_start s ∧ spins_forever 10000 s.
Proof. apply (shm_busy_wait_deadlock 10000). apply Nat.ltb_lt. vm_compute. reflexivity. Defined.
End HandshakeSpec.
