(* ===== verification/SysMon.v ===== *)
(** * sys-monitor: reading the state of the system
    (sys-monitor/src/cpu.c, memory.c, disk.c, network.c, process.c)

    Files of /proc are byte lists, the directory of processes is a list of names;
    statvfs and getpwuid are arguments, and so is the order that qsort gives.  Every
    reader is a function on [sys_info_t] that keeps what it does not set.  Numbers are
    read as scanf reads them: an unsigned long long that is too large saturates. *)

From Stdlib Require Import Floats.SpecFloat.
From S2P Require Import Prelude Double.
Import Double.

Module SysMon.
#[local] Arguments Z.to_nat : simpl never.

(** ** Data *)

Definition MAX_CPUS : Z := 32.
Definition MAX_PROCESSES : Z := 1024.
Definition MAX_MOUNTS : Z := 16.
Definition MAX_NET_IFACES : Z := 16.
Record cpu_info_t := Cpu {
  c_name : list byte; user : Z; nice : Z; system : Z; idle : Z; iowait : Z; irq : Z; softirq : Z; steal : Z;
  total : Z; usage_percent : double
}.
Record mem_info_t := Mem {
  m_total : Z; m_free : Z; available : Z; buffers : Z; cached : Z; swap_total : Z; swap_free : Z; m_used_percent : double
}.
Record proc_info_t := Proc {
  pid : Z; ppid : Z; p_user : list byte; state : byte; vm_rss : Z; vm_size : Z; cpu_percent : double; mem_percent : double;
  command : list byte; p_name : list byte; p_nice : Z
}.
Record disk_info_t := Disk {
  device : list byte; mount : list byte; fs_type : list byte; d_total : Z; used : Z; d_available : Z; d_used_percent : double
}.
Record net_info_t := Net {
  n_name : list byte; rx_bytes : Z; tx_bytes : Z; rx_packets : Z; tx_packets : Z; rx_rate : Z; tx_rate : Z
}.
(** The arrays: their used elements; for the processors also what earlier readings left. *)
Record sys_info_t := Sys {
  uptime : double; loadavg : list double; num_cpus : Z; cpus : list cpu_info_t; cpu_total : cpu_info_t;
  memory : mem_info_t; processes : list proc_info_t; disks : list disk_info_t; net : list net_info_t
}.
Definition zero : double := S754_zero false.
Definition no_cpu : cpu_info_t := Cpu [] 0 0 0 0 0 0 0 0 0 zero.
Definition no_mem : mem_info_t := Mem 0 0 0 0 0 0 0 zero.
(** memset to zero. *)
Definition no_sys : sys_info_t := Sys zero [zero; zero; zero] 0 (replicate (Z.to_nat MAX_CPUS) no_cpu) no_cpu no_mem [] [] [].
Definition num_processes (s : sys_info_t) : Z := Z.of_nat (length s.(processes)).
Definition num_disks (s : sys_info_t) : Z := Z.of_nat (length s.(disks)).
Definition num_net_ifaces (s : sys_info_t) : Z := Z.of_nat (length s.(net)).
Definition set_cpus (n : Z) (cs : list cpu_info_t) (s : sys_info_t) : sys_info_t :=
  Sys s.(uptime) s.(loadavg) n cs s.(cpu_total) s.(memory) s.(processes) s.(disks) s.(net).
Definition set_cpu_total (c : cpu_info_t) (s : sys_info_t) : sys_info_t :=
  Sys s.(uptime) s.(loadavg) s.(num_cpus) s.(cpus) c s.(memory) s.(processes) s.(disks) s.(net).
Definition set_memory (m : mem_info_t) (s : sys_info_t) : sys_info_t :=
  Sys s.(uptime) s.(loadavg) s.(num_cpus) s.(cpus) s.(cpu_total) m s.(processes) s.(disks) s.(net).
Definition set_processes (ps : list proc_info_t) (s : sys_info_t) : sys_info_t :=
  Sys s.(uptime) s.(loadavg) s.(num_cpus) s.(cpus) s.(cpu_total) s.(memory) ps s.(disks) s.(net).
Definition set_disks (ds : list disk_info_t) (s : sys_info_t) : sys_info_t :=
  Sys s.(uptime) s.(loadavg) s.(num_cpus) s.(cpus) s.(cpu_total) s.(memory) s.(processes) ds s.(net).
Definition set_net (ns : list net_info_t) (s : sys_info_t) : sys_info_t :=
  Sys s.(uptime) s.(loadavg) s.(num_cpus) s.(cpus) s.(cpu_total) s.(memory) s.(processes) s.(disks) ns.

(** ** Reading numbers *)

(** A sign and digits after white space: the number and the rest. *)
Definition scan_int (s : list byte) : option (Z * list byte) :=
  let s := skip_space s in
  let '(neg, s) := match s with x2d :: s' => (true, s') | x2b :: s' => (false, s') | _ => (false, s) end in
  let '(ds, r) := span_n (length s) is_digit s in
  match ds with [] => None | _ => Some ((if neg : bool then - dec_value 0 ds else dec_value 0 ds), r) end.
(** strtoull; strtol and the conversion to int. *)
Definition to_u64 (z : Z) : Z := if 2 ^ 64 <=? Z.abs z then 2 ^ 64 - 1 else u64 z.
Definition to_long (z : Z) : Z := Z.max (- 2 ^ 63) (Z.min (2 ^ 63 - 1) z).
Definition strtoul (s : list byte) : Z := match scan_int s with Some (z, _) => to_u64 z | None => 0 end.
Definition strtol (s : list byte) : Z := match scan_int s with Some (z, _) => to_long z | None => 0 end.
(** Up to [n] conversions [%llu], separated by white space. *)
Fixpoint scan_llu (n : nat) (s : list byte) : list Z :=
  match n with
  | O => []
  | S n' => match scan_int s with Some (z, r) => to_u64 z :: scan_llu n' r | None => [] end
  end.
(** [%lf]: digits with an optional fraction, correctly rounded. *)
Definition scan_lf (s : list byte) : option (double * list byte) :=
  let s := skip_space s in
  let '(a, r) := span_n (length s) is_digit s in
  let '(b, r) := match r with x2e :: r' => span_n (length r') is_digit r' | _ => ([], r) end in
  match a ++ b with
  | [] => None
  | ds =>
      let n := dec_value 0 ds in
      let d := 10 ^ Z.of_nat (length b) in
      Some (if n =? 0 then zero else
            let '(m, e, l) := SFdiv_core_binary 53 1024 n 0 d 0 in binary_round_aux 53 1024 false m e l, r)
  end.
Fixpoint scan_lfs (n : nat) (s : list byte) : list double :=
  match n with
  | O => []
  | S n' => match scan_lf s with Some (x, r) => x :: scan_lfs n' r | None => [] end
  end.
(** ** cpu.c *)

(** The times that were read; those that were not keep their value. *)
Definition set_times (name : list byte) (l : list Z) (c : cpu_info_t) : cpu_info_t :=
  let get i old := nth i l old in
  let u := get 0%nat c.(user) in let n := get 1%nat c.(nice) in let s := get 2%nat c.(system) in let i := get 3%nat c.(idle) in
  let w := get 4%nat c.(iowait) in let q := get 5%nat c.(irq) in let so := get 6%nat c.(softirq) in let st := get 7%nat c.(steal) in
  Cpu name u n s i w q so st (u64 (u + n + s + i + w + q + so + st)) c.(usage_percent).
Definition cpu_line (line : list byte) (s : sys_info_t) : sys_info_t :=
  if is_prefix (str "cpu ") line then set_cpu_total (set_times s.(cpu_total).(c_name) (scan_llu 8 (drop 4 line)) s.(cpu_total)) s
  else if is_prefix (str "cpu") line && match line !! 3%nat with Some c => is_digit c | None => false end then
    let i := Z.to_nat s.(num_cpus) in
    let c := default no_cpu (s.(cpus) !! i) in
    let c := match scan_word 15 line with
             | Some (w, r) => set_times w (scan_llu 8 r) c
             | None => set_times c.(c_name) [] c
             end in
    set_cpus (s.(num_cpus) + 1) (<[i := c]> s.(cpus)) s
  else s.
Fixpoint cpu_lines (ls : list (list byte)) (s : sys_info_t) : sys_info_t :=
  match ls with
  | [] => s
  | l :: ls' => if s.(num_cpus) <? MAX_CPUS then cpu_lines ls' (cpu_line l s) else s
  end.
Definition read_loadavg (f : option (list byte)) (s : sys_info_t) : sys_info_t :=
  match f with
  | None => s
  | Some t =>
      let l := scan_lfs 3 t in
      Sys s.(uptime) (if bool_decide (length l = 3%nat) then l else [zero; zero; zero]) s.(num_cpus) s.(cpus) s.(cpu_total) s.(memory)
        s.(processes) s.(disks) s.(net)
  end.
Definition read_uptime (f : option (list byte)) (s : sys_info_t) : sys_info_t :=
  match f with
  | None => s
  | Some t =>
      Sys (match scan_lfs 1 t with [x] => x | _ => zero end) s.(loadavg) s.(num_cpus) s.(cpus) s.(cpu_total) s.(memory) s.(processes)
        s.(disks) s.(net)
  end.
(** Files that cannot be opened are [None]. *)
Definition cpu_read (stat loadavg_ uptime_ : option (list byte)) (s : sys_info_t) : Z * sys_info_t :=
  match stat with
  | None => (-1, s)
  | Some t => (0, read_uptime uptime_ (read_loadavg loadavg_ (cpu_lines (lines 512 t) (set_cpus 0 s.(cpus) s))))
  end.

(** [100.0 * (1.0 - (double)d / t)], when [t > 0]. *)
Definition usage (now prev : cpu_info_t) : cpu_info_t :=
  let t := u64 (now.(total) - prev.(total)) in
  let d := u64 (now.(idle) - prev.(idle)) in
  if 0 <? t then
    Cpu now.(c_name) now.(user) now.(nice) now.(system) now.(idle) now.(iowait) now.(irq) now.(softirq) now.(steal) now.(total)
      (fmul (of_Z 100) (fsub (of_Z 1) (fdiv (of_Z d) (of_Z t))))
  else now.
Fixpoint usages (n : nat) (now prev : list cpu_info_t) : list cpu_info_t :=
  match n, now, prev with
  | S n', a :: now', b :: prev' => usage a b :: usages n' now' prev'
  | _, _, _ => now
  end.
Definition cpu_calculate_usage (prev s : sys_info_t) : sys_info_t :=
  let s := set_cpu_total (usage s.(cpu_total) prev.(cpu_total)) s in
  set_cpus s.(num_cpus) (usages (Z.to_nat s.(num_cpus)) s.(cpus) prev.(cpus)) s.

(** ** memory.c *)

(** sscanf(line, "label %llu kB") == 1. *)
Definition labelled (label line : list byte) : option Z :=
  if is_prefix label line then match scan_int (drop (length label) line) with Some (z, _) => Some (to_u64 z) | None => None end else None.
Definition mem_line (line : list byte) (m : mem_info_t) : mem_info_t :=
  match labelled (str "MemTotal:") line with
  | Some v => Mem v m.(m_free) m.(available) m.(buffers) m.(cached) m.(swap_total) m.(swap_free) m.(m_used_percent)
  | None =>
  match labelled (str "MemFree:") line with
  | Some v => Mem m.(m_total) v m.(available) m.(buffers) m.(cached) m.(swap_total) m.(swap_free) m.(m_used_percent)
  | None =>
  match labelled (str "MemAvailable:") line with
  | Some v => Mem m.(m_total) m.(m_free) v m.(buffers) m.(cached) m.(swap_total) m.(swap_free) m.(m_used_percent)
  | None =>
  match labelled (str "Buffers:") line with
  | Some v => Mem m.(m_total) m.(m_free) m.(available) v m.(cached) m.(swap_total) m.(swap_free) m.(m_used_percent)
  | None =>
  match labelled (str "Cached:") line with
  | Some v => Mem m.(m_total) m.(m_free) m.(available) m.(buffers) v m.(swap_total) m.(swap_free) m.(m_used_percent)
  | None =>
  match labelled (str "SwapTotal:") line with
  | Some v => Mem m.(m_total) m.(m_free) m.(available) m.(buffers) m.(cached) v m.(swap_free) m.(m_used_percent)
  | None =>
  match labelled (str "SwapFree:") line with
  | Some v => Mem m.(m_total) m.(m_free) m.(available) m.(buffers) m.(cached) m.(swap_total) v m.(m_used_percent)
  | None => m
  end end end end end end end.
Definition percent (part whole : Z) : double := fdiv (fmul (of_Z 100) (of_Z part)) (of_Z whole).
Definition memory_read (meminfo : option (list byte)) (s : sys_info_t) : Z * sys_info_t :=
  match meminfo with
  | None => (-1, s)
  | Some t =>
      let m := foldl (λ m l, mem_line l m) (Mem 0 0 0 0 0 0 0 s.(memory).(m_used_percent)) (lines 256 t) in
      let p := if 0 <? m.(m_total) then percent (u64 (m.(m_total) - m.(available))) m.(m_total) else m.(m_used_percent) in
      (0, set_memory (Mem m.(m_total) m.(m_free) m.(available) m.(buffers) m.(cached) m.(swap_total) m.(swap_free) p) s)
  end.

(** ** network.c *)

Fixpoint leading_spaces (s : list byte) : nat :=
  match s with x20 :: s' => S (leading_spaces s') | _ => 0 end.
(** One line, in its buffer with the terminating zero: the byte 31 after the start of the
    name is set to zero, then the colon is put back.  [None]: the line is skipped. *)
Definition net_line (line : list byte) : outcome (option net_info_t) :=
  match find_byte x3a line with
  | None => Ret None
  | Some colon =>
      let b := <[colon := x00]> (line ++ [x00]) in
      let name_start := leading_spaces (cstr b) in
      if (512 <=? name_start + 31)%nat then UB else
      let b := <[(name_start + 31)%nat := x00]> b in
      let name := cstr (drop name_start b) in
      let b := <[colon := x3a]> b in
      if bool_decide (take 31 name = str "lo") then Ret None else
      match scan_llu 16 (cstr (drop (S colon) b)) with
      | rb :: rp :: _ :: _ :: _ :: _ :: _ :: _ :: tb :: tp :: _ => Ret (Some (Net (take 31 name) rb tb rp tp 0 0))
      | _ => Ret None
      end
  end.
Fixpoint net_lines (ls : list (list byte)) (acc : list net_info_t) : outcome (list net_info_t) :=
  match ls with
  | [] => Ret acc
  | l :: ls' =>
      if Z.of_nat (length acc) <? MAX_NET_IFACES then
        match net_line l with
        | Ret (Some n) => net_lines ls' (acc ++ [n])
        | Ret None => net_lines ls' acc
        | UB => UB | Blocked => Blocked | Fuel => Fuel
        end
      else Ret acc
  end.
Definition network_read (dev : option (list byte)) (s : sys_info_t) : outcome (Z * sys_info_t) :=
  match dev with
  | None => Ret (-1, s)
  | Some t =>
      match lines 512 t with
      | _ :: _ :: ls =>
          match net_lines ls [] with Ret ns => Ret (0, set_net ns s) | UB => UB | Blocked => Blocked | Fuel => Fuel end
      | _ => Ret (-1, set_net [] s)
      end
  end.
(** [(unsigned long)(diff / elapsed)], undefined out of range. *)
Definition rate (now before : Z) (elapsed : double) : outcome Z :=
  match trunc (fdiv (of_Z (u64 (now - before))) elapsed) with
  | Some z => if (0 <=? z) && (z <? 2 ^ 64) then Ret z else UB
  | None => UB
  end.
Definition rated (prev : list net_info_t) (elapsed : double) (n : net_info_t) : outcome net_info_t :=
  match head (filter (λ p, p.(n_name) = n.(n_name)) prev) with
  | None => Ret n
  | Some p =>
      match rate n.(rx_bytes) p.(rx_bytes) elapsed, rate n.(tx_bytes) p.(tx_bytes) elapsed with
      | Ret r, Ret t => Ret (Net n.(n_name) n.(rx_bytes) n.(tx_bytes) n.(rx_packets) n.(tx_packets) r t)
      | _, _ => UB
      end
  end.
Fixpoint rated_all (prev : list net_info_t) (elapsed : double) (ns : list net_info_t) : outcome (list net_info_t) :=
  match ns with
  | [] => Ret []
  | n :: ns' =>
      match rated prev elapsed n, rated_all prev elapsed ns' with Ret n, Ret ns => Ret (n :: ns) | _, _ => UB end
  end.
Definition network_calculate_rate (prev : sys_info_t) (elapsed : double) (s : sys_info_t) : outcome sys_info_t :=
  if fle elapsed zero then Ret s
  else match rated_all prev.(net) elapsed s.(net) with Ret ns => Ret (set_net ns s) | _ => UB end.

(** ** disk.c *)

(** What statvfs answers. *)
Record statvfs_t := Statvfs { f_bsize : Z; f_frsize : Z; f_blocks : Z; f_bfree : Z; f_bavail : Z }.
Definition pseudo_fs : list (list byte) :=
  [str "proc"; str "sysfs"; str "devpts"; str "tmpfs"; str "devtmpfs"; str "cgroup"; str "cgroup2"; str "pstore"; str "securityfs";
   str "debugfs"; str "tracefs"; str "fusectl"; str "configfs"; str "hugetlbfs"; str "mqueue"; str "binfmt_misc"; str "autofs"].
(** Four words and two numbers. *)
Definition mount_line (line : list byte) : option (list byte * list byte * list byte) :=
  match scan_word 63 line with
  | None => None
  | Some (dev, r) =>
  match scan_word 127 r with
  | None => None
  | Some (mnt, r) =>
  match scan_word 31 r with
  | None => None
  | Some (fs, r) =>
  match scan_word 255 r with
  | None => None
  | Some (_, r) =>
  match scan_int r with
  | None => None
  | Some (_, r) => match scan_int r with Some _ => Some (dev, mnt, fs) | None => None end
  end end end end end.
Section disk.
Context (statvfs : list byte → option statvfs_t).
Definition disk_line (line : list byte) : option disk_info_t :=
  match mount_line line with
  | None => None
  | Some (dev, mnt, fs) =>
      if bool_decide (fs ∈ pseudo_fs) || is_prefix (str "/dev/loop") dev then None else
      match statvfs mnt with
      | None => None
      | Some v =>
          let block_size := if v.(f_frsize) =? 0 then v.(f_bsize) else v.(f_frsize) in
          let total := u64 (v.(f_blocks) * block_size) in
          let used := u64 (total - u64 (v.(f_bfree) * block_size)) in
          Some (Disk dev mnt fs total used (u64 (v.(f_bavail) * block_size)) (if 0 <? total then percent used total else zero))
      end
  end.
Fixpoint disk_lines (ls : list (list byte)) (acc : list disk_info_t) : list disk_info_t :=
  match ls with
  | [] => acc
  | l :: ls' =>
      if Z.of_nat (length acc) <? MAX_MOUNTS then disk_lines ls' (match disk_line l with Some d => acc ++ [d] | None => acc end) else acc
  end.
Definition disk_read (mounts : option (list byte)) (s : sys_info_t) : Z * sys_info_t :=
  match mounts with
  | None => (-1, s)
  | Some t => (0, set_disks (disk_lines (lines 1024 t) []) s)
  end.
End disk.

(** ** process.c *)

(** strtok(s, " "). *)
Fixpoint tokens (cur : list byte) (s : list byte) : list (list byte) :=
  match s with
  | [] => match cur with [] => [] | _ => [rev cur] end
  | c :: s' => if decide (c = x20) then match cur with [] => tokens [] s' | _ => rev cur :: tokens [] s' end else tokens (c :: cur) s'
  end.
(** strrchr. *)
Definition last_byte (c : byte) (s : list byte) : option nat :=
  match find_byte c (rev s) with Some k => Some (length s - 1 - k)%nat | None => None end.
(** The fields that the loop over the tokens picks, by their number after the name. *)
Record stat_fields := Fields { f_state : byte; f_ppid : Z; utime : Z; stime : Z; nice_val : Z; vsize : Z; rss : Z }.
Definition pick (field : Z) (token : list byte) (f : stat_fields) : stat_fields :=
  match field with
  | 1 => Fields (default x00 (head token)) f.(f_ppid) f.(utime) f.(stime) f.(nice_val) f.(vsize) f.(rss)
  | 2 => Fields f.(f_state) (atoi token) f.(utime) f.(stime) f.(nice_val) f.(vsize) f.(rss)
  | 14 => Fields f.(f_state) f.(f_ppid) (strtoul token) f.(stime) f.(nice_val) f.(vsize) f.(rss)
  | 15 => Fields f.(f_state) f.(f_ppid) f.(utime) (strtoul token) f.(nice_val) f.(vsize) f.(rss)
  | 18 => Fields f.(f_state) f.(f_ppid) f.(utime) f.(stime) (atoi token) f.(vsize) f.(rss)
  | 23 => Fields f.(f_state) f.(f_ppid) f.(utime) f.(stime) f.(nice_val) (strtoul token) f.(rss)
  | 24 => Fields f.(f_state) f.(f_ppid) f.(utime) f.(stime) f.(nice_val) f.(vsize) (strtol token)
  | _ => f
  end.
Fixpoint pick_all (field : Z) (ts : list (list byte)) (f : stat_fields) : stat_fields :=
  match ts with
  | t :: ts' => if field <? 39 then pick_all (field + 1) ts' (pick (field + 1) t f) else f
  | [] => f
  end.
(** "%d (%255[^)])": the number and the name that were converted. *)
Definition stat_head (line : list byte) : option Z * option (list byte) :=
  match scan_int line with
  | None => (None, None)
  | Some (p, r) =>
      let name := match skip_space r with
                  | x28 :: r' => match scan_set 255 (λ c, bool_decide (c ≠ x29)) r' with Some (w, _) => Some w | None => None end
                  | _ => None
                  end in
      (Some (s32 (to_long p)), name)
  end.

(** What /proc/[pid] holds; a file that cannot be opened is [None]. *)
Record proc_files := Files { f_stat : option (list byte); f_status : option (list byte); f_cmdline : option (list byte) }.
Section process.
Context (page_size clock_ticks : Z) (files : Z → proc_files) (getpwuid : Z → option (list byte)).
Context (qsort : list proc_info_t → list proc_info_t).

Definition get_username (uid : Z) : list byte :=
  take 31 (match getpwuid uid with Some n => n | None => dec uid end).
Fixpoint find_uid (ls : list (list byte)) : option Z :=
  match ls with
  | [] => None
  | l :: ls' =>
      match (if is_prefix (str "Uid:") l then scan_int (drop 4 l) else None) with
      | Some (z, _) => Some (u32 (to_u64 z))
      | None => find_uid ls'
      end
  end.
Definition user_of (f : option (list byte)) : list byte :=
  match f with
  | None => []
  | Some t => match find_uid (lines 256 t) with Some uid => get_username uid | None => [] end
  end.
(** Up to 255 bytes, zeros turned into spaces; the name in brackets when that is empty. *)
Definition command_of (f : option (list byte)) (name : list byte) : list byte :=
  let c := match f with None => [] | Some t => (λ b, if decide (b = x00) then x20 else b) <$> take 255 t end in
  match c with [] => take 63 (str "[" ++ name ++ str "]") | _ => c end.
Definition total_time (f : stat_fields) : double := fdiv (of_Z (u64 (f.(utime) + f.(stime)))) (of_Z clock_ticks).
(** [None]: the entry is skipped.  A name that was not read is an uninitialised string. *)
Definition proc_of (s : sys_info_t) (id : Z) : outcome (option proc_info_t) :=
  match (files id).(f_stat) with
  | None => Ret None
  | Some t =>
      match lines 1024 t with
      | [] => Ret None
      | line :: _ =>
          match last_byte x29 line with
          | None => Ret None
          | Some rparen =>
              match stat_head line with
              | (_, None) => UB
              | (p, Some comm) =>
                  let name := take 63 comm in
                  if (length line <? rparen + 2)%nat then UB else
                  let f := pick_all 0 (tokens [] (drop (rparen + 2) line)) (Fields x00 0 0 0 0 0 0) in
                  let rss_kb := u64 (f.(rss) * page_size) `div` 1024 in
                  let cpu := if flt zero s.(uptime) && (0 <? clock_ticks)
                             then fdiv (fmul (of_Z 100) (total_time f)) s.(uptime) else zero in
                  let mem := if 0 <? s.(memory).(m_total) then percent rss_kb s.(memory).(m_total) else zero in
                  Ret (Some (Proc (default id p) f.(f_ppid) (user_of (files id).(f_status)) f.(f_state) rss_kb
                               (f.(vsize) `div` 1024) cpu mem (command_of (files id).(f_cmdline) name) name f.(nice_val)))
              end
          end
      end
  end.
Fixpoint proc_entries (s : sys_info_t) (entries : list (list byte)) (acc : list proc_info_t) : outcome (list proc_info_t) :=
  match entries with
  | [] => Ret acc
  | e :: es =>
      if Z.of_nat (length acc) <? MAX_PROCESSES then
        if atoi e <=? 0 then proc_entries s es acc else
        match proc_of s (atoi e) with
        | Ret (Some p) => proc_entries s es (acc ++ [p])
        | Ret None => proc_entries s es acc
        | UB => UB | Blocked => Blocked | Fuel => Fuel
        end
      else Ret acc
  end.
Definition process_read (proc : option (list (list byte))) (s : sys_info_t) : outcome (Z * sys_info_t) :=
  match proc with
  | None => Ret (-1, s)
  | Some entries =>
      match proc_entries s entries [] with Ret ps => Ret (0, set_processes (qsort ps) s) | UB => UB | Blocked => Blocked | Fuel => Fuel end
  end.
End process.
Definition process_compare_cpu (a b : proc_info_t) : Z :=
  if flt a.(cpu_percent) b.(cpu_percent) then 1 else if flt b.(cpu_percent) a.(cpu_percent) then -1 else 0.
Definition process_compare_mem (a b : proc_info_t) : Z :=
  if flt a.(mem_percent) b.(mem_percent) then 1 else if flt b.(mem_percent) a.(mem_percent) then -1 else 0.
End SysMon.
