(* ===== verification/SysMonUi.v ===== *)
(** * sys-monitor: the screen and the main loop (sys-monitor/src/ui.c, main.c)

    Drawing is a list of ncurses calls; attributes and colours are left out.  The size
    of the screen and the keys are arguments.  [main_loop] reads the system once for
    every key or timeout; the flag that SIGINT clears is not modelled. *)

From Stdlib Require Import Floats.SpecFloat.
From S2P Require Import Prelude Double SysMon.
Import Double SysMon.

Module SysMonUi.

Definition padl (w : nat) (s : list byte) : list byte := replicate (w - length s) x20 ++ s.

(** ** Formatting *)

Definition format_bytes (bytes : Z) : list byte :=
  if 1099511627776 <=? bytes then fixed 1 (fdiv (of_Z bytes) (of_Z 1099511627776)) ++ str " TB"
  else if 1073741824 <=? bytes then fixed 1 (fdiv (of_Z bytes) (of_Z 1073741824)) ++ str " GB"
  else if 1048576 <=? bytes then fixed 1 (fdiv (of_Z bytes) (of_Z 1048576)) ++ str " MB"
  else if 1024 <=? bytes then fixed 1 (fdiv (of_Z bytes) (of_Z 1024)) ++ str " KB"
  else dec bytes ++ str " B".
(** A conversion to int; undefined out of range. *)
Definition to_int (x : double) : outcome Z :=
  match trunc x with Some z => if (- 2 ^ 31 <=? z) && (z <? 2 ^ 31) then Ret z else UB | None => UB end.
Definition bind {A B} (o : outcome A) (f : A → outcome B) : outcome B :=
  match o with Ret a => f a | UB => UB | Blocked => Blocked | Fuel => Fuel end.
Definition format_uptime (seconds : double) : outcome (list byte) :=
  bind (to_int (fdiv seconds (of_Z 86400))) (λ days,
  let rest := fsub seconds (of_Z (days * 86400)) in
  bind (to_int (fdiv rest (of_Z 3600))) (λ hours,
  bind (to_int (fdiv (fsub rest (of_Z (hours * 3600))) (of_Z 60))) (λ mins,
  Ret (if 0 <? days then dec days ++ str "d " ++ dec hours ++ str "h " ++ dec mins ++ str "m"
       else if 0 <? hours then dec hours ++ str "h " ++ dec mins ++ str "m"
       else dec mins ++ str "m")))).

(** ** Drawing *)

(** mvprintw, printw, mvhline, and repeated mvaddch of filled or empty cells. *)
Inductive draw := Put (y x : Z) (s : list byte) | More (s : list byte) | Hline (y x : Z) (n : Z) | Cells (y x n : Z) (filled : bool).
Definition filled_cells (width : Z) (percent : double) : outcome Z :=
  bind (to_int (fmul (fdiv percent (of_Z 100)) (of_Z width))) (λ filled,
  let filled := if width <? filled then width else filled in
  Ret (if filled <? 0 then 0 else filled)).
Definition ui_draw_bar (y x width : Z) (percent : double) : outcome (list draw) :=
  bind (filled_cells width percent) (λ filled, Ret [Cells y x filled true; Cells y (x + filled) (Z.max 0 (width - filled)) false]).
Definition at_least (lo n : Z) : Z := if n <? lo then lo else n.
Fixpoint seq_all (l : list (outcome (list draw))) : outcome (list draw) :=
  match l with [] => Ret [] | o :: os => bind o (λ d, bind (seq_all os) (λ ds, Ret (d ++ ds))) end.

Section screen.
Context (max_y max_x : Z).

Definition ui_draw_cpu (s : sys_info_t) (y : Z) : outcome (list draw) :=
  let w := at_least 10 (max_x - 20) in
  let c := s.(SysMon.cpu_total) in
  let load i := fixed 2 (nth i s.(loadavg) zero) in
  bind (ui_draw_bar (y + 1) 2 w c.(usage_percent)) (λ bar,
  bind (seq_all (imap (λ i c,
      if (Z.of_nat i <? s.(num_cpus)) && (y + 3 + Z.of_nat i <? max_y - 2) then
        bind (ui_draw_bar (y + 3 + Z.of_nat i) 20 (w - 18) c.(usage_percent)) (λ b,
        Ret (Put (y + 3 + Z.of_nat i) 2 (padr 6 c.(c_name) ++ str ":") :: More (str " " ++ padl 5 (fixed 1 c.(usage_percent)) ++ str "%") :: b))
      else Ret []) s.(cpus))) (λ rows,
  Ret (Put y 2 (str "CPU Total:") :: More (str " " ++ padl 5 (fixed 1 c.(usage_percent)) ++ str "%  Load: " ++ load 0%nat ++ str "  " ++ load 1%nat ++
         str "  " ++ load 2%nat) :: bar ++ rows))).

Definition kb (z : Z) : list byte := format_bytes (u64 (z * 1024)).
Definition ui_draw_memory (s : sys_info_t) (y : Z) : outcome (list draw) :=
  let m := s.(memory) in
  let w := at_least 10 (max_x - 20) in
  bind (ui_draw_bar (y + 1) 2 w m.(m_used_percent)) (λ bar,
  bind (if 0 <? m.(swap_total) then
          let pct := fmul (of_Z 100) (fsub (of_Z 1) (fdiv (of_Z m.(swap_free)) (of_Z m.(swap_total)))) in
          bind (ui_draw_bar (y + 6) 2 w pct) (λ b,
          Ret (Put (y + 5) 2 (str "Swap:") :: More (str " " ++ kb (u64 (m.(swap_total) - m.(swap_free))) ++ str " used / " ++ kb m.(swap_total) ++
                 str " total (" ++ fixed 1 pct ++ str "%)") :: b))
        else Ret [Put (y + 5) 2 (str "Swap: not available")]) (λ swap,
  Ret ([Put y 2 (str "Memory:"); More (str " " ++ kb (u64 (m.(m_total) - m.(available))) ++ str " used / " ++ kb m.(m_total) ++ str " total (" ++
          fixed 1 m.(m_used_percent) ++ str "%)")] ++ bar ++
       [Put (y + 3) 2 (str "  Free: " ++ padr 10 (kb m.(m_free)) ++ str "  Available: " ++ padr 10 (kb m.(available)) ++ str "  Buffers: " ++
          padr 10 (kb m.(buffers)) ++ str "  Cached: " ++ kb m.(cached))] ++ swap))).

(** [%.*s]: a negative precision means none. *)
Definition prec (n : Z) (s : list byte) : list byte := if n <? 0 then s else take (Z.to_nat n) s.
Definition process_row (p : proc_info_t) : list byte :=
  padr 7 (dec p.(pid)) ++ str " " ++ padr 10 p.(p_user) ++ str " " ++ padl 5 [p.(state)] ++ str " " ++ padl 5 (fixed 1 p.(cpu_percent)) ++
  str "% " ++ padl 5 (fixed 1 p.(mem_percent)) ++ str "%  " ++ prec (max_x - 42) p.(command).
(** The first row shown, and how many. *)
Definition display_rows (y : Z) : Z := at_least 1 (max_y - y - 2).
Definition first_row (n rows scroll_offset : Z) : Z :=
  let start := if n - rows <? scroll_offset then n - rows else scroll_offset in if start <? 0 then 0 else start.
Definition process_rows (s : sys_info_t) (y scroll_offset : Z) : list draw :=
  let rows := display_rows y in
  let start := first_row (num_processes s) rows scroll_offset in
  imap (λ i p, Put (y + Z.of_nat i) 2 (process_row p)) (take (Z.to_nat rows) (drop (Z.to_nat start) s.(processes))).
(** A width that is negative means left adjustment; COMMAND has seven bytes. *)
Definition ui_draw_processes (s : sys_info_t) (y scroll_offset : Z) : list draw :=
  Hline y 0 max_x ::
  Put y 2 (padr 7 (str "PID") ++ str " " ++ padr 10 (str "USER") ++ str " " ++ str "STATE" ++ str " " ++ str "  CPU%" ++ str " " ++
           str "  MEM%" ++ str "  " ++ padr (Z.to_nat (Z.abs (max_x - 40))) (str "COMMAND")) ::
  process_rows s (y + 1) scroll_offset ++
  [Put (max_y - 1) 2 (str "Processes: " ++ dec (num_processes s) ++ str "  |  Use UP/DOWN to scroll, 'c' sort by CPU, 'm' sort by Memory")].

Fixpoint disk_rows (ds : list disk_info_t) (y w : Z) : outcome (list draw) :=
  match ds with
  | [] => Ret []
  | d :: ds' =>
      if y <? max_y - 2 then
        bind (ui_draw_bar (y + 1) 2 w d.(d_used_percent)) (λ bar,
        bind (disk_rows ds' (y + 3) w) (λ rest,
        Ret (Put y 2 (padr 20 d.(device) ++ str " " ++ padr 16 d.(mount) ++ str " " ++ padl 10 (format_bytes d.(d_total)) ++ str " " ++
               padl 10 (format_bytes d.(used)) ++ str " " ++ padl 10 (format_bytes d.(d_available)) ++ str "  " ++
               padl 5 (fixed 1 d.(d_used_percent)) ++ str "%") :: bar ++ rest)))
      else Ret []
  end.
Definition ui_draw_disks (s : sys_info_t) (y : Z) : outcome (list draw) :=
  bind (disk_rows s.(disks) (y + 1) (at_least 10 (max_x - 40))) (λ rows,
  Ret (Hline y 0 max_x ::
       Put y 2 (padr 20 (str "Device") ++ str " " ++ padr 16 (str "Mount") ++ str " " ++ padl 10 (str "Total") ++ str " " ++ padl 10 (str "Used") ++
                str " " ++ padl 10 (str "Avail") ++ str "  " ++ padr 6 (str "Use%")) :: rows)).
Fixpoint net_rows (ns : list net_info_t) (y : Z) : list draw :=
  match ns with
  | [] => []
  | n :: ns' =>
      if y <? max_y - 2 then
        Put y 2 (padr 16 n.(n_name) ++ str " " ++ padl 12 (format_bytes n.(rx_rate)) ++ str "/s " ++ padl 12 (format_bytes n.(tx_rate)) ++ str "/s " ++
                 padl 12 (format_bytes n.(rx_bytes)) ++ str " " ++ padl 12 (format_bytes n.(tx_bytes))) :: net_rows ns' (y + 1)
      else []
  end.
Definition ui_draw_network (s : sys_info_t) (y : Z) : list draw :=
  Hline y 0 max_x ::
  Put y 2 (padr 16 (str "Interface") ++ str " " ++ padl 12 (str "RX Rate") ++ str " " ++ padl 12 (str "TX Rate") ++ str " " ++
           padl 12 (str "RX Total") ++ str " " ++ padl 12 (str "TX Total")) ::
  net_rows s.(net) (y + 1) ++
  (if num_net_ifaces s =? 0 then [Put (y + 1) 2 (str "No network interfaces found")] else []).

Definition tab_names : list (list byte) := [str "CPU"; str "Memory"; str "Processes"; str "Disk"; str "Network"].
Definition NUM_TABS : Z := 5.
Fixpoint draw_tabs (names : list (list byte)) (x : Z) : list draw :=
  match names with [] => [] | n :: ns => Put 1 x (str " " ++ n ++ str " ") :: draw_tabs ns (x + strlen n + 3) end.
Definition ui_draw (hostname kernel : list byte) (s : sys_info_t) (selected_tab scroll_offset : Z) : outcome (list draw) :=
  bind (format_uptime s.(uptime)) (λ up,
  let load i := fixed 2 (nth i s.(loadavg) zero) in
  bind (match selected_tab with
        | 0 => ui_draw_cpu s 3
        | 1 => ui_draw_memory s 3
        | 2 => Ret (ui_draw_processes s 3 scroll_offset)
        | 3 => ui_draw_disks s 3
        | 4 => Ret (ui_draw_network s 3)
        | _ => Ret []
        end) (λ content,
  Ret ([Hline 0 0 max_x;
        Put 0 2 (str "sysmon - " ++ hostname ++ str " | Kernel: " ++ kernel ++ str " | Uptime: " ++ up ++ str " | Load: " ++ load 0%nat ++ str " " ++
                 load 1%nat ++ str " " ++ load 2%nat)] ++
       draw_tabs tab_names 2 ++ [Hline 2 0 max_x] ++ content ++
       [Put (max_y - 1) 2 (str "Press 'q' to quit | TAB: switch view | Refresh: 2s")]))).
End screen.

(** ** Input and the main loop *)

(** Keys; a timeout is [Other] with -1. *)
Inductive key := Tab | KEY_RIGHT | KEY_BTAB | KEY_LEFT | KEY_DOWN | KEY_UP | KEY_PPAGE | KEY_NPAGE | KEY_HOME | Other (c : Z).
#[global] Instance key_eq_dec : EqDecision key.
Proof. solve_decision. Defined.
(** The selected tab and the scroll offset. *)
Definition ui_handle_input (k : key) (v : Z * Z) : Z * Z :=
  let '(tab, scroll) := v in
  match k with
  | Tab | KEY_RIGHT => (Z.rem (tab + 1) NUM_TABS, 0)
  | KEY_BTAB | KEY_LEFT => (Z.rem (tab - 1 + NUM_TABS) NUM_TABS, 0)
  | KEY_DOWN => (tab, scroll + 1)
  | KEY_UP => (tab, if 0 <? scroll then scroll - 1 else scroll)
  | KEY_PPAGE => (tab, if scroll - 10 <? 0 then 0 else scroll - 10)
  | KEY_NPAGE => (tab, scroll + 10)
  | KEY_HOME => (tab, 0)
  | Other _ => (tab, scroll)
  end.
Definition quits (k : key) : bool := match k with Other c => (c =? 113) || (c =? 81) | _ => false end.

(** The files of /proc at one moment. *)
Record proc_fs := ProcFs {
  fs_stat : option (list byte); fs_loadavg : option (list byte); fs_uptime : option (list byte); fs_meminfo : option (list byte);
  fs_dir : option (list (list byte)); fs_files : Z → proc_files; fs_mounts : option (list byte); fs_statvfs : list byte → option statvfs_t;
  fs_net : option (list byte)
}.
Section program.
Context (page_size clock_ticks : Z) (getpwuid : Z → option (list byte)) (qsort : list proc_info_t → list proc_info_t).
Context (max_y max_x : Z) (hostname : list byte) (version : option (list byte)).

(** One turn: read everything, with the rates over two seconds. *)
Definition read_system (f : proc_fs) (current : sys_info_t) : outcome sys_info_t :=
  let previous := current in
  let s := (cpu_read f.(fs_stat) f.(fs_loadavg) f.(fs_uptime) current).2 in
  let s := cpu_calculate_usage previous s in
  let s := (memory_read f.(fs_meminfo) s).2 in
  bind (process_read page_size clock_ticks f.(fs_files) getpwuid qsort f.(fs_dir) s) (λ r,
  let s := (disk_read f.(fs_statvfs) f.(fs_mounts) r.2).2 in
  bind (network_read f.(fs_net) s) (λ r, network_calculate_rate previous (of_Z 2) r.2)).
(** The first word of /proc/version. *)
Definition read_kernel (version : option (list byte)) : list byte :=
  match version with
  | None => []
  | Some t => match scan_word 127 t with Some (w, _) => w | None => str "unknown" end
  end.
(** The screens drawn, until the quit key or the end of the script. *)
Fixpoint main_loop (turns : list (proc_fs * key)) (s : sys_info_t) (v : Z * Z) : outcome (list (list draw)) :=
  match turns with
  | [] => Ret []
  | (f, k) :: ts =>
      bind (read_system f s) (λ s,
      bind (ui_draw max_y max_x hostname (read_kernel version) s v.1 v.2) (λ d,
      if quits k then Ret [d] else bind (main_loop ts s (ui_handle_input k v)) (λ ds, Ret (d :: ds))))
  end.
Definition main (turns : list (proc_fs * key)) : outcome (list (list draw)) := main_loop turns no_sys (0, 0).
End program.
End SysMonUi.
