(* ===== verification/SysMonSpec.v ===== *)
(** * sys-monitor: what the readers make of /proc

    The readers stay within their arrays whatever the files hold; a line of
    /proc/net/dev in the kernel's layout is never accepted; of /proc/[pid]/stat the
    fields that are used are two places too late; usage is between 0 and 100. *)

From Stdlib Require Import Floats.SpecFloat.
From S2P Require Import Prelude Double SysMon SysMonUi.
Import Double SysMon SysMonUi.

Module SysMonSpec.
#[local] Arguments Z.to_nat : simpl never.

(** ** /proc/net/dev *)

(** A name and sixteen counters as the kernel prints them, in columns of these widths. *)
Definition widths : list nat := [7; 7; 4; 4; 4; 5; 10; 9; 8; 7; 4; 4; 4; 5; 7; 10]%nat.
Definition column (w : nat) (v : Z) : list byte := x20 :: padl w (dec v).
Definition net_dev_line (name : list byte) (vs : list Z) : list byte :=
  padl 6 name ++ str ":" ++ mjoin (zip_with column widths vs) ++ [x0a].
Definition interface_name (n : list byte) : Prop :=
  (0 < length n < 16)%nat ∧ Forall (λ c, c ≠ x00 ∧ c ≠ x0a ∧ c ≠ x3a) n ∧ head n ≠ Some x20.

(** Texts of digits and spaces, and the number of their words. *)
Definition digit_or_space (c : byte) : Prop := is_digit c = true ∨ c = x20.
Fixpoint words (inside : bool) (s : list byte) : nat :=
  match s with
  | [] => 0
  | c :: s' => if is_digit c then (if inside then 0 else 1) + words true s' else words false s'
  end.
Lemma words_app b s t : (words b (s ++ t) ≤ words b s + words false t)%nat.
Proof.
  revert b. induction s as [|c s IH]; intros b; cbn [app words].
  - destruct t as [|d t]; cbn; [lia|]. destruct (is_digit d), b; lia.
  - destruct (is_digit c); [specialize (IH true)|specialize (IH false)]; lia.
Qed.
Lemma words_spaces b n s : words b (replicate (S n) x20 ++ s) = words false s.
Proof. revert b. induction n as [|n IH]; intros b; [done|]. exact (IH false). Qed.
Lemma words_digits b ds : Forall (λ c, is_digit c = true) ds → (words b ds ≤ 1)%nat.
Proof.
  revert b. assert (H : ∀ ds, Forall (λ c, is_digit c = true) ds → words true ds = 0%nat).
  { induction 1 as [|c l Hc _ IH]; [done|]. cbn [words]. by rewrite Hc, IH. }
  intros b Hds. destruct Hds as [|c l Hc Hl]; cbn [words]; [lia|]. rewrite Hc, (H l Hl). destruct b; lia.
Qed.
Lemma digit_not_space c : is_digit c = true → is_space c = false.
Proof. unfold is_digit, is_space. rewrite andb_true_iff, orb_false_iff, andb_false_iff, !Z.leb_le, Z.eqb_neq, !Z.leb_gt. lia. Qed.
Lemma skip_space_words s : Forall digit_or_space s → words false (skip_space s) = words false s ∧ Forall digit_or_space (skip_space s) ∧
  match skip_space s with [] => True | c :: _ => is_digit c = true end.
Proof.
  induction 1 as [|c s [Hc| ->] Hs IH]; [done| |]; cbn [skip_space].
  - rewrite digit_not_space by done. split_and!; [done| |done]. constructor; [by left|done].
  - change (is_space x20) with true. cbv iota. cbn [words]. change (is_digit x20) with false. done.
Qed.
Lemma words_span b ds r : Forall (λ c, is_digit c = true) ds → match r with [] => True | c :: _ => is_digit c = false end →
  ds ≠ [] → (words b (ds ++ r) = words b ds + words false r)%nat.
Proof.
  intros Hd Hr Hne. revert b Hne. induction Hd as [|c ds Hc Hds IH]; intros b Hne; [done|]. cbn [app words]. rewrite Hc.
  destruct ds as [|d ds]; [|rewrite IH by done; lia]. cbn [app words]. destruct r as [|x r]; cbn; [lia|]. rewrite Hr. lia.
Qed.
Lemma span_digits s : ∀ n, (length s ≤ n)%nat → match (span_n n is_digit s).2 with [] => True | c :: _ => is_digit c = false end.
Proof.
  induction s as [|c s IH]; intros [|n] Hn; cbn in *; try done; try lia. destruct (is_digit c) eqn:E; [|done].
  specialize (IH n ltac:(lia)). destruct (span_n n is_digit s). done.
Qed.
(** There are at most as many numbers as words. *)
Lemma scan_words n : ∀ s, Forall digit_or_space s → (length (scan_llu n s) ≤ words false s)%nat.
Proof.
  induction n as [|n IH]; intros s Hs; [cbn; lia|]. cbn [scan_llu]. unfold scan_int.
  destruct (skip_space_words s Hs) as (Hw & Hf & Hd). destruct (skip_space s) as [|c t]; [cbn; lia|].
  assert (Hm : (match c :: t with x2d :: s' => (true, s') | x2b :: s' => (false, s') | _ => (false, c :: t) end) = (false, c :: t)).
  { destruct c; try done; by vm_compute in Hd. }
  rewrite Hm. destruct (span_n (length (c :: t)) is_digit (c :: t)) as [ds r] eqn:E.
  pose proof (span_n_app (length (c :: t)) is_digit (c :: t)) as Ha. pose proof (span_n_all (length (c :: t)) is_digit (c :: t)) as Hall.
  pose proof (span_digits (c :: t) (length (c :: t)) ltac:(lia)) as Hr. rewrite E in *. cbn [fst snd] in *.
  destruct ds as [|d ds]; [cbn; lia|]. cbn [length]. rewrite <- Hw, Ha, words_span by done. rewrite Ha in Hf. apply Forall_app in Hf as [_ Hf].
  specialize (IH r Hf). cbn [words]. inversion Hall as [|? ? Hdd _]; subst. rewrite Hdd. lia.
Qed.

Definition chunk (c : list byte) : Prop := ∃ n ds, c = replicate (S n) x20 ++ ds ∧ Forall (λ c, is_digit c = true) ds.
Lemma chunk_words b c : chunk c → (words b c ≤ 1)%nat.
Proof. intros (n & ds & -> & Hd). rewrite words_spaces. by apply words_digits. Qed.
Lemma chunk_text c : chunk c → Forall digit_or_space c.
Proof.
  intros (n & ds & -> & Hd). apply Forall_app. split.
  - apply Forall_replicate. by right.
  - eapply Forall_impl; [exact Hd|]. by left.
Qed.
Lemma chunks_words cs : Forall chunk cs → ∀ k, (words false (take k (mjoin cs)) ≤ length cs)%nat.
Proof.
  induction 1 as [|c cs Hc _ IH]; intros k; [cbn; rewrite take_nil; cbn; lia|].
  change (mjoin (c :: cs)) with (c ++ mjoin cs). cbn [length]. rewrite take_app.
  etrans; [apply words_app|]. specialize (IH (k - length c)%nat).
  assert (words false (take k c) ≤ words false c)%nat.
  { rewrite <- (take_drop k c) at 2. generalize (take k c), (drop k c). clear. intros s t. generalize false. induction s as [|x s IH]; intros b; cbn; [lia|].
    destruct (is_digit x); [specialize (IH true)|specialize (IH false)]; lia. }
  pose proof (chunk_words false c Hc). lia.
Qed.
Lemma column_chunk w v : 0 ≤ v < 2 ^ 64 → chunk (column w v) ∧ (w < length (column w v))%nat.
Proof.
  intros Hv. split.
  - exists (w - length (dec v))%nat, (dec v). split; [done|apply dec_spec; done].
  - unfold column, padl. cbn [length]. rewrite length_app, length_replicate. lia.
Qed.
(** In the first thirty bytes there is room for at most five numbers. *)
Lemma few_numbers vs j : length vs = 16%nat → Forall (λ v, 0 ≤ v < 2 ^ 64) vs → (j < 31)%nat →
  (length (scan_llu 16 (take j (mjoin (zip_with column widths vs) ++ [x0a]))) < 10)%nat ∧ (31 ≤ length (mjoin (zip_with column widths vs)))%nat.
Proof.
  intros Hl Hv Hj. do 16 (destruct vs as [|? vs]; [done|]). destruct vs; [|done]. unfold widths. cbn [zip_with].
  repeat match goal with H : Forall _ (_ :: _) |- _ => apply Forall_cons in H as [? H] end.
  match goal with |- context [mjoin ?l] => set (cs := l) end.
  assert (Hc : Forall chunk cs) by (subst cs; repeat (constructor; [by apply column_chunk|]); constructor).
  assert (Hfive : (31 ≤ length (mjoin (take 5 cs)))%nat).
  { subst cs. cbn [take mjoin list_join]. rewrite !length_app.
    repeat match goal with |- context [column ?w ?v] => pose proof (proj2 (column_chunk w v ltac:(done))); generalize dependent (column w v); intros end. cbn [length]. lia. }
  assert (Hs : mjoin cs = mjoin (take 5 cs) ++ mjoin (drop 5 cs)) by (by rewrite <- join_app, take_drop).
  split; [|rewrite Hs, length_app; lia].
  rewrite take_app_le by (rewrite Hs, length_app; lia). rewrite Hs, take_app_le by lia.
  eapply Nat.le_lt_trans; [apply scan_words|].
  - apply Forall_take. rewrite <- (take_drop 5 cs) in Hc. apply Forall_app in Hc as [Hc _].
    revert Hc. generalize (take 5 cs). clear. induction 1 as [|c cs Hc _ IH]; [constructor|]. change (mjoin (c :: cs)) with (c ++ mjoin cs). apply Forall_app. split; [by apply chunk_text|done].
  - eapply Nat.le_lt_trans; [apply chunks_words; by apply Forall_take|]. rewrite length_take. lia.
Qed.

Lemma find_colon p t : x3a ∉ p → find_byte x3a (p ++ x3a :: t) = Some (length p).
Proof.
  induction p as [|c p IH]; intros Hp; cbn; [done|]. apply not_elem_of_cons in Hp as [Hc Hp]. rewrite decide_False by done. by rewrite IH.
Qed.
Lemma leading_pad n s : head s ≠ Some x20 → leading_spaces (replicate n x20 ++ s) = n.
Proof.
  intros Hs. induction n as [|n IH]; cbn [replicate app]; [|cbn [leading_spaces]; by rewrite IH].
  destruct s as [|c s]; [done|]. destruct c; done.
Qed.
(** A line with the statistics [t], cut where the name's buffer would end. *)
Lemma net_line_cut n name t : head name ≠ Some x20 → Forall (λ c, c ≠ x00 ∧ c ≠ x0a ∧ c ≠ x3a) name → (length name < 31)%nat →
  (n + 31 < 512)%nat → nonul t → (30 - length name < length t)%nat →
  net_line (replicate n x20 ++ name ++ x3a :: t) =
    if bool_decide (name = str "lo") then Ret None else
    match scan_llu 16 (take (30 - length name) t) with
    | rb :: rp :: _ :: _ :: _ :: _ :: _ :: _ :: tb :: tp :: _ => Ret (Some (Net name rb tb rp tp 0 0))
    | _ => Ret None
    end.
Proof.
  intros Hh Hn Hl H512 Ht Hlen. set (p := replicate n x20 ++ name). assert (Hp : length p = (n + length name)%nat) by (unfold p; by rewrite length_app, length_replicate).
  assert (Hpc : x3a ∉ p). { unfold p. rewrite not_elem_of_app. split; [intros H; by apply elem_of_replicate in H as [? _]|]. rewrite Forall_forall in Hn. intros H. by destruct (Hn _ H) as (_ & _ & ?). }
  assert (Hp0 : nonul p). { unfold p, nonul. apply Forall_app. split; [by apply Forall_replicate|]. eapply Forall_impl; [exact Hn|]. by intros c (? & _). }
  unfold net_line. rewrite (assoc_L (++)). fold p. rewrite find_colon by done.
  assert (E1 : <[length p := x00]> ((p ++ x3a :: t) ++ [x00]) = p ++ x00 :: t ++ [x00]).
  { rewrite <- (assoc_L (++)). cbn [app]. by rewrite insert_app_r_alt, Nat.sub_diag by lia. }
  rewrite E1, cstr_app_nul by done. rewrite !(leading_pad n name Hh : leading_spaces p = n).
  rewrite (proj2 (Nat.leb_gt 512 (n + 31))) by lia.
  assert (E2 : <[(n + 31)%nat := x00]> (p ++ x00 :: t ++ [x00]) = p ++ x00 :: take (30 - length name) t ++ x00 :: drop (31 - length name) (t ++ [x00])).
  { rewrite insert_app_r_alt by lia. f_equal. replace (n + 31 - length p)%nat with (S (30 - length name)) by lia.
    change (<[S (30 - length name) := x00]> (x00 :: t ++ [x00])) with (x00 :: <[(30 - length name)%nat := x00]> (t ++ [x00])). f_equal.
    rewrite insert_app_l by lia. rewrite insert_take_drop by lia. rewrite <- (assoc_L (++)). cbn [app]. do 2 f_equal.
    replace (31 - length name)%nat with (S (30 - length name)) by lia. by rewrite drop_app_le by lia. }
  rewrite E2. assert (E3 : cstr (drop n (p ++ x00 :: take (30 - length name) t ++ x00 :: drop (31 - length name) (t ++ [x00]))) = name).
  { unfold p. rewrite <- (assoc_L (++)), drop_app_length' by (by rewrite length_replicate). apply cstr_app_nul. eapply Forall_impl; [exact Hn|]. by intros c (? & _). }
  rewrite E3, take_ge by lia. destruct (bool_decide (name = str "lo")); [done|].
  rewrite insert_app_r_alt, Nat.sub_diag by lia. cbn [insert list_insert].
  rewrite (drop_app_ge p) by lia. replace (S (length p) - length p)%nat with 1%nat by lia. cbn [drop]. rewrite ?drop_0.
  rewrite cstr_app_nul by (by apply nonul_take). done.
Qed.
Lemma padl_text w s : padl w s = replicate (w - length s) x20 ++ s.
Proof. done. Qed.
Lemma column_nonul w v : 0 ≤ v < 2 ^ 64 → Forall (λ c, c ≠ x00 ∧ c ≠ x0a) (column w v).
Proof.
  intros Hv. pose proof (chunk_text _ (proj1 (column_chunk w v Hv))) as Hc. eapply Forall_impl; [exact Hc|].
  intros c [Hd| ->]; [|done]. split; intros ->; by vm_compute in Hd.
Qed.
Lemma columns_nonul vs : Forall (λ v, 0 ≤ v < 2 ^ 64) vs → ∀ ws, Forall (λ c, c ≠ x00 ∧ c ≠ x0a) (mjoin (zip_with column ws vs)).
Proof.
  induction 1 as [|v vs Hv _ IH]; intros [|w ws]; [constructor|constructor|constructor|]. cbn [zip_with].
  change (mjoin (?a :: ?b)) with (a ++ mjoin b). apply Forall_app. split; [by apply column_nonul|apply IH].
Qed.
Lemma kernel_line_skipped name vs : interface_name name → length vs = 16%nat → Forall (λ v, 0 ≤ v < 2 ^ 64) vs →
  net_line (net_dev_line name vs) = Ret None.
Proof.
  intros ([Hl1 Hl2] & Hc & Hh) Hvs Hv. unfold net_dev_line. rewrite padl_text, <- (assoc_L (++)). cbn [str app].
  change (str ":" ++ ?t) with (x3a :: t).
  assert (Ht : nonul (mjoin (zip_with column widths vs) ++ [x0a])).
  { apply Forall_app. split; [|by repeat constructor]. eapply Forall_impl; [by apply columns_nonul|]. by intros c [? _]. }
  destruct (few_numbers vs (30 - length name) Hvs Hv ltac:(lia)) as [Hf H31].
  assert (H30 : (30 - length name < length (mjoin (zip_with column widths vs) ++ [x0a]))%nat) by (rewrite length_app; cbn [length]; lia).
  rewrite net_line_cut by (done || lia). destruct (bool_decide _); [done|].
  destruct (scan_llu 16 _) as [|? [|? [|? [|? [|? [|? [|? [|? [|? [|? ?]]]]]]]]]]; try done. cbn in Hf. lia.
Qed.

Lemma dec_short v : 0 ≤ v < 2 ^ 64 → (length (dec v) ≤ 20)%nat.
Proof.
  intros Hv. unfold dec. rewrite (proj2 (Z.ltb_ge _ _)) by lia. apply digits_length; [|lia]. change (10 ^ Z.of_nat 20) with 100000000000000000000. lia.
Qed.
Lemma columns_short vs : Forall (λ v, 0 ≤ v < 2 ^ 64) vs → ∀ ws, Forall (λ w, (w ≤ 10)%nat) ws → (length (mjoin (zip_with column ws vs)) ≤ 21 * length vs)%nat.
Proof.
  induction 1 as [|v vs Hv _ IH]; intros ws [|w ws' Hw Hws]; cbn [zip_with]; try (cbn; lia).
  change (mjoin (column w v :: ?b)) with (column w v ++ mjoin b). rewrite length_app. specialize (IH ws' Hws).
  assert (length (column w v) ≤ 21)%nat; [|cbn [length]; lia].
  pose proof (dec_short v Hv). unfold column, padl. cbn [length]. rewrite length_app, length_replicate. lia.
Qed.
Lemma net_dev_text name vs : interface_name name → length vs = 16%nat → Forall (λ v, 0 ≤ v < 2 ^ 64) vs → text_line 512 (net_dev_line name vs).
Proof.
  intros ([Hl1 Hl2] & Hc & Hh) Hvs Hv. exists (padl 6 name ++ str ":" ++ mjoin (zip_with column widths vs)). split; [unfold net_dev_line; by rewrite <- !(assoc_L (++))|]. split.
  - apply Forall_app. split; [|apply Forall_app; split; [by repeat constructor|by apply columns_nonul]].
    rewrite padl_text. apply Forall_app. split; [by apply Forall_replicate|]. eapply Forall_impl; [exact Hc|]. by intros c (? & ? & _).
  - pose proof (columns_short vs Hv widths ltac:(repeat (constructor; [lia|]); constructor)). unfold net_dev_line. rewrite padl_text, !length_app, length_replicate.
    change (length (str ":")) with 1%nat. cbn [length]. lia.
Qed.

(** Whatever interfaces there are and whatever they have counted, from a file with two
    header lines and lines in the kernel's layout network_read reports no interface. *)
Theorem network_never_lists h1 h2 ifs s : text_line 512 h1 → text_line 512 h2 →
  Forall (λ x, interface_name x.1 ∧ length x.2 = 16%nat ∧ Forall (λ v, 0 ≤ v < 2 ^ 64) x.2) ifs →
  network_read (Some (h1 ++ h2 ++ mjoin ((λ x, net_dev_line x.1 x.2) <$> ifs))) s = Ret (0, set_net [] s).
Proof.
  intros H1 H2 Hifs. unfold network_read. change (h1 ++ h2 ++ mjoin ?l) with (mjoin (h1 :: h2 :: l)). rewrite lines_text.
  2:{ constructor; [done|]. constructor; [done|]. apply Forall_fmap. eapply Forall_impl; [exact Hifs|]. intros [n vs] (? & ? & ?). by apply net_dev_text. }
  assert (E : net_lines ((λ x, net_dev_line x.1 x.2) <$> ifs) [] = Ret []); [|by rewrite E].
  induction Hifs as [|[n vs] ifs (Hn & Hl & Hv) _ IH]; [done|]. cbn [fmap list_fmap fst snd]. cbn [net_lines].
  change (Z.of_nat (length []) <? MAX_NET_IFACES) with true. cbv iota. by rewrite kernel_line_skipped.
Qed.
Definition wit_header : list byte := str "Inter-|   Receive" ++ [x0a].
Lemma network_never_lists_witness : network_read (Some (wit_header ++ wit_header ++
    str "  eth0: 1234567    4321    0    0    0     0          0         0   765432    1234    0    0    0     0       0          0" ++ [x0a])) no_sys =
  Ret (0, set_net [] no_sys).
Proof.
  apply (network_never_lists wit_header wit_header [(str "eth0", [1234567; 4321; 0; 0; 0; 0; 0; 0; 765432; 1234; 0; 0; 0; 0; 0; 0])] no_sys).
  - exists (str "Inter-|   Receive"). split_and!; [done|by repeat constructor|done].
  - exists (str "Inter-|   Receive"). split_and!; [done|by repeat constructor|done].
  - repeat constructor; try done; simpl; lia.
Defined.

(** ** /proc/[pid]/stat *)

(** The fields after the name in the order of the kernel; [k_rest] are those after startcode. *)
Record kernel_stat := KStat {
  k_state : byte; k_ppid : Z; k_pgrp : Z; k_session : Z; k_tty : Z; k_tpgid : Z; k_flags : Z; k_minflt : Z; k_cminflt : Z; k_majflt : Z;
  k_cmajflt : Z; k_utime : Z; k_stime : Z; k_cutime : Z; k_cstime : Z; k_priority : Z; k_nice : Z; k_num_threads : Z; k_itrealvalue : Z;
  k_starttime : Z; k_vsize : Z; k_rss : Z; k_rsslim : Z; k_startcode : Z; k_rest : list Z
}.
Definition k_fields (k : kernel_stat) : list (list byte) :=
  [k.(k_state)] :: (dec <$> [k.(k_ppid); k.(k_pgrp); k.(k_session); k.(k_tty); k.(k_tpgid); k.(k_flags); k.(k_minflt); k.(k_cminflt);
    k.(k_majflt); k.(k_cmajflt); k.(k_utime); k.(k_stime); k.(k_cutime); k.(k_cstime); k.(k_priority); k.(k_nice); k.(k_num_threads);
    k.(k_itrealvalue); k.(k_starttime); k.(k_vsize); k.(k_rss); k.(k_rsslim); k.(k_startcode)]).
Fixpoint spaced (ws : list (list byte)) (last : list byte) : list byte :=
  match ws with [] => last | w :: ws' => w ++ x20 :: spaced ws' last end.
Definition stat_line (id : Z) (comm : list byte) (k : kernel_stat) : list byte :=
  dec id ++ str " (" ++ comm ++ str ") " ++ spaced (k_fields k ++ (dec <$> k.(k_rest))) [x30; x0a].

(** Words without spaces, brackets, zeros and newlines. *)
Definition word (w : list byte) : Prop := w ≠ [] ∧ Forall (λ c, c ≠ x20 ∧ c ≠ x29 ∧ c ≠ x00 ∧ c ≠ x0a) w.
Lemma tokens_word w s cur : Forall (λ c, c ≠ x20) w → rev cur ++ w ≠ [] → tokens cur (w ++ x20 :: s) = (rev cur ++ w) :: tokens [] s.
Proof.
  intros Hw. revert cur. induction Hw as [|c w Hc _ IH]; intros cur Hne; cbn [app tokens].
  - rewrite app_nil_r in *. destruct (decide (x20 = x20)); [|done]. destruct cur; [done|]. done.
  - rewrite decide_False by done. rewrite IH; cbn [rev]; rewrite <- (assoc_L (++)); [done|]. by destruct (rev cur).
Qed.
Lemma tokens_spaced ws last : Forall word ws → tokens [] (spaced ws last) = ws ++ tokens [] last.
Proof.
  induction 1 as [|w ws [Hne Hw] _ IH]; [done|]. cbn [spaced app]. rewrite tokens_word; [by rewrite IH| |done].
  eapply Forall_impl; [exact Hw|]. by intros c (? & _).
Qed.
Lemma dec_signed z : - 2 ^ 63 ≤ z < 2 ^ 64 → word (dec z) ∧ ∃ s ds, dec z = s ++ ds ∧ Forall (λ c, is_digit c = true) ds ∧ ds ≠ [] ∧
  (z < 0 ∧ s = [x2d] ∧ dec_value 0 ds = - z ∨ 0 ≤ z ∧ s = [] ∧ dec_value 0 ds = z).
Proof.
  intros Hz. assert (Hd : ∀ c, is_digit c = true → c ≠ x20 ∧ c ≠ x29 ∧ c ≠ x00 ∧ c ≠ x0a) by (intros c Hc; repeat split; intros ->; by vm_compute in Hc).
  destruct (decide (z < 0)) as [Hn|Hn].
  - destruct (dec_spec (- z) ltac:(lia)) as (Ha & Hne & Hv). unfold dec in *. rewrite (proj2 (Z.ltb_lt z 0)) by lia. rewrite (proj2 (Z.ltb_ge (- z) 0)) in * by lia.
    split; [split; [done|]|].
    + constructor; [done|]. eapply Forall_impl; [exact Ha|]. by intros c ?%Hd.
    + exists [x2d], (digits 64 10 (- z) []). split_and!; try done. by left.
  - destruct (dec_spec z ltac:(lia)) as (Ha & Hne & Hv). split; [split; [done|]|].
    + eapply Forall_impl; [exact Ha|]. by intros c ?%Hd.
    + exists [], (dec z). split_and!; try done. right. split_and!; [lia|done|done].
Qed.
Lemma scan_digits neg ds r s : Forall (λ c, is_digit c = true) ds → ds ≠ [] → match r with [] => True | c :: _ => is_digit c = false end →
  s = (if neg : bool then [x2d] else []) ++ ds → scan_int (s ++ r) = Some (if neg then - dec_value 0 ds else dec_value 0 ds, r).
Proof.
  intros Hd Hne Hr ->. unfold scan_int. destruct ds as [|d ds]; [done|]. apply Forall_cons in Hd as [Hd Hds].
  assert (Hsp : is_space d = false) by by apply digit_not_space. destruct neg; cbn [app].
  - cbn [skip_space]. change (is_space x2d) with false. cbv iota.
    change (d :: ds ++ r) with ((d :: ds) ++ r). rewrite span_n_exact; [done|rewrite length_app; lia|by constructor|done].
  - cbn [skip_space]. rewrite Hsp.
    assert (Hm : (match d :: ds ++ r with x2d :: s' => (true, s') | x2b :: s' => (false, s') | _ => (false, d :: ds ++ r) end) = (false, (d :: ds) ++ r)).
    { destruct d; try done; by vm_compute in Hd. }
    rewrite Hm. rewrite span_n_exact; [done|rewrite length_app; lia|by constructor|done].
Qed.
Lemma scan_dec z r : - 2 ^ 63 ≤ z < 2 ^ 64 → match r with [] => True | c :: _ => is_digit c = false end → scan_int (dec z ++ r) = Some (z, r).
Proof.
  intros Hz Hr. destruct (dec_signed z Hz) as (_ & s & ds & -> & Hd & Hne & [(Hlt & -> & Hv)|(Hge & -> & Hv)]).
  - rewrite (scan_digits true ds r) by done. rewrite Hv. do 2 f_equal. lia.
  - rewrite (scan_digits false ds r) by done. by rewrite Hv.
Qed.
Lemma to_u64_small z : 0 ≤ z < 2 ^ 64 → to_u64 z = z.
Proof. intros. unfold to_u64. rewrite (proj2 (Z.leb_gt _ _)) by lia. by apply u64_small. Qed.
Lemma strtoul_dec z : 0 ≤ z < 2 ^ 64 → strtoul (dec z) = z.
Proof. intros. unfold strtoul. rewrite <- (app_nil_r (dec z)), scan_dec by (done || lia). by apply to_u64_small. Qed.
Lemma strtol_dec z : 0 ≤ z < 2 ^ 63 → strtol (dec z) = z.
Proof. intros. unfold strtol. rewrite <- (app_nil_r (dec z)), scan_dec by (done || lia). unfold to_long. lia. Qed.

Lemma last_byte_app a b : x29 ∉ b → last_byte x29 (a ++ x29 :: b) = Some (length a).
Proof.
  intros Hb. unfold last_byte. assert (E : find_byte x29 (rev (a ++ x29 :: b)) = Some (length b)).
  { rewrite rev_app_distr. cbn [rev]. rewrite <- (assoc_L (++)). cbn [app]. rewrite <- (length_rev b).
    assert (Hr : x29 ∉ rev b) by (rewrite rev_alt; change (rev_append b []) with (reverse b); by rewrite elem_of_reverse). revert Hr. generalize (rev b). clear.
    induction l as [|c l IH]; intros Hl; cbn; [done|]. apply not_elem_of_cons in Hl as [Hc Hl]. rewrite decide_False by done. by rewrite IH. }
  rewrite E. f_equal. rewrite length_app. cbn [length]. lia.
Qed.
Definition in_range (k : kernel_stat) : Prop :=
  word [k.(k_state)] ∧ 0 ≤ k.(k_ppid) < 2 ^ 31 ∧ 0 ≤ k.(k_cutime) < 2 ^ 63 ∧ 0 ≤ k.(k_cstime) < 2 ^ 63 ∧ 0 ≤ k.(k_num_threads) < 2 ^ 31 ∧
  0 ≤ k.(k_rsslim) < 2 ^ 64 ∧ 0 ≤ k.(k_startcode) < 2 ^ 63 ∧
  Forall (λ z, - 2 ^ 63 ≤ z < 2 ^ 64) ([k.(k_pgrp); k.(k_session); k.(k_tty); k.(k_tpgid); k.(k_flags); k.(k_minflt); k.(k_cminflt);
    k.(k_majflt); k.(k_cmajflt); k.(k_utime); k.(k_stime); k.(k_priority); k.(k_nice); k.(k_itrealvalue); k.(k_starttime); k.(k_vsize);
    k.(k_rss)] ++ k.(k_rest)).
(** The name of a process: what the kernel keeps of it, without a closing bracket. *)
Definition comm_ok (c : list byte) : Prop := (0 < length c < 64)%nat ∧ Forall (λ c, c ≠ x29 ∧ c ≠ x00 ∧ c ≠ x0a) c.
Lemma words_of k : in_range k → Forall word (k_fields k ++ (dec <$> k.(k_rest))).
Proof.
  intros (H1 & H2 & H3 & H4 & H5 & H6 & H7 & H8). assert (Hd : ∀ z, - 2 ^ 63 ≤ z < 2 ^ 64 → word (dec z)) by (intros z Hz; by apply dec_signed).
  rewrite Forall_app in H8. destruct H8 as [H8 H9]. apply Forall_app. split.
  - unfold k_fields. constructor; [done|]. apply Forall_fmap. rewrite !Forall_cons in H8. destruct_and! H8.
    repeat (apply Forall_cons; split; [apply Hd; lia|]). constructor.
  - apply Forall_fmap. eapply Forall_impl; [exact H9|]. exact Hd.
Qed.
Lemma spaced_clean ws last (P : byte → Prop) : Forall word ws → P x20 → (∀ c, c ≠ x20 ∧ c ≠ x29 ∧ c ≠ x00 ∧ c ≠ x0a → P c) → Forall P last → Forall P (spaced ws last).
Proof.
  intros Hw H20 HP Hl. induction Hw as [|w ws [_ Hw] _ IH]; [done|]. cbn [spaced]. apply Forall_app. split; [by eapply Forall_impl|]. by constructor.
Qed.
(** The numbers picked: the fifteenth place is that of cstime, not of stime. *)
Lemma picked k : in_range k → pick_all 0 (tokens [] (spaced (k_fields k ++ (dec <$> k.(k_rest))) [x30; x0a])) (Fields x00 0 0 0 0 0 0) =
  Fields k.(k_state) k.(k_ppid) k.(k_cutime) k.(k_cstime) k.(k_num_threads) k.(k_rsslim) k.(k_startcode).
Proof.
  intros Hk. rewrite tokens_spaced by by apply words_of. destruct Hk as (H1 & H2 & H3 & H4 & H5 & H6 & H7 & H8).
  rewrite <- (assoc_L (++)). unfold k_fields. cbn [fmap list_fmap app]. generalize (dec <$> k_rest k) as ws. intros ws. cbn [fmap list_fmap].
  assert (Hend : ∀ l f i, 24 ≤ i → pick_all i l f = f).
  { clear. induction l as [|t l IH]; intros f i Hi; [done|]. cbn [pick_all]. destruct (i <? 39); [|done]. rewrite IH by lia. unfold pick.
    destruct (i + 1) as [|p|p] eqn:E; try done. do 5 (destruct p as [p|p|]; try done; try lia). }
  assert (Hs : ∀ i j t l f, (i <? 39) = true → i + 1 = j → pick_all i (t :: l) f = pick_all j l (pick j t f)) by (intros i j t l f Hi <-; cbn [pick_all]; by rewrite Hi).
  do 24 (erewrite Hs; [|reflexivity|vm_compute; reflexivity]). rewrite Hend by done.
  cbn [pick head default from_option id f_state f_ppid utime stime nice_val vsize rss].
  by rewrite !strtoul_dec, strtol_dec, !atoi_dec by lia.
Qed.

Section stat.
Context (page_size clock_ticks : Z) (files : Z → proc_files) (getpwuid : Z → option (list byte)).
Lemma stat_line_text id comm k : 0 < id < 2 ^ 31 → comm_ok comm → in_range k → Z.of_nat (length (stat_line id comm k)) < 1024 → text_line 1024 (stat_line id comm k).
Proof.
  intros Hid [Hc1 Hc2] Hk Hl. exists (dec id ++ str " (" ++ comm ++ str ") " ++ spaced (k_fields k ++ (dec <$> k.(k_rest))) [x30]).
  assert (E : ∀ ws, spaced ws [x30; x0a] = spaced ws [x30] ++ [x0a]) by (induction ws as [|w ws IH]; [done|cbn [spaced]; by rewrite IH, <- (assoc_L (++))]).
  unfold stat_line in *. rewrite E in *. split_and!; [by rewrite <- !(assoc_L (++))| |done].
  apply Forall_app; split; [|apply Forall_app; split; [by repeat constructor|apply Forall_app; split; [|apply Forall_app; split; [by repeat constructor|]]]].
  - destruct (dec_signed id ltac:(lia)) as [[_ Hw] _]. eapply Forall_impl; [exact Hw|]. by intros c (_ & _ & ? & ?).
  - eapply Forall_impl; [exact Hc2|]. by intros c (_ & ? & ?).
  - apply spaced_clean; [by apply words_of|done|by intros c (_ & _ & ? & ?)|by repeat constructor].
Qed.
Lemma stat_head_line id comm k : 0 < id < 2 ^ 31 → comm_ok comm → stat_head (stat_line id comm k) = (Some id, Some comm).
Proof.
  intros Hid [Hc1 Hc2]. unfold stat_head, stat_line. rewrite scan_dec by (done || lia).
  change (skip_space (str " (" ++ ?r)) with (x28 :: r). cbv iota. unfold scan_set. change (str ") " ++ ?r) with (x29 :: x20 :: r).
  rewrite span_n_exact; [|lia| |done].
  - destruct comm; [cbn in Hc1; lia|]. unfold to_long. rewrite s32_small by lia. do 2 f_equal. lia.
  - eapply Forall_impl; [exact Hc2|]. intros c (? & _). by apply bool_decide_eq_true.
Qed.
Lemma stat_rparen id comm k : in_range k → last_byte x29 (stat_line id comm k) = Some (length (dec id ++ str " (" ++ comm)) ∧
  drop (length (dec id ++ str " (" ++ comm) + 2) (stat_line id comm k) = spaced (k_fields k ++ (dec <$> k.(k_rest))) [x30; x0a] ∧
  (length (dec id ++ str " (" ++ comm) + 2 ≤ length (stat_line id comm k))%nat.
Proof.
  intros Hk. set (a := dec id ++ str " (" ++ comm). set (t := spaced (k_fields k ++ (dec <$> k.(k_rest))) [x30; x0a]).
  assert (E : stat_line id comm k = a ++ x29 :: x20 :: t) by (unfold stat_line, a; by rewrite <- !(assoc_L (++))).
  rewrite E. split_and!.
  - apply last_byte_app. intros [? | Ht]%elem_of_cons; [done|].
    assert (Hc : Forall (λ c, c ≠ x29) t) by (apply spaced_clean; [by apply words_of|done|by intros c (_ & ? & _)|by repeat constructor]).
    rewrite Forall_forall in Hc. by apply (Hc _ Ht).
  - rewrite drop_app_ge by lia. by replace (length a + 2 - length a)%nat with 2%nat by lia.
  - rewrite length_app. cbn [length]. lia.
Qed.

(** A process whose stat file is the kernel's line: its number, name, state and parent are
    read, but as times those of waited-for children, as nice value the number of threads,
    as sizes the limit of the resident set and the start of the code. *)
Theorem process_reads_wrong_fields s id comm k status cmdline : 0 < id < 2 ^ 31 → comm_ok comm → in_range k →
  Z.of_nat (length (stat_line id comm k)) < 1024 → files id = Files (Some (stat_line id comm k)) status cmdline → ∃ p,
  proc_of page_size clock_ticks files getpwuid s id = Ret (Some p) ∧
  p.(pid) = id ∧ p.(p_name) = comm ∧ p.(state) = k.(k_state) ∧ p.(ppid) = k.(k_ppid) ∧
  p.(p_nice) = k.(k_num_threads) ∧ p.(vm_size) = k.(k_rsslim) `div` 1024 ∧ p.(vm_rss) = u64 (k.(k_startcode) * page_size) `div` 1024 ∧
  (flt zero s.(uptime) = true → 0 < clock_ticks →
   p.(cpu_percent) = fdiv (fmul (of_Z 100) (fdiv (of_Z (u64 (k.(k_cutime) + k.(k_cstime)))) (of_Z clock_ticks))) s.(uptime)).
Proof.
  intros Hid Hc Hk Hl Hf. unfold proc_of. rewrite Hf. cbn [f_stat f_status f_cmdline].
  assert (El : lines 1024 (stat_line id comm k) = [stat_line id comm k]).
  { transitivity (lines 1024 (mjoin [stat_line id comm k])); [cbn [mjoin list_join]; by rewrite app_nil_r|].
    apply lines_text. constructor; [by apply stat_line_text|constructor]. }
  rewrite El. destruct (stat_rparen id comm k Hk) as (Er & Ed & Hlen). rewrite Er, stat_head_line by done.
  rewrite (proj2 (Nat.ltb_ge _ _)) by done. rewrite Ed, picked by done.
  eexists. split; [reflexivity|]. cbn [pid p_name state ppid p_nice vm_size vm_rss cpu_percent f_state f_ppid utime stime nice_val vsize rss].
  split_and!; try done.
  - apply take_ge. destruct Hc. lia.
  - intros Hu Ht. rewrite Hu, (proj2 (Z.ltb_lt _ _)) by done. done.
Qed.
End stat.

(** A shell: its line as the kernel prints it. *)
Definition wit_stat : kernel_stat :=
  KStat x53 1 4242 4242 34816 4242 4194304 1500 20000 3 40 11 22 333 444 20 0 7 0 9000 8192000 1300 18446744073709551615 94371840
    [94375000; 140720000; 0; 0; 0; 65536; 3686404; 1266761467; 1; 0; 0; 17; 2; 0; 0].
Definition wit_files (_ : Z) : proc_files := Files (Some (stat_line 4242 (str "bash") wit_stat)) None None.
Definition wit_sys : sys_info_t := Sys (of_Z 100) [zero; zero; zero] 0 (replicate 32 no_cpu) no_cpu (Mem 8000000 0 0 0 0 0 0 zero) [] [] [].
Lemma process_reads_wrong_fields_witness : ∃ p, proc_of 4096 100 wit_files (λ _, None) wit_sys 4242 = Ret (Some p) ∧ p.(p_nice) = 7 ∧
  p.(vm_rss) = 94371840 * 4096 `div` 1024 ∧ p.(cpu_percent) = fdiv (fmul (of_Z 100) (fdiv (of_Z 777) (of_Z 100))) (of_Z 100).
Proof.
  destruct (process_reads_wrong_fields 4096 100 wit_files (λ _, None) wit_sys 4242 (str "bash") wit_stat None None) as
    (p & E & _ & _ & _ & _ & Hn & _ & Hr & Hc).
  - lia.
  - split; [cbn; lia|by repeat constructor].
  - unfold in_range, word. split_and!; try done; try (cbn; lia); [by repeat constructor|]. repeat constructor; cbn; lia.
  - by vm_compute.
  - done.
  - exists p. split_and!; [done|by rewrite Hn|by rewrite Hr|by apply Hc].
Defined.

(** ** /proc/stat *)

(** The line of all processors, and the numbers that it adds. *)
Definition cpu_text (vs : list Z) : list byte := str "cpu " ++ mjoin ((λ v, x20 :: dec v) <$> vs) ++ [x0a].
Definition sum8 (vs : list Z) : Z := foldr Z.add 0 (take 8 vs).
Lemma scan_int_space s : scan_int (x20 :: s) = scan_int s.
Proof. done. Qed.
Lemma scan_llu_text n vs r : (n ≤ length vs)%nat → Forall (λ v, 0 ≤ v < 2 ^ 64) vs → scan_llu n (mjoin ((λ v, x20 :: dec v) <$> vs) ++ x0a :: r) = take n vs.
Proof.
  intros Hn Hvs. revert n Hn. induction Hvs as [|v vs Hv _ IH]; intros n Hn; [by destruct n; [|cbn in Hn; lia]|].
  destruct n as [|n]; [done|]. cbn [fmap list_fmap mjoin list_join scan_llu]. cbn [app]. rewrite scan_int_space, <- (assoc_L (++)), scan_dec; [|lia|].
  - cbn [take]. rewrite to_u64_small by done. f_equal. apply IH. cbn in Hn. lia.
  - by destruct vs.
Qed.
Lemma one_hundred : of_Z 1 = S754_finite false 4503599627370496 (-52) ∧ of_Z 100 = S754_finite false 7036874417766400 (-46).
Proof. by vm_compute. Qed.
(** A part of a whole is at most one. *)
Lemma ratio_at_most_1 d t : 0 ≤ d ≤ t → 0 < t < 2 ^ 53 → at_most (fdiv (of_Z d) (of_Z t)) 4503599627370496 (-52).
Proof.
  intros Hd Ht. destruct (of_Z_pos t Ht) as (mt & et & -> & Hvt & Het & Hmt). destruct (decide (d = 0)) as [->|Hd0]; [done|].
  destruct (of_Z_pos d ltac:(lia)) as (md & ed & -> & Hvd & Hed & Hmd).
  assert (Hexp : ∀ m e n, val (Zpos m) e = val n 0 → 0 < n < 2 ^ 53 → emin 53 1024 ≤ e → e ≤ 53 ∧ 0 < Zdigits2 (Zpos m) + e ∧ Zdigits2 (Zpos m) + e ≤ 53).
  { intros m e n Hv Hn He. pose proof (zdigits_spec (Zpos m) ltac:(lia)) as [H1 H2]. pose proof (zdigits_nonneg (Zpos m)).
    assert (1 ≤ Zdigits2 (Zpos m)) by (cbn; lia). unfold emin in *.
    pose proof (val_lt_bits (Zpos m) e n 0 (Zdigits2 (Zpos m) - 1) 53 ltac:(lia) ltac:(lia) ltac:(lia) ltac:(lia) H1 ltac:(lia) ltac:(lia)).
    pose proof (val_lt_bits n 0 (Zpos m) e 0 (Zdigits2 (Zpos m)) ltac:(lia) ltac:(lia) ltac:(lia) ltac:(lia) ltac:(lia) H2 ltac:(lia)). lia. }
  destruct (Hexp md ed d Hvd ltac:(lia) Hed) as (? & ? & ?). destruct (Hexp mt et t Hvt Ht Het) as (? & ? & ?). unfold emin in *.
  apply fdiv_upper; try (unfold representable, emin; lia).
  rewrite Hvd, Hvt. change (val 4503599627370496 (-52)) with (2 ^ 3000). rewrite Z.mul_comm. apply Z.mul_le_mono_nonneg_l; [apply Z.pow_nonneg; lia|].
  apply val_mono; lia.
Qed.
Lemma usage_at_most_100 d t : 0 ≤ d ≤ t → 0 < t < 2 ^ 53 → at_most (fmul (of_Z 100) (fsub (of_Z 1) (fdiv (of_Z d) (of_Z t)))) 100 0.
Proof.
  intros Hd Ht. pose proof (ratio_at_most_1 d t Hd Ht) as Hr. destruct one_hundred as [-> ->].
  apply (fsub_upper 4503599627370496 (-52)) in Hr; [|unfold emin; lia|lia].
  apply (fmul_upper 7036874417766400 (-46) _ 4503599627370496 (-52)); [unfold emin; lia|unfold representable, emin; lia|lia|done|lia|].
  by vm_compute.
Qed.

(** C27. Two readings of /proc/stat whose counters have not gone back: the usage of all
    processors is a number between 0 and 100, if any time has passed, and is left alone
    otherwise. *)
Theorem cpu_usage_bounds vs0 vs1 s : (8 ≤ length vs0)%nat → (8 ≤ length vs1)%nat → Forall (λ v, 0 ≤ v < 2 ^ 64) vs0 → Forall (λ v, 0 ≤ v < 2 ^ 64) vs1 →
  Forall2 Z.le (take 8 vs0) (take 8 vs1) → sum8 vs1 < 2 ^ 64 → sum8 vs1 - sum8 vs0 < 2 ^ 53 →
  let previous := cpu_line (cpu_text vs0) s in
  let current := cpu_calculate_usage previous (cpu_line (cpu_text vs1) previous) in
  if decide (sum8 vs0 = sum8 vs1) then current.(cpu_total).(usage_percent) = previous.(cpu_total).(usage_percent)
  else at_most current.(cpu_total).(usage_percent) 100 0.
Proof.
  intros Hl0 Hl1 Hv0 Hv1 Hle Hs Hd previous current.
  assert (Hcpu : ∀ vs s, (8 ≤ length vs)%nat → Forall (λ v, 0 ≤ v < 2 ^ 64) vs → cpu_line (cpu_text vs) s = set_cpu_total (set_times s.(cpu_total).(c_name) (take 8 vs) s.(cpu_total)) s).
  { intros vs s' Hl Hv. unfold cpu_line, cpu_text. change (is_prefix (str "cpu ") (str "cpu " ++ ?x)) with true. cbv iota.
    change (drop 4 (str "cpu " ++ ?x)) with x. by rewrite scan_llu_text. }
  subst previous current. rewrite (Hcpu vs0 s), Hcpu by done. clear Hcpu. apply (Forall_take _ 8) in Hv0, Hv1. unfold sum8 in *.
  assert (He : ∀ vs : list Z, (8 ≤ length vs)%nat → ∃ a b c d e f g h, take 8 vs = [a; b; c; d; e; f; g; h]).
  { intros vs H. do 8 (destruct vs as [|? vs]; [cbn in H; lia|]). by eexists _, _, _, _, _, _, _, _. }
  destruct (He vs0 Hl0) as (a & b & c & d & e & f & g & h & E0), (He vs1 Hl1) as (a' & b' & c' & d' & e' & f' & g' & h' & E1).
  rewrite E0, E1 in *. clear E0 E1. rewrite !Forall_cons in Hv0, Hv1. rewrite !Forall2_cons in Hle. destruct_and! Hv0. destruct_and! Hv1. destruct_and! Hle.
  cbn [foldr] in *. rewrite !Z.add_assoc, !Z.add_0_r in *.
  unfold cpu_calculate_usage, usage. cbn [set_cpu_total set_cpus cpu_total set_times nth total idle usage_percent c_name].
  rewrite !(u64_small (_ + _)), !(u64_small (_ - _)) by lia.
  case_decide as E.
  - rewrite E, Z.sub_diag. done.
  - rewrite (proj2 (Z.ltb_lt _ _)) by lia. cbn [usage_percent]. apply usage_at_most_100; lia.
Qed.
Lemma cpu_usage_bounds_witness : at_most (cpu_calculate_usage (cpu_line (cpu_text [100; 0; 50; 800; 10; 0; 3; 0; 0; 0]) no_sys)
    (cpu_line (cpu_text [150; 0; 80; 890; 12; 0; 4; 0; 0; 0]) (cpu_line (cpu_text [100; 0; 50; 800; 10; 0; 3; 0; 0; 0]) no_sys))).(cpu_total).(usage_percent) 100 0.
Proof.
  apply (cpu_usage_bounds [100; 0; 50; 800; 10; 0; 3; 0; 0; 0] [150; 0; 80; 890; 12; 0; 4; 0; 0; 0] no_sys).
  - cbn; lia.
  - cbn; lia.
  - repeat constructor; lia.
  - repeat constructor; lia.
  - repeat constructor; lia.
  - by vm_compute.
  - by vm_compute.
Defined.

(** ** Bounds of what is kept *)

Definition name_in (n : nat) (s : list byte) : Prop := (length s < n)%nat.
Record well_formed (s : sys_info_t) : Prop := {
  wf_loadavg : length s.(loadavg) = 3%nat;
  wf_cpus : length s.(cpus) = 32%nat ∧ 0 ≤ s.(num_cpus) ≤ 32 ∧ Forall (λ c, name_in 16 c.(c_name)) s.(cpus);
  wf_processes : (length s.(processes) ≤ 1024)%nat ∧
    Forall (λ p, name_in 64 p.(p_name) ∧ name_in 256 p.(command) ∧ name_in 32 p.(p_user)) s.(processes);
  wf_disks : (length s.(disks) ≤ 16)%nat ∧ Forall (λ d, name_in 64 d.(device) ∧ name_in 128 d.(mount) ∧ name_in 32 d.(fs_type)) s.(disks);
  wf_net : (length s.(net) ≤ 16)%nat ∧ Forall (λ n, name_in 32 n.(n_name) ∧ 0 ≤ n.(rx_rate) < 2 ^ 64 ∧ 0 ≤ n.(tx_rate) < 2 ^ 64) s.(net)
}.

Lemma scan_word_length n s w r : scan_word n s = Some (w, r) → (length w ≤ n)%nat.
Proof.
  unfold scan_word. pose proof (span_n_length n (λ c, negb (is_space c)) (skip_space s)). destruct (span_n _ _ _) as [a b]. cbn [fst] in *.
  destruct a; [done|]. by intros [= <- _].
Qed.
Lemma cpu_line_wf l s : well_formed s → s.(num_cpus) < 32 → well_formed (cpu_line l s).
Proof.
  intros [Hl (H1 & H2 & H3) Hp Hd Hn] Hlt. unfold cpu_line. destruct (is_prefix (str "cpu ") l); [by split|]. destruct (is_prefix (str "cpu") l && _); [|by split].
  split; cbn [set_cpus loadavg cpus num_cpus processes disks net]; try done. split_and!; [by rewrite length_insert|lia|lia|].
  apply Forall_insert; [done|]. destruct (scan_word 15 l) as [[w r]|] eqn:E; cbn [set_times c_name].
  - apply scan_word_length in E. unfold name_in. lia.
  - destruct (cpus s !! _) eqn:E1; cbn [default from_option id]; [|unfold name_in; cbn; lia]. exact (Forall_lookup_1 _ _ _ _ H3 E1).
Qed.
Lemma cpu_lines_wf ls s : well_formed s → well_formed (cpu_lines ls s).
Proof.
  revert s. induction ls as [|l ls IH]; intros s Hs; [done|]. cbn [cpu_lines]. change MAX_CPUS with 32. destruct (Z.ltb_spec (num_cpus s) 32); [|done].
  by apply IH, cpu_line_wf.
Qed.
Lemma read_loadavg_wf f s : well_formed s → well_formed (read_loadavg f s).
Proof. intros Hs. unfold read_loadavg. destruct f; [|done]. destruct Hs. split; cbn; try done. by case_bool_decide. Qed.
Lemma cpu_read_wf a b c s : well_formed s → well_formed (cpu_read a b c s).2.
Proof.
  intros Hs. unfold cpu_read. destruct a as [t|]; [|done]. cbn [snd]. assert (Hu : ∀ s, well_formed s → well_formed (read_uptime c s)).
  { intros s' []. unfold read_uptime. by destruct c. }
  apply Hu, read_loadavg_wf, cpu_lines_wf. destruct Hs as [? (? & ? & ?) ? ? ?]. by split; cbn.
Qed.
Lemma usages_spec n now prev : length (usages n now prev) = length now ∧ (c_name <$> usages n now prev) = c_name <$> now.
Proof.
  assert (Hu : ∀ a b, c_name (usage a b) = c_name a) by (intros; unfold usage; by case_match).
  revert now prev. induction n as [|n IH]; intros [|a now] [|b prev]; try done. cbn [usages length fmap list_fmap].
  destruct (IH now prev) as [-> E]. cbn in E. by rewrite E, Hu.
Qed.
Lemma Forall_names {A} (P : list byte → Prop) (f : A → list byte) l l' : f <$> l = f <$> l' → Forall (λ x, P (f x)) l' → Forall (λ x, P (f x)) l.
Proof. intros E H. apply Forall_fmap in H. rewrite <- E in H. by rewrite Forall_fmap in H. Qed.
Lemma usage_wf prev s : well_formed s → well_formed (cpu_calculate_usage prev s).
Proof.
  intros [? (H1 & ? & H3) ? ? ?]. split; cbn; try done. destruct (usages_spec (Z.to_nat (num_cpus s)) (cpus s) (cpus prev)) as [E1 E2].
  split_and!; [by rewrite E1|lia|lia|]. exact (Forall_names (name_in 16) _ _ _ E2 H3).
Qed.
Lemma take_name n k s : (n < k)%nat → name_in k (take n s).
Proof. intros. unfold name_in. rewrite length_take. lia. Qed.
Section bounds.
Context (page_size clock_ticks : Z) (getpwuid : Z → option (list byte)) (qsort : list proc_info_t → list proc_info_t).
Lemma proc_of_wf files s id p : proc_of page_size clock_ticks files getpwuid s id = Ret (Some p) → name_in 64 p.(p_name) ∧ name_in 256 p.(command) ∧ name_in 32 p.(p_user).
Proof.
  unfold proc_of. destruct (f_stat _); [|done]. destruct (lines _ _); [done|]. destruct (last_byte _ _); [|done].
  destruct (stat_head _) as [? [comm|]]; [|done]. destruct (_ <? _)%nat; [done|]. intros [= <-]. cbn [p_name command p_user].
  split_and!; [apply take_name; lia| |].
  - unfold command_of. set (c := match f_cmdline (files id) with Some _ => _ | None => _ end).
    assert (name_in 256 c) by (unfold c; case_match; unfold name_in; [rewrite length_fmap, length_take|cbn]; lia).
    destruct c; [|done]. unfold name_in. rewrite length_take. lia.
  - unfold user_of, get_username. repeat case_match; unfold name_in; rewrite ?length_take; try lia; cbn; lia.
Qed.
Lemma proc_entries_wf files s es acc ps : (length acc ≤ 1024)%nat → Forall (λ p, name_in 64 p.(p_name) ∧ name_in 256 p.(command) ∧ name_in 32 p.(p_user)) acc →
  proc_entries page_size clock_ticks files getpwuid s es acc = Ret ps →
  (length ps ≤ 1024)%nat ∧ Forall (λ p, name_in 64 p.(p_name) ∧ name_in 256 p.(command) ∧ name_in 32 p.(p_user)) ps.
Proof.
  revert acc. induction es as [|e es IH]; intros acc Hl Ha; cbn [proc_entries]; [by intros [= <-]|]. change MAX_PROCESSES with 1024.
  destruct (Z.ltb_spec (Z.of_nat (length acc)) 1024); [|by intros [= <-]]. case_match; [by apply IH|]. destruct (proc_of _ _ _ _ _ _) as [[p|]| | |] eqn:E; try done; [|by apply IH].
  apply IH; [rewrite length_app; cbn; lia|]. apply Forall_app. split; [done|]. constructor; [|constructor]. by eapply proc_of_wf.
Qed.
Lemma disk_line_wf st l d : disk_line st l = Some d → name_in 64 d.(device) ∧ name_in 128 d.(mount) ∧ name_in 32 d.(fs_type).
Proof.
  unfold disk_line, mount_line. destruct (scan_word 63 l) as [[dev r]|] eqn:E1; [|done]. destruct (scan_word 127 r) as [[mnt r2]|] eqn:E2; [|done].
  destruct (scan_word 31 r2) as [[fs r3]|] eqn:E3; [|done]. apply scan_word_length in E1, E2, E3.
  destruct (scan_word 255 _) as [[? ?]|]; [|done]. destruct (scan_int _) as [[? ?]|]; [|done]. destruct (scan_int _); [|done].
  destruct (_ || _); [done|]. destruct (st mnt); [|done]. intros [= <-].
  unfold name_in. cbn [device mount fs_type]. lia.
Qed.
Lemma disk_lines_wf st ls acc : (length acc ≤ 16)%nat → Forall (λ d, name_in 64 d.(device) ∧ name_in 128 d.(mount) ∧ name_in 32 d.(fs_type)) acc →
  (length (disk_lines st ls acc) ≤ 16)%nat ∧ Forall (λ d, name_in 64 d.(device) ∧ name_in 128 d.(mount) ∧ name_in 32 d.(fs_type)) (disk_lines st ls acc).
Proof.
  revert acc. induction ls as [|l ls IH]; intros acc Hl Ha; cbn [disk_lines]; [done|]. change MAX_MOUNTS with 16.
  destruct (Z.ltb_spec (Z.of_nat (length acc)) 16); [|done]. destruct (disk_line st l) eqn:E; [|by apply IH].
  apply IH; [rewrite length_app; cbn; lia|]. apply Forall_app. split; [done|]. constructor; [|constructor]. by eapply disk_line_wf.
Qed.
Lemma net_line_wf l n : net_line l = Ret (Some n) → name_in 32 n.(n_name) ∧ n.(rx_rate) = 0 ∧ n.(tx_rate) = 0.
Proof.
  unfold net_line. destruct (find_byte x3a l); [|done]. case_match; [done|]. case_bool_decide; [done|].
  destruct (scan_llu _ _) as [|? [|? [|? [|? [|? [|? [|? [|? [|? [|? ?]]]]]]]]]]; try done. intros [= <-]. split_and!; [|done|done]. apply take_name. lia.
Qed.
Lemma net_lines_wf ls acc ns : (length acc ≤ 16)%nat → Forall (λ n, name_in 32 n.(n_name) ∧ n.(rx_rate) = 0 ∧ n.(tx_rate) = 0) acc → net_lines ls acc = Ret ns →
  (length ns ≤ 16)%nat ∧ Forall (λ n, name_in 32 n.(n_name) ∧ n.(rx_rate) = 0 ∧ n.(tx_rate) = 0) ns.
Proof.
  revert acc. induction ls as [|l ls IH]; intros acc Hl Ha; cbn [net_lines]; [by intros [= <-]|]. change MAX_NET_IFACES with 16.
  destruct (Z.ltb_spec (Z.of_nat (length acc)) 16); [|by intros [= <-]]. destruct (net_line l) as [[n|]| | |] eqn:E; try done; [|by apply IH].
  apply IH; [rewrite length_app; cbn; lia|]. apply Forall_app. split; [done|]. constructor; [|constructor]. by eapply net_line_wf.
Qed.
Lemma rate_range a b e z : rate a b e = Ret z → 0 ≤ z < 2 ^ 64.
Proof. unfold rate. destruct (trunc _); [|done]. destruct (_ && _) eqn:E; [|done]. intros [= <-]. apply andb_true_iff in E as [? ?]. lia. Qed.
Definition net_ok (n : net_info_t) : Prop := name_in 32 n.(n_name) ∧ 0 ≤ n.(rx_rate) < 2 ^ 64 ∧ 0 ≤ n.(tx_rate) < 2 ^ 64.
Lemma rated_all_wf prev e ns ns' : Forall net_ok ns → rated_all prev e ns = Ret ns' → length ns' = length ns ∧ Forall net_ok ns'.
Proof.
  intros Hns. revert ns'. induction Hns as [|n ns Hn _ IH]; intros ns'; cbn [rated_all]; [by intros [= <-]|].
  destruct (rated prev e n) as [n'| | |] eqn:E; try done. destruct (rated_all prev e ns) as [l| | |]; try done. intros [= <-].
  destruct (IH l ltac:(done)) as [Hl Hf]. split; [cbn; by rewrite Hl|]. constructor; [|done]. unfold rated in E. destruct (head _); [|by injection E as <-].
  destruct (rate (rx_bytes n) _ _) as [r| | |] eqn:E1; try done. destruct (rate (tx_bytes n) _ _) as [t| | |] eqn:E2; try done. injection E as <-.
  apply rate_range in E1, E2. by destruct Hn.
Qed.

(** ** When a turn returns *)

Lemma half_returns x : 0 ≤ x < 2 ^ 64 → ∃ z, trunc (fdiv (of_Z x) (of_Z 2)) = Some z ∧ 0 ≤ z < 2 ^ 64.
Proof.
  intros Hx. destruct (decide (x = 0)) as [->|H0]; [by exists 0|].
  assert (Hu : at_most (of_Z x) 4503599627370496 12).
  { apply normalize_upper; try (unfold representable, emin; lia). transitivity (val (4503599627370496 * 2 ^ 12) 0); [apply val_mono; lia|by rewrite val_shift by lia]. }
  assert (Hl : Double.at_least (of_Z x) 1 0) by (apply normalize_lower; try (unfold representable, emin; lia); apply val_mono; lia).
  destruct (of_Z x) as [|sx| |[] m e]; try done. destruct Hu as (Hu & He & Hm), Hl as (Hl & _). unfold emin in He.
  change (of_Z 2) with (S754_finite false 4503599627370496 (-51)).
  pose proof (zdigits_spec (Zpos m) ltac:(lia)) as [Hd1 Hd2]. pose proof (zdigits_nonneg (Zpos m)).
  assert (0 < Zdigits2 (Zpos m) + e) by (apply (val_lt_bits 1 0 (Zpos m) e 0); lia).
  assert (0 + e < 53 + 12) by (apply (val_lt_bits (Zpos m) e 4503599627370496 12 0 53); lia).
  assert (Hq : at_most (fdiv (S754_finite false m e) (S754_finite false 4503599627370496 (-51))) 4503599627370496 11).
  { apply fdiv_upper; try (unfold representable, emin; lia).
    - change (Zdigits2 4503599627370496) with 53. unfold emin. lia.
    - assert (E2 : val 4503599627370496 (-51) = 2 * 2 ^ 3000) by (vm_compute; reflexivity).
      assert (E12 : val 4503599627370496 12 = val 4503599627370496 11 * 2) by (vm_compute; reflexivity).
      rewrite E2, Z.mul_assoc. apply Z.mul_le_mono_nonneg_r; [apply Z.lt_le_incl, pow_3000|]. by rewrite <- E12. }
  destruct (fdiv _ _) as [|sq| |[] mq eq]; try done; [by exists 0|]. destruct Hq as (Hq & Heq & _). unfold emin in Heq.
  destruct (trunc_spec mq eq ltac:(lia)) as (z & -> & Hz1 & Hz2). exists z. split; [done|].
  pose proof (val_pos (Zpos mq) eq ltac:(lia) ltac:(lia)).
  assert (0 < z + 1) by (apply (val_cancel _ _ 0); [lia|]; change (val 0 0) with 0; lia).
  assert (z ≤ 2 ^ 63); [|lia]. apply (val_cancel_le _ _ 0); [lia|]. transitivity (val (Zpos mq) eq); [done|].
  change (2 ^ 63) with (4503599627370496 * 2 ^ 11). by rewrite val_shift by lia.
Qed.
Lemma rate_returns a b : ∃ z, rate a b (of_Z 2) = Ret z.
Proof.
  unfold rate. destruct (half_returns (u64 (a - b)) (u64_range _)) as (z & -> & H1 & H2). exists z.
  by rewrite (proj2 (Z.leb_le _ _)), (proj2 (Z.ltb_lt _ _)) by done.
Qed.
Lemma rates_return prev s : ∃ s', network_calculate_rate prev (of_Z 2) s = Ret s'.
Proof.
  unfold network_calculate_rate. destruct (fle _ _); [by eexists|].
  assert (H : ∃ ns, rated_all prev.(net) (of_Z 2) s.(net) = Ret ns); [|destruct H as [ns ->]; by eexists].
  induction s.(net) as [|n ns [l IH]]; cbn [rated_all]; [by eexists|]. rewrite IH. unfold rated.
  destruct (head _) as [p|]; [|by eexists]. destruct (rate_returns n.(rx_bytes) p.(rx_bytes)) as [r ->].
  destruct (rate_returns n.(tx_bytes) p.(tx_bytes)) as [t ->]. by eexists.
Qed.

(** A stat file whose first line has a closing bracket, but no name in brackets in front
    of it or nothing behind it. *)
Definition bad_stat (f : proc_fs) : Prop := ∃ id t line rest rparen,
  (f.(fs_files) id).(f_stat) = Some t ∧ lines 1024 t = line :: rest ∧ last_byte x29 line = Some rparen ∧
  ((stat_head line).2 = None ∨ (length line < rparen + 2)%nat).
(** A line of /proc/net/dev that begins with 481 or more spaces. *)
Definition bad_net (f : proc_fs) : Prop := ∃ t l, f.(fs_net) = Some t ∧ l ∈ lines 512 t ∧ (481 ≤ leading_spaces l)%nat.

Lemma proc_of_cases f s id : (∃ o, proc_of page_size clock_ticks f.(fs_files) getpwuid s id = Ret o) ∨
  proc_of page_size clock_ticks f.(fs_files) getpwuid s id = UB ∧ bad_stat f.
Proof.
  unfold proc_of. destruct (f_stat _) as [t|] eqn:Ef; [|left; by eexists]. destruct (lines 1024 t) as [|line rest] eqn:El; [left; by eexists|].
  destruct (last_byte x29 line) as [rp|] eqn:Er; [|left; by eexists].
  assert (Hbad : (stat_head line).2 = None ∨ (length line < rp + 2)%nat → bad_stat f) by (intros H; by exists id, t, line, rest, rp).
  destruct (stat_head line) as [p [comm|]]; [|right; split; [by destruct p|by apply Hbad; left]].
  destruct p as [p|]; (destruct (Nat.ltb_spec (length line) (rp + 2)); [right; split; [done|by apply Hbad; right]|left; by eexists]).
Qed.
Lemma proc_entries_cases f s es : ∀ acc, (∃ ps, proc_entries page_size clock_ticks f.(fs_files) getpwuid s es acc = Ret ps) ∨
  proc_entries page_size clock_ticks f.(fs_files) getpwuid s es acc = UB ∧ bad_stat f.
Proof.
  induction es as [|e es IH]; intros acc; cbn [proc_entries]; [left; by eexists|]. destruct (_ <? MAX_PROCESSES); [|left; by eexists].
  destruct (atoi e <=? 0); [apply IH|]. destruct (proc_of_cases f s (atoi e)) as [[[p|] ->]|[-> Hb]]; [apply IH|apply IH|by right].
Qed.
Lemma leading_spaces_cut l : ∀ k, l !! k = Some x3a → (leading_spaces (cstr (<[k := x00]> (l ++ [x00]))) ≤ leading_spaces l)%nat.
Proof.
  induction l as [|c l IH]; intros [|k] Hk; try done; [by injection Hk as ->|]. cbn [app insert list_insert cstr].
  cbn in Hk. destruct (decide (c = x00)) as [->|Hc]; [cbn; lia|]. specialize (IH k Hk).
  destruct c; try done; cbn [leading_spaces]; try lia. by apply le_n_S.
Qed.
Lemma net_line_cases l : (∃ o, net_line l = Ret o) ∨ net_line l = UB ∧ (481 ≤ leading_spaces l)%nat.
Proof.
  unfold net_line. destruct (find_byte x3a l) as [k|] eqn:E; [|left; by eexists]. apply find_byte_Some in E as [Hk _].
  assert (Hkl : (k < length l)%nat) by (apply (f_equal length) in Hk; rewrite length_app, length_take in Hk; cbn [length] in Hk; lia).
  assert (Hc : l !! k = Some x3a) by (rewrite Hk, lookup_app_r; rewrite length_take; [by replace (k - k `min` length l)%nat with 0%nat by lia|lia]).
  pose proof (leading_spaces_cut l k Hc). destruct (Nat.leb_spec 512 (leading_spaces (cstr (<[k:=x00]> (l ++ [x00]))) + 31)).
  { right. split; [done|lia]. }
  left. destruct (bool_decide _); [by eexists|].
  destruct (scan_llu 16 _) as [|? [|? [|? [|? [|? [|? [|? [|? [|? [|? ?]]]]]]]]]]; by eexists.
Qed.
Lemma net_lines_cases ls : ∀ acc, (∃ ns, net_lines ls acc = Ret ns) ∨ net_lines ls acc = UB ∧ ∃ l, l ∈ ls ∧ (481 ≤ leading_spaces l)%nat.
Proof.
  induction ls as [|l ls IH]; intros acc; cbn [net_lines]; [left; by eexists|]. destruct (_ <? MAX_NET_IFACES); [|left; by eexists].
  assert (H : ∀ acc, (∃ ns, net_lines ls acc = Ret ns) ∨ net_lines ls acc = UB ∧ ∃ l', l' ∈ l :: ls ∧ (481 ≤ leading_spaces l')%nat).
  { intros acc'. destruct (IH acc') as [?|(? & l' & ? & ?)]; [by left|right]. split; [done|]. exists l'. split; [by right|done]. }
  destruct (net_line_cases l) as [[[n|] ->]|[-> Hl]]; [apply H|apply H|right]. split; [done|]. exists l. split; [by left|done].
Qed.
Lemma network_read_cases f s : (∃ r, network_read f.(fs_net) s = Ret r) ∨ network_read f.(fs_net) s = UB ∧ bad_net f.
Proof.
  unfold network_read, bad_net. destruct (fs_net f) as [t|]; [|left; by eexists].
  destruct (lines 512 t) as [|h1 [|h2 ls]] eqn:El; [left; by eexists|left; by eexists|].
  destruct (net_lines_cases ls []) as [[ns ->]|(-> & l & Hl & Hs)]; [left; by eexists|right]. split; [done|].
  exists t, l. split_and!; [done|rewrite El; by do 2 right|done].
Qed.
Lemma read_system_cases f s : (∃ s', read_system page_size clock_ticks getpwuid qsort f s = Ret s') ∨
  read_system page_size clock_ticks getpwuid qsort f s = UB ∧ (bad_stat f ∨ bad_net f).
Proof.
  unfold read_system. generalize (memory_read (fs_meminfo f) (cpu_calculate_usage s (cpu_read (fs_stat f) (fs_loadavg f) (fs_uptime f) s).2)).2. intros s2.
  unfold process_read. assert (Hrest : ∀ s3 : sys_info_t, (∃ s', bind (network_read f.(fs_net) (disk_read (fs_statvfs f) (fs_mounts f) s3).2)
    (λ r, network_calculate_rate s (of_Z 2) r.2) = Ret s') ∨ bind (network_read f.(fs_net) (disk_read (fs_statvfs f) (fs_mounts f) s3).2)
    (λ r, network_calculate_rate s (of_Z 2) r.2) = UB ∧ (bad_stat f ∨ bad_net f)).
  { intros s3. destruct (network_read_cases f (disk_read (fs_statvfs f) (fs_mounts f) s3).2) as [[r ->]|[-> Hb]]; cbn [bind]; [left; apply rates_return|right].
    split; [done|by right]. }
  destruct (fs_dir f) as [es|]; [|apply Hrest].
  destruct (proc_entries_cases f s2 es []) as [[ps ->]|[-> Hb]]; cbn [bind snd]; [apply Hrest|right]. split; [done|by left].
Qed.

Lemma read_system_keeps f s s' : (∀ ps, qsort ps ≡ₚ ps) → well_formed s →
  read_system page_size clock_ticks getpwuid qsort f s = Ret s' → well_formed s'.
Proof.
  intros Hq Hs. unfold read_system.
  apply (cpu_read_wf (fs_stat f) (fs_loadavg f) (fs_uptime f)) in Hs as H1. apply (usage_wf s) in H1.
  assert (H2 : well_formed (memory_read (fs_meminfo f) (cpu_calculate_usage s (cpu_read (fs_stat f) (fs_loadavg f) (fs_uptime f) s).2)).2).
  { unfold memory_read. case_match; [|done]. by destruct H1. }
  clear H1. revert H2. generalize (memory_read (fs_meminfo f) (cpu_calculate_usage s (cpu_read (fs_stat f) (fs_loadavg f) (fs_uptime f) s).2)).2. intros s2 H2.
  destruct (process_read _ _ _ _ _ _ _) as [[z s3]| | |] eqn:E3; try done. cbn [bind fst snd].
  assert (H3 : well_formed s3).
  { unfold process_read in E3. destruct (fs_dir f) as [es|]; [|by injection E3 as <- <-]. destruct (proc_entries _ _ _ _ _ _ _) as [ps| | |] eqn:E; try done. injection E3 as <- <-.
    apply proc_entries_wf in E; [|cbn; lia|constructor]. destruct H2. split; cbn [set_processes loadavg cpus num_cpus processes disks net]; try done. rewrite (Hq ps). done. }
  clear E3 H2. assert (H4 : well_formed (disk_read (fs_statvfs f) (fs_mounts f) s3).2).
  { unfold disk_read. case_match; [|done]. destruct H3. split; cbn [set_disks snd loadavg cpus num_cpus processes disks net]; try done. apply disk_lines_wf; [cbn; lia|constructor]. }
  revert H4. generalize (disk_read (fs_statvfs f) (fs_mounts f) s3).2. clear H3. intros s4 H4.
  destruct (network_read _ _) as [[z5 s5]| | |] eqn:E5; try done. cbn [bind fst snd]. assert (H5 : well_formed s5).
  { unfold network_read in E5. destruct (fs_net f); [|by injection E5 as <- <-]. destruct H4.
    destruct (lines 512 _) as [|? [|? ls]]; [injection E5 as <- <-; by split; try done; split; [cbn; lia|]|injection E5 as <- <-; by split; try done; split; [cbn; lia|]|]. destruct (net_lines _ _) as [ns| | |] eqn:E; try done. injection E5 as <- <-.
    apply net_lines_wf in E as [? E]; [|cbn; lia|constructor]. split; cbn [set_net loadavg cpus num_cpus processes disks net]; try done. split; [done|].
    eapply Forall_impl; [exact E|]. intros n (? & -> & ->). split_and!; done. }
  unfold network_calculate_rate. case_match; [by intros [= <-]|]. destruct (rated_all _ _ _) as [ns| | |] eqn:E; try done. intros [= <-].
  destruct H5 as [? ? ? ? [? Hf]]. apply rated_all_wf in E as [E ?]; [|done]. split; cbn [set_net loadavg cpus num_cpus processes disks net]; try done. by rewrite E.
Qed.

(** C26. One turn of the main loop, whatever the files of /proc hold: it returns, with every
    array within its bounds and every string within its field with the terminating zero, or
    it reads or writes out of bounds, and then a stat file has a closing bracket but no name
    in front of it or nothing behind it, or a line of /proc/net/dev begins with 481 spaces. *)
Theorem read_system_well_formed f s : (∀ ps, qsort ps ≡ₚ ps) → well_formed s →
  (∃ s', read_system page_size clock_ticks getpwuid qsort f s = Ret s' ∧ well_formed s') ∨
  read_system page_size clock_ticks getpwuid qsort f s = UB ∧ (bad_stat f ∨ bad_net f).
Proof.
  intros Hq Hs. destruct (read_system_cases f s) as [[s' E]|H]; [left|by right].
  exists s'. split; [done|]. by apply (read_system_keeps f s).
Qed.
End bounds.
Definition wit_fs : proc_fs := ProcFs (Some (cpu_text [150; 0; 80; 890; 12; 0; 4; 0; 0; 0])) (Some (str "0.50 0.25 0.10 1/300 4242")) (Some (str "100.00 350.00"))
  (Some (str "MemTotal: 8000000 kB")) (Some [str "self"; str "4242"]) wit_files (Some (str "/dev/sda1 / ext4 rw 0 0")) (λ _, Some (Statvfs 4096 4096 1000 400 300))
  None.
Lemma no_sys_well_formed : well_formed no_sys.
Proof.
  split; cbn [no_sys loadavg cpus num_cpus processes disks net]; [done| |by split; [cbn; lia|]..].
  rewrite length_replicate. split; [done|]. split; [lia|]. apply Forall_replicate. unfold name_in. cbn. lia.
Qed.
Lemma read_system_well_formed_witness :
  (∃ s, read_system 4096 100 (λ _, None) id wit_fs no_sys = Ret s ∧ well_formed s) ∨
  read_system 4096 100 (λ _, None) id wit_fs no_sys = UB ∧ (bad_stat wit_fs ∨ bad_net wit_fs).
Proof. exact (read_system_well_formed 4096 100 (λ _, None) id wit_fs no_sys ltac:(done) no_sys_well_formed). Defined.
(** That turn returns, with one process and one disk. *)
Example read_system_example : match read_system 4096 100 (λ _, None) id wit_fs no_sys with
  | Ret s => length s.(processes) = 1%nat ∧ length s.(disks) = 1%nat | _ => False end.
Proof. vm_compute. by split. Qed.
End SysMonSpec.
