(* ===== verification/ShellParser.v ===== *)
(** * mini-shell: the command line parser (mini-shell/src/parser.c)

    Lines and tokens are C strings, lists of non-NUL bytes.  The state of a run
    scripts the allocator: each strdup takes the next outcome, and succeeds when
    none is left.  The environment is a parameter. *)

From S2P Require Import Prelude.

Module ShellParser.
#[local] Arguments Z.to_nat : simpl never.

Definition MAX_ARGS : Z := 256.
Definition MAX_LINE : Z := 4096.
Definition MAX_PIPES : Z := 16.

(** ** Data *)

(** [argv] holds the [argc] arguments before the terminating NULL. *)
Record command_t := Command {
  argv : list (list byte);
  input_file : option (list byte);
  output_file : option (list byte);
  append : bool;
  cbackground : bool
}.
(** [commands] holds the first [num_commands] entries. *)
Record pipeline_t := Pipeline { commands : list command_t; background : bool }.

Definition strdup (s : list byte) : C (list bool) (option (list byte)) := λ al,
  match al with
  | [] => Ret (Some s, [])
  | b :: al' => Ret (if (b : bool) then Some s else None, al')
  end.

Section parser.
Context (getenv : list byte → option (list byte)).

(** ** expand_variables *)

Definition is_name (c : byte) : bool := is_alnum c || bool_decide (c = x5f).
Definition not_rbrace (c : byte) : bool := negb (bool_decide (c = x7d)).

(** The variable name after a [$], and where the for loop goes on: behind a
    closing brace the increment of the loop skips one more character. *)
Definition var_name (s : list byte) : list byte * list byte :=
  match s with
  | x7b :: s' =>
      let '(name, r) := span_n 255 not_rbrace s' in
      (name, drop 1 (match r with x7d :: r' => r' | _ => r end))
  | _ => span_n 255 is_name s
  end.

(** The loop on the rest [s] of the token with [result] written so far. *)
Fixpoint expand_loop (fuel : nat) (s result : list byte) : outcome (list byte) :=
  match s with
  | [] => Ret result
  | c :: s' =>
      if negb (strlen result <? MAX_LINE - 1) then Ret result else
      match fuel with
      | O => Fuel
      | S fuel' =>
          if bool_decide (c = x24) && negb (bool_decide (s' = [])) then
            let '(name, r) := var_name s' in
            expand_loop fuel' r
              (match getenv name with
               | Some val =>
                   if strlen result + strlen val <? MAX_LINE - 1 then result ++ val else result
               | None => result
               end)
          else expand_loop fuel' s' (result ++ [c])
      end
  end.
Definition expand_variables (token : list byte) : outcome (list byte) :=
  expand_loop (length token) token [].

(** ** tokenize *)

Definition is_blank (c : byte) : bool := bool_decide (c = x20) || bool_decide (c = x09).
Fixpoint skip_blank (p : list byte) : list byte :=
  match p with
  | c :: p' => if is_blank c then skip_blank p' else p
  | [] => []
  end.

(** The characters of one token.  When the buffer is full the loop no longer
    advances and runs for ever; that is [Fuel]. *)
Fixpoint token_loop (p : list byte) (in_single in_double : bool) (token : list byte)
    : outcome (list byte * list byte) :=
  match p with
  | [] => Ret (token, [])
  | c :: p' =>
      if negb (in_single || in_double) && is_blank c then Ret (token, p)
      else if bool_decide (c = x27) && negb in_double then
        token_loop p' (negb in_single) in_double token
      else if bool_decide (c = x22) && negb in_single then
        token_loop p' in_single (negb in_double) token
      else
        match p' with
        | c2 :: p2 =>
            if bool_decide (c = x5c) && negb in_single then
              if strlen token <? MAX_LINE - 1 then token_loop p2 in_single in_double (token ++ [c2])
              else token_loop p' in_single in_double token
            else if strlen token <? MAX_LINE - 1 then token_loop p' in_single in_double (token ++ [c])
            else Fuel
        | [] => if strlen token <? MAX_LINE - 1 then token_loop p' in_single in_double (token ++ [c])
                else Fuel
        end
  end.

(** The arguments, or [None] when strdup failed. *)
Fixpoint tokenize (fuel : nat) (p : list byte) (argv : list (list byte))
    : C (list bool) (option (list (list byte))) :=
  if bool_decide (p = []) || negb (Z.of_nat (length argv) <? MAX_ARGS - 1) then mret (Some argv) else
  match skip_blank p with
  | [] => mret (Some argv)
  | q =>
      match fuel with
      | O => c_fuel
      | S fuel' =>
          r ← c_lift (token_loop q false false []);
          if bool_decide (r.1 = []) then tokenize fuel' r.2 argv else
          expanded ← c_lift (expand_variables r.1);
          a ← strdup expanded;
          match a with
          | None => mret None
          | Some a => tokenize fuel' r.2 (argv ++ [a])
          end
      end
  end.

(** ** parse_redirections *)

Fixpoint redirect_loop (args : list (list byte)) (cmd : command_t) : C (list bool) command_t :=
  match args with
  | [] => mret cmd
  | a :: args' =>
      let keep := Command (cmd.(argv) ++ [a]) cmd.(input_file) cmd.(output_file) cmd.(append)
                    cmd.(cbackground) in
      match args' with
      | [] => mret keep
      | f :: args2 =>
          if bool_decide (a = str "<") then
            i ← strdup f;
            redirect_loop args2 (Command cmd.(argv) i cmd.(output_file) cmd.(append) cmd.(cbackground))
          else if bool_decide (a = str ">>") then
            o ← strdup f;
            redirect_loop args2 (Command cmd.(argv) cmd.(input_file) o true cmd.(cbackground))
          else if bool_decide (a = str ">") then
            o ← strdup f;
            redirect_loop args2 (Command cmd.(argv) cmd.(input_file) o false cmd.(cbackground))
          else redirect_loop args' keep
      end
  end.
Definition parse_redirections (args : list (list byte)) : C (list bool) command_t :=
  redirect_loop args (Command [] None None false false).

(** ** parse_line *)

Definition trim_blank (s : list byte) : list byte := reverse (skip_blank (reverse s)).

(** The line without a trailing [&], and whether there was one. *)
Definition cut_background (s : list byte) : list byte * bool :=
  match reverse (trim_blank s) with
  | x26 :: r => (trim_blank (reverse r), true)
  | _ => (s, false)
  end.

(** The segments strtok_r finds between bars; empty ones are skipped. *)
Fixpoint segments (s cur : list byte) : list (list byte) :=
  match s with
  | [] => if bool_decide (cur = []) then [] else [cur]
  | c :: s' =>
      if bool_decide (c = x7c) then (if bool_decide (cur = []) then [] else [cur]) ++ segments s' []
      else segments s' (cur ++ [c])
  end.

(** [None]: a token could not be stored. *)
Fixpoint parse_segments (segs : list (list byte)) (cmds : list command_t)
    : C (list bool) (bool * list command_t) :=
  match segs with
  | [] => mret (true, cmds)
  | seg :: segs' =>
      if negb (Z.of_nat (length cmds) <? MAX_PIPES) then mret (true, cmds) else
      args ← tokenize (length seg) seg [];
      match args with
      | None => mret (false, cmds)
      | Some [] => parse_segments segs' cmds
      | Some args => cmd ← parse_redirections args; parse_segments segs' (cmds ++ [cmd])
      end
  end.

(** The flag of the whole pipeline on its last command. *)
Fixpoint mark_last (b : bool) (cmds : list command_t) : list command_t :=
  match cmds with
  | [] => []
  | [c] => [Command c.(argv) c.(input_file) c.(output_file) c.(append) b]
  | c :: cmds' => c :: mark_last b cmds'
  end.

Definition parse_line (line : list byte) : C (list bool) (Z * pipeline_t) :=
  copy ← strdup line;
  match copy with
  | None => mret (-1, Pipeline [] false)
  | Some copy =>
      let '(body, bg) := cut_background copy in
      r ← parse_segments (segments body []) [];
      let '(ok, cmds) := r in
      if negb ok then mret (-1, Pipeline cmds bg) else
      if bool_decide (cmds = []) then mret (-1, Pipeline [] bg) else
      mret (0, Pipeline (mark_last bg cmds) bg)
  end.

End parser.

(** ** free_pipeline *)

(** The strings it frees, in order; a NULL file is nothing. *)
Definition free_command (cmd : command_t) : list (list byte) := cmd.(argv) ++ option_list cmd.(input_file) ++ option_list cmd.(output_file).
Definition free_pipeline (p : pipeline_t) : list (list byte) := p.(commands) ≫= free_command.
End ShellParser.
