(* ===== verification/ShellParserSpec.v ===== *)
(** * mini-shell: properties of the command line parser *)

From S2P Require Import Prelude ShellParser.
Import ShellParser.

Module ShellParserSpec.
#[local] Arguments Z.to_nat : simpl never.

Section spec.
Context (getenv : list byte → option (list byte)).

(** ** Totality *)

Lemma var_name_length s : (length (var_name s).2 ≤ length s)%nat.
Proof.
  assert (Hs : ∀ p s, (length (span_n 255 p s).2 ≤ length s)%nat).
  { intros p t. rewrite (span_n_app 255 p t) at 2. rewrite length_app. lia. }
  destruct s as [|c s]; [done|].
  destruct (decide (c = x7b)) as [->|Hc].
  - cbn [var_name]. specialize (Hs not_rbrace s). destruct (span_n 255 not_rbrace s) as [n r].
    cbn [fst snd length] in *. rewrite length_drop.
    assert ((length (match r with x7d :: r' => r' | _ => r end) ≤ length r)%nat)
      by (destruct r as [|b r]; [done|]; destruct b; simpl; lia).
    lia.
  - assert (var_name (c :: s) = span_n 255 is_name (c :: s)) as -> by (by destruct c).
    apply Hs.
Qed.

Lemma expand_loop_total fuel : ∀ s result, (length s ≤ fuel)%nat →
  ∃ r, expand_loop getenv fuel s result = Ret r.
Proof.
  induction fuel as [|fuel IH]; intros [|c s] result Hl; simpl in Hl; try (by eexists; simpl);
    [lia|]. simpl. destruct (negb _); [by eexists|]. destruct (_ && _).
  - pose proof (var_name_length s). destruct (var_name s) as [n r]. apply IH. simpl in *. lia.
  - apply IH. lia.
Qed.
Lemma expand_total t : ∃ r, expand_variables getenv t = Ret r.
Proof. by apply expand_loop_total. Qed.

(** A token loop with room for everything that is left. *)
Lemma token_loop_total n : ∀ p a b token, (length p ≤ n)%nat → strlen token + strlen p ≤ MAX_LINE - 1 →
  ∃ t r, token_loop p a b token = Ret (t, r) ∧ (length r ≤ length p)%nat.
Proof.
  unfold MAX_LINE, strlen.
  induction n as [|n IH]; intros [|c p] a b token Hn Hl; simpl in Hn;
    try (by do 2 eexists; simpl); [lia|].
  assert (Hrec : ∀ p' a b token', (length p' ≤ length p)%nat →
    (length token' + length p' ≤ length token + S (length p))%nat →
    ∃ t r, token_loop p' a b token' = Ret (t, r) ∧ (length r ≤ length (c :: p))%nat).
  { intros p' a' b' token' H1 H2. simpl in Hl.
    destruct (IH p' a' b' token') as (t & r & E & Hr); [lia|lia|]. exists t, r. simpl. split; [done|lia]. }
  simpl in Hl. cbn [token_loop]. destruct (negb _ && is_blank c); [by do 2 eexists|].
  destruct (_ && negb b); [apply Hrec; lia|]. destruct (_ && negb a); [apply Hrec; lia|].
  unfold strlen, MAX_LINE. rewrite (proj2 (Z.ltb_lt _ _)) by lia.
  destruct p as [|c2 p2]; [apply Hrec; rewrite ?length_app; simpl; lia|].
  destruct (_ && _); apply Hrec; rewrite ?length_app; simpl; lia.
Qed.

(** At a non-blank character the loop makes progress. *)
Lemma token_loop_progress c p : is_blank c = false → strlen (c :: p) ≤ MAX_LINE - 1 →
  ∃ t r, token_loop (c :: p) false false [] = Ret (t, r) ∧ (length r ≤ length p)%nat.
Proof.
  intros Hc Hl. unfold strlen in Hl. simpl in Hl. cbn [token_loop]. rewrite Hc. cbn [orb negb andb].
  rewrite !andb_true_r. change (strlen [] <? MAX_LINE - 1) with true. cbv iota.
  assert (Hrec : ∀ p' a b token', (length p' ≤ length p)%nat →
    (length token' + length p' ≤ S (length p))%nat →
    ∃ t r, token_loop p' a b token' = Ret (t, r) ∧ (length r ≤ length p)%nat).
  { intros p' a' b' token' H1 H2.
    destruct (token_loop_total (length p') p' a' b' token') as (t & r & E & Hr);
      [done|unfold strlen; lia|]. exists t, r. split; [done|lia]. }
  destruct (bool_decide _); [apply Hrec; simpl; lia|]. destruct (bool_decide _); [apply Hrec; simpl; lia|].
  destruct p as [|c2 p2]; [apply Hrec; simpl; lia|].
  destruct (bool_decide _); apply Hrec; simpl; lia.
Qed.

Lemma skip_blank_spec p :
  match skip_blank p with
  | [] => True
  | c :: q => is_blank c = false ∧ (length q < length p)%nat
  end.
Proof.
  induction p as [|c p IH]; simpl; [done|]. destruct (is_blank c) eqn:E; [|split; [done|lia]].
  destruct (skip_blank p); [done|]. destruct IH. split; [done|lia].
Qed.

Lemma tokenize_total fuel : ∀ p (args : list (list byte)) al, (length p ≤ fuel)%nat → strlen p ≤ MAX_LINE - 1 →
  Z.of_nat (length args) ≤ MAX_ARGS - 1 →
  ∃ r al', tokenize getenv fuel p args al = Ret (r, al') ∧
    match r with Some args' => Z.of_nat (length args') ≤ MAX_ARGS - 1 | None => True end.
Proof.
  assert (Hret : ∀ (args : list (list byte)) al, Z.of_nat (length args) ≤ MAX_ARGS - 1 →
    ∃ r al', (mret (Some args) : C (list bool) _) al = Ret (r, al') ∧
    match r with Some args' => Z.of_nat (length args') ≤ MAX_ARGS - 1 | None => True end)
    by (intros args al ?; by exists (Some args), al).
  induction fuel as [|fuel IH]; intros p args al Hf Hp Ha;
    [destruct p; [by apply Hret|simpl in Hf; lia]|].
  cbn [tokenize]. destruct (bool_decide_reflect (p = [])); cbn [orb]; [by apply Hret|].
  destruct (Z.ltb_spec (Z.of_nat (length args)) (MAX_ARGS - 1)); cbn [negb]; [|by apply Hret].
  pose proof (skip_blank_spec p) as Hq. destruct (skip_blank p) as [|c q]; [by apply Hret|].
  destruct Hq as [Hc Hq]. unfold strlen in Hp.
  destruct (token_loop_progress c q Hc) as (t & r & E & Hr); [unfold strlen; simpl; lia|].
  erewrite bind_Ret by (unfold c_lift; by rewrite E). cbn [fst snd].
  destruct (bool_decide (t = [])); [apply IH; unfold strlen; lia|].
  destruct (expand_total t) as [x Ex]. erewrite bind_Ret by (unfold c_lift; by rewrite Ex).
  assert (Hs : ∃ o al1, strdup x al = Ret (o, al1)) by (destruct al; by do 2 eexists).
  destruct Hs as (o & al1 & Es). c_step Es. destruct o as [a|]; [|by exists None, al1].
  apply IH; [lia|unfold strlen; lia|rewrite length_app; simpl; lia].
Qed.

Lemma strdup_total x al : ∃ o al', strdup x al = Ret (o, al').
Proof. destruct al; by do 2 eexists. Qed.

Definition keep_arg (a : list byte) (cmd : command_t) : command_t :=
  Command (cmd.(argv) ++ [a]) cmd.(input_file) cmd.(output_file) cmd.(append) cmd.(cbackground).
Lemma redirect_cons2 a f args cmd : redirect_loop (a :: f :: args) cmd =
  if bool_decide (a = str "<") then
    i ← strdup f;
    redirect_loop args (Command cmd.(argv) i cmd.(output_file) cmd.(append) cmd.(cbackground))
  else if bool_decide (a = str ">>") then
    o ← strdup f; redirect_loop args (Command cmd.(argv) cmd.(input_file) o true cmd.(cbackground))
  else if bool_decide (a = str ">") then
    o ← strdup f; redirect_loop args (Command cmd.(argv) cmd.(input_file) o false cmd.(cbackground))
  else redirect_loop (f :: args) (keep_arg a cmd).
Proof. reflexivity. Qed.

Lemma redirect_total n : ∀ (args : list (list byte)) cmd al, (length args ≤ n)%nat →
  ∃ c al', redirect_loop args cmd al = Ret (c, al') ∧
    (length c.(argv) ≤ length cmd.(argv) + length args)%nat.
Proof.
  induction n as [|n IH]; intros [|a [|f args]] cmd al Hn; simpl in Hn; try lia.
  1, 2: by exists cmd, al; split; [done|simpl; lia].
  { exists (keep_arg a cmd), al. split; [done|]. simpl. rewrite length_app. simpl. lia. }
  destruct (strdup_total f al) as (o & al1 & Es). rewrite redirect_cons2.
  destruct (bool_decide _); [|destruct (bool_decide _); [|destruct (bool_decide _)]].
  1, 2, 3: c_step Es; edestruct (IH args) as (c & al' & E & Hl); [lia|];
    exists c, al'; split; [exact E|simpl in *; lia].
  destruct (IH (f :: args) (keep_arg a cmd) al) as (c & al' & E & Hl); [simpl; lia|].
  exists c, al'. split; [exact E|]. simpl in *. rewrite length_app in Hl. simpl in Hl. lia.
Qed.

(** ** Segments *)

Lemma segments_short s : ∀ cur n, (length cur + length s ≤ n)%nat →
  Forall (λ seg, length seg ≤ n)%nat (segments s cur).
Proof.
  induction s as [|c s IH]; intros cur n Hn; simpl in *.
  - case_bool_decide; [constructor|]. by constructor; [lia|].
  - case_bool_decide.
    + apply Forall_app. split; [case_bool_decide; [constructor|by constructor; [lia|]]|].
      apply IH. simpl. lia.
    + apply IH. rewrite length_app. simpl. lia.
Qed.

Lemma parse_segments_total segs : ∀ cmds al,
  Forall (λ seg, strlen seg ≤ MAX_LINE - 1) segs → Z.of_nat (length cmds) ≤ MAX_PIPES →
  Forall (λ c, Z.of_nat (length c.(argv)) ≤ MAX_ARGS - 1) cmds →
  ∃ ok cmds' al', parse_segments getenv segs cmds al = Ret ((ok, cmds'), al') ∧
    Z.of_nat (length cmds') ≤ MAX_PIPES ∧
    Forall (λ c, Z.of_nat (length c.(argv)) ≤ MAX_ARGS - 1) cmds'.
Proof.
  induction segs as [|seg segs IH]; intros cmds al Hs Hn Hc; cbn [parse_segments].
  { by exists true, cmds, al. }
  apply Forall_cons in Hs as [Hseg Hs].
  destruct (Z.ltb_spec (Z.of_nat (length cmds)) MAX_PIPES); cbn [negb]; [|by exists true, cmds, al].
  destruct (tokenize_total (length seg) seg [] al) as (r & al1 & E & Hr);
    [done|done|unfold MAX_ARGS; simpl; lia|]. c_step E.
  destruct r as [[|a args]|]; [by apply IH| |by exists false, cmds, al1].
  destruct (redirect_total _ (a :: args) (Command [] None None false false) al1 ltac:(reflexivity))
    as (c & al2 & E2 & Hl). unfold parse_redirections. c_step E2.
  apply IH; [done|rewrite length_app; simpl; lia|]. apply Forall_app. split; [done|].
  constructor; [|constructor]. simpl in Hl, Hr. simpl. lia.
Qed.

Lemma skip_blank_le p : (length (skip_blank p) ≤ length p)%nat.
Proof. induction p as [|c p IH]; simpl; [done|]. case_match; simpl; lia. Qed.
Lemma cut_background_short s : (length (cut_background s).1 ≤ length s)%nat.
Proof.
  unfold cut_background, trim_blank. rewrite reverse_involutive.
  pose proof (skip_blank_le (reverse s)) as H. rewrite length_reverse in H.
  destruct (skip_blank (reverse s)) as [|b r]; [done|].
  assert (∀ r : list byte, (length (reverse (skip_blank (reverse (reverse r)))) ≤ length r)%nat)
    as Hr. { intros r'. rewrite length_reverse, reverse_involutive. apply skip_blank_le. }
  specialize (Hr r). simpl in H. destruct b; simpl; lia.
Qed.
Lemma mark_last_snoc b pre c :
  mark_last b (pre ++ [c]) = pre ++ [Command c.(argv) c.(input_file) c.(output_file) c.(append) b].
Proof.
  induction pre as [|x pre IH]; [done|]. rewrite <- !app_comm_cons, <- IH. by destruct pre.
Qed.

(** C14. Parsing a line as the shell reads it (at most 4095 characters) always
    returns, whatever its quotes, variables and redirections and whichever
    allocations fail: 0 with 1 to 16 commands of at most 255 arguments each, the
    last one carrying the background flag, or -1. *)
Theorem parse_line_total line al :
  strlen line ≤ MAX_LINE - 1 →
  ∃ r p al', parse_line getenv line al = Ret ((r, p), al') ∧
    (r = 0 ∧ p.(commands) ≠ [] ∧ cbackground <$> last p.(commands) = Some p.(background) ∨ r = -1) ∧
    Z.of_nat (length p.(commands)) ≤ MAX_PIPES ∧
    Forall (λ c, Z.of_nat (length c.(argv)) ≤ MAX_ARGS - 1) p.(commands).
Proof.
  intros Hl. unfold parse_line. destruct (strdup_total line al) as (o & al1 & E). c_step E.
  destruct o as [copy|]; [|exists (-1), (Pipeline [] false), al1; split_and!; [done|by right|done|constructor]].
  assert (copy = line) as -> by (destruct al as [|[] al]; naive_solver).
  pose proof (cut_background_short line) as Hcut. destruct (cut_background line) as [body bg].
  unfold strlen in Hl. simpl in Hcut.
  destruct (parse_segments_total (segments body []) [] al1) as (ok & cmds & al2 & E2 & Hn & Hc);
    [|done|constructor|].
  { eapply Forall_impl; [apply (segments_short body [] (length body)); simpl; lia|].
    unfold strlen. simpl. lia. }
  c_step E2. destruct ok; cbn [negb];
    [|exists (-1), (Pipeline cmds bg), al2; split_and!; [done|by right|done|done]].
  destruct cmds as [|c cmds _] using rev_ind.
  { exists (-1), (Pipeline [] bg), al2. split_and!; [done|by right|done|constructor]. }
  rewrite bool_decide_eq_false_2 by (by destruct cmds). rewrite mark_last_snoc.
  do 3 eexists. split; [done|]. cbn [commands background].
  rewrite length_app in *. apply Forall_app in Hc as [Hc1 Hc2]. split_and!.
  - left. rewrite last_snoc. by destruct cmds.
  - done.
  - apply Forall_app. split; [done|]. inversion_clear Hc2. by constructor.
Qed.

(** ** Printing a pipeline *)



(** *** Tokens *)




(** *** Words *)




(** *** Redirections *)


(** *** The line *)






(** ** Variables *)

(** Behind [${NAME}] one character is lost. *)
Lemma expand_brace_skips name val c rest :
  Forall (λ b, not_rbrace b = true) name → (length name ≤ 255)%nat → getenv name = Some val →
  strlen val < MAX_LINE - 1 →
  expand_variables getenv (str "${" ++ name ++ x7d :: c :: rest) =
  expand_loop getenv (length name + S (S (S (length rest)))) rest val.
Proof.
  intros Hn Hl Hg Hv. unfold expand_variables.
  replace (length (str "${" ++ name ++ x7d :: c :: rest)) with
    (S (length name + S (S (S (length rest)))))%nat by (rewrite !length_app; simpl; lia).
  change (str "${" ++ name ++ x7d :: c :: rest) with (x24 :: x7b :: name ++ x7d :: c :: rest).
  set (k := (length name + S (S (S (length rest))))%nat). cbn [expand_loop].
  change (negb (strlen [] <? MAX_LINE - 1)) with false. cbv iota.
  rewrite bool_decide_eq_true_2, bool_decide_eq_false_2 by done. cbn [andb negb]. unfold var_name.
  rewrite (span_n_exact 255 not_rbrace name (x7d :: c :: rest)) by done.
  rewrite Hg. change (strlen [] + strlen val) with (strlen val).
  by rewrite (proj2 (Z.ltb_lt _ _)) by done.
Qed.

End spec.
(** ** Concrete instances *)

Definition wit_env (n : list byte) : option (list byte) :=
  if bool_decide (n = str "HOME") then Some (str "/root") else None.

Lemma parse_line_total_witness :
  ∃ r p al', parse_line wit_env (str "echo ${HOME}/x 'a b' | wc -l > out &") [] = Ret ((r, p), al') ∧
    (r = 0 ∧ p.(commands) ≠ [] ∧ cbackground <$> last p.(commands) = Some p.(background) ∨ r = -1).
Proof.
  destruct (parse_line_total wit_env (str "echo ${HOME}/x 'a b' | wc -l > out &") [])
    as (r & p & al' & E & H & _); [vm_compute; discriminate|]. by exists r, p, al'.
Defined.

(** The slash after the braces is lost, a bar in quotes still splits. *)
Example expand_brace_example : expand_variables wit_env (str "${HOME}/x") = Ret (str "/rootx").
Proof. by vm_compute. Qed.
Example quoted_bar_example : segments (str "echo 'a|b'") [] = [str "echo 'a"; str "b'"].
Proof. by vm_compute. Qed.


End ShellParserSpec.
