(* ===== verification/ShellJobs.v ===== *)
(** * mini-shell: job table, job control and the waiting side of the executor
    (mini-shell/src/job.c, mini-shell/src/executor.c, the fg, bg and jobs
    commands of mini-shell/src/builtin.c)

    What the kernel answers (fork, pipe, waitpid, kill) is given by arguments;
    the children themselves are not modelled. *)

From S2P Require Import Prelude ShellParser.
Import ShellParser.

Module ShellJobs.

Definition MAX_JOBS : Z := 64.
Definition INT_MAX : Z := 2 ^ 31 - 1.

(** ** Data *)

Inductive job_state_t := JOB_RUNNING | JOB_STOPPED | JOB_DONE.

(** [pids] holds the first [num_pids] entries. *)
Record job_t := Job {
  id : Z;
  pgid : Z;
  pids : list Z;
  state : job_state_t;
  command : list byte;
  jbackground : bool
}.
Definition no_job : job_t := Job 0 0 [] JOB_RUNNING [] false.

(** [out] is what was printed on stdout, [tty] the foreground process group. *)
Record shell_t := Shell {
  jobs : list job_t;
  num_jobs : Z;
  interactive : bool;
  shell_pgid : Z;
  last_exit_status : Z;
  tty : Z;
  out : list byte
}.
Definition set_jobs (js : list job_t) (n : Z) (s : shell_t) : shell_t :=
  Shell js n s.(interactive) s.(shell_pgid) s.(last_exit_status) s.(tty) s.(out).
Definition set_status (st : Z) (s : shell_t) : shell_t :=
  Shell s.(jobs) s.(num_jobs) s.(interactive) s.(shell_pgid) st s.(tty) s.(out).
Definition set_job (i : nat) (j : job_t) (s : shell_t) : shell_t :=
  set_jobs (<[i := j]> s.(jobs)) s.(num_jobs) s.
Definition print (m : list byte) (s : shell_t) : shell_t :=
  Shell s.(jobs) s.(num_jobs) s.(interactive) s.(shell_pgid) s.(last_exit_status) s.(tty) (s.(out) ++ m).
Definition tcsetpgrp (pg : Z) (s : shell_t) : shell_t :=
  Shell s.(jobs) s.(num_jobs) s.(interactive) s.(shell_pgid) s.(last_exit_status) pg s.(out).

Definition set_state (st : job_state_t) (j : job_t) : job_t :=
  Job j.(id) j.(pgid) j.(pids) st j.(command) j.(jbackground).
Definition set_pids (ps : list Z) (j : job_t) : job_t :=
  Job j.(id) j.(pgid) ps j.(state) j.(command) j.(jbackground).
Definition set_background (b : bool) (j : job_t) : job_t :=
  Job j.(id) j.(pgid) j.(pids) j.(state) j.(command) b.

(** ** The table *)

Fixpoint index (P : job_t → bool) (js : list job_t) : option nat :=
  match js with
  | [] => None
  | j :: js' => if P j then Some 0%nat else S <$> index P js'
  end.

(** The largest id, from 0. *)
Fixpoint max_id (m : Z) (js : list job_t) : Z :=
  match js with
  | [] => m
  | j :: js' => max_id (if m <? j.(id) then j.(id) else m) js'
  end.

Definition job_add (pg : Z) (cmd : list byte) (bg : bool) : C shell_t Z :=
  s ← c_get;
  match index (λ j, j.(id) =? 0) s.(jobs) with
  | None => mret (-1)
  | Some slot =>
      let m := max_id 0 s.(jobs) in
      if m =? INT_MAX then c_ub else
      c_put (set_jobs (<[slot := Job (m + 1) pg [] JOB_RUNNING (take (Z.to_nat (MAX_LINE - 1)) cmd) bg]>
               s.(jobs)) (s.(num_jobs) + 1) s);;
      mret (m + 1)
  end.

Definition job_find (s : shell_t) (i : Z) : option nat := index (λ j, j.(id) =? i) s.(jobs).

Definition job_remove (i : Z) : C shell_t unit :=
  s ← c_get;
  match job_find s i with
  | None => mret tt
  | Some k => c_put (set_jobs (<[k := no_job]> s.(jobs)) (s.(num_jobs) - 1) s)
  end.

(** The lines of [jobs]. *)
Definition state_str (st : job_state_t) : list byte :=
  match st with JOB_RUNNING => str "Running" | JOB_STOPPED => str "Stopped" | JOB_DONE => str "Done" end.
Definition job_line (j : job_t) : list byte :=
  if j.(id) =? 0 then [] else
  str "[" ++ dec j.(id) ++ str "] " ++ state_str j.(state) ++ (if j.(jbackground) then str " &" else []) ++
  str " " ++ j.(command) ++ [x0a].
Definition job_print : C shell_t unit := c_mod (λ s, print (mjoin (job_line <$> s.(jobs))) s).

(** ** Waiting *)

Inductive wstatus := Exited (code : Z) | Signaled (sig : Z) | Stopped (sig : Z) | Continued.

Definition notice (what : list byte) (j : job_t) : list byte :=
  [x0a] ++ str "[" ++ dec j.(id) ++ str "] " ++ what ++ str ": " ++ j.(command) ++ [x0a].

(** Whether [kill(pid, 0)] finds no process left, marking those that are gone;
    the loop stops at the first process still there. *)
Fixpoint all_done (alive : Z → bool) (ps : list Z) : bool * list Z :=
  match ps with
  | [] => (true, [])
  | p :: ps' =>
      if 0 <? p then
        if alive p then (false, ps) else let '(d, ps2) := all_done alive ps' in (d, -1 :: ps2)
      else let '(d, ps2) := all_done alive ps' in (d, p :: ps2)
  end.

(** One result of waitpid in [job_update]. *)
Definition job_event (pid : Z) (status : wstatus) (alive : Z → bool) : C shell_t unit :=
  s ← c_get;
  match index (λ j, negb (j.(id) =? 0) && ((j.(pgid) =? pid) || existsb (Z.eqb pid) j.(pids))) s.(jobs) with
  | None => mret tt
  | Some i =>
      match s.(jobs) !! i with
      | None => c_ub
      | Some job =>
          match status with
          | Exited _ | Signaled _ =>
              let '(d, ps) := all_done alive ((λ p, if p =? pid then -1 else p) <$> job.(pids)) in
              if (d : bool) then
                c_mod (set_job i (set_state JOB_DONE (set_pids ps job)));;
                (if job.(jbackground) then c_mod (print (notice (str "Done") job)) else mret tt);;
                job_remove job.(id)
              else c_mod (set_job i (set_pids ps job))
          | Stopped _ =>
              c_mod (set_job i (set_state JOB_STOPPED job));;
              if job.(jbackground) then c_mod (print (notice (str "Stopped") job)) else mret tt
          | Continued => c_mod (set_job i (set_state JOB_RUNNING job))
          end
      end
  end.

(** [job_update] with the successive positive results of waitpid. *)
Fixpoint job_update (events : list (Z * wstatus * (Z → bool))) : C shell_t unit :=
  match events with
  | [] => mret tt
  | (pid, status, alive) :: events' => job_event pid status alive;; job_update events'
  end.

(** The loop of [job_wait] on job [i]: [rs] are the results of waitpid for the
    processes waited for ([None]: an error other than EINTR, which leaves [status]
    as it was); without a result the call blocks. *)
Fixpoint wait_loop (i : nat) (ps : list Z) (rs : list (option wstatus)) (status : wstatus) (last : Z)
    : C shell_t Z :=
  match ps with
  | [] => mret last
  | p :: ps' =>
      if p <=? 0 then wait_loop i ps' rs status last else
      match rs with
      | [] => c_blocked
      | r :: rs' =>
          let status := default status r in
          match status with
          | Exited c => wait_loop i ps' rs' status c
          | Signaled g => wait_loop i ps' rs' status (128 + g)
          | Stopped g =>
              c_mod (λ s, match s.(jobs) !! i with
                          | Some j => print (notice (str "Stopped") j)
                                        (set_job i (set_background true (set_state JOB_STOPPED j)) s)
                          | None => s
                          end);;
              wait_loop i ps' rs' status (128 + g)
          | Continued => wait_loop i ps' rs' status last
          end
      end
  end.

Definition job_wait (jid : Z) (rs : list (option wstatus)) : C shell_t Z :=
  s ← c_get;
  match job_find s jid with
  | None => mret 1
  | Some i =>
      match s.(jobs) !! i with
      | None => c_ub
      | Some job =>
          (if s.(interactive) then c_mod (tcsetpgrp job.(pgid)) else mret tt);;
          (* SIGCONT to the group of a stopped job; a failure is only reported *)
          c_mod (set_job i (set_background false
                   (match job.(state) with JOB_STOPPED => set_state JOB_RUNNING job | _ => job end)));;
          last_status ← wait_loop i job.(pids) rs (Exited 0) 0;
          (if s.(interactive) then c_mod (tcsetpgrp s.(shell_pgid)) else mret tt);;
          s' ← c_get;
          (match state <$> s'.(jobs) !! i with Some JOB_STOPPED => mret tt | _ => job_remove jid end);;
          c_mod (set_status last_status);;
          mret last_status
      end
  end.

(** ** fg, bg, jobs *)

(** The job id an argument names: [%n] or [n]. *)
Definition job_arg (a : list byte) : Z :=
  match a with
  | x25 :: a' => atoi a'
  | _ => atoi a
  end.
(** The last job of the table that satisfies [P]. *)
Definition last_job (P : job_t → bool) (s : shell_t) : Z :=
  default (-1) (id <$> last (filter (λ j, P j = true) s.(jobs))).

(** The stderr messages are not modelled. *)
Definition builtin_fg (arg : option (list byte)) (rs : list (option wstatus)) : C shell_t Z :=
  s ← c_get;
  let job_id := match arg with Some a => job_arg a | None => last_job (λ j, 0 <? j.(id)) s end in
  if job_id <? 0 then mret 1 else job_wait job_id rs.

Definition is_stopped (j : job_t) : bool :=
  (0 <? j.(id)) && match j.(state) with JOB_STOPPED => true | _ => false end.
Definition builtin_bg (arg : option (list byte)) (kill_ok : bool) : C shell_t Z :=
  s ← c_get;
  let job_id := match arg with Some a => job_arg a | None => last_job is_stopped s end in
  if job_id <? 0 then mret 1 else
  match job_find s job_id with
  | None => mret 1
  | Some i =>
      match s.(jobs) !! i with
      | None => c_ub
      | Some j =>
          if negb kill_ok then mret 1 else
          c_mod (set_job i (set_background true (set_state JOB_RUNNING j)));;
          c_mod (print (str "[" ++ dec j.(id) ++ str "] Continued: " ++ j.(command) ++ str " &" ++ [x0a]));;
          mret 0
      end
  end.

Definition builtin_jobs (events : list (Z * wstatus * (Z → bool))) : C shell_t Z :=
  job_update events;; job_print;; mret 0.

(** ** executor_run *)

(** [strcat] and [strncat] on the 4096-byte [cmd_str]. *)
Definition strcat (s : list byte) : C (list byte) unit := λ buf,
  if strlen buf + strlen s <? MAX_LINE then Ret (tt, buf ++ s) else UB.
Definition strncat (s : list byte) : C (list byte) unit := c_mod (λ buf,
  buf ++ take (Z.to_nat (MAX_LINE - strlen buf - 1)) s).

Fixpoint cat_args (args : list (list byte)) (first : bool) : C (list byte) unit :=
  match args with
  | [] => mret tt
  | a :: args' => (if first then mret tt else strcat (str " "));; strncat a;; cat_args args' false
  end.
Fixpoint cat_commands (cmds : list command_t) (first : bool) : C (list byte) unit :=
  match cmds with
  | [] => mret tt
  | c :: cmds' =>
      (if first then mret tt else strcat (str " | "));; cat_args c.(argv) true;; cat_commands cmds' false
  end.
Definition cmd_str (p : pipeline_t) : outcome (list byte) :=
  match (cat_commands p.(commands) true;; if p.(background) then strncat (str " &") else mret tt) [] with
  | Ret (_, buf) => Ret buf
  | UB => UB | Blocked => Blocked | Fuel => Fuel
  end.

(** Enter the job with the processes of the pipeline. *)
Definition add_with_pids (pg : Z) (cmd : list byte) (bg : bool) (ps : list Z) (f : job_t → job_t)
    : C shell_t Z :=
  job_id ← job_add pg cmd bg;
  if 0 <? job_id then
    c_mod (λ s, match job_find s job_id with
                | Some i => match s.(jobs) !! i with
                            | Some j => set_job i (f (set_pids ps j)) s
                            | None => s
                            end
                | None => s
                end);;
    mret job_id
  else mret job_id.

(** Waiting for a foreground pipeline [all]. *)
Fixpoint fg_loop (pg : Z) (cmd : list byte) (all ps : list Z) (rs : list (option wstatus))
    (status : wstatus) (last : Z) : C shell_t Z :=
  match ps with
  | [] => mret last
  | _ :: ps' =>
      match rs with
      | [] => c_blocked
      | r :: rs' =>
          let status := default status r in
          match status with
          | Exited c => fg_loop pg cmd all ps' rs' status c
          | Signaled g => fg_loop pg cmd all ps' rs' status (128 + g)
          | Stopped g =>
              job_id ← add_with_pids pg cmd false all (set_state JOB_STOPPED);
              (if 0 <? job_id then
                 c_mod (print ([x0a] ++ str "[" ++ dec job_id ++ str "] Stopped: " ++ cmd ++ [x0a]))
               else mret tt);;
              fg_loop pg cmd all ps' rs' status (128 + g)
          | Continued => fg_loop pg cmd all ps' rs' status last
          end
      end
  end.

(** The parent's side: results of pipe and fork (the child's pid or -1). *)
Definition executor_run (p : pipeline_t) (pipes : list bool) (forks : list Z) (rs : list (option wstatus))
    : C shell_t Z :=
  let n := length p.(commands) in
  if bool_decide (n = 0%nat) then mret 0 else
  if existsb negb (take (n - 1) pipes) then mret 1 else
  let ps := take n forks in
  if existsb (λ f, f <? 0) ps then mret 1 else
  let pg := default 0 (head ps) in
  cmd ← c_lift (cmd_str p);
  s ← c_get;
  if p.(background) then
    job_id ← add_with_pids pg cmd true ps (λ j, j);
    (if 0 <? job_id then c_mod (print (str "[" ++ dec job_id ++ str "] " ++ dec pg ++ [x0a])) else mret tt);;
    c_mod (set_status 0);;
    mret 0
  else
    (if s.(interactive) then c_mod (tcsetpgrp pg) else mret tt);;
    last_status ← fg_loop pg cmd ps ps rs (Exited 0) 0;
    (if s.(interactive) then c_mod (tcsetpgrp s.(shell_pgid)) else mret tt);;
    c_mod (set_status last_status);;
    mret last_status.

End ShellJobs.
