(* ===== verification/ShellJobsSpec.v ===== *)
(** * mini-shell: invariant of the job table *)

From S2P Require Import Prelude ShellParser ShellJobs.
Import ShellParser ShellJobs.

Module ShellJobsSpec.
#[local] Arguments Z.to_nat : simpl never.

(** ** The invariant *)

(** The table has 64 slots, ids are not negative, the ids in use are distinct,
    and [num_jobs] counts them. *)
Definition used (js : list job_t) : list Z := filter (λ z, z ≠ 0) (id <$> js).
Record table_ok (s : shell_t) : Prop := {
  to_len : Z.of_nat (length s.(jobs)) = MAX_JOBS;
  to_pos : Forall (λ z, 0 ≤ z) (id <$> s.(jobs));
  to_nodup : NoDup (used s.(jobs));
  to_count : s.(num_jobs) = Z.of_nat (length (used s.(jobs)))
}.

(** Two states with the same ids and count. *)
Definition same_ids (s s' : shell_t) : Prop :=
  id <$> s'.(jobs) = id <$> s.(jobs) ∧ s'.(num_jobs) = s.(num_jobs).
#[global] Instance same_ids_preorder : PreOrder same_ids.
Proof.
  split; [done|]. intros s1 s2 s3 [E1 N1] [E2 N2]. split; congruence.
Qed.
Lemma same_ids_ok s s' : same_ids s s' → table_ok s → table_ok s'.
Proof.
  intros [E N] [Hl Hp Hn Hc]. unfold used in *. rewrite <- E in *.
  rewrite <- (length_fmap id), E, length_fmap in *.
  split; unfold used; [|by rewrite E..|by rewrite N, E].
  rewrite <- Hl. f_equal. by rewrite <- (length_fmap id (jobs s')), E, length_fmap.
Qed.
Lemma set_job_same i j j0 s : s.(jobs) !! i = Some j0 → id j = id j0 → same_ids s (set_job i j s).
Proof.
  intros H Hi. split; [|done]. simpl. rewrite list_fmap_insert, Hi. apply list_insert_id.
  by rewrite list_lookup_fmap, H.
Qed.

Lemma index_spec P js :
  match index P js with
  | Some k => ∃ a j b, js = a ++ j :: b ∧ length a = k ∧ P j = true ∧ Forall (λ j, P j = false) a
  | None => Forall (λ j, P j = false) js
  end.
Proof.
  induction js as [|j js IH]; simpl; [constructor|]. destruct (P j) eqn:E.
  { exists [], j, js. by split_and!. }
  destruct (index P js); simpl; [|by constructor].
  destruct IH as (a & j' & b & -> & <- & HP & Ha). exists (j :: a), j', b. split_and!; try done.
  by constructor.
Qed.
Lemma index_lookup P js k : index P js = Some k → ∃ j, js !! k = Some j ∧ P j = true.
Proof.
  intros H. pose proof (index_spec P js) as Hs. rewrite H in Hs.
  destruct Hs as (a & j & b & -> & <- & HP & _). exists j. split; [by apply list_lookup_middle|done].
Qed.
Lemma insert_middle {A} (a : list A) x y b : <[length a := y]> (a ++ x :: b) = a ++ y :: b.
Proof. rewrite <- (Nat.add_0_r (length a)). by rewrite insert_app_r. Qed.

Lemma used_middle a j b : used (a ++ j :: b) =
  used a ++ (if decide (id j = 0) then [] else [id j]) ++ used b.
Proof.
  unfold used. rewrite fmap_app, fmap_cons, filter_app. f_equal.
  case_decide; [by rewrite filter_cons_False by tauto|by rewrite filter_cons_True].
Qed.
Lemma elem_of_used z js : z ∈ used js ↔ z ≠ 0 ∧ z ∈ id <$> js.
Proof. unfold used. by rewrite list_elem_of_filter. Qed.

Lemma max_id_bound js : ∀ m, m ≤ max_id m js ∧ Forall (λ z, z ≤ max_id m js) (id <$> js).
Proof.
  induction js as [|j js IH]; intros m; simpl; [split; [lia|constructor]|].
  destruct (Z.ltb_spec m (id j)); [destruct (IH (id j))|destruct (IH m)];
    (split; [lia|constructor; [lia|done]]).
Qed.

(** Read off an initial [c_get]. *)
Ltac get_inv H :=
  let E := fresh in apply bind_inv in H as (? & ? & E & H); injection E as <- <-.

(** ** job_add and job_remove *)

Lemma job_add_ok pg cmd bg s r s' : table_ok s → job_add pg cmd bg s = Ret (r, s') → table_ok s'.
Proof.
  intros [Hl Hp Hn Hc] H. unfold job_add in H. get_inv H.
  pose proof (index_spec (λ j, id j =? 0) (jobs s)) as Hi. destruct (index _ _); [|by run_inv].
  destruct Hi as (a & j & b & E & <- & Hj & _). apply Z.eqb_eq in Hj.
  destruct (_ =? INT_MAX); [done|]. run_inv. unfold c_put in *. simplify_eq.
  destruct (max_id_bound (jobs s) 0) as [Hm Hall]. set (m := max_id 0 (jobs s)) in *.
  rewrite E, insert_middle in *. rewrite used_middle, decide_True in Hn, Hc by done.
  rewrite length_app in Hl. rewrite fmap_app, fmap_cons in Hp, Hall.
  apply Forall_app in Hp as [Hpa [_ Hpb]%Forall_cons].
  assert (Hfresh : m + 1 ∉ used a ++ used b).
  { intros Hin. apply Forall_app in Hall as [Ha [_ Hb]%Forall_cons].
    rewrite elem_of_app, !elem_of_used in Hin. rewrite Forall_forall in Ha, Hb.
    destruct Hin as [[_ Hin]|[_ Hin]]; [apply Ha in Hin|apply Hb in Hin]; lia. }
  split; simpl; rewrite ?used_middle; simpl; rewrite ?decide_False by lia.
  - rewrite length_app. simpl in *. lia.
  - rewrite fmap_app, fmap_cons. apply Forall_app. split; [done|]. constructor; [simpl; lia|done].
  - simpl. rewrite <- Permutation_middle. by constructor.
  - rewrite Hc, !length_app. simpl. lia.
Qed.

Lemma job_remove_ok i s s' : i ≠ 0 → table_ok s → job_remove i s = Ret (tt, s') → table_ok s'.
Proof.
  intros Hi0 [Hl Hp Hn Hc] H. unfold job_remove, job_find in H. get_inv H.
  pose proof (index_spec (λ j, id j =? i) (jobs s)) as Hi. destruct (index _ _); [|by run_inv].
  destruct Hi as (a & j & b & E & <- & Hj & _). apply Z.eqb_eq in Hj. unfold c_put in H. simplify_eq.
  rewrite E, insert_middle in *. rewrite used_middle, decide_False in Hn, Hc by lia.
  rewrite fmap_app, fmap_cons in Hp. apply Forall_app in Hp as [Hpa [_ Hpb]%Forall_cons].
  simpl in Hn. rewrite <- Permutation_middle in Hn. apply NoDup_cons in Hn as [_ Hn].
  split; simpl; rewrite ?used_middle; simpl.
  - rewrite length_app in *. simpl in *. lia.
  - rewrite fmap_app, fmap_cons. apply Forall_app. split; [done|]. constructor; [simpl; lia|done].
  - done.
  - rewrite Hc, !length_app. simpl. lia.
Qed.

Lemma no_remove_zero s s' : job_remove 0 s = Ret (tt, s') →
  (∃ j, j ∈ s.(jobs) ∧ id j = 0) → s'.(num_jobs) = s.(num_jobs) - 1 ∧ id <$> s'.(jobs) = id <$> s.(jobs).
Proof.
  intros H (j & Hj & H0). unfold job_remove, job_find in H. get_inv H.
  pose proof (index_spec (λ j, id j =? 0) (jobs s)) as Hi. destruct (index _ _).
  - destruct Hi as (a & j' & b & E & <- & Hj' & _). unfold c_put in H. simplify_eq. simpl.
    split; [done|]. apply Z.eqb_eq in Hj'. rewrite E, insert_middle, !fmap_app, !fmap_cons. by rewrite Hj'.
  - rewrite Forall_forall in Hi. apply Hi, Z.eqb_neq in Hj. lia.
Qed.

(** ** Waiting *)

Lemma mod_same (f : shell_t → shell_t) s : (∀ s, same_ids s (f s)) →
  ∀ r s', c_mod f s = Ret (r, s') → same_ids s s'.
Proof. intros Hf r s' H. injection H as <- <-. apply Hf. Qed.
Lemma cond_mod_same (b : bool) (f : shell_t → shell_t) s : (∀ s, same_ids s (f s)) →
  ∀ r s', (if b then c_mod f else mret tt) s = Ret (r, s') → same_ids s s'.
Proof. intros Hf r s' H. destruct b; [by eapply mod_same|]. injection H as <- <-. done. Qed.

Lemma job_event_ok pid st alive s s' : table_ok s → job_event pid st alive s = Ret (tt, s') → table_ok s'.
Proof.
  intros Hok H. unfold job_event in H. get_inv H. destruct (index _ _) as [i|] eqn:Ei; [|by run_inv].
  destruct (index_lookup _ _ _ Ei) as (j & Hj & HP). rewrite Hj in H.
  apply andb_true_iff in HP as [Hne%negb_true_iff%Z.eqb_neq _].
  assert (Hset : ∀ f r s', (∀ j, id (f j) = id j) → c_mod (set_job i (f j)) s = Ret (r, s') → same_ids s s').
  { intros f r s2 Hf E. injection E as _ <-. by eapply set_job_same. }
  assert (Hdone : ∀ ps : bool * list Z,
    (let '(d, ps) := ps in
     if (d : bool) then
       c_mod (set_job i (set_state JOB_DONE (set_pids ps j)));;
       (if jbackground j then c_mod (print (notice (str "Done") j)) else mret tt);;
       job_remove (id j)
     else c_mod (set_job i (set_pids ps j))) s = Ret (tt, s') → table_ok s').
  { intros [[] ps] E.
    - apply bind_inv in E as (? & s1 & E1 & E). apply bind_inv in E as (? & s2 & E2 & E).
      apply (Hset (λ j, set_state JOB_DONE (set_pids ps j))) in E1; [|done].
      apply (cond_mod_same _ (print (notice (str "Done") j))) in E2; [|done].
      apply (job_remove_ok _ s2 s' Hne) in E; [done|]. eapply same_ids_ok; [|exact Hok].
      by transitivity s1.
    - apply (Hset (set_pids ps)) in E; [|done]. by eapply same_ids_ok. }
  destruct st; [by apply Hdone in H|by apply Hdone in H| |].
  - apply bind_inv in H as (? & s1 & E1 & E). apply (Hset (set_state JOB_STOPPED)) in E1; [|done].
    apply (cond_mod_same _ (print (notice (str "Stopped") j))) in E; [|done].
    eapply same_ids_ok; [|exact Hok]. by transitivity s1.
  - apply (Hset (set_state JOB_RUNNING)) in H; [|done]. by eapply same_ids_ok.
Qed.
Lemma job_update_ok evs : ∀ s s', table_ok s → job_update evs s = Ret (tt, s') → table_ok s'.
Proof.
  induction evs as [|[[pid st] al] evs IH]; intros s s' Hok H; cbn [job_update] in H;
    [by run_inv|]. apply bind_inv in H as ([] & s1 & E1 & E).
  apply job_event_ok in E1; [|done]. by eapply IH.
Qed.

Lemma wait_loop_same i ps : ∀ rs st l s r s', wait_loop i ps rs st l s = Ret (r, s') → same_ids s s'.
Proof.
  induction ps as [|p ps IH]; intros rs st l s r s' H; cbn [wait_loop] in H; [by run_inv|].
  destruct (p <=? 0); [by eapply IH|]. destruct rs as [|o rs]; [done|].
  destruct (default st o); [by eapply IH..| |by eapply IH].
  apply bind_inv in H as ([] & s1 & E1 & H). apply IH in H. transitivity s1; [|done].
  revert E1. apply mod_same. clear. intros s. destruct (jobs s !! i) eqn:E; [|done].
  transitivity (set_job i (set_background true (set_state JOB_STOPPED j)) s); [|done].
  by eapply set_job_same.
Qed.

Lemma job_wait_ok jid rs s r s' : jid ≠ 0 → table_ok s → job_wait jid rs s = Ret (r, s') → table_ok s'.
Proof.
  intros Hj0 Hok H. unfold job_wait in H. get_inv H. destruct (job_find s jid) as [i|] eqn:Ei; [|by run_inv].
  destruct (index_lookup _ _ _ Ei) as (j & Hj & _). rewrite Hj in H.
  apply bind_inv in H as ([] & s1 & E1 & H). apply (cond_mod_same _ (tcsetpgrp _)) in E1 as H1; [|done].
  assert (Hj1 : jobs s1 !! i = Some j).
  { destruct (interactive s); unfold mret, C_ret in E1; injection E1 as <-; done. }
  apply bind_inv in H as ([] & s2 & E2 & H).
  assert (H2 : same_ids s1 s2).
  { injection E2 as <-. eapply set_job_same; [exact Hj1|]. by destruct (state j). }
  apply bind_inv in H as (l & s3 & E3 & H). apply wait_loop_same in E3.
  apply bind_inv in H as ([] & s4 & E4 & H). apply (cond_mod_same _ (tcsetpgrp _)) in E4; [|done].
  assert (Hok4 : table_ok s4).
  { apply (same_ids_ok s); [|done]. transitivity s1; [done|]. transitivity s2; [done|].
    by transitivity s3. }
  get_inv H. apply bind_inv in H as ([] & s5 & E5 & H).
  assert (Hok5 : table_ok s5).
  { destruct (state <$> jobs s4 !! i) as [[]|]; try (by eapply job_remove_ok). by run_inv. }
  apply bind_inv in H as ([] & s6 & E6 & H). injection E6 as <-. injection H as <- <-.
  by apply (same_ids_ok s5).
Qed.

(** ** Commands *)

Lemma last_job_nonzero P s : (∀ j, P j = true → id j ≠ 0) → last_job P s ≠ 0.
Proof.
  intros HP. unfold last_job. destruct (last _) as [j|] eqn:E; [|done]. simpl.
  apply last_Some_elem_of, list_elem_of_filter in E as [E _]. by apply HP.
Qed.

(** The argument of fg or bg, if any, does not read as 0. *)
Definition arg_ok (arg : option (list byte)) : Prop :=
  match arg with Some a => job_arg a ≠ 0 | None => True end.

Lemma fg_ok arg rs s r s' : arg_ok arg → table_ok s → builtin_fg arg rs s = Ret (r, s') → table_ok s'.
Proof.
  intros Ha Hok H. unfold builtin_fg in H. get_inv H. case_match; [by run_inv|].
  eapply job_wait_ok; [|exact Hok|exact H]. destruct arg; [done|]. apply last_job_nonzero.
  intros j Hj%Z.ltb_lt. lia.
Qed.
Lemma bg_ok arg k s r s' : table_ok s → builtin_bg arg k s = Ret (r, s') → table_ok s'.
Proof.
  intros Hok H. unfold builtin_bg in H. get_inv H. case_match; [by run_inv|].
  destruct (job_find _ _) as [i|] eqn:Ei; [|by run_inv].
  destruct (index_lookup _ _ _ Ei) as (j & Hj & _). rewrite Hj in H. destruct (negb k); [by run_inv|].
  apply bind_inv in H as ([] & s1 & E1 & H). apply bind_inv in H as ([] & s2 & E2 & H).
  injection H as <- <-. injection E1 as <-. injection E2 as <-.
  apply (same_ids_ok s); [|done]. by eapply (set_job_same i _ j).
Qed.
Lemma jobs_ok evs s r s' : table_ok s → builtin_jobs evs s = Ret (r, s') → table_ok s'.
Proof.
  intros Hok H. unfold builtin_jobs in H. apply bind_inv in H as ([] & s1 & E1 & H).
  apply bind_inv in H as ([] & s2 & E2 & H). injection H as <- <-. injection E2 as <-.
  apply (same_ids_ok s1); [done|]. by eapply job_update_ok.
Qed.

Lemma add_with_pids_ok pg cmd bg ps f s r s' : (∀ j, id (f j) = id j) → table_ok s →
  add_with_pids pg cmd bg ps f s = Ret (r, s') → table_ok s'.
Proof.
  intros Hf Hok H. unfold add_with_pids in H. apply bind_inv in H as (i & s1 & E1 & H).
  apply job_add_ok in E1; [|done]. destruct (0 <? i); [|by injection H as <- <-].
  apply bind_inv in H as ([] & s2 & E2 & H). injection H as <- <-. injection E2 as <-.
  destruct (job_find s1 i) as [k|]; [|done]. destruct (jobs s1 !! k) eqn:E; [|done].
  apply (same_ids_ok s1); [|done]. eapply set_job_same; [exact E|]. by rewrite Hf.
Qed.
Lemma fg_loop_ok pg cmd all ps : ∀ rs st l s r s', table_ok s →
  fg_loop pg cmd all ps rs st l s = Ret (r, s') → table_ok s'.
Proof.
  induction ps as [|p ps IH]; intros rs st l s r s' Hok H; cbn [fg_loop] in H; [by injection H as <- <-|].
  destruct rs as [|o rs]; [done|]. destruct (default st o); [by eapply IH..| |by eapply IH].
  apply bind_inv in H as (i & s1 & E1 & H). apply add_with_pids_ok in E1; [|done|done].
  apply bind_inv in H as ([] & s2 & E2 & H). apply (cond_mod_same _ (print _)) in E2; [|done].
  eapply IH; [|exact H]. by apply (same_ids_ok s1).
Qed.
Lemma executor_ok p pipes forks rs s r s' : table_ok s →
  executor_run p pipes forks rs s = Ret (r, s') → table_ok s'.
Proof.
  intros Hok H. unfold executor_run in H. case_match; [by injection H as <- <-|].
  destruct (existsb negb _); [by injection H as <- <-|]. destruct (existsb _ _); [by injection H as <- <-|].
  apply bind_inv in H as (cmd & s0 & E0 & H).
  assert (s0 = s) as ->. { unfold c_lift in E0. destruct (cmd_str p); naive_solver. }
  get_inv H. destruct (background p).
  - apply bind_inv in H as (i & s1 & E1 & H). apply add_with_pids_ok in E1; [|done|done].
    apply bind_inv in H as ([] & s2 & E2 & H). apply (cond_mod_same _ (print _)) in E2; [|done].
    apply bind_inv in H as ([] & s3 & E3 & H). injection E3 as <-. injection H as <- <-.
    by apply (same_ids_ok s1).
  - apply bind_inv in H as ([] & s1 & E1 & H). apply (cond_mod_same _ (tcsetpgrp _)) in E1; [|done].
    apply bind_inv in H as (l & s2 & E2 & H). apply fg_loop_ok in E2; [|by apply (same_ids_ok s)].
    apply bind_inv in H as ([] & s3 & E3 & H). apply (cond_mod_same _ (tcsetpgrp _)) in E3; [|done].
    apply bind_inv in H as ([] & s4 & E4 & H). injection E4 as <-. injection H as <- <-.
    by apply (same_ids_ok s2).
Qed.

(** ** Sessions *)

Inductive shell_op :=
  | Run (p : pipeline_t) (pipes : list bool) (forks : list Z) (rs : list (option wstatus))
  | Update (events : list (Z * wstatus * (Z → bool)))
  | Fg (arg : option (list byte)) (rs : list (option wstatus))
  | Bg (arg : option (list byte)) (kill_ok : bool)
  | Jobs (events : list (Z * wstatus * (Z → bool))).
Definition run_op (o : shell_op) : C shell_t unit :=
  match o with
  | Run p pipes forks rs => executor_run p pipes forks rs;; mret tt
  | Update evs => job_update evs
  | Fg a rs => builtin_fg a rs;; mret tt
  | Bg a k => builtin_bg a k;; mret tt
  | Jobs evs => builtin_jobs evs;; mret tt
  end.
Fixpoint run_ops (ops : list shell_op) : C shell_t unit :=
  match ops with
  | [] => mret tt
  | o :: ops' => run_op o;; run_ops ops'
  end.
Definition start (interactive : bool) (pg : Z) : shell_t :=
  Shell (replicate (Z.to_nat MAX_JOBS) no_job) 0 interactive pg 0 pg [].
Definition op_ok (o : shell_op) : Prop := match o with Fg a _ => arg_ok a | _ => True end.

Lemma run_op_ok o s s' : op_ok o → table_ok s → run_op o s = Ret (tt, s') → table_ok s'.
Proof.
  intros Ho Hok H. destruct o; cbn [run_op] in H;
    [|by eapply job_update_ok|..]; apply bind_inv in H as (r & s1 & E & H); injection H as <-;
    [by eapply executor_ok|by eapply fg_ok|by eapply bg_ok|by eapply jobs_ok].
Qed.
Lemma run_ops_ok ops : ∀ s s', Forall op_ok ops → table_ok s → run_ops ops s = Ret (tt, s') → table_ok s'.
Proof.
  induction ops as [|o ops IH]; intros s s' Ho Hok H; cbn [run_ops] in H; [by injection H as <-|].
  apply Forall_cons in Ho as [Ho Hos]. apply bind_inv in H as ([] & s1 & E & H).
  eapply IH; [done| |exact H]. by eapply run_op_ok.
Qed.
Lemma start_ok b pg : table_ok (start b pg).
Proof.
  assert (Hr : ∀ n, used (replicate n no_job) = [])
    by (intros n; unfold used; induction n; [done|]; simpl; by rewrite filter_cons_False by tauto).
  split; simpl; rewrite ?Hr.
  - by vm_compute.
  - vm_compute. repeat (constructor; [discriminate|]). constructor.
  - constructor.
  - done.
Qed.

(** ** Adding to a well-formed table *)

Lemma index_middle P a j b : Forall (λ j, P j = false) a → P j = true → index P (a ++ j :: b) = Some (length a).
Proof. induction 1 as [|x a Hx _ IH]; intros Hj; simpl; [by rewrite Hj|]. by rewrite Hx, IH. Qed.
Lemma index_replace P a x y b : P x = false → P y = false → index P (a ++ x :: b) = index P (a ++ y :: b).
Proof.
  intros Hx Hy. induction a as [|z a IH]; simpl; [by rewrite Hx, Hy|]. by rewrite IH.
Qed.
Lemma used_full js : Forall (λ j, (id j =? 0) = false) js → length (used js) = length js.
Proof.
  unfold used. induction 1 as [|j js Hj _ IH]; [done|]. apply Z.eqb_neq in Hj.
  rewrite fmap_cons, filter_cons_True by done. simpl. by rewrite IH.
Qed.
Lemma used_le js : (length (used js) ≤ length js)%nat.
Proof. unfold used. rewrite <- (length_fmap id js). apply length_filter. Qed.

Lemma job_add_spec pg cmd bg s : table_ok s → max_id 0 s.(jobs) < INT_MAX →
  ∃ r s', job_add pg cmd bg s = Ret (r, s') ∧
    if s.(num_jobs) =? MAX_JOBS then r = -1 ∧ s' = s else
    0 < r ∧ r ∉ used s.(jobs) ∧
    ∃ k free, s.(jobs) !! k = Some free ∧ id free = 0 ∧ job_find s' r = Some k ∧
      s' = set_jobs (<[k := Job r pg [] JOB_RUNNING (take (Z.to_nat (MAX_LINE - 1)) cmd) bg]> s.(jobs))
             (s.(num_jobs) + 1) s.
Proof.
  intros [Hl Hp Hn Hc] Hm. unfold job_add. erewrite bind_Ret by reflexivity.
  pose proof (index_spec (λ j, id j =? 0) (jobs s)) as Hi. destruct (index _ _) as [slot|].
  - destruct Hi as (a & j & b & E & <- & Hj & Ha). apply Z.eqb_eq in Hj.
    rewrite (proj2 (Z.eqb_neq (max_id 0 (jobs s)) INT_MAX)) by lia.
    erewrite bind_Ret by reflexivity. do 2 eexists. split; [reflexivity|].
    destruct (max_id_bound (jobs s) 0) as [Hm0 Hall]. set (m := max_id 0 (jobs s)) in *.
    pose proof (used_le a). pose proof (used_le b).
    rewrite (proj2 (Z.eqb_neq (num_jobs s) MAX_JOBS)).
    2:{ rewrite Hc, <- Hl, E, used_middle, decide_True by done. rewrite !length_app. simpl. lia. }
    assert (Hlt : ∀ j, j ∈ jobs s → id j ≤ m).
    { intros j' Hj'. rewrite Forall_forall in Hall. apply Hall. by apply list_elem_of_fmap_2. }
    split_and!; [lia| |].
    + rewrite elem_of_used. intros [_ (j' & Hid & Hj')%list_elem_of_fmap]. apply Hlt in Hj'. lia.
    + exists (length a), j. split_and!; [by rewrite E; apply list_lookup_middle|done| |done].
      unfold job_find. cbn [jobs set_jobs]. rewrite E, insert_middle, index_middle; [done| |apply Z.eqb_refl].
      apply Forall_forall. intros j' Hj'. apply Z.eqb_neq.
      assert (id j' ≤ m) by (apply Hlt; rewrite E; set_solver). lia.
  - rewrite Hc, used_full, Hl by done. by exists (-1), s.
Qed.

(** ** Every run returns *)

(** Ids up to [n], and at most 16 processes per job. *)
Definition bounded (n : Z) (s : shell_t) : Prop :=
  Forall (λ j, id j ≤ n ∧ (length (pids j) ≤ 16)%nat) s.(jobs).
Definition returns {A} (n : Z) (m : C shell_t A) (s : shell_t) : Prop :=
  ∃ r s', m s = Ret (r, s') ∧ bounded n s'.

Lemma bounded_le n n' s : n ≤ n' → bounded n s → bounded n' s.
Proof. intros Hn H. eapply Forall_impl; [exact H|]. intros j [? ?]. split; [lia|done]. Qed.
Lemma bounded_lookup n s i j : bounded n s → s.(jobs) !! i = Some j → id j ≤ n ∧ (length (pids j) ≤ 16)%nat.
Proof. intros H Hj. by apply (proj1 (Forall_lookup _ _) H i). Qed.
Lemma bounded_set n s i j : bounded n s → id j ≤ n ∧ (length (pids j) ≤ 16)%nat → bounded n (set_job i j s).
Proof. intros H Hj. by apply Forall_insert. Qed.
Lemma max_id_le n js : ∀ m, m ≤ n → Forall (λ j, id j ≤ n ∧ (length (pids j) ≤ 16)%nat) js → max_id m js ≤ n.
Proof.
  induction js as [|j js IH]; intros m Hm H; [done|]. apply Forall_cons in H as [[Hj _] H]. simpl.
  apply IH; [by case_match|done].
Qed.

Lemma returns_ret {A} n (a : A) s : bounded n s → returns n (mret a) s.
Proof. intros H. by exists a, s. Qed.
Lemma returns_mod n f s : bounded n (f s) → returns n (c_mod f) s.
Proof. intros H. by exists tt, (f s). Qed.
Lemma returns_if (b : bool) n f s : bounded n s → bounded n (f s) → returns n (if b then c_mod f else mret tt) s.
Proof. intros H1 H2. destruct b; [by apply returns_mod|by apply returns_ret]. Qed.
Lemma returns_bind {A B} n n' (m : C shell_t A) (k : A → C shell_t B) s :
  returns n m s → (∀ r s', m s = Ret (r, s') → bounded n s' → returns n' (k r) s') → returns n' (m ≫= k) s.
Proof. intros (r & s1 & E & H1) H. unfold returns. rewrite (bind_Ret _ _ _ _ _ E). by apply H. Qed.
Lemma returns_get {B} n (k : shell_t → C shell_t B) s : returns n (k s) s → returns n (s ← c_get; k s) s.
Proof. intros H. unfold returns. by erewrite bind_Ret by done. Qed.

Lemma returns_remove n i s : 0 ≤ n → bounded n s → returns n (job_remove i) s.
Proof.
  intros Hn H. unfold job_remove. apply returns_get. destruct (job_find s i); [|by apply returns_ret].
  eexists tt, _. split; [reflexivity|]. apply Forall_insert; [done|]. simpl. lia.
Qed.
Lemma length_all_done alive ps : length (all_done alive ps).2 = length ps.
Proof.
  induction ps as [|p ps IH]; [done|]. simpl. destruct (0 <? p); [destruct (alive p); [done|]|];
    destruct (all_done alive ps); simpl in *; lia.
Qed.
Lemma returns_event n pid st alive s : 0 ≤ n → bounded n s → returns n (job_event pid st alive) s.
Proof.
  intros Hn H. unfold job_event. apply returns_get. destruct (index _ _) as [i|] eqn:Ei; [|by apply returns_ret].
  destruct (index_lookup _ _ _ Ei) as (j & Hj & _). rewrite Hj. pose proof (bounded_lookup _ _ _ _ H Hj) as [Hi Hps].
  pose proof (length_all_done alive ((λ p, if p =? pid then -1 else p) <$> pids j)) as Hl. rewrite length_fmap in Hl.
  assert (Hdone : returns n (let '(d, ps) := all_done alive ((λ p, if p =? pid then -1 else p) <$> pids j) in
     if (d : bool) then
       c_mod (set_job i (set_state JOB_DONE (set_pids ps j)));;
       (if jbackground j then c_mod (print (notice (str "Done") j)) else mret tt);;
       job_remove (id j)
     else c_mod (set_job i (set_pids ps j))) s).
  { destruct (all_done _ _) as [[] ps]; simpl in Hl; [|apply returns_mod, bounded_set; [done|simpl; lia]].
    apply (returns_bind n); [apply returns_mod, bounded_set; [done|simpl; lia]|intros _ s1 _ H1].
    apply (returns_bind n); [by apply returns_if|intros _ s2 _ H2]. by apply returns_remove. }
  destruct st; [exact Hdone|exact Hdone| |apply returns_mod, bounded_set; [done|simpl; lia]].
  apply (returns_bind n); [apply returns_mod, bounded_set; [done|simpl; lia]|intros _ s1 _ H1]. by apply returns_if.
Qed.
Lemma returns_update n evs : ∀ s, 0 ≤ n → bounded n s → returns n (job_update evs) s.
Proof.
  induction evs as [|[[pid st] al] evs IH]; intros s Hn H; [by apply returns_ret|]. cbn [job_update].
  apply (returns_bind n); [by apply returns_event|intros _ s1 _ H1]. by apply IH.
Qed.
Lemma returns_wait_loop n i ps : ∀ rs st l s, (length ps ≤ length rs)%nat → bounded n s →
  returns n (wait_loop i ps rs st l) s.
Proof.
  induction ps as [|p ps IH]; intros rs st l s Hl H; cbn [wait_loop]; [by apply returns_ret|]. simpl in Hl.
  destruct (p <=? 0); [apply IH; [lia|done]|]. destruct rs as [|o rs]; simpl in Hl; [lia|].
  destruct (default st o); [apply IH; [lia|done]..| |apply IH; [lia|done]].
  apply (returns_bind n); [apply returns_mod|intros _ s1 _ H1; apply IH; [lia|done]].
  destruct (jobs s !! i) as [j|] eqn:E; [|done]. apply (bounded_set n s i); [done|]. exact (bounded_lookup _ _ _ _ H E).
Qed.
Lemma returns_wait n jid rs s : 0 ≤ n → (16 ≤ length rs)%nat → bounded n s → returns n (job_wait jid rs) s.
Proof.
  intros Hn Hl H. unfold job_wait. apply returns_get. destruct (job_find s jid) as [i|] eqn:Ei; [|by apply returns_ret].
  destruct (index_lookup _ _ _ Ei) as (j & Hj & _). rewrite Hj. pose proof (bounded_lookup _ _ _ _ H Hj) as [Hi Hps].
  apply (returns_bind n); [by apply returns_if|intros _ s1 _ H1].
  apply (returns_bind n); [apply returns_mod, bounded_set; [done|destruct (state j); simpl; lia]|intros _ s2 _ H2].
  apply (returns_bind n); [apply returns_wait_loop; [lia|done]|intros l s3 _ H3].
  apply (returns_bind n); [by apply returns_if|intros _ s4 _ H4]. apply returns_get.
  apply (returns_bind n); [destruct (state <$> jobs s4 !! i) as [[]|]; try (by apply returns_remove); by apply returns_ret
    |intros _ s5 _ H5].
  apply (returns_bind n); [by apply returns_mod|intros _ s6 _ H6]. by apply returns_ret.
Qed.

Lemma returns_add n pg cmd bg s : 0 ≤ n < INT_MAX → bounded n s → returns (n + 1) (job_add pg cmd bg) s.
Proof.
  intros Hn H. unfold job_add. apply returns_get. destruct (index _ _) as [k|];
    [|apply returns_ret; eapply bounded_le; [|exact H]; lia].
  pose proof (max_id_le n s.(jobs) 0 ltac:(lia) H) as Hm. rewrite (proj2 (Z.eqb_neq _ INT_MAX)) by lia.
  eexists _, _. split; [reflexivity|]. apply Forall_insert; [by apply (bounded_le n); [lia|]|]. simpl. lia.
Qed.
Lemma returns_add_pids n pg cmd bg ps f s : 0 ≤ n < INT_MAX → (length ps ≤ 16)%nat →
  (∀ j, id (f j) = id j ∧ pids (f j) = pids j) → bounded n s → returns (n + 1) (add_with_pids pg cmd bg ps f) s.
Proof.
  intros Hn Hps Hf H. unfold add_with_pids. apply (returns_bind (n + 1)); [by apply returns_add|intros i s1 _ H1].
  destruct (0 <? i); [|by apply returns_ret].
  apply (returns_bind (n + 1)); [apply returns_mod|intros _ s2 _ H2; by apply returns_ret].
  destruct (job_find s1 i) as [k|]; [|done]. destruct (jobs s1 !! k) as [j|] eqn:E; [|done].
  apply bounded_set; [done|]. destruct (Hf (set_pids ps j)) as [-> ->]. simpl.
  destruct (bounded_lookup _ _ _ _ H1 E). lia.
Qed.
Lemma returns_fg_loop pg cmd all ps : ∀ n rs st l s, 0 ≤ n → n + Z.of_nat (length ps) < INT_MAX → (length all ≤ 16)%nat →
  (length ps ≤ length rs)%nat → bounded n s → returns (n + Z.of_nat (length ps)) (fg_loop pg cmd all ps rs st l) s.
Proof.
  induction ps as [|p ps IH]; intros n rs st l s Hn Hm Ha Hl H; cbn [fg_loop].
  { apply returns_ret. by rewrite Z.add_0_r. }
  destruct rs as [|o rs]; simpl in Hl, Hm; [lia|].
  assert (Hgo : ∀ n' st l s, n ≤ n' ≤ n + 1 → bounded n' s → returns (n + Z.of_nat (length (p :: ps))) (fg_loop pg cmd all ps rs st l) s).
  { intros n' st' l' s' Hn' H'. cbn [length]. replace (n + Z.of_nat (S (length ps))) with (n + 1 + Z.of_nat (length ps)) by lia.
    apply IH; [lia|lia|done|lia|]. by apply (bounded_le n'); [lia|]. }
  destruct (default st o); [apply (Hgo n); [lia|done]..| |apply (Hgo n); [lia|done]].
  apply (returns_bind (n + 1)); [apply returns_add_pids; [lia|done|by intros []|done]|intros i s1 _ H1].
  apply (returns_bind (n + 1)); [by apply returns_if|intros _ s2 _ H2]. apply (Hgo (n + 1)); [lia|done].
Qed.

(** The texts fit, no fg has an argument that reads as 0, and every process waited for reports. *)
Definition returns_ok (o : shell_op) : Prop :=
  match o with
  | Run p _ forks rs => (length p.(commands) ≤ 16)%nat ∧ cmd_str p ≠ UB ∧ (length forks ≤ length rs)%nat
  | Fg a rs => arg_ok a ∧ (16 ≤ length rs)%nat
  | _ => True
  end.
Lemma cmd_str_cases p : (∃ c, cmd_str p = Ret c) ∨ cmd_str p = UB.
Proof.
  assert (Hcat : ∀ t b, (∃ b', strcat t b = Ret (tt, b')) ∨ strcat t b = UB)
    by (intros t b; unfold strcat; case_match; [left; by eexists|by right]).
  assert (Hargs : ∀ args first b, (∃ b', cat_args args first b = Ret (tt, b')) ∨ cat_args args first b = UB).
  { induction args as [|a args IH]; intros first b; [left; by eexists|]. cbn [cat_args]. unfold mbind, C_bind.
    destruct first; [apply IH|]. destruct (Hcat (str " ") b) as [[b' ->]| ->]; [apply IH|by right]. }
  assert (Hcmds : ∀ cmds first b, (∃ b', cat_commands cmds first b = Ret (tt, b')) ∨ cat_commands cmds first b = UB).
  { induction cmds as [|c cmds IH]; intros first b; [left; by eexists|]. cbn [cat_commands]. unfold mbind, C_bind.
    assert (Hgo : ∀ b, (∃ b', (cat_args c.(argv) true;; cat_commands cmds false) b = Ret (tt, b')) ∨
      (cat_args c.(argv) true;; cat_commands cmds false) b = UB).
    { intros b1. unfold mbind, C_bind. destruct (Hargs c.(argv) true b1) as [[b' ->]| ->]; [apply IH|by right]. }
    destruct first; [apply Hgo|]. destruct (Hcat (str " | ") b) as [[b' ->]| ->]; [apply Hgo|by right]. }
  unfold cmd_str, mbind, C_bind. destruct (Hcmds p.(commands) true []) as [[b' ->]| ->]; [|by right].
  destruct (background p); left; by eexists.
Qed.

Lemma returns_run n p pipes forks rs s : 0 ≤ n → n + 16 < INT_MAX → returns_ok (Run p pipes forks rs) → bounded n s →
  returns (n + 16) (executor_run p pipes forks rs) s.
Proof.
  intros Hn Hm (Hc & Hs & Hl) H. pose proof (bounded_le n (n + 16) s ltac:(lia) H) as H16. unfold executor_run.
  case_match; [by apply returns_ret|]. destruct (existsb negb _); [by apply returns_ret|].
  set (ps := take _ forks). assert (Hps : (length ps ≤ 16 ∧ length ps ≤ length rs)%nat)
    by (unfold ps; rewrite length_take; lia).
  destruct (existsb _ ps); [by apply returns_ret|]. destruct (cmd_str_cases p) as [[c Ec]|]; [|done].
  apply (returns_bind n); [exists c, s; unfold c_lift; by rewrite Ec|intros cmd s' E' H']. apply returns_get.
  destruct (background p).
  - apply (returns_bind (n + 1)); [apply returns_add_pids; [lia|apply Hps|by intros []|done]|intros i s1 _ H1].
    apply (returns_bind (n + 1)); [by apply returns_if|intros _ s2 _ H2].
    apply (returns_bind (n + 1)); [by apply returns_mod|intros _ s3 _ H3]. apply returns_ret.
    by apply (bounded_le (n + 1)); [lia|].
  - apply (returns_bind n); [by apply returns_if|intros _ s1 _ H1].
    apply (returns_bind (n + Z.of_nat (length ps))); [apply returns_fg_loop; [done|lia|lia|lia|done]|intros l s2 _ H2].
    apply (bounded_le _ (n + 16)) in H2; [|lia].
    apply (returns_bind (n + 16)); [by apply returns_if|intros _ s3 _ H3].
    apply (returns_bind (n + 16)); [by apply returns_mod|intros _ s4 _ H4]. by apply returns_ret.
Qed.
Lemma returns_op n o s : 0 ≤ n → n + 16 < INT_MAX → returns_ok o → bounded n s → returns (n + 16) (run_op o) s.
Proof.
  intros Hn Hm Ho H. assert (Hw : ∀ {A} (m : C shell_t A) s, returns n m s → returns (n + 16) (m;; mret tt) s).
  { intros A m s0 Hr. apply (returns_bind n); [done|]. intros ? s' _ H'. apply returns_ret. by apply (bounded_le n); [lia|]. }
  destruct o as [p pipes forks rs|evs|a rs|a k|evs]; cbn [run_op].
  - apply (returns_bind (n + 16)); [by apply returns_run|intros ? s' _ H'; by apply returns_ret].
  - destruct (returns_update n evs s Hn H) as (r & s' & E & H'). exists r, s'. split; [done|]. by apply (bounded_le n); [lia|].
  - apply Hw. destruct Ho as [_ Hl]. unfold builtin_fg. apply returns_get. case_match; [by apply returns_ret|]. by apply returns_wait.
  - apply Hw. unfold builtin_bg. apply returns_get. case_match; [by apply returns_ret|].
    destruct (job_find _ _) as [i|] eqn:Ei; [|by apply returns_ret].
    destruct (index_lookup _ _ _ Ei) as (j & Hj & _). rewrite Hj. destruct (negb k); [by apply returns_ret|].
    apply (returns_bind n); [apply returns_mod, bounded_set; [done|exact (bounded_lookup _ _ _ _ H Hj)]|intros _ s1 _ H1].
    apply (returns_bind n); [by apply returns_mod|intros _ s2 _ H2]. by apply returns_ret.
  - apply Hw. unfold builtin_jobs. apply (returns_bind n); [by apply returns_update|intros _ s1 _ H1].
    apply (returns_bind n); [by apply returns_mod|intros _ s2 _ H2]. by apply returns_ret.
Qed.
Lemma returns_ops ops : ∀ n s, 0 ≤ n → n + 16 * Z.of_nat (length ops) < INT_MAX → Forall returns_ok ops → bounded n s →
  returns (n + 16 * Z.of_nat (length ops)) (run_ops ops) s.
Proof.
  induction ops as [|o ops IH]; intros n s Hn Hm Ho H; cbn [run_ops]; [by apply returns_ret; rewrite Z.add_0_r|].
  apply Forall_cons in Ho as [Ho Hos]. cbn [length] in *.
  apply (returns_bind (n + 16)); [apply returns_op; [done|lia|done|done]|intros _ s1 _ H1].
  replace (n + 16 * Z.of_nat (S (length ops))) with (n + 16 + 16 * Z.of_nat (length ops)) by lia.
  apply IH; [lia|lia|done|done].
Qed.

(** C16. Job control keeps its table: any commands, waits and job-control commands,
    with pipelines of at most 16 commands whose text fits its buffer, a report of every
    process waited for and no fg with an argument that reads as 0, return; then the
    ids in use are distinct and [num_jobs] counts them, so that a further job is
    refused exactly when all 64 slots are in use and otherwise gets a new positive id
    and a free slot, under which it is found, while everything else in the table and
    the shell stays as it was. *)
Theorem job_table ops b pg0 pg cmd bg :
  Forall returns_ok ops → 16 * Z.of_nat (length ops) < INT_MAX →
  ∃ s, run_ops ops (start b pg0) = Ret (tt, s) ∧
  NoDup (used s.(jobs)) ∧ s.(num_jobs) = Z.of_nat (length (used s.(jobs))) ∧
  ∃ r s', job_add pg cmd bg s = Ret (r, s') ∧
    if s.(num_jobs) =? MAX_JOBS then r = -1 ∧ s' = s else
    0 < r ∧ r ∉ used s.(jobs) ∧
    ∃ k free, s.(jobs) !! k = Some free ∧ id free = 0 ∧ job_find s' r = Some k ∧
      s' = set_jobs (<[k := Job r pg [] JOB_RUNNING (take (Z.to_nat (MAX_LINE - 1)) cmd) bg]> s.(jobs))
             (s.(num_jobs) + 1) s.
Proof.
  intros Ho Hm. destruct (returns_ops ops 0 (start b pg0)) as ([] & s & E & Hb); [done|lia|done| |].
  { apply Forall_replicate. simpl. lia. }
  assert (Hok : table_ok s).
  { eapply run_ops_ok; [|apply start_ok|exact E]. eapply Forall_impl; [exact Ho|]. intros [] H; try exact I. exact (proj1 H). }
  rewrite Z.add_0_l in Hb.
  pose proof (max_id_le (16 * Z.of_nat (length ops)) s.(jobs) 0 ltac:(lia) Hb). exists s.
  split_and!; [done|apply Hok|apply Hok|apply job_add_spec; [done|lia]].
Qed.

(** ** Concrete instances *)

Definition wit_pipe (name : list byte) : pipeline_t :=
  Pipeline [Command [name] None None false true] true.
Definition wit_ops : list shell_op :=
  [Run (wit_pipe (str "a")) [] [100] [None]; Run (wit_pipe (str "b")) [] [200] [None];
   Update [(100, Exited 0, λ _, false)]; Fg None (replicate 16 (Some (Stopped 20))); Bg (Some (str "%2")) true].
Lemma job_table_witness :
  ∃ s, run_ops wit_ops (start true 1) = Ret (tt, s) ∧ used s.(jobs) = [2] ∧
    s.(num_jobs) = Z.of_nat (length (used s.(jobs))).
Proof.
  destruct (job_table wit_ops true 1 7 (str "c") false) as (s & E & _ & Hn & _); [|vm_compute; reflexivity|].
  - repeat (apply Forall_cons; split); try exact I; try constructor; try (by vm_compute; lia);
      (split; [by vm_compute|by vm_compute; lia]).
  - exists s. split; [exact E|]. split; [|exact Hn]. vm_compute in E. injection E as <-. vm_compute. reflexivity.
Defined.

(** [fg 0] takes a free slot for a job and counts it down. *)
Lemma fg_zero_miscounts : ∃ s, builtin_fg (Some (str "0")) [] (start true 1) = Ret (0, s) ∧ s.(num_jobs) = -1.
Proof. eexists. split; vm_compute; reflexivity. Qed.

(** A stopped two-process pipeline is entered twice. *)
Lemma stopped_pipeline_twice :
  ∃ s, executor_run (Pipeline [Command [str "a"] None None false false;
                               Command [str "b"] None None false false] false)
         [true] [10; 11] [Some (Stopped 20); Some (Stopped 20)] (start true 1) = Ret (148, s) ∧
    s.(num_jobs) = 2 ∧ (pgid <$> take 2 s.(jobs)) = [10; 10].
Proof. eexists. split_and!; vm_compute; reflexivity. Qed.

(** Two long arguments overflow the buffer of the command text. *)
Lemma cmd_str_overflow : cmd_str (Pipeline [Command [replicate 3000 x61; replicate 2000 x61; str "b"]
  None None false false] false) = UB.
Proof. vm_compute. reflexivity. Qed.

End ShellJobsSpec.
