(* ===== verification/ShellIo.v ===== *)
(** * mini-shell: descriptors, built-in commands and the main loop
    (mini-shell/src/executor.c: the children; builtin.c; signal.c; main.c)

    A process has a table of open files, dispositions of signals and a record of the
    files it opened and the bytes it wrote.  Standard output goes through stdio,
    which writes at newlines on a terminal and when its buffer is full otherwise.
    Job control is that of [ShellJobs], lines are parsed by [ShellParser]; what the
    kernel answers comes from an oracle for every line.  The prompt, setpgid and
    messages on standard error are not modelled; the copy of a line that main makes
    with strdup succeeds. *)

From S2P Require Import Prelude ShellParser ShellJobs.
Import ShellParser.

Module ShellIo.
#[local] Arguments Z.to_nat : simpl never.

(** ** Processes *)

(** Files: those the shell was started with, the ends of a pipe, files by path. *)
Inductive file := Inherited (n : Z) | PipeRead (k : nat) | PipeWrite (k : nat) | InFile (p : list byte) | OutFile (p : list byte).
#[global] Instance file_eq_dec : EqDecision file.
Proof. solve_decision. Defined.
Inductive signal := SIGINT | SIGTSTP | SIGTTOU | SIGTTIN | SIGCHLD.
#[global] Instance signal_eq_dec : EqDecision signal.
Proof. solve_decision. Defined.
Inductive disposition := SIG_DFL | SIG_IGN | Handler.
Inductive event := Opened (p : list byte) (append : bool) | Wrote (f : file) (s : list byte).
Record process := Process { fds : gmap Z file; events : list event; sigs : signal → disposition }.
Definition set_fds (m : gmap Z file) (s : process) : process := Process m s.(events) s.(sigs).
Definition record_event (e : event) (s : process) : process := Process s.(fds) (s.(events) ++ [e]) s.(sigs).

(** The lowest descriptor that is not open. *)
Definition lowest_fd (m : gmap Z file) : Z :=
  default 0 (head (filter (λ fd, m !! fd = None) (seqZ 0 (Z.of_nat (size m) + 1)))).
Definition dup2 (a b : Z) (m : gmap Z file) : gmap Z file := match m !! a with Some f => <[b := f]> m | None => m end.
Definition dup (a : Z) (m : gmap Z file) : Z * gmap Z file :=
  match m !! a with Some f => (lowest_fd m, <[lowest_fd m := f]> m) | None => (-1, m) end.
Definition close (fd : Z) (m : gmap Z file) : gmap Z file := delete fd m.

Definition sigaction (g : signal) (d : disposition) (f : signal → disposition) : signal → disposition :=
  λ x, if decide (x = g) then d else f x.
Definition signal_init (f : signal → disposition) : signal → disposition :=
  sigaction SIGTTIN SIG_IGN (sigaction SIGTTOU SIG_IGN (sigaction SIGTSTP SIG_IGN
    (sigaction SIGINT Handler (sigaction SIGCHLD Handler f)))).
Definition signal_reset_child (f : signal → disposition) : signal → disposition :=
  sigaction SIGCHLD SIG_DFL (sigaction SIGTTIN SIG_DFL (sigaction SIGTTOU SIG_DFL
    (sigaction SIGTSTP SIG_DFL (sigaction SIGINT SIG_DFL f)))).

Section shell.
(** Which files can be opened, which programs executed, and changing the directory:
    the new working directory, [None] inside when getcwd fails. *)
Context (can_read can_write can_exec : list byte → bool) (chdir : list byte → list byte → option (option (list byte))).

(** ** Children *)

(** open, dup2 onto [target], close; false when open fails. *)
Definition open_onto (p : list byte) (f : file) (can : bool) (e : option event) (target : Z) : C process bool :=
  if negb can then mret false else
  s ← c_get;
  let fd := lowest_fd s.(fds) in
  (match e with Some e => c_mod (record_event e) | None => mret tt end);;
  c_mod (λ s, set_fds (close fd (dup2 fd target (<[fd := f]> s.(fds)))) s);;
  mret true.
Definition redirect_in (cmd : command_t) : C process bool :=
  match cmd.(input_file) with
  | Some p => open_onto p (InFile p) (can_read p) None 0
  | None => mret true
  end.
Definition redirect_out (cmd : command_t) : C process bool :=
  match cmd.(output_file) with
  | Some p => open_onto p (OutFile p) (can_write p) (Some (Opened p cmd.(append))) 1
  | None => mret true
  end.
Fixpoint close_pipes (pipes : list (Z * Z)) (m : gmap Z file) : gmap Z file :=
  match pipes with [] => m | (r, w) :: ps => close_pipes ps (close w (close r m)) end.

(** False: the child has exited with status 1. *)
Definition setup_io (cmd : command_t) (pipes : list (Z * Z)) (i total : nat) : C process bool :=
  (if (0 <? i)%nat then
     match pipes !! (i - 1)%nat with Some p => c_mod (λ s, set_fds (dup2 p.1 0 s.(fds)) s) | None => c_ub end
   else mret tt);;
  (if (i <? total - 1)%nat then
     match pipes !! i with Some p => c_mod (λ s, set_fds (dup2 p.2 1 s.(fds)) s) | None => c_ub end
   else mret tt);;
  ok ← redirect_in cmd;
  if negb ok then mret false else
  ok ← redirect_out cmd;
  if negb ok then mret false else
  c_mod (λ s, set_fds (close_pipes pipes s.(fds)) s);; mret true.

Inductive child_end := Exit (status : Z) | Exec (argv : list (list byte)).
Definition execute_command (cmd : command_t) : C process child_end :=
  match cmd.(argv) with
  | [] => mret (Exit 0)
  | a :: _ =>
      c_mod (λ s, Process s.(fds) s.(events) (signal_reset_child s.(sigs)));;
      if can_exec a then mret (Exec cmd.(argv)) else mret (Exit 127)
  end.
Definition child (cmd : command_t) (pipes : list (Z * Z)) (i total : nat) : C process child_end :=
  ok ← setup_io cmd pipes i total;
  if (ok : bool) then execute_command cmd else mret (Exit 1).

(** ** The parent's descriptors *)

(** [None]: a pipe call failed; the pipes made before stay open. *)
Fixpoint make_pipes (oks : list bool) (n k : nat) : C process (option (list (Z * Z))) :=
  match n with
  | O => mret (Some [])
  | S n' =>
      if default true (head oks) then
        s ← c_get;
        let r := lowest_fd s.(fds) in
        let m := <[r := PipeRead k]> s.(fds) in
        let w := lowest_fd m in
        c_mod (set_fds (<[w := PipeWrite k]> m));;
        ps ← make_pipes (tail oks) n' (S k);
        mret ((λ ps, (r, w) :: ps) <$> ps)
      else mret None
  end.
(** The children that fork starts, each with its final state; [None]: a fork failed. *)
Fixpoint fork_children (cmds : list command_t) (forks : list Z) (pipes : list (Z * Z)) (i total : nat)
    : C process (option (list (child_end * process))) :=
  match cmds with
  | [] => mret (Some [])
  | c :: cmds' =>
      if default 1 (head forks) <? 0 then mret None else
      s ← c_get;
      e ← c_lift (child c pipes i total s);
      es ← fork_children cmds' (tail forks) pipes (S i) total;
      mret ((λ es, e :: es) <$> es)
  end.
Definition spawn (p : pipeline_t) (oks : list bool) (forks : list Z) : C process (option (list (child_end * process))) :=
  let n := length p.(commands) in
  if bool_decide (n = 0%nat) then mret (Some []) else
  pipes ← make_pipes oks (n - 1) 0;
  match pipes with
  | None => mret None
  | Some ps =>
      es ← fork_children p.(commands) forks ps 0 n;
      match es with
      | None => mret None
      | Some es => c_mod (λ s, set_fds (close_pipes ps s.(fds)) s);; mret (Some es)
      end
  end.

(** ** The shell process *)

(** [pending] is what stdio holds back of standard output; [env] is environ. *)
Record world := World {
  proc : process; pending : list byte; env : list (list byte * list byte); cwd : list byte; table : ShellJobs.shell_t
}.
Definition set_proc (p : process) (w : world) : world := World p w.(pending) w.(env) w.(cwd) w.(table).
Definition set_pending (b : list byte) (w : world) : world := World w.(proc) b w.(env) w.(cwd) w.(table).
Definition set_env (e : list (list byte * list byte)) (w : world) : world := World w.(proc) w.(pending) e w.(cwd) w.(table).
Definition set_cwd (d : list byte) (w : world) : world := World w.(proc) w.(pending) w.(env) d w.(table).
Definition set_table (t : ShellJobs.shell_t) (w : world) : world := World w.(proc) w.(pending) w.(env) w.(cwd) t.
Definition on_proc {A} (m : C process A) : C world A := λ w,
  match m w.(proc) with
  | Ret (a, p) => Ret (a, set_proc p w)
  | UB => UB | Blocked => Blocked | Fuel => Fuel
  end.

(** *** stdio *)

Context (line_buffered : bool).
Definition BUFSIZ : Z := 4096.
(** Write the first [n] pending bytes to standard output; without one they are lost. *)
Definition flush (n : nat) : C world unit := c_mod (λ w,
  if bool_decide (take n w.(pending) = []) then w else
  let p := match w.(proc).(fds) !! 1 with
           | Some f => record_event (Wrote f (take n w.(pending))) w.(proc)
           | None => w.(proc)
           end in
  set_pending (drop n w.(pending)) (set_proc p w)).
(** Up to the last newline on a terminal, everything when the buffer is full. *)
Fixpoint last_newline (s : list byte) : nat :=
  match s with
  | [] => 0
  | c :: s' => match last_newline s' with
               | O => if decide (c = x0a) then 1 else 0
               | S n => S (S n)
               end
  end.
Definition due (b : list byte) : nat :=
  if line_buffered then last_newline b else if BUFSIZ <=? strlen b then length b else 0.
Definition printf (s : list byte) : C world unit :=
  c_mod (λ w, set_pending (w.(pending) ++ s) w);; w ← c_get; flush (due w.(pending)).

(** *** Commands *)

Definition getenv (e : list (list byte * list byte)) (n : list byte) : option (list byte) :=
  snd <$> head (filter (λ x, x.1 = n) e).
(** [None]: the name is empty or holds an equals sign. *)
Definition setenv (n v : list byte) (overwrite : bool) (e : list (list byte * list byte)) : option (list (list byte * list byte)) :=
  if bool_decide (n = []) || bool_decide (x3d ∈ n) then None else
  match getenv e n with
  | Some _ => Some (if overwrite then (λ x, if decide (x.1 = n) then (n, v) else x) <$> e else e)
  | None => Some (e ++ [(n, v)])
  end.
Definition unsetenv (n : list byte) (e : list (list byte * list byte)) : list (list byte * list byte) :=
  filter (λ x, x.1 ≠ n) e.

Definition builtin_cd (args : list (list byte)) : C world Z :=
  w ← c_get;
  match (match args with d :: _ => Some d | [] => getenv w.(env) (str "HOME") end) with
  | None => mret 1
  | Some d =>
      match chdir w.(cwd) d with
      | None => mret 1
      | Some r => c_mod (set_cwd (default (str "/") r));; mret 0
      end
  end.
Definition builtin_pwd : C world Z := w ← c_get; printf (w.(cwd) ++ [x0a]);; mret 0.
Fixpoint echo_args (args : list (list byte)) (first : bool) : C world unit :=
  match args with
  | [] => mret tt
  | a :: args' => (if first then mret tt else printf [x20]);; printf a;; echo_args args' false
  end.
Definition builtin_echo (args : list (list byte)) : C world Z := echo_args args true;; printf [x0a];; mret 0.
Fixpoint print_env (e : list (list byte * list byte)) : C world unit :=
  match e with
  | [] => mret tt
  | (n, v) :: e' => printf (str "declare -x " ++ n ++ str "=" ++ v ++ [x0a]);; print_env e'
  end.
Fixpoint export_args (args : list (list byte)) : C world Z :=
  match args with
  | [] => mret 0
  | a :: args' =>
      w ← c_get;
      match (match find_byte x3d a with
             | Some k => setenv (take k a) (drop (S k) a) true w.(env)
             | None => setenv a [] false w.(env)
             end) with
      | None => mret 1
      | Some e => c_mod (set_env e);; export_args args'
      end
  end.
Definition builtin_export (args : list (list byte)) : C world Z :=
  match args with
  | [] => w ← c_get; print_env w.(env);; mret 0
  | _ => export_args args
  end.
Fixpoint builtin_unset (args : list (list byte)) : C world Z :=
  match args with [] => mret 0 | a :: args' => c_mod (λ w, set_env (unsetenv a w.(env)) w);; builtin_unset args' end.
Definition help_lines : list (list byte) :=
  [str "minishell v1.0 - Built-in commands:"; str "  cd [dir]       Change directory";
   str "  pwd            Print working directory"; str "  echo [args]    Print arguments";
   str "  export VAR=val Set environment variable"; str "  unset VAR      Remove environment variable";
   str "  jobs           List background jobs"; str "  fg [%n]        Bring job to foreground";
   str "  bg [%n]        Resume job in background"; str "  exit [n]       Exit shell with status n";
   str "  help           Show this help"; x0a :: str "Features:"; str "  Pipes:          cmd1 | cmd2 | cmd3";
   str "  Redirection:    cmd < input > output >> append"; str "  Background:     cmd &";
   str "  Variables:      echo $HOME ${USER}";
   str "  Quotes:         " ++ [x22] ++ str "double" ++ [x22] ++ str " 'single'"].
Fixpoint print_lines (ls : list (list byte)) : C world unit :=
  match ls with [] => mret tt | l :: ls' => printf (l ++ [x0a]);; print_lines ls' end.
Definition builtin_help : C world Z := print_lines help_lines;; mret 0.

(** What the kernel answers while a line is processed. *)
Record oracle := Oracle {
  allocs : list bool;                                              (* strdup *)
  pipe_oks : list bool; forks : list Z;                            (* pipe, fork *)
  waits : list (option ShellJobs.wstatus);                         (* waitpid of a foreground job *)
  changes : list (Z * ShellJobs.wstatus * (Z → bool));             (* waitpid in jobs *)
  later : list (Z * ShellJobs.wstatus * (Z → bool));               (* waitpid after the line *)
  kill_ok : bool
}.
(** Run a job-control operation; what it prints goes through stdio. *)
Definition on_jobs {A} (m : C ShellJobs.shell_t A) : C world A := λ w,
  let t := w.(table) in
  match m (ShellJobs.Shell t.(ShellJobs.jobs) t.(ShellJobs.num_jobs) t.(ShellJobs.interactive) t.(ShellJobs.shell_pgid)
             t.(ShellJobs.last_exit_status) t.(ShellJobs.tty) []) with
  | Ret (a, t') => (printf t'.(ShellJobs.out);; mret a) (set_table t' w)
  | UB => UB | Blocked => Blocked | Fuel => Fuel
  end.

Inductive ended := Returned (r : Z) | Exited (status : Z).
(** exit() flushes standard output; the status keeps eight bits. *)
Definition builtin_exit (args : list (list byte)) : C world ended :=
  w ← c_get;
  let status := match args with a :: _ => atoi a | [] => w.(table).(ShellJobs.last_exit_status) end in
  printf (str "exit" ++ [x0a]);; w ← c_get; flush (length w.(pending));; mret (Exited (status `mod` 256)).

Definition returned (m : C world Z) : C world ended := r ← m; mret (Returned r).
Definition builtin_body (name : list byte) (args : list (list byte)) (o : oracle) : C world ended :=
  if decide (name = str "cd") then returned (builtin_cd args)
  else if decide (name = str "pwd") then returned builtin_pwd
  else if decide (name = str "echo") then returned (builtin_echo args)
  else if decide (name = str "export") then returned (builtin_export args)
  else if decide (name = str "unset") then returned (builtin_unset args)
  else if decide (name = str "exit") then builtin_exit args
  else if decide (name = str "jobs") then returned (on_jobs (ShellJobs.builtin_jobs o.(changes)))
  else if decide (name = str "fg") then returned (on_jobs (ShellJobs.builtin_fg (head args) o.(waits)))
  else if decide (name = str "bg") then returned (on_jobs (ShellJobs.builtin_bg (head args) o.(kill_ok)))
  else if decide (name = str "help") then returned builtin_help
  else mret (Returned 0).
Definition builtins : list (list byte) :=
  [str "cd"; str "pwd"; str "echo"; str "export"; str "unset"; str "exit"; str "jobs"; str "fg"; str "bg"; str "help"].
Definition builtin_check (cmd : option (list byte)) : bool :=
  match cmd with Some c => bool_decide (c ∈ builtins) | None => false end.

(** Save a descriptor: its copy, or -1 when it is not open. *)
Definition save (fd : Z) : C process Z := s ← c_get; let '(n, m) := dup fd s.(fds) in c_mod (set_fds m);; mret n.
Definition restore (saved target : Z) : C process unit :=
  if 0 <=? saved then c_mod (λ s, set_fds (close saved (dup2 saved target s.(fds))) s) else mret tt.
Definition drop_saved (saved : Z) : C process unit :=
  if 0 <=? saved then c_mod (λ s, set_fds (close saved s.(fds)) s) else mret tt.

(** Redirections of a built-in command: the saved descriptors, [None] when a file
    cannot be opened. *)
Definition redirect (cmd : command_t) : C process (option (Z * Z)) :=
  saved_stdin ← match cmd.(input_file) with Some _ => save 0 | None => mret (-1) end;
  ok ← redirect_in cmd;
  if negb ok then drop_saved saved_stdin;; mret None else
  saved_stdout ← match cmd.(output_file) with Some _ => save 1 | None => mret (-1) end;
  ok ← redirect_out cmd;
  if negb ok then restore saved_stdin 0;; drop_saved saved_stdout;; mret None else
  mret (Some (saved_stdin, saved_stdout)).
Definition builtin_execute (cmd : command_t) (o : oracle) : C world ended :=
  match cmd.(argv) with
  | [] => mret (Returned 0)
  | name :: args =>
      r ← on_proc (redirect cmd);
      match r with
      | None => mret (Returned 1)
      | Some (saved_stdin, saved_stdout) =>
          e ← builtin_body name args o;
          match e with
          | Exited st => mret (Exited st)
          | Returned r =>
              on_proc (restore saved_stdin 0;; restore saved_stdout 1);;
              c_mod (λ w, set_table (ShellJobs.set_status r w.(table)) w);;
              mret (Returned r)
          end
      end
  end.

(** *** The main loop *)

(** The children's final states are recorded by the second component. *)
Definition run_pipeline (p : pipeline_t) (o : oracle) : C world (list (child_end * process)) :=
  es ← on_proc (spawn p o.(pipe_oks) o.(forks));
  on_jobs (ShellJobs.executor_run p o.(pipe_oks) o.(forks) o.(waits));;
  mret (default [] es).
Definition run_line (line : list byte) (o : oracle) : C world ended :=
  w ← c_get;
  match ShellParser.parse_line (getenv w.(env)) line o.(allocs) with
  | Ret ((code, p), _) =>
      e ← (if negb (code =? 0) then mret (Returned 0) else
           match p.(commands) with
           | [c] => if builtin_check (head c.(argv)) then builtin_execute c o
                    else run_pipeline p o;; mret (Returned 0)
           | _ => run_pipeline p o;; mret (Returned 0)
           end);
      match e with
      | Exited st => mret (Exited st)
      | Returned _ => on_jobs (ShellJobs.job_update o.(later));; mret (Returned 0)
      end
  | UB => c_ub | Blocked => c_blocked | Fuel => c_fuel
  end.
(** fgets into 4096 bytes; the newline is cut.  The [k]-th turn has oracle [os k];
    the end of the input ends the shell with status 0. *)
Fixpoint main_loop (fuel k : nat) (input : list byte) (os : nat → oracle) : C world Z :=
  match input with
  | [] => printf [x0a];; w ← c_get; flush (length w.(pending));; mret 0
  | _ =>
      match fuel with
      | O => c_fuel
      | S fuel' =>
          let '(text, rest) := fgets_line (Z.to_nat 4095) input in
          let line := match find_byte x0a (cstr text) with Some n => take n (cstr text) | None => cstr text end in
          if bool_decide (line = []) then main_loop fuel' (S k) rest os else
          e ← run_line line (os k);
          match e with
          | Exited st => mret st
          | Returned _ => main_loop fuel' (S k) rest os
          end
      end
  end.
Definition banner : list byte := str "minishell v1.0 - Type 'help' for commands, 'exit' to quit" ++ [x0a].
Definition main (input : list byte) (os : nat → oracle) : C world Z :=
  c_mod (λ w, set_proc (Process w.(proc).(fds) w.(proc).(events) (signal_init w.(proc).(sigs))) w);;
  printf banner;;
  main_loop (length input) 0 input os.

End shell.
End ShellIo.
