(* ===== verification/ShellIoSpec.v ===== *)
(** * mini-shell: pipelines are wired as drawn, and where built-in output goes

    After fork every command of a pipeline reads from the one before it and writes
    to the one after it, and holds no other pipe; the shell keeps no descriptor.
    Redirected output of a built-in command reaches its file only when standard
    output is a terminal. *)

From S2P Require Import Prelude ShellParser ShellJobs ShellIo.
Import ShellParser ShellIo.

Module ShellIoSpec.
#[local] Arguments Z.to_nat : simpl never.

(** ** Descriptors *)

Lemma lowest_fd_free m : m !! lowest_fd m = None ∧ 0 ≤ lowest_fd m.
Proof.
  unfold lowest_fd. destruct (filter (λ fd, m !! fd = None) (seqZ 0 (Z.of_nat (size m) + 1))) as [|fd l] eqn:E.
  - exfalso. assert (Hs : (list_to_set (seqZ 0 (Z.of_nat (size m) + 1)) : gset Z) ⊆ dom m).
    { intros fd Hfd. apply elem_of_list_to_set in Hfd. apply elem_of_dom. destruct (m !! fd) eqn:Em; [by eexists|].
      assert (Hin : fd ∈ filter (λ fd, m !! fd = None) (seqZ 0 (Z.of_nat (size m) + 1))) by by apply list_elem_of_filter.
      rewrite E in Hin. by apply elem_of_nil in Hin. }
    apply subseteq_size in Hs. rewrite size_list_to_set in Hs by apply NoDup_seqZ.
    rewrite length_seqZ, size_dom in Hs. lia.
  - assert (Hin : fd ∈ filter (λ fd, m !! fd = None) (seqZ 0 (Z.of_nat (size m) + 1))) by (rewrite E; by left).
    apply list_elem_of_filter in Hin as [Hf Hin]. apply elem_of_seqZ in Hin. simpl. split; [done|lia].
Qed.
(** Opening, moving onto an open descriptor and closing again. *)
Lemma open_move_close m target f : is_Some (m !! target) →
  close (lowest_fd m) (dup2 (lowest_fd m) target (<[lowest_fd m := f]> m)) = <[target := f]> m.
Proof.
  intros [x Hx]. destruct (lowest_fd_free m) as [Hf _]. unfold close, dup2. rewrite lookup_insert_eq.
  rewrite delete_insert_ne by congruence. by rewrite delete_insert_id.
Qed.

Definition pipe_fds (ps : list (Z * Z)) : list Z := mjoin ((λ p, [p.1; p.2]) <$> ps).
Lemma close_pipes_lookup ps fd : ∀ m, close_pipes ps m !! fd = if decide (fd ∈ pipe_fds ps) then None else m !! fd.
Proof.
  induction ps as [|[r w] ps IH]; intros m; [by rewrite decide_False by (by apply not_elem_of_nil)|].
  cbn [close_pipes]. rewrite IH. unfold pipe_fds. cbn [fmap list_fmap mjoin list_join fst snd app]. fold (pipe_fds ps).
  unfold close. destruct (decide (fd ∈ pipe_fds ps)); [by rewrite decide_True by (by do 2 right)|].
  destruct (decide (fd = w)) as [->|]; [rewrite lookup_delete_eq, decide_True by (right; by left); done|].
  rewrite lookup_delete_ne by done. destruct (decide (fd = r)) as [->|]; [rewrite lookup_delete_eq, decide_True by (by left); done|].
  rewrite lookup_delete_ne, decide_False by (try done; rewrite !elem_of_cons; naive_solver). done.
Qed.

(** Pipes numbered from [k], on descriptors that were free. *)
Record piped (m m' : gmap Z file) (k : nat) (ps : list (Z * Z)) : Prop := {
  pd_free : ∀ fd, fd ∈ pipe_fds ps → m !! fd = None;
  pd_same : ∀ fd, fd ∉ pipe_fds ps → m' !! fd = m !! fd;
  pd_ends : ∀ i p, ps !! i = Some p → m' !! p.1 = Some (PipeRead (k + i)) ∧ m' !! p.2 = Some (PipeWrite (k + i))
}.
Lemma make_pipes_run n : ∀ oks k s, Forall (λ b, b = true) oks → ∃ ps m',
  make_pipes oks n k s = Ret (Some ps, set_fds m' s) ∧ length ps = n ∧ piped s.(fds) m' k ps.
Proof.
  induction n as [|n IH]; intros oks k s Ho.
  { exists [], s.(fds). split_and!; [by destruct s|done|]. split; [by intros ? ?%elem_of_nil|done|done]. }
  cbn [make_pipes]. assert (default true (head oks) = true) as -> by (by destruct Ho).
  erewrite bind_Ret by reflexivity. destruct (lowest_fd_free s.(fds)) as [Hr _].
  set (r := lowest_fd (fds s)) in *. set (m := <[r := PipeRead k]> (fds s)). destruct (lowest_fd_free m) as [Hw _].
  set (w := lowest_fd m) in *. assert (Hrw : w ≠ r) by (intros E; rewrite E in Hw; unfold m in Hw; by rewrite lookup_insert_eq in Hw).
  erewrite bind_Ret by reflexivity.
  destruct (IH (tail oks) (S k) (set_fds (<[w := PipeWrite k]> m) s)) as (ps & m' & E & Hl & [Hf Hs He]).
  { destruct Ho; [constructor|done]. }
  c_step E. exists ((r, w) :: ps), m'. split_and!; [done|simpl; lia|]. cbn [fds set_fds] in *.
  assert (Hfree : ∀ fd, fd ∈ pipe_fds ps → fd ≠ w ∧ fd ≠ r ∧ fds s !! fd = None).
  { intros fd Hfd. specialize (Hf fd Hfd). apply lookup_insert_None in Hf as [Hf ?]. unfold m in Hf. apply lookup_insert_None in Hf as [? ?]. done. }
  split; unfold pipe_fds; cbn [fmap list_fmap mjoin list_join fst snd app]; fold (pipe_fds ps).
  - intros fd [->|[->|Hfd]%elem_of_cons]%elem_of_cons; [done| |by apply Hfree].
    unfold m in Hw. by apply lookup_insert_None in Hw as [? _].
  - intros fd Hfd. apply not_elem_of_cons in Hfd as [? [? ?]%not_elem_of_cons]. rewrite Hs by done.
    rewrite lookup_insert_ne by done. unfold m. by rewrite lookup_insert_ne by done.
  - intros [|i] p; cbn [lookup list_lookup].
    + intros [= <-]. cbn [fst snd]. rewrite Nat.add_0_r. split.
      * rewrite Hs by (intros ?%Hfree; naive_solver). rewrite lookup_insert_ne by done. unfold m. apply lookup_insert_eq.
      * rewrite Hs by (intros ?%Hfree; naive_solver). apply lookup_insert_eq.
    + intros Hi. replace (k + S i)%nat with (S k + i)%nat by lia. by apply He.
Qed.

(** Standard input and output [a] and [b], all else as in [m]. *)
Record wired (m : gmap Z file) (a b : file) (m' : gmap Z file) : Prop := {
  wi_in : m' !! 0 = Some a;
  wi_out : m' !! 1 = Some b;
  wi_rest : ∀ fd, fd ≠ 0 → fd ≠ 1 → m' !! fd = m !! fd
}.
Lemma wired_in m a b x m' : wired m a b m' → wired m x b (<[0 := x]> m').
Proof.
  intros []. split; [apply lookup_insert_eq|by rewrite lookup_insert_ne|]. intros fd ??. rewrite lookup_insert_ne by done. auto.
Qed.
Lemma wired_out m a b x m' : wired m a b m' → wired m a x (<[1 := x]> m').
Proof.
  intros []. split; [by rewrite lookup_insert_ne|apply lookup_insert_eq|]. intros fd ??. rewrite lookup_insert_ne by done. auto.
Qed.
Lemma wired_refl m a b : m !! 0 = Some a → m !! 1 = Some b → wired m a b m.
Proof. by split. Qed.
Lemma wired_eq m a b m' : wired m a b m' → m' = <[0 := a]> (<[1 := b]> m).
Proof.
  intros [H0 H1 H]. apply map_eq. intros fd. destruct (decide (fd = 0)) as [->|]; [by rewrite lookup_insert_eq|].
  rewrite lookup_insert_ne by done. destruct (decide (fd = 1)) as [->|]; [by rewrite lookup_insert_eq|].
  rewrite lookup_insert_ne by done. auto.
Qed.
Lemma pipe_fds_lookup ps i p : ps !! i = Some p → p.1 ∈ pipe_fds ps ∧ p.2 ∈ pipe_fds ps.
Proof.
  intros H. unfold pipe_fds. apply list_elem_of_lookup_2 in H. split; apply list_elem_of_join; exists [p.1; p.2];
    (split; [|by apply list_elem_of_fmap_2' with p]); [by left|right; by left].
Qed.
(** Closing the pipes leaves what [m] had, and standard input and output. *)
Lemma wired_close m m' k ps a b M : piped m m' k ps → is_Some (m !! 0) → is_Some (m !! 1) → wired m' a b M →
  wired m a b (close_pipes ps M).
Proof.
  intros [Hf Hs _] [x0 H0] [x1 H1] [Ha Hb Hr].
  assert (N0 : 0 ∉ pipe_fds ps) by (intros ?%Hf; congruence). assert (N1 : 1 ∉ pipe_fds ps) by (intros ?%Hf; congruence).
  split; [by rewrite close_pipes_lookup, decide_False|by rewrite close_pipes_lookup, decide_False|].
  intros fd ??. rewrite close_pipes_lookup. destruct (decide (fd ∈ pipe_fds ps)) as [Hin|]; [by rewrite Hf|].
  rewrite Hr by done. by apply Hs.
Qed.
Lemma piped_close m m' k ps : piped m m' k ps → close_pipes ps m' = m.
Proof.
  intros [Hf Hs _]. apply map_eq. intros fd. rewrite close_pipes_lookup. destruct (decide _) as [Hin|]; [by rewrite Hf|by apply Hs].
Qed.

(** ** Children *)

Section children.
Context (can_read can_write can_exec : list byte → bool).

Definition in_ok (c : command_t) : bool := match c.(input_file) with Some p => can_read p | None => true end.
Definition out_ok (c : command_t) : bool := match c.(output_file) with Some p => can_write p | None => true end.
Definition stdin_of (c : command_t) (f : file) : file := match c.(input_file) with Some p => InFile p | None => f end.
Definition stdout_of (c : command_t) (f : file) : file := match c.(output_file) with Some p => OutFile p | None => f end.

Lemma open_onto_run p f can e target s : is_Some (s.(fds) !! target) → can = true → ∃ evs,
  open_onto p f can e target s = Ret (true, Process (<[target := f]> s.(fds)) (s.(events) ++ evs) s.(sigs)) ∧
  evs = match e with Some e => [e] | None => [] end.
Proof.
  intros Ht ->. eexists. split; [|done]. unfold open_onto. cbn [negb]. erewrite bind_Ret by reflexivity.
  destruct e as [e|]; (erewrite bind_Ret by reflexivity); (erewrite bind_Ret by reflexivity); unfold record_event, set_fds; cbn [fds events sigs];
    rewrite open_move_close by done; rewrite ?app_nil_r; done.
Qed.
Lemma redirect_in_run c s m a b : wired m a b s.(fds) → ∃ s', redirect_in can_read c s = Ret (in_ok c, s') ∧
  s'.(sigs) = s.(sigs) ∧ s'.(events) = s.(events) ∧ (if in_ok c then wired m (stdin_of c a) b s'.(fds) else s' = s).
Proof.
  intros H. unfold redirect_in, in_ok, stdin_of. destruct (input_file c) as [p|]; [|by exists s].
  destruct (can_read p) eqn:E; [|by exists s].
  destruct (open_onto_run p (InFile p) true None 0 s) as (evs & -> & ->); [rewrite (wi_in _ _ _ _ H); by eexists|done|].
  eexists. split_and!; [done|done|by rewrite app_nil_r|]. by eapply wired_in.
Qed.
Definition opened (c : command_t) : list event := match c.(output_file) with Some p => [Opened p c.(append)] | None => [] end.
Lemma redirect_out_run c s m a b : wired m a b s.(fds) → ∃ s', redirect_out can_write c s = Ret (out_ok c, s') ∧
  s'.(sigs) = s.(sigs) ∧ (if out_ok c then s'.(events) = s.(events) ++ opened c ∧ wired m a (stdout_of c b) s'.(fds) else s' = s).
Proof.
  intros H. unfold redirect_out, out_ok, stdout_of, opened. destruct (output_file c) as [p|]; [|by exists s; rewrite app_nil_r].
  destruct (can_write p) eqn:E; [|by exists s].
  destruct (open_onto_run p (OutFile p) true (Some (Opened p (append c))) 1 s) as (evs & -> & ->);
    [rewrite (wi_out _ _ _ _ H); by eexists|done|].
  eexists. split_and!; [done|done|done|]. by eapply wired_out.
Qed.

(** The files of command [i] of [n]. *)
Definition pipe_in (i : nat) (f0 : file) : file := if (0 <? i)%nat then PipeRead (i - 1) else f0.
Definition pipe_out (n i : nat) (f1 : file) : file := if (i <? n - 1)%nat then PipeWrite i else f1.
Definition opens (c : command_t) : bool := in_ok c && out_ok c.

Lemma setup_io_run c ps i n m f0 f1 s : piped m s.(fds) 0 ps → length ps = (n - 1)%nat → (i < n)%nat →
  m !! 0 = Some f0 → m !! 1 = Some f1 → ∃ s', setup_io can_read can_write c ps i n s = Ret (opens c, s') ∧ s'.(sigs) = s.(sigs) ∧
    (opens c = true → wired m (stdin_of c (pipe_in i f0)) (stdout_of c (pipe_out n i f1)) s'.(fds)).
Proof.
  intros Hp Hl Hi H0 H1. pose proof Hp as [Hf Hsame He]. unfold setup_io.
  assert (N : ∀ fd x, m !! fd = Some x → fd ∉ pipe_fds ps) by (intros fd x E ?%Hf; congruence).
  assert (W : wired s.(fds) f0 f1 s.(fds)) by (apply wired_refl; rewrite Hsame by (by eapply N); done).
  (* standard input *)
  assert (S1 : ∃ s1, (if (0 <? i)%nat then match ps !! (i - 1)%nat with
      Some p => c_mod (λ s, set_fds (dup2 p.1 0 s.(fds)) s) | None => c_ub end else mret tt) s = Ret (tt, s1) ∧
    s1.(sigs) = s.(sigs) ∧ wired s.(fds) (pipe_in i f0) f1 s1.(fds)).
  { unfold pipe_in. destruct (Nat.ltb_spec 0 i); [|by exists s].
    destruct (lookup_lt_is_Some_2 ps (i - 1) ltac:(lia)) as [p Ep]. rewrite Ep. eexists. split; [reflexivity|]. split; [done|].
    cbn [set_fds fds]. unfold dup2. rewrite (proj1 (He _ _ Ep)). by eapply wired_in. }
  destruct S1 as (s1 & E1 & Hg1 & W1). c_step E1.
  assert (S2 : ∃ s2, (if (i <? n - 1)%nat then match ps !! i with
      Some p => c_mod (λ s, set_fds (dup2 p.2 1 s.(fds)) s) | None => c_ub end else mret tt) s1 = Ret (tt, s2) ∧
    s2.(sigs) = s.(sigs) ∧ wired s.(fds) (pipe_in i f0) (pipe_out n i f1) s2.(fds)).
  { unfold pipe_out. destruct (Nat.ltb_spec i (n - 1)); [|by exists s1].
    destruct (lookup_lt_is_Some_2 ps i ltac:(lia)) as [p Ep]. rewrite Ep. eexists. split; [reflexivity|]. split; [done|].
    cbn [set_fds fds]. unfold dup2. destruct (pipe_fds_lookup ps i p Ep) as [_ Hin].
    rewrite (wi_rest _ _ _ _ W1) by (intros E; rewrite E in Hin; revert Hin; by eapply N).
    rewrite (proj2 (He _ _ Ep)). by eapply wired_out. }
  destruct S2 as (s2 & E2 & Hg2 & W2). c_step E2. unfold opens.
  destruct (redirect_in_run c s2 _ _ _ W2) as (s3 & E3 & Hg3 & _ & W3). c_step E3.
  destruct (in_ok c); cbn [negb andb]; [|exists s3; split_and!; [done|congruence|done]].
  destruct (redirect_out_run c s3 _ _ _ W3) as (s4 & E4 & Hg4 & W4). c_step E4.
  destruct (out_ok c); cbn [negb]; [|exists s4; split_and!; [done|congruence|done]]. destruct W4 as [_ W4].
  eexists. split; [reflexivity|]. split; [cbn [set_fds sigs]; congruence|]. intros _. eapply (wired_close m); [done|by eexists..|exact W4].
Qed.

(** Command [i] of [n] of a shell with descriptors [m]. *)
Definition child_ok (m : gmap Z file) (f0 f1 : file) (n i : nat) (c : command_t) (r : child_end * process) : Prop :=
  if opens c then
    r.2.(fds) = <[0 := stdin_of c (pipe_in i f0)]> (<[1 := stdout_of c (pipe_out n i f1)]> m) ∧
    match c.(argv) with
    | [] => r.1 = Exit 0
    | a :: _ => (∀ g, r.2.(sigs) g = SIG_DFL) ∧ r.1 = if can_exec a then Exec c.(argv) else Exit 127
    end
  else r.1 = Exit 1.
Lemma child_run c ps i n m f0 f1 s : piped m s.(fds) 0 ps → length ps = (n - 1)%nat → (i < n)%nat →
  m !! 0 = Some f0 → m !! 1 = Some f1 → ∃ r, child can_read can_write can_exec c ps i n s = Ret r ∧ child_ok m f0 f1 n i c r.
Proof.
  intros Hp Hl Hi H0 H1. destruct (setup_io_run c ps i n m f0 f1 s Hp Hl Hi H0 H1) as (s' & E & Hg & W). unfold child.
  c_step E. unfold child_ok. destruct (opens c); [|by eexists]. specialize (W eq_refl). apply wired_eq in W. unfold execute_command.
  destruct (argv c) as [|a l]; [by eexists|]. erewrite bind_Ret by reflexivity.
  destruct (can_exec a); (eexists; split; [reflexivity|]); (split; [done|]); (split; [by intros []|done]).
Qed.
Lemma fork_children_run cmds : ∀ forks ps i n m f0 f1 s, piped m s.(fds) 0 ps → length ps = (n - 1)%nat →
  (i + length cmds ≤ n)%nat → m !! 0 = Some f0 → m !! 1 = Some f1 → Forall (λ p, 0 ≤ p) forks → ∃ es,
  fork_children can_read can_write can_exec cmds forks ps i n s = Ret (Some es, s) ∧ length es = length cmds ∧
  ∀ j c, cmds !! j = Some c → ∃ r, es !! j = Some r ∧ child_ok m f0 f1 n (i + j) c r.
Proof.
  induction cmds as [|c cmds IH]; intros forks ps i n m f0 f1 s Hp Hl Hi H0 H1 Hf; [by exists []|]. simpl in Hi.
  cbn [fork_children]. assert ((default 1 (head forks) <? 0) = false) as ->.
  { apply Z.ltb_ge. destruct Hf; simpl; lia. }
  erewrite bind_Ret by reflexivity. destruct (child_run c ps i n m f0 f1 s) as (r & E & Hr); [done|done|lia|done|done|].
  erewrite bind_Ret by (unfold c_lift; by rewrite E).
  destruct (IH (tail forks) ps (S i) n m f0 f1 s) as (es & Es & Hles & Hes); [done|done|lia|done|done|by destruct Hf|].
  c_step Es. exists (r :: es). split_and!; [done|simpl; lia|]. intros [|j] c' Hj; cbn [lookup list_lookup] in *.
  - injection Hj as <-. exists r. by rewrite Nat.add_0_r.
  - destruct (Hes j c' Hj) as (r' & Er & Hr'). exists r'. by rewrite Nat.add_succ_r.
Qed.

Lemma spawn_run p oks forks s f0 f1 : p.(commands) ≠ [] → s.(fds) !! 0 = Some f0 → s.(fds) !! 1 = Some f1 →
  Forall (λ b, b = true) oks → Forall (λ p, 0 ≤ p) forks → ∃ es,
  spawn can_read can_write can_exec p oks forks s = Ret (Some es, s) ∧ length es = length p.(commands) ∧
  ∀ i c, p.(commands) !! i = Some c → ∃ r, es !! i = Some r ∧ child_ok s.(fds) f0 f1 (length p.(commands)) i c r.
Proof.
  intros Hne H0 H1 Ho Hf. unfold spawn. set (n := length (commands p)).
  assert (n ≠ 0)%nat by (unfold n; by destruct (commands p)). rewrite bool_decide_eq_false_2 by done.
  destruct (make_pipes_run (n - 1) oks 0 s Ho) as (ps & m' & E & Hl & Hp). c_step E.
  destruct (fork_children_run (commands p) forks ps 0 n s.(fds) f0 f1 (set_fds m' s)) as (es & Es & Hles & Hes);
    [done|done|done|done|done|done|]. c_step Es. erewrite bind_Ret by reflexivity.
  exists es. split; [|done]. unfold mret, C_ret. do 2 f_equal. unfold set_fds. cbn [fds events sigs].
  rewrite (piped_close _ _ _ _ Hp). by destruct s.
Qed.

(** C17. A pipeline is wired as it is drawn: when no call fails, each command starts
    with standard input from its file, else the pipe before it, else the shell's, with
    standard output likewise, with the shell's other descriptors and nothing else, and
    with default signal handling; a command whose files cannot be opened ends with
    status 1, an unknown one with 127.  So the only process that holds the writing end
    of a pipe is the command before it, and the shell keeps no end of any pipe. *)
Theorem pipeline_wiring p oks forks s f0 f1 : p.(commands) ≠ [] → s.(fds) !! 0 = Some f0 → s.(fds) !! 1 = Some f1 →
  (∀ fd k, s.(fds) !! fd ≠ Some (PipeWrite k)) → Forall (λ b, b = true) oks → Forall (λ p, 0 ≤ p) forks → ∃ es,
  spawn can_read can_write can_exec p oks forks s = Ret (Some es, s) ∧ length es = length p.(commands) ∧
  (∀ i c, p.(commands) !! i = Some c → ∃ r, es !! i = Some r ∧ child_ok s.(fds) f0 f1 (length p.(commands)) i c r) ∧
  (∀ i c r fd k, p.(commands) !! i = Some c → es !! i = Some r → opens c = true →
     r.2.(fds) !! fd = Some (PipeWrite k) → fd = 1 ∧ k = i).
Proof.
  intros Hne H0 H1 Hno Ho Hf. destruct (spawn_run p oks forks s f0 f1 Hne H0 H1 Ho Hf) as (es & E & Hl & Hes).
  exists es. split_and!; [done|done|done|]. intros i c r fd k Hc Hr Hop Hfd.
  destruct (Hes i c Hc) as (r' & Hr' & Hok). rewrite Hr in Hr'. injection Hr' as <-. unfold child_ok in Hok. rewrite Hop in Hok.
  destruct Hok as [Hm _]. rewrite Hm in Hfd. destruct (decide (fd = 0)) as [->|].
  { rewrite lookup_insert_eq in Hfd. unfold stdin_of, pipe_in in Hfd. repeat case_match; try done. injection Hfd as ->. by destruct (Hno 0 k). }
  rewrite lookup_insert_ne in Hfd by done. destruct (decide (fd = 1)) as [->|].
  2:{ rewrite lookup_insert_ne in Hfd by done. by destruct (Hno fd k). }
  rewrite lookup_insert_eq in Hfd. unfold stdout_of, pipe_out in Hfd. repeat case_match; try done; injection Hfd as ->; [done|].
  by destruct (Hno 1 k).
Qed.

End children.

(** ** Built-in commands *)

Section builtins.
Context (can_read can_write : list byte → bool) (chdir : list byte → list byte → option (option (list byte))).
Context (line_buffered : bool).

(** What is written through stdio: only standard output and the text held back change. *)
Record printed (w w' : world) (s : list byte) : Prop := {
  pr_fds : w'.(proc).(fds) = w.(proc).(fds);
  pr_sigs : w'.(proc).(sigs) = w.(proc).(sigs);
  pr_env : w'.(env) = w.(env);
  pr_cwd : w'.(cwd) = w.(cwd);
  pr_table : w'.(table) = w.(table);
  pr_text : ∀ f, w.(proc).(fds) !! 1 = Some f → ∃ chunks, w'.(proc).(events) = w.(proc).(events) ++ (Wrote f <$> chunks) ∧
    mjoin chunks ++ w'.(pending) = w.(pending) ++ s ∧ Forall (λ c, c ≠ []) chunks
}.
Lemma printed_nil w : printed w w [].
Proof. split; try done. intros f _. exists []. by rewrite !app_nil_r. Qed.
Lemma printed_trans w1 w2 w3 s t : printed w1 w2 s → printed w2 w3 t → printed w1 w3 (s ++ t).
Proof.
  intros [] []. split; try congruence. intros f Hf. destruct (pr_text0 f Hf) as (c1 & E1 & T1 & N1).
  destruct (pr_text1 f ltac:(by rewrite pr_fds0)) as (c2 & E2 & T2 & N2). exists (c1 ++ c2). rewrite E2, E1, fmap_app. split_and!.
  - by rewrite (assoc_L (++)).
  - rewrite join_app, <- (assoc_L (++)), T2, !(assoc_L (++)). by rewrite T1.
  - by apply Forall_app.
Qed.
Lemma flush_run n w : ∃ w', flush n w = Ret (tt, w') ∧ printed w w' [] ∧ w'.(pending) = drop n w.(pending).
Proof.
  unfold flush. eexists. split; [reflexivity|]. case_bool_decide as E.
  - split; [apply printed_nil|]. rewrite <- (take_drop n (pending w)) at 1. by rewrite E.
  - split; [|done]. split; try done; cbn [set_pending set_proc proc pending]; try (by destruct (fds (proc w) !! 1)).
    intros f Hf. rewrite Hf. exists [take n (pending w)]. split; [done|]. split; [simpl; by rewrite !app_nil_r, take_drop|by repeat constructor].
Qed.
Lemma printf_run s w : ∃ w', printf line_buffered s w = Ret (tt, w') ∧ printed w w' s ∧
  w'.(pending) = drop (due line_buffered (w.(pending) ++ s)) (w.(pending) ++ s).
Proof.
  unfold printf. erewrite bind_Ret by reflexivity. erewrite bind_Ret by reflexivity.
  destruct (flush_run (due line_buffered (w.(pending) ++ s)) (set_pending (w.(pending) ++ s) w)) as (w' & E & [] & Hp).
  cbn [set_pending pending proc env cwd table] in *. exists w'. split; [exact E|]. split; [|done]. split; try done.
  intros f Hf. destruct (pr_text0 f Hf) as (c & Ec & Tc & Nc). exists c. split; [done|]. split; [by rewrite Tc, app_nil_r|done].
Qed.

(** *** Redirections are undone *)

Lemma save_run fd s f : s.(fds) !! fd = Some f →
  save fd s = Ret (lowest_fd s.(fds), set_fds (<[lowest_fd s.(fds) := f]> s.(fds)) s).
Proof. intros H. unfold save. erewrite bind_Ret by reflexivity. unfold dup. rewrite H. done. Qed.
Lemma restore_run saved target s f : 0 ≤ saved → s.(fds) !! saved = Some f →
  restore saved target s = Ret (tt, set_fds (delete saved (<[target := f]> s.(fds))) s).
Proof. intros H Hf. unfold restore. rewrite (proj2 (Z.leb_le _ _)) by done. unfold c_mod, close, dup2. by rewrite Hf. Qed.
(** Equality of tables, descriptor by descriptor. *)
Ltac map_points := apply map_eq; intros ?fd; rewrite ?lookup_delete, ?lookup_insert; repeat case_decide; subst;
  rewrite ?lookup_delete, ?lookup_insert; repeat case_decide; subst; congruence.

(** Saving standard input (if it is redirected), then standard output. *)
Definition is_some {A} (o : option A) : bool := match o with Some _ => true | None => false end.
(** The tables of a redirected built-in command, and what undoing them needs. *)
Definition both (bi bo : bool) (m : gmap Z file) (si so : Z) (f0 f1 a b : file) : gmap Z file :=
  let m2 := if bi then <[0 := a]> (<[si := f0]> m) else m in if bo then <[1 := b]> (<[so := f1]> m2) else m2.
Definition saved_ok (bi bo : bool) (m : gmap Z file) (si so : Z) : Prop :=
  (if bi then 0 ≤ si ∧ m !! si = None else si = -1) ∧ (if bo then 0 ≤ so ∧ m !! so = None ∧ so ≠ si else so = -1).
Lemma restore_in bi bo m si so f0 f1 a b s : m !! 0 = Some f0 → m !! 1 = Some f1 → saved_ok bi bo m si so →
  s.(fds) = both bi bo m si so f0 f1 a b → ∃ s', restore si 0 s = Ret (tt, s') ∧
  s'.(fds) = both false bo m si so f0 f1 a b ∧ s'.(events) = s.(events) ∧ s'.(sigs) = s.(sigs).
Proof.
  intros H0 H1 [Hi Ho] Hs. unfold both in *. destruct bi; [destruct Hi as [Hi Hfree]|subst si; by exists s].
  assert (si ≠ 0 ∧ si ≠ 1) as [??] by (split; congruence).
  rewrite (restore_run si 0 s f0) by (done || (rewrite Hs; destruct bo; rewrite ?lookup_insert; repeat case_decide; naive_solver)).
  eexists. split; [reflexivity|]. split; [|done]. cbn [set_fds fds]. rewrite Hs. destruct bo; [|map_points].
  destruct Ho as (? & ? & ?). assert (so ≠ 0 ∧ so ≠ 1) as [??] by (split; congruence). map_points.
Qed.
Lemma restore_both bi bo m si so f0 f1 a b s : m !! 0 = Some f0 → m !! 1 = Some f1 → saved_ok bi bo m si so →
  s.(fds) = both bi bo m si so f0 f1 a b → ∃ s', (restore si 0;; restore so 1) s = Ret (tt, s') ∧
  s'.(fds) = m ∧ s'.(events) = s.(events) ∧ s'.(sigs) = s.(sigs).
Proof.
  intros H0 H1 Hok Hs. destruct (restore_in _ _ _ _ _ _ _ _ _ s H0 H1 Hok Hs) as (s1 & E1 & Hs1 & He1 & Hg1). c_step E1.
  destruct Hok as [_ Ho]. unfold both in Hs1. destruct bo; [destruct Ho as (Ho & Hfree & _)|subst so; by exists s1].
  assert (so ≠ 0 ∧ so ≠ 1) as [??] by (split; congruence).
  rewrite (restore_run so 1 s1 f1) by (done || (rewrite Hs1, lookup_insert_ne, lookup_insert_eq; done)).
  eexists. split; [reflexivity|]. split; [|done]. cbn [set_fds fds]. rewrite Hs1. map_points.
Qed.
Lemma restore_drop bi m si so f0 f1 a s : m !! 0 = Some f0 → m !! 1 = Some f1 → saved_ok bi true m si so →
  s.(fds) = both bi true m si so f0 f1 a f1 → ∃ s', (restore si 0;; drop_saved so) s = Ret (tt, s') ∧
  s'.(fds) = m ∧ s'.(events) = s.(events) ∧ s'.(sigs) = s.(sigs).
Proof.
  intros H0 H1 Hok Hs. destruct (restore_in _ _ _ _ _ _ _ _ _ s H0 H1 Hok Hs) as (s1 & E1 & Hs1 & He1 & Hg1). c_step E1.
  destruct Hok as [_ (Ho & Hfree & _)]. unfold drop_saved. rewrite (proj2 (Z.leb_le _ _)) by done.
  eexists. split; [reflexivity|]. split; [|done]. cbn [set_fds fds]. rewrite Hs1. unfold both, close.
  assert (so ≠ 1) by congruence. map_points.
Qed.

Lemma redirect_in_exact c s : is_Some (s.(fds) !! 0) → redirect_in can_read c s =
  Ret (in_ok can_read c, match c.(input_file) with
    | Some p => if can_read p then set_fds (<[0 := InFile p]> s.(fds)) s else s | None => s end).
Proof.
  intros H. unfold redirect_in, in_ok. destruct (input_file c) as [p|]; [|done]. destruct (can_read p) eqn:E; [|done].
  destruct (open_onto_run p (InFile p) true None 0 s H eq_refl) as (? & -> & ->). by rewrite app_nil_r.
Qed.
Lemma redirect_out_exact c s : is_Some (s.(fds) !! 1) → redirect_out can_write c s =
  Ret (out_ok can_write c, match c.(output_file) with
    | Some p => if can_write p then Process (<[1 := OutFile p]> s.(fds)) (s.(events) ++ [Opened p c.(append)]) s.(sigs) else s
    | None => s end).
Proof.
  intros H. unfold redirect_out, out_ok. destruct (output_file c) as [p|]; [|done]. destruct (can_write p) eqn:E; [|done].
  destruct (open_onto_run p (OutFile p) true (Some (Opened p (append c))) 1 s H eq_refl) as (? & -> & ->). done.
Qed.
Lemma save_if_run {A} (o : option A) fd s f : s.(fds) !! fd = Some f → ∃ n m',
  match o with Some _ => save fd | None => mret (-1) end s = Ret (n, set_fds m' s) ∧
  (if is_some o then 0 ≤ n ∧ s.(fds) !! n = None ∧ m' = <[n := f]> s.(fds) else n = -1 ∧ m' = s.(fds)).
Proof.
  intros H. destruct o; [|exists (-1), s.(fds); split; [by destruct s|done]]. rewrite (save_run fd s f H).
  destruct (lowest_fd_free s.(fds)). by eexists _, _.
Qed.
Lemma redirect_run c s f0 f1 : s.(fds) !! 0 = Some f0 → s.(fds) !! 1 = Some f1 → ∃ r s',
  redirect can_read can_write c s = Ret (r, s') ∧ s'.(sigs) = s.(sigs) ∧
  match r with
  | None => opens can_read can_write c = false ∧ s'.(fds) = s.(fds) ∧ s'.(events) = s.(events)
  | Some (si, so) => opens can_read can_write c = true ∧ s'.(fds) !! 1 = Some (stdout_of c f1) ∧ s'.(events) = s.(events) ++ opened c ∧
      ∀ t, t.(fds) = s'.(fds) → ∃ t', (restore si 0;; restore so 1) t = Ret (tt, t') ∧ t'.(fds) = s.(fds) ∧ t'.(events) = t.(events) ∧
        t'.(sigs) = t.(sigs)
  end.
Proof.
  intros H0 H1. unfold redirect, opens, opened, stdout_of.
  destruct (save_if_run c.(input_file) 0 s f0 H0) as (si & m1 & E1 & Hm1). c_step E1.
  assert (N1 : m1 !! 0 = Some f0 ∧ m1 !! 1 = Some f1).
  { destruct (input_file c); simpl in Hm1; [destruct Hm1 as (? & ? & ->)|destruct Hm1 as (? & ->)]; [|done].
    split; rewrite lookup_insert_ne by congruence; done. }
  destruct N1 as [N0 N1]. erewrite bind_Ret by (apply redirect_in_exact; by eexists). unfold in_ok. cbn [set_fds fds].
  (* an input file that cannot be opened *)
  destruct (match input_file c with Some p => can_read p | None => true end) eqn:Ein; cbn [negb andb].
  2:{ destruct (input_file c) as [p|]; [|done]. rewrite Ein. simpl in Hm1. destruct Hm1 as (Hge & Hfree & ->).
      unfold drop_saved. rewrite (proj2 (Z.leb_le _ _)) by done. erewrite bind_Ret by reflexivity. exists None. eexists.
      split; [reflexivity|]. split_and!; try done. cbn [set_fds fds]. by apply delete_insert_id. }
  set (m2 := match input_file c with Some p => <[0 := InFile p]> m1 | None => m1 end).
  assert (E2 : match input_file c with Some p => if can_read p then set_fds (<[0 := InFile p]> m1) (set_fds m1 s) else set_fds m1 s
    | None => set_fds m1 s end = set_fds m2 s) by (unfold m2; destruct (input_file c); [by rewrite Ein|done]).
  rewrite E2. assert (M1 : m2 !! 1 = Some f1) by (unfold m2; destruct (input_file c); [by rewrite lookup_insert_ne|done]).
  destruct (save_if_run c.(output_file) 1 (set_fds m2 s) f1 M1) as (so & m3 & E3 & Hm3). c_step E3. cbn [set_fds fds events sigs] in *.
  assert (M3 : m3 !! 1 = Some f1).
  { destruct (output_file c); simpl in Hm3; [destruct Hm3 as (? & ? & ->)|by destruct Hm3 as (? & ->)]. rewrite lookup_insert_ne by congruence. done. }
  erewrite bind_Ret by (apply redirect_out_exact; by eexists). unfold out_ok. cbn [set_fds fds events sigs].
  set (ai := match input_file c with Some p => InFile p | None => f0 end).
  set (bo := match output_file c with Some p => OutFile p | None => f1 end).
  assert (Em2 : m2 = both (is_some (input_file c)) false s.(fds) si so f0 f1 ai bo).
  { unfold m2, both, ai. destruct (input_file c); simpl in *; naive_solver. }
  assert (Hok : saved_ok (is_some (input_file c)) (is_some (output_file c)) s.(fds) si so).
  { split; [destruct (input_file c); simpl in *; naive_solver|]. destruct (output_file c); simpl in *; [|naive_solver].
    destruct Hm3 as (? & Hf & _). rewrite Em2 in Hf. unfold both in Hf.
    destruct (input_file c); simpl in *; [|split_and!; [done|done|lia]].
    apply lookup_insert_None in Hf as [Hf ?]. apply lookup_insert_None in Hf as [? ?]. done. }
  assert (Em3 : ∀ b, (if is_some (output_file c) then <[1 := b]> m3 else m3) = both (is_some (input_file c)) (is_some (output_file c)) s.(fds) si so f0 f1 ai b).
  { intros b. destruct (output_file c); simpl in Hm3; [destruct Hm3 as (_ & _ & ->)|destruct Hm3 as (_ & ->)]; by rewrite Em2. }
  destruct (match output_file c with Some p => can_write p | None => true end) eqn:Eout; cbn [negb].
  - eexists (Some (si, so)), _. split; [reflexivity|].
    assert (Es : (match output_file c with Some p => if can_write p then Process (<[1 := OutFile p]> m3) (s.(events) ++ [Opened p c.(append)]) s.(sigs)
      else set_fds m3 (set_fds m2 s) | None => set_fds m3 (set_fds m2 s) end) =
      Process (if is_some (output_file c) then <[1 := bo]> m3 else m3) (s.(events) ++ opened c) s.(sigs)).
    { unfold bo, opened. destruct (output_file c); simpl; [by rewrite Eout|]. by rewrite app_nil_r. }
    unfold opened in Es. rewrite Es. cbn [fds events sigs]. split_and!; [done|done| |done|].
    + destruct (output_file c); simpl; [apply lookup_insert_eq|done].
    + intros t Ht. rewrite Em3 in Ht. by eapply restore_both.
  - destruct (output_file c) as [p|]; [|done]. rewrite Eout. cbn [is_some] in *.
    destruct (restore_drop (is_some (input_file c)) s.(fds) si so f0 f1 ai (set_fds m3 (set_fds m2 s)) H0 H1 Hok) as (s' & E & Hf & He & Hg).
    { cbn [set_fds fds]. rewrite <- Em3. by rewrite insert_id. }
    exists None, s'. split; [|by split_and!]. apply bind_inv in E as ([] & s1 & Ea & Eb). c_step Ea. by c_step Eb.
Qed.

(** *** echo *)

Fixpoint echo_text (args : list (list byte)) (first : bool) : list byte :=
  match args with [] => [] | a :: args' => (if first then [] else [x20]) ++ a ++ echo_text args' false end.
Lemma last_newline_snoc b : last_newline (b ++ [x0a]) = length (b ++ [x0a]).
Proof.
  induction b as [|c b IH]; [done|]. cbn [app last_newline length]. rewrite IH, length_app. simpl.
  destruct (length b + 1)%nat eqn:E; [lia|]. done.
Qed.
(** Nothing is written before the buffer is full. *)
Lemma due_short b : line_buffered = false → strlen b < BUFSIZ → due line_buffered b = 0%nat.
Proof. intros -> H. unfold due. by rewrite (proj2 (Z.leb_gt _ _)). Qed.

Lemma printf_short s w : line_buffered = false → strlen (w.(pending) ++ s) < BUFSIZ → ∃ w',
  printf line_buffered s w = Ret (tt, w') ∧ printed w w' s ∧ w'.(pending) = w.(pending) ++ s.
Proof.
  intros Hb Hl. destruct (printf_run s w) as (w' & E & Hp & Hpend). exists w'. split_and!; [done|done|].
  by rewrite Hpend, due_short.
Qed.
Lemma echo_args_run args : ∀ first w, ∃ w', echo_args line_buffered args first w = Ret (tt, w') ∧ printed w w' (echo_text args first) ∧
  (line_buffered = false → strlen (w.(pending) ++ echo_text args first) < BUFSIZ → w'.(pending) = w.(pending) ++ echo_text args first).
Proof.
  induction args as [|a args IH]; intros first w; cbn [echo_args echo_text].
  { exists w. split_and!; [done|apply printed_nil|by rewrite app_nil_r]. }
  assert (E1 : ∃ w1, (if first then mret tt else printf line_buffered [x20]) w = Ret (tt, w1) ∧
    printed w w1 (if first then [] else [x20]) ∧ (line_buffered = false →
    strlen (w.(pending) ++ (if first then [] else [x20])) < BUFSIZ → w1.(pending) = w.(pending) ++ (if first then [] else [x20]))).
  { destruct first; [exists w; split_and!; [done|apply printed_nil|by rewrite app_nil_r]|].
    destruct (printf_run [x20] w) as (w1 & E & Hp & Hpend). exists w1. split_and!; [done|done|].
    intros Hb Hl. by rewrite Hpend, due_short. }
  destruct E1 as (w1 & E1 & Hp1 & Hs1). c_step E1. destruct (printf_run a w1) as (w2 & E2 & Hp2 & Hs2). c_step E2.
  destruct (IH false w2) as (w3 & E3 & Hp3 & Hs3). exists w3. split_and!; [exact E3| |].
  - exact (printed_trans _ _ _ _ _ Hp1 (printed_trans _ _ _ _ _ Hp2 Hp3)).
  - intros Hb Hl. assert (L1 : strlen (w.(pending) ++ (if first then [] else [x20])) < BUFSIZ)
      by (unfold strlen in *; rewrite !length_app in *; lia).
    specialize (Hs1 Hb L1). rewrite due_short in Hs2 by (done || (rewrite Hs1; unfold strlen in *; rewrite !length_app in *; lia)).
    rewrite drop_0 in Hs2. rewrite Hs3; [by rewrite Hs2, Hs1, <- !(assoc_L (++))|done|].
    rewrite Hs2, Hs1. unfold strlen in *. rewrite !length_app in *. lia.
Qed.
Lemma echo_run args w : ∃ w', builtin_echo line_buffered args w = Ret (0, w') ∧ printed w w' (echo_text args true ++ [x0a]) ∧
  (line_buffered = true → w'.(pending) = []) ∧
  (line_buffered = false → strlen (w.(pending) ++ echo_text args true ++ [x0a]) < BUFSIZ →
     w'.(pending) = w.(pending) ++ echo_text args true ++ [x0a]).
Proof.
  unfold builtin_echo. destruct (echo_args_run args true w) as (w1 & E1 & Hp1 & Hs1). c_step E1.
  destruct (printf_run [x0a] w1) as (w2 & E2 & Hp2 & Hs2). c_step E2. exists w2. split_and!; [done|by eapply printed_trans| |].
  - intros Hb. rewrite Hs2. unfold due. rewrite Hb, last_newline_snoc. by apply drop_ge.
  - intros Hb Hl. rewrite (assoc_L (++)). rewrite <- Hs1; [|done|unfold strlen in *; rewrite !length_app in *; lia].
    rewrite Hs2, due_short; [done|done|]. rewrite Hs1 by (done || (unfold strlen in *; rewrite !length_app in *; lia)).
    by rewrite <- (assoc_L (++)).
Qed.

(** What was written to a file. *)
Definition written (f : file) (es : list event) : list byte :=
  mjoin (omap (λ e, match e with Wrote g s => if decide (g = f) then Some s else None | _ => None end) es).
Lemma written_chunks f chunks : written f (Wrote f <$> chunks) = mjoin chunks.
Proof.
  unfold written. induction chunks as [|c cs IH]; [done|]. simpl. rewrite decide_True by done. simpl. f_equal. exact IH.
Qed.
Lemma written_other f g chunks : f ≠ g → written f (Wrote g <$> chunks) = [].
Proof.
  intros H. unfold written. induction chunks as [|c cs IH]; [done|]. simpl. rewrite decide_False by done. exact IH.
Qed.
Lemma written_app f es fs : written f (es ++ fs) = written f es ++ written f fs.
Proof. unfold written. by rewrite omap_app, join_app. Qed.

(** Where the output of [echo args > p] goes: with a terminal as standard output
    (line buffered) the text is in the file when the command returns; otherwise, when
    it is shorter than the stdio buffer, the file stays empty and the text is still
    held back when standard output is back to what it was, so the next write of the
    buffer sends it there.  The descriptors are as before in both cases. *)
Theorem echo_redirected c args p o w f0 f1 : c.(argv) = str "echo" :: args → c.(input_file) = None → c.(output_file) = Some p →
  can_write p = true → w.(proc).(fds) !! 0 = Some f0 → w.(proc).(fds) !! 1 = Some f1 → f1 ≠ OutFile p → w.(pending) = [] →
  let text := echo_text args true ++ [x0a] in ∃ w' new,
  builtin_execute can_read can_write chdir line_buffered c o w = Ret (Returned 0, w') ∧
  w'.(proc).(fds) = w.(proc).(fds) ∧ w'.(proc).(events) = w.(proc).(events) ++ Opened p c.(append) :: new ∧
  if line_buffered then written (OutFile p) new = text ∧ w'.(pending) = []
  else strlen text < BUFSIZ → new = [] ∧ w'.(pending) = text ∧
    ∀ n, ∃ w'', flush n w' = Ret (tt, w'') ∧ written f1 w''.(proc).(events) = written f1 w.(proc).(events) ++ take n text.
Proof.
  intros Ha Hin Hout Hcan H0 H1 Hne Hpend text. unfold builtin_execute. rewrite Ha.
  destruct (redirect_run c w.(proc) f0 f1 H0 H1) as (r & s1 & E1 & Hg1 & Hr).
  erewrite bind_Ret by (unfold on_proc; by rewrite E1). unfold opens, in_ok, out_ok, stdout_of, opened in Hr.
  rewrite Hin, Hout in Hr. destruct r as [[si so]|]; [|by rewrite Hcan in Hr; destruct Hr]. destruct Hr as (_ & F1 & He1 & Hrest).
  unfold builtin_body. rewrite !(decide_False (P := str "echo" = _)) by done. rewrite (decide_True (P := str "echo" = str "echo")) by done.
  destruct (echo_run args (set_proc s1 w)) as (w2 & E2 & [] & Hline & Hfull). cbn [set_proc proc pending table env cwd] in *.
  erewrite bind_Ret by (unfold returned; c_step E2; reflexivity). cbv beta iota.
  destruct (Hrest w2.(proc) pr_fds0) as (t & Et & Hft & Het & Hgt). erewrite bind_Ret by (unfold on_proc; by rewrite Et).
  erewrite bind_Ret by reflexivity. destruct (pr_text0 _ F1) as (chunks & Hev & Htext & Hne'). rewrite Hpend in *. cbn [app] in Htext.
  eexists _, (Wrote (OutFile p) <$> chunks). split; [reflexivity|]. cbn [set_table set_proc proc pending].
  rewrite Hft, Het, Hev, He1, <- (assoc_L (++)). split; [done|]. split; [done|]. rewrite written_chunks. destruct line_buffered.
  - rewrite Hline, app_nil_r in Htext by done. by rewrite Hline.
  - intros Hl. specialize (Hfull eq_refl Hl). cbn [app] in Hfull. rewrite Hfull in *.
    assert (chunks = []) as ->.
    { destruct Hne' as [|c1 cs Hc1 _]; [done|]. apply (f_equal length) in Htext. rewrite !length_app in Htext. cbn [mjoin list_join] in Htext.
      rewrite length_app in Htext. destruct c1; [done|simpl in Htext; lia]. }
    split_and!; [done|done|]. intros n.
    match goal with |- context [flush n ?w3] => destruct (flush_run n w3) as (w4 & E4 & [] & Hp4) end.
    exists w4. split; [exact E4|]. cbn [set_table set_proc proc pending] in *.
    destruct (pr_text1 f1 ltac:(by rewrite Hft)) as (cs & Ecs & Tcs & _). rewrite Ecs, Het, Hev, He1. cbn [fmap list_fmap].
    rewrite app_nil_r, !written_app, written_chunks. rewrite Hp4, Hfull in Tcs. rewrite app_nil_r in Tcs.
    fold text in Tcs. rewrite <- (take_drop n text) in Tcs at 2. apply app_inv_tail in Tcs. rewrite Tcs.
    by rewrite <- (assoc_L (++)).
Qed.

(** *** Lines leave the descriptors alone *)

Context (can_exec : list byte → bool).

Definition keeps {A} (m : C world A) : Prop := ∀ w r w', m w = Ret (r, w') → w'.(proc).(fds) = w.(proc).(fds).
Lemma keeps_ret {A} (a : A) : keeps (mret a).
Proof. by intros w r w' [= _ <-]. Qed.
Lemma keeps_stuck {A} (m : C world A) : (∀ w r, m w ≠ Ret r) → keeps m.
Proof. intros H w r w' E. by destruct (H w (r, w')). Qed.
Lemma keeps_get : keeps c_get.
Proof. by intros w r w' [= _ <-]. Qed.
Lemma keeps_bind {A B} (m : C world A) (k : A → C world B) : keeps m → (∀ a, keeps (k a)) → keeps (m ≫= k).
Proof. intros Hm Hk w r w' E. apply bind_inv in E as (a & w1 & E1 & E2). rewrite (Hk a _ _ _ E2). by eapply Hm. Qed.
Lemma keeps_mod f : (∀ w, (f w).(proc).(fds) = w.(proc).(fds)) → keeps (c_mod f).
Proof. by intros H w r w' [= _ <-]. Qed.
Lemma keeps_run {A} (m : C world A) : (∀ w, ∃ r w', m w = Ret (r, w') ∧ w'.(proc).(fds) = w.(proc).(fds)) → keeps m.
Proof. intros H w r w' E. destruct (H w) as (r1 & w1 & E1 & Hf). rewrite E1 in E. by injection E as _ <-. Qed.
Lemma keeps_flush n : keeps (flush n).
Proof. apply keeps_run. intros w. destruct (flush_run n w) as (w' & E & [] & _). by eexists _, _. Qed.
Lemma keeps_printf s : keeps (printf line_buffered s).
Proof. apply keeps_run. intros w. destruct (printf_run s w) as (w' & E & [] & _). by eexists _, _. Qed.
Create HintDb keeps.
#[local] Hint Resolve keeps_ret keeps_get keeps_flush keeps_printf : keeps.
#[local] Hint Extern 1 (keeps (_ ≫= _)) => apply keeps_bind; [|intros ?] : keeps.
#[local] Hint Extern 1 (keeps (c_mod _)) => apply keeps_mod; intros ?; reflexivity : keeps.
#[local] Hint Extern 2 (keeps (match ?x with _ => _ end)) => destruct x : keeps.

Lemma keeps_on_jobs {A} (m : C ShellJobs.shell_t A) : keeps (on_jobs line_buffered m).
Proof.
  intros w r w' E. unfold on_jobs in E.
  destruct (m _) as [[a t]| | |]; try done. assert (K : keeps (printf line_buffered t.(ShellJobs.out);; mret a)) by auto with keeps.
  exact (K _ _ _ E).
Qed.
#[local] Hint Resolve @keeps_on_jobs : keeps.
Lemma keeps_echo args : ∀ first, keeps (echo_args line_buffered args first).
Proof. induction args as [|a args IH]; intros first; cbn [echo_args]; auto 8 with keeps. Qed.
Lemma keeps_print_env e : keeps (print_env line_buffered e).
Proof. induction e as [|[n v] e IH]; cbn [print_env]; auto 8 with keeps. Qed.
Lemma keeps_print_lines ls : keeps (print_lines line_buffered ls).
Proof. induction ls as [|l ls IH]; cbn [print_lines]; auto 8 with keeps. Qed.
Lemma keeps_export args : keeps (export_args args).
Proof. induction args as [|a args IH]; cbn [export_args]; auto 12 with keeps. Qed.
Lemma keeps_unset args : keeps (builtin_unset args).
Proof. induction args as [|a args IH]; cbn [builtin_unset]; auto 8 with keeps. Qed.
#[local] Hint Resolve keeps_echo keeps_print_env keeps_print_lines keeps_export keeps_unset : keeps.
Lemma keeps_body name args o : keeps (builtin_body chdir line_buffered name args o).
Proof.
  unfold builtin_body, returned, builtin_cd, builtin_pwd, builtin_echo, builtin_export, builtin_exit, builtin_help.
  repeat (destruct (decide _); [auto 20 with keeps|]). auto with keeps.
Qed.

(** The calls of the kernel that the line needs succeed. *)
Definition oracle_ok (o : oracle) : Prop := Forall (λ b, b = true) o.(pipe_oks) ∧ Forall (λ p, 0 ≤ p) o.(forks).
Definition std_open (w : world) : Prop := is_Some (w.(proc).(fds) !! 0) ∧ is_Some (w.(proc).(fds) !! 1).
Lemma execute_keeps c o w r w' : std_open w → builtin_execute can_read can_write chdir line_buffered c o w = Ret (Returned r, w') →
  w'.(proc).(fds) = w.(proc).(fds).
Proof.
  intros [[f0 H0] [f1 H1]] E. unfold builtin_execute in E. destruct (argv c) as [|name args]; [by injection E as _ <-|].
  destruct (redirect_run c w.(proc) f0 f1 H0 H1) as (x & s1 & E1 & _ & Hx).
  erewrite bind_Ret in E by (unfold on_proc; by rewrite E1). destruct x as [[si so]|].
  - destruct Hx as (_ & _ & _ & Hrest). apply bind_inv in E as (e & w2 & E2 & E). apply keeps_body in E2. cbn [set_proc proc] in E2.
    destruct e; [|done]. destruct (Hrest w2.(proc) E2) as (t & Et & Hft & _). erewrite bind_Ret in E by (unfold on_proc; by rewrite Et).
    erewrite bind_Ret in E by reflexivity. injection E as _ <-. exact Hft.
  - injection E as _ <-. by destruct Hx as (_ & ? & _).
Qed.
Lemma pipeline_keeps p o w r w' : std_open w → oracle_ok o →
  run_pipeline can_read can_write can_exec line_buffered p o w = Ret (r, w') → w'.(proc).(fds) = w.(proc).(fds).
Proof.
  intros [[f0 H0] [f1 H1]] [Ho Hf] E. unfold run_pipeline in E. apply bind_inv in E as (es & w1 & E1 & E).
  assert (H : w1.(proc).(fds) = w.(proc).(fds)).
  { unfold on_proc in E1. destruct (decide (commands p = [])) as [Hc|Hc].
    - unfold spawn in E1. rewrite Hc in E1. by injection E1 as _ <-.
    - destruct (spawn_run can_read can_write can_exec p o.(pipe_oks) o.(forks) w.(proc) f0 f1 Hc H0 H1 Ho Hf) as (es' & E2 & _).
      rewrite E2 in E1. by injection E1 as _ <-. }
  rewrite <- H. revert E. apply keeps_bind; [apply keeps_on_jobs|intros; apply keeps_ret].
Qed.

(** No descriptor is lost or left open: a line that does not end the shell, be
    it a pipeline or a built-in command whose files can or cannot be opened, leaves
    the shell's descriptors exactly as they were, if pipe and fork succeed. *)
Theorem line_keeps_descriptors line o w r w' : std_open w → oracle_ok o →
  run_line can_read can_write can_exec chdir line_buffered line o w = Ret (Returned r, w') →
  w'.(proc).(fds) = w.(proc).(fds).
Proof.
  intros Hw Ho E. unfold run_line in E. erewrite bind_Ret in E by reflexivity.
  destruct (parse_line _ line _) as [[[code p] ?]| | |]; try done. apply bind_inv in E as (e & w1 & E1 & E).
  destruct e as [r1|]; [|done].
  assert (H : w1.(proc).(fds) = w.(proc).(fds)); [|rewrite <- H; revert E; apply keeps_bind; [apply keeps_on_jobs|intros; apply keeps_ret]].
  assert (Hp : (run_pipeline can_read can_write can_exec line_buffered p o;; mret (Returned 0)) w = Ret (Returned r1, w1) →
    w1.(proc).(fds) = w.(proc).(fds)).
  { intros E2. apply bind_inv in E2 as (es & w2 & E2 & [= _ <-]). by eapply pipeline_keeps. }
  destruct (negb (code =? 0)); [by injection E1 as _ <-|]. destruct (commands p) as [|c [|c2 cs]]; [by apply Hp| |by apply Hp].
  destruct (builtin_check _); [by eapply execute_keeps|by apply Hp].
Qed.

End builtins.

(** ** A shell with a terminal, and what happens when calls fail *)

Definition yes (_ : list byte) : bool := true.
Definition same_dir (_ d : list byte) : option (option (list byte)) := Some (Some d).
Definition std : gmap Z file := <[0 := Inherited 0]> (<[1 := Inherited 1]> (<[2 := Inherited 2]> ∅)).
Definition shell_process (m : gmap Z file) : process := Process m [] (signal_init (λ _, SIG_DFL)).
Definition plain (a : list byte) : command_t := Command [a] None None false false.
Definition sort_count : pipeline_t :=
  Pipeline [Command [str "sort"] (Some (str "in")) None false false; plain (str "uniq");
    Command [str "wc"; str "-l"] None (Some (str "out")) false false] false.
Definition no_jobs : ShellJobs.shell_t := ShellJobs.Shell (replicate 64 ShellJobs.no_job) 0 true 1 0 1 [].
Definition wit_world : world := World (shell_process std) [] [] (str "/") no_jobs.
Definition wit_oracle : oracle := Oracle [] [] [100; 101; 102] [Some (ShellJobs.Exited 0); Some (ShellJobs.Exited 0); Some (ShellJobs.Exited 3)] [] [] true.

(** A fork that fails: the pipe stays open in the shell, which does not wait for the
    command it has started. *)
Lemma fork_failure_leaks : ∃ s, spawn yes yes yes (Pipeline [plain (str "a"); plain (str "b")] false) [] [100; -1] (shell_process std) =
  Ret (None, s) ∧ s.(fds) !! 3 = Some (PipeRead 0) ∧ s.(fds) !! 4 = Some (PipeWrite 0).
Proof. eexists. split; [vm_compute; reflexivity|]. by split. Qed.
(** With standard input closed, a pipe takes descriptor 0, and closing the pipes in
    the child closes its standard input. *)
Lemma closed_stdin_breaks : ∃ a b s, spawn yes yes yes (Pipeline [plain (str "a"); plain (str "b")] false) [] []
  (shell_process (delete 0 std)) = Ret (Some [a; b], s) ∧ b.2.(fds) !! 0 = None.
Proof. eexists _, _, _. split; vm_compute; reflexivity. Qed.

Lemma std_no_pipes fd k : std !! fd ≠ Some (PipeWrite k).
Proof. unfold std. rewrite !lookup_insert. repeat case_decide; done. Qed.
Lemma pipeline_wiring_witness : ∃ es, spawn yes yes yes sort_count [] [] (shell_process std) = Ret (Some es, shell_process std) ∧
  length es = 3%nat ∧
  (∀ i c, sort_count.(commands) !! i = Some c → ∃ r, es !! i = Some r ∧ child_ok yes yes yes std (Inherited 0) (Inherited 1) 3 i c r).
Proof.
  destruct (pipeline_wiring yes yes yes sort_count [] [] (shell_process std) (Inherited 0) (Inherited 1)) as (es & E & Hl & Hes & _).
  - done.
  - reflexivity.
  - reflexivity.
  - apply std_no_pipes.
  - constructor.
  - constructor.
  - by exists es.
Defined.
Definition echo_out : command_t := Command [str "echo"; str "hi"] None (Some (str "f")) false false.
Lemma echo_redirected_witness : ∃ w' new,
  builtin_execute yes yes same_dir false echo_out wit_oracle wit_world = Ret (Returned 0, w') ∧
  w'.(proc).(events) = [Opened (str "f") false] ++ new ∧ new = [] ∧ w'.(pending) = str "hi" ++ [x0a].
Proof.
  destruct (echo_redirected yes yes same_dir false echo_out [str "hi"] (str "f") wit_oracle wit_world (Inherited 0) (Inherited 1))
    as (w' & new & E & _ & Hev & Hrest); try done.
  destruct (Hrest ltac:(vm_compute; reflexivity)) as (Hnew & Hp & _). exists w', new. split_and!; [exact E|exact Hev|exact Hnew|exact Hp].
Defined.
Lemma line_keeps_descriptors_witness : ∃ w',
  run_line yes yes yes same_dir true (str "sort < in | uniq | wc -l > out") wit_oracle wit_world = Ret (Returned 0, w') ∧
  w'.(proc).(fds) = std ∧ w'.(table).(ShellJobs.last_exit_status) = 3.
Proof.
  assert (H : ∃ w', run_line yes yes yes same_dir true (str "sort < in | uniq | wc -l > out") wit_oracle wit_world = Ret (Returned 0, w') ∧
    w'.(table).(ShellJobs.last_exit_status) = 3) by (eexists; split; [vm_compute; reflexivity|reflexivity]).
  destruct H as (w' & E & Hst). exists w'. split_and!; [exact E| |exact Hst].
  apply (line_keeps_descriptors yes yes same_dir true yes (str "sort < in | uniq | wc -l > out") wit_oracle wit_world 0 w').
  - split; eexists; reflexivity.
  - split; repeat constructor; vm_compute; discriminate.
  - exact E.
Defined.

End ShellIoSpec.
