(* ===== verification/WebHttp.v ===== *)
(** * web-server: HTTP parsing, responses, static files and the connection queue
    (web-server/src/http.c)

    Requests are parsed out of the bytes one [recv] returned; responses go to a
    socket of [Net].  Handlers registered with [http_server_add_route] are
    functions of the model.  Allocations inside the parser succeed. *)

From S2P Require Import Prelude Net.
Import Net.

Module WebHttp.

Definition MAX_REQUEST_SIZE : Z := 8192.
Definition MAX_RESPONSE_SIZE : Z := 65536.
Definition MAX_PATH_LENGTH : Z := 1024.
Definition MAX_ROUTES : Z := 64.

(** ** Data *)

Inductive http_method_t :=
  | HTTP_METHOD_GET | HTTP_METHOD_POST | HTTP_METHOD_PUT | HTTP_METHOD_DELETE
  | HTTP_METHOD_HEAD | HTTP_METHOD_OPTIONS | HTTP_METHOD_UNKNOWN.
#[global] Instance http_method_eq_dec : EqDecision http_method_t.
Proof. solve_decision. Defined.
Inductive http_version_t := HTTP_VERSION_1_0 | HTTP_VERSION_1_1 | HTTP_VERSION_UNKNOWN.

Definition HTTP_STATUS_OK : Z := 200.
Definition HTTP_STATUS_BAD_REQUEST : Z := 400.
Definition HTTP_STATUS_FORBIDDEN : Z := 403.
Definition HTTP_STATUS_NOT_FOUND : Z := 404.
Definition HTTP_STATUS_INTERNAL_ERROR : Z := 500.
Definition HTTP_STATUS_SERVICE_UNAVAILABLE : Z := 503.

(** The header fields the parser fills in. *)
Record http_headers_t := Headers {
  host : option (list byte); user_agent : option (list byte); accept : option (list byte);
  connection : option (list byte); content_type : option (list byte);
  content_length : option (list byte); cookie : option (list byte);
  authorization : option (list byte); keep_alive : bool
}.
Definition no_headers : http_headers_t := Headers None None None None None None None None false.

Record http_request_t := Request {
  method : http_method_t; version : http_version_t; path : list byte;
  query_string : option (list byte); headers : http_headers_t;
  body : option (list byte); body_length : Z
}.
Record http_response_t := Response {
  status : Z; rbody : option (list byte); rbody_length : Z; rcontent_type : option (list byte)
}.
Record http_route_t := Route {
  rmethod : http_method_t; pattern : list byte; handler : http_request_t → http_response_t → http_response_t
}.
Record http_server_config_t := Config {
  max_connections : Z; thread_pool_size : Z; document_root : list byte; index_file : list byte;
  enable_keep_alive : bool; keep_alive_timeout : Z;     (* read by nothing *)
  enable_directory_listing : bool
}.
Record http_server := Server {
  config : http_server_config_t;
  running : bool;
  thread_count : Z;
  connection_queue : list Z;
  queue_head : Z; queue_tail : Z; queue_size : Z;
  routes : list http_route_t             (* route_count of them *)
}.

(** ** Tables *)

Definition mime_types : list (list byte * list byte) :=
  [(str ".html", str "text/html"); (str ".htm", str "text/html"); (str ".css", str "text/css");
   (str ".js", str "application/javascript"); (str ".json", str "application/json");
   (str ".xml", str "application/xml"); (str ".txt", str "text/plain");
   (str ".jpg", str "image/jpeg"); (str ".jpeg", str "image/jpeg"); (str ".png", str "image/png");
   (str ".gif", str "image/gif"); (str ".svg", str "image/svg+xml"); (str ".ico", str "image/x-icon");
   (str ".pdf", str "application/pdf"); (str ".zip", str "application/zip");
   (str ".gz", str "application/gzip"); (str ".tar", str "application/x-tar");
   (str ".mp3", str "audio/mpeg"); (str ".mp4", str "video/mp4"); (str ".woff", str "font/woff");
   (str ".woff2", str "font/woff2"); (str ".ttf", str "font/ttf")].

Definition http_method_name (m : http_method_t) : list byte :=
  match m with
  | HTTP_METHOD_GET => str "GET" | HTTP_METHOD_POST => str "POST" | HTTP_METHOD_PUT => str "PUT"
  | HTTP_METHOD_DELETE => str "DELETE" | HTTP_METHOD_HEAD => str "HEAD"
  | HTTP_METHOD_OPTIONS => str "OPTIONS" | HTTP_METHOD_UNKNOWN => str "UNKNOWN"
  end.
Definition http_method_parse (name : list byte) : http_method_t :=
  if decide (name = str "GET") then HTTP_METHOD_GET
  else if decide (name = str "POST") then HTTP_METHOD_POST
  else if decide (name = str "PUT") then HTTP_METHOD_PUT
  else if decide (name = str "DELETE") then HTTP_METHOD_DELETE
  else if decide (name = str "HEAD") then HTTP_METHOD_HEAD
  else if decide (name = str "OPTIONS") then HTTP_METHOD_OPTIONS
  else HTTP_METHOD_UNKNOWN.

Definition http_status_text (s : Z) : list byte :=
  if s =? 200 then str "OK" else if s =? 201 then str "Created"
  else if s =? 204 then str "No Content" else if s =? 301 then str "Moved Permanently"
  else if s =? 302 then str "Found" else if s =? 304 then str "Not Modified"
  else if s =? 400 then str "Bad Request" else if s =? 401 then str "Unauthorized"
  else if s =? 403 then str "Forbidden" else if s =? 404 then str "Not Found"
  else if s =? 405 then str "Method Not Allowed" else if s =? 500 then str "Internal Server Error"
  else if s =? 501 then str "Not Implemented" else if s =? 503 then str "Service Unavailable"
  else str "Unknown".

Fixpoint mime_lookup (ext : list byte) (t : list (list byte * list byte)) : list byte :=
  match t with
  | [] => str "application/octet-stream"
  | (e, m) :: t' => if decide (ext = e) then m else mime_lookup ext t'
  end.
Definition http_mime_type (ext : list byte) : list byte := mime_lookup ext mime_types.

(** ** URL coding *)

Definition hex_value (c : byte) : option Z :=
  if is_digit c then Some (b2z c - 48)
  else if (65 <=? b2z c) && (b2z c <=? 70) then Some (b2z c - 55)
  else if (97 <=? b2z c) && (b2z c <=? 102) then Some (b2z c - 87)
  else None.
Fixpoint hex_digits_value (acc : Z) (s : list byte) : Z :=
  match s with
  | c :: s' => match hex_value c with
               | Some d => hex_digits_value (16 * acc + d) s'
               | None => acc
               end
  | [] => acc
  end.
(** [strtol(s, NULL, 16)] of a string of two characters (too short for a 0x
    prefix to count). *)
Definition strtol16 (s : list byte) : Z :=
  match skip_space s with
  | x2d :: s' => - hex_digits_value 0 s'
  | x2b :: s' => hex_digits_value 0 s'
  | s' => hex_digits_value 0 s'
  end.

(** The bytes stored before the final NUL, with [room] bytes of space left. *)
Fixpoint url_decode (room : Z) (src : list byte) : list byte :=
  match src with
  | [] => []
  | c :: src1 =>
      if room <=? 0 then [] else
      match src1 with
      | a :: b :: src3 =>
          if decide (c = x25) then z2b (strtol16 [a; b]) :: url_decode (room - 1) src3
          else (if decide (c = x2b) then x20 else c) :: url_decode (room - 1) src1
      | _ => (if decide (c = x2b) then x20 else c) :: url_decode (room - 1) src1
      end
  end.
Definition http_url_decode (src : list byte) (dst_size : Z) : list byte :=
  url_decode (u64 (dst_size - 1)) src.

Definition unreserved (c : byte) : bool :=
  is_alnum c || bool_decide (c = x2d) || bool_decide (c = x5f) || bool_decide (c = x2e) ||
  bool_decide (c = x7e).
Definition hex_chars : list byte := str "0123456789ABCDEF".
Definition hex_char (n : Z) : byte := default x00 (hex_chars !! Z.to_nat n).

(** The bytes stored from position [j] on; a byte that does not fit is skipped. *)
Fixpoint url_encode (dst_size j : Z) (src : list byte) : list byte :=
  match src with
  | [] => []
  | c :: src' =>
      if u64 (dst_size - 1) <=? j then [] else
      if unreserved c then c :: url_encode dst_size (j + 1) src'
      else if j + 3 <? dst_size then
        x25 :: hex_char (Z.shiftr (b2z c) 4) :: hex_char (Z.land (b2z c) 15) ::
        url_encode dst_size (j + 3) src'
      else url_encode dst_size j src'
  end.
Definition http_url_encode (src : list byte) (dst_size : Z) : list byte := url_encode dst_size 0 src.

(** ** Request parsing *)

Definition crlf : list byte := [x0d; x0a].

(** The method, version, path and query of a request line; [None] is -1. *)
Definition parse_request_line (line : list byte)
    : option (http_method_t * http_version_t * list byte * option (list byte)) :=
  '(m, r) ← scan_word 15 line;
  '(p, r) ← scan_word (Z.to_nat 1023) r;
  '(v, _) ← scan_word 15 r;
  let meth := http_method_parse m in
  if decide (meth = HTTP_METHOD_UNKNOWN) then None else
  let (p, q) := match find_byte x3f p with
                | Some i => (take i p, Some (drop (S i) p))
                | None => (p, None)
                end in
  let decoded := cstr (http_url_decode p MAX_PATH_LENGTH) in
  let ver := if decide (v = str "HTTP/1.0") then HTTP_VERSION_1_0
             else if decide (v = str "HTTP/1.1") then HTTP_VERSION_1_1
             else HTTP_VERSION_UNKNOWN in
  Some (meth, ver, decoded, q).

(** Store one header value. *)
Definition set_header (k v : list byte) (h : http_headers_t) : http_headers_t :=
  let 'Headers ho ua ac co ct cl ck au ka := h in
  if decide (k = str "host") then Headers (Some v) ua ac co ct cl ck au ka
  else if decide (k = str "user-agent") then Headers ho (Some v) ac co ct cl ck au ka
  else if decide (k = str "accept") then Headers ho ua (Some v) co ct cl ck au ka
  else if decide (k = str "connection") then
    Headers ho ua ac (Some v) ct cl ck au (ka || strcaseeq v (str "keep-alive"))
  else if decide (k = str "content-type") then Headers ho ua ac co (Some v) cl ck au ka
  else if decide (k = str "content-length") then Headers ho ua ac co ct (Some v) ck au ka
  else if decide (k = str "cookie") then Headers ho ua ac co ct cl (Some v) au ka
  else if decide (k = str "authorization") then Headers ho ua ac co ct cl ck (Some v) ka
  else h.

Fixpoint skip_blanks (s : list byte) : list byte :=
  match s with
  | c :: s' => if decide (c = x20) then skip_blanks s' else s
  | [] => []
  end.

(** A line that does not match the two conversions leaves the headers alone. *)
Definition parse_header (line : list byte) (h : http_headers_t) : http_headers_t :=
  match scan_set 255 (λ c, negb (bool_decide (c = x3a))) line with
  | Some (k, x3a :: r) =>
      match scan_set (Z.to_nat 1023) (λ c, negb (bool_decide (c = x0d) || bool_decide (c = x0a)))
              (skip_space r) with
      | Some (v, _) => set_header (lower k) (skip_blanks v) h
      | None => h
      end
  | _ => h
  end.

(** The header loop: where it stops and the headers. *)
Fixpoint parse_headers (fuel : nat) (s : list byte) (h : http_headers_t)
    : outcome (list byte * http_headers_t) :=
  match s with
  | [] => Ret (s, h)
  | c :: _ =>
      if decide (c = x0d) then Ret (s, h) else
      match find_sub crlf s with
      | None => Ret (s, h)
      | Some k =>
          if 2048 <=? Z.of_nat k then Ret (s, h) else
          match fuel with
          | O => Fuel
          | S fuel' => parse_headers fuel' (drop (k + 2) s) (parse_header (take k s) h)
          end
      end
  end.

(** [data] are the [length] bytes received; a NUL follows them.  [None] is -1. *)
Definition http_request_parse (data : list byte) : outcome (option http_request_t) :=
  let s := cstr data in
  match find_sub crlf s with
  | None => Ret None
  | Some k =>
      if 2048 <=? Z.of_nat k then Ret None else
      match parse_request_line (take k s) with
      | None => Ret None
      | Some (m, v, p, q) =>
          match parse_headers (length s) (drop (k + 2) s) no_headers with
          | Ret (pos, h) =>
              let pos := match pos with x0d :: x0a :: pos' => pos' | _ => pos end in
              let off := (length s - length pos)%nat in
              let body_len := Z.of_nat (length data) - Z.of_nat off in
              let none := Request m v p q h None 0 in
              Ret (Some (match h.(content_length) with
                         | Some cl =>
                             let n := u64 (atoi cl) in
                             if (0 <? body_len) && (0 <? n) && (n <=? body_len)
                             then Request m v p q h (Some (take (Z.to_nat n) (drop off data))) n
                             else none
                         | None => none
                         end))
          | UB => UB | Blocked => Blocked | Fuel => Fuel
          end
      end
  end.

(** The strings freed with a request. *)
Definition http_request_free (r : http_request_t) : list (list byte) :=
  let h := r.(headers) in
  r.(path) :: mbind option_list
    [r.(query_string); r.(body); h.(host); h.(user_agent); h.(accept); h.(connection); h.(content_type); h.(content_length); h.(cookie); h.(authorization)].

(** ** Responses *)

(** The bytes of the buffer and the reported length. *)
Definition http_response_build (r : http_response_t) (size : Z) : outcome (list byte * Z) :=
  let head : C (list byte * Z) unit :=
    sn size (str "HTTP/1.1 " ++ dec r.(status) ++ str " " ++ http_status_text r.(status) ++ crlf);;
    (match r.(rcontent_type) with
     | Some ct => sn size (str "Content-Type: " ++ ct ++ crlf) | None => mret tt end);;
    (if 0 <? r.(rbody_length)
     then sn size (str "Content-Length: " ++ dec r.(rbody_length) ++ crlf) else mret tt);;
    sn size (str "Connection: close" ++ crlf);;
    sn size (str "Server: SimpleHTTP/1.0" ++ crlf);;
    sn size crlf in
  match head ([], 0) with
  | Ret (_, (acc, pos)) =>
      (* a truncated text ends with the NUL snprintf stores *)
      let hd := acc ++ replicate (Z.to_nat (Z.min pos size - strlen acc)) x00 in
      match r.(rbody) with
      | Some b =>
          if 0 <? r.(rbody_length) then
            if size <? pos then UB else
            let n := if size - pos <? r.(rbody_length) then size - pos else r.(rbody_length) in
            if strlen b <? n then UB else Ret (hd ++ take (Z.to_nat n) b, pos + n)
          else Ret (hd, pos)
      | None => Ret (hd, pos)
      end
  | UB => UB | Blocked => Blocked | Fuel => Fuel
  end.

Definition http_response_send (r : http_response_t) : C sock Z :=
  b ← c_lift (http_response_build r MAX_RESPONSE_SIZE);
  if MAX_RESPONSE_SIZE <? b.2 then c_ub else
  Protocol.send_loop (length b.1) b.1.

Definition error_body (s : Z) : list byte :=
  str "<html><head><title>" ++ dec s ++ str " " ++ http_status_text s ++ str "</title></head>" ++
  str "<body><h1>" ++ dec s ++ str " " ++ http_status_text s ++ str "</h1></body></html>".
Definition http_send_error (s : Z) : C sock unit :=
  http_response_send (Response s (Some (error_body s)) (strlen (error_body s)) (Some (str "text/html")));;
  mret tt.

(** ** Files *)

Inductive node := NFile (content : list byte) (readable : bool) | NDir.

Section files.
Context (fs : gmap (list byte) node).
Context (dir_size : Z).   (* st_size of a directory *)

Definition http_file_size (p : list byte) : Z :=
  match fs !! p with Some (NFile c _) => strlen c | Some NDir => dir_size | None => -1 end.

Definition http_file_mtime (st_mtime : list byte → Z) (p : list byte) : Z :=
  if decide (is_Some (fs !! p)) then st_mtime p else -1.

(** [strrchr(p, '.')]. *)
Fixpoint last_dot (p : list byte) : option (list byte) :=
  match p with
  | [] => None
  | c :: p' => match last_dot p' with
               | Some e => Some e
               | None => if decide (c = x2e) then Some (c :: p') else None
               end
  end.

Definition file_header (mime : list byte) (size : Z) : list byte :=
  str "HTTP/1.1 200 OK" ++ crlf ++ str "Content-Type: " ++ mime ++ crlf ++
  str "Content-Length: " ++ dec size ++ crlf ++ str "Connection: close" ++ crlf ++
  str "Server: SimpleHTTP/1.0" ++ crlf ++ crlf.

(** The read loop: blocks of 4096 bytes. *)
Fixpoint send_blocks (fuel : nat) (content : list byte) : C sock Z :=
  match content with
  | [] => mret 0
  | _ =>
    match fuel with
    | O => c_fuel
    | S fuel' =>
        let block := take (Z.to_nat 4096) content in
        r ← Protocol.send_loop (length block) block;
        if r =? 0 then send_blocks fuel' (drop (Z.to_nat 4096) content) else mret (-1)
    end
  end.

Definition http_send_file (p : list byte) : C sock Z :=
  match fs !! p with
  | Some (NFile content true) =>
      let mime := match last_dot p with Some e => http_mime_type e
                                      | None => str "application/octet-stream" end in
      let header := file_header mime (strlen content) in
      n ← send header;
      if negb (n =? strlen header) then mret (-1) else
      send_blocks (length content) content
  | Some NDir =>                       (* opens, but every read fails *)
      let mime := match last_dot p with Some e => http_mime_type e
                                      | None => str "application/octet-stream" end in
      let header := file_header mime dir_size in
      n ← send header;
      if negb (n =? strlen header) then mret (-1) else mret 0
  | _ => http_send_error HTTP_STATUS_NOT_FOUND;; mret (-1)
  end.

(** ** Requests *)

Fixpoint find_route (rs : list http_route_t) (m : http_method_t) (p : list byte)
    : option http_route_t :=
  match rs with
  | [] => None
  | r :: rs' => if decide (r.(rmethod) = m ∧ r.(pattern) = p) then Some r else find_route rs' m p
  end.

Definition is_reg (p : list byte) : bool :=
  match fs !! p with Some (NFile _ _) => true | _ => false end.

Definition handle_client (server : http_server) : C sock unit :=
  r ← recv (MAX_REQUEST_SIZE - 1);
  if r.1 <=? 0 then close else
  req ← c_lift (http_request_parse r.2);
  match req with
  | None => http_send_error HTTP_STATUS_BAD_REQUEST;; close
  | Some request =>
      match find_route server.(routes) request.(method) request.(path) with
      | Some rt =>
          http_response_send (rt.(handler) request (Response HTTP_STATUS_OK None 0 None));; close
      | None =>
          let file_path := take (Z.to_nat 1023) (server.(config).(document_root) ++ request.(path)) in
          file_path ← (match fs !! file_path with
                       | Some NDir =>
                           let index_path := take (Z.to_nat 1023)
                             (file_path ++ str "/" ++ server.(config).(index_file)) in
                           match fs !! index_path with
                           | Some _ => mret index_path
                           | None => http_send_error HTTP_STATUS_FORBIDDEN;; mret file_path
                           end
                       | _ => mret file_path
                       end);
          (if is_reg file_path then http_send_file file_path;; mret tt
           else http_send_error HTTP_STATUS_NOT_FOUND);;
          close
      end
  end.

End files.

(** ** The server and its connection queue *)

(** [http_server_create] with the outcomes of its five resource requests. *)
Definition http_server_create (c : http_server_config_t)
    (malloc_ok socket_ok bind_ok queue_ok threads_ok : bool) : option http_server :=
  if negb malloc_ok then None else if negb socket_ok then None else if negb bind_ok then None
  else if negb queue_ok then None else if negb threads_ok then None
  else Some (Server c false c.(thread_pool_size) (replicate (Z.to_nat c.(max_connections)) 0) 0 0 0 []).

Definition http_server_add_route (s : http_server) (m : http_method_t) (p : list byte)
    (h : http_request_t → http_response_t → http_response_t) : Z * http_server :=
  if MAX_ROUTES <=? Z.of_nat (length s.(routes)) then (-1, s)
  else (0, Server s.(config) s.(running) s.(thread_count) s.(connection_queue) s.(queue_head)
             s.(queue_tail) s.(queue_size) (s.(routes) ++ [Route m p h])).

Definition set_running (b : bool) (s : http_server) : http_server :=
  Server s.(config) b s.(thread_count) s.(connection_queue) s.(queue_head) s.(queue_tail)
    s.(queue_size) s.(routes).
Definition set_queue (q : list Z) (h t n : Z) (s : http_server) : http_server :=
  Server s.(config) s.(running) s.(thread_count) q h t n s.(routes).

(** The critical section of the accept loop: whether the connection was queued. *)
Definition enqueue_connection (fd : Z) (s : http_server) : outcome (bool * http_server) :=
  if s.(queue_size) <? s.(config).(max_connections) then
    match s.(connection_queue) !! Z.to_nat s.(queue_tail) with
    | None => UB
    | Some _ => Ret (true, set_queue (<[Z.to_nat s.(queue_tail) := fd]> s.(connection_queue))
                             s.(queue_head) ((s.(queue_tail) + 1) `mod` s.(config).(max_connections))
                             (s.(queue_size) + 1) s)
    end
  else Ret (false, s).

(** The critical section of [worker_thread]; [None] is no connection. *)
Definition worker_take (s : http_server) : outcome (option Z * http_server) :=
  if (s.(queue_size) =? 0) && s.(running) then Blocked
  else if 0 <? s.(queue_size) then
    match s.(connection_queue) !! Z.to_nat s.(queue_head) with
    | None => UB
    | Some fd => Ret (Some fd, set_queue s.(connection_queue)
                                 ((s.(queue_head) + 1) `mod` s.(config).(max_connections))
                                 s.(queue_tail) (s.(queue_size) - 1) s)
    end
  else Ret (None, s).

(** The accept loop and the workers, with the histories of queued, refused
    (answered 503 and closed) and taken connections. *)
Record wstate := WState {
  srv : http_server; queued : list Z; refused : list Z; taken : list Z
}.
Inductive wstep : wstate → wstate → Prop :=
  | ws_accept s q r t fd s' : s.(running) = true →
      enqueue_connection fd s = Ret (true, s') →
      wstep (WState s q r t) (WState s' (q ++ [fd]) r t)
  | ws_refuse s q r t fd s' : s.(running) = true →
      enqueue_connection fd s = Ret (false, s') →
      wstep (WState s q r t) (WState s' q (r ++ [fd]) t)
  | ws_take s q r t fd s' :
      worker_take s = Ret (Some fd, s') → wstep (WState s q r t) (WState s' q r (t ++ [fd]))
  | ws_idle s q r t s' :
      worker_take s = Ret (None, s') → wstep (WState s q r t) (WState s' q r t)
  | ws_stop s q r t : wstep (WState s q r t) (WState (set_running false s) q r t).
Inductive wreach (s : wstate) : wstate → Prop :=
  | wr_refl : wreach s s
  | wr_step s1 s2 : wreach s s1 → wstep s1 s2 → wreach s s2.

End WebHttp.
