(* ===== verification/WebHttpSpec.v ===== *)
(** * web-server: properties of URL coding, parsing, responses and the queue *)

From S2P Require Import Prelude Queue Net WebHttp.
Import Queue Net WebHttp.

Module WebHttpSpec.
#[local] Arguments Z.to_nat : simpl never.

Lemma method_roundtrip m : http_method_parse (http_method_name m) = m.
Proof. by destruct m. Qed.

(** ** URL coding *)

(** The unbounded encoding. *)
Fixpoint encoded (src : list byte) : list byte :=
  match src with
  | [] => []
  | c :: src' =>
      if unreserved c then c :: encoded src'
      else x25 :: hex_char (Z.shiftr (b2z c) 4) :: hex_char (Z.land (b2z c) 15) :: encoded src'
  end.

Lemma url_encode_fits src : ∀ size j, 0 ≤ j → size < 2 ^ 64 →
  j + 3 * strlen src < size → url_encode size j src = encoded src.
Proof.
  unfold strlen. induction src as [|c src IH]; intros size j Hj Hs Hr; [done|]. simpl in *.
  rewrite u64_small, (proj2 (Z.leb_gt _ _)) by lia.
  case_match; [by rewrite IH by lia|]. rewrite (proj2 (Z.ltb_lt _ _)) by lia. by rewrite IH by lia.
Qed.

Lemma encoded_length src : strlen (encoded src) ≤ 3 * strlen src.
Proof. unfold strlen. induction src as [|c src IH]; simpl; [lia|]. case_match; simpl; lia. Qed.

Lemma encoded_ge src : strlen src ≤ strlen (encoded src).
Proof. unfold strlen. induction src as [|c src IH]; simpl; [lia|]. case_match; simpl; lia. Qed.

(** The decoding of one escaped byte, and the safe bytes. *)
Lemma escape_roundtrip c :
  z2b (strtol16 [hex_char (Z.shiftr (b2z c) 4); hex_char (Z.land (b2z c) 15)]) = c.
Proof. by destruct c. Qed.
Lemma unreserved_safe c : unreserved c = true → c ≠ x25 ∧ c ≠ x2b.
Proof. intros H. split; intros ->; discriminate H. Qed.

Lemma url_decode_encoded src : ∀ room, strlen src ≤ room → url_decode room (encoded src) = src.
Proof.
  unfold strlen. induction src as [|c src IH]; intros room Hr; [done|]. simpl encoded. simpl in Hr.
  destruct (unreserved c) eqn:Hu.
  - destruct (unreserved_safe c Hu) as [H1 H2]. specialize (IH (room - 1) ltac:(lia)).
    destruct (encoded src) as [|a [|b l]]; cbn [url_decode] in *;
      rewrite (proj2 (Z.leb_gt room 0)) by lia; rewrite ?(decide_False (P := c = _)) by done;
      f_equal; exact IH.
  - cbn [url_decode]. rewrite (proj2 (Z.leb_gt _ _)) by lia. rewrite decide_True by done.
    rewrite escape_roundtrip, IH by lia. done.
Qed.

(** An encoded string has no byte that scanning a request line could stop at. *)
Definition url_safe (c : byte) : Prop := is_space c = false ∧ c ≠ x3f ∧ c ≠ x00 ∧ c ≠ x0d ∧ c ≠ x0a.
Lemma hex_char_safe n : 0 ≤ n < 16 → url_safe (hex_char n).
Proof.
  intros Hn. assert (n ∈ seqZ 0 16) as Hin by (apply elem_of_seqZ; lia).
  assert (Hall : Forall (λ n, url_safe (hex_char n)) (seqZ 0 16)).
  { vm_compute seqZ. unfold url_safe. repeat constructor; by vm_compute. }
  by apply (proj1 (Forall_forall _ _) Hall).
Qed.
Lemma byte_nibbles c : 0 ≤ Z.shiftr (b2z c) 4 < 16 ∧ 0 ≤ Z.land (b2z c) 15 < 16.
Proof. destruct c; vm_compute; done. Qed.
Lemma unreserved_url_safe c : unreserved c = true → url_safe c.
Proof. unfold url_safe. destruct c; vm_compute; done. Qed.
Lemma encoded_safe src : Forall url_safe (encoded src).
Proof.
  induction src as [|c src IH]; simpl; [constructor|]. destruct (unreserved c) eqn:Hu.
  - constructor; [by apply unreserved_url_safe|done].
  - destruct (byte_nibbles c). repeat constructor; try done; by apply hex_char_safe.
Qed.

(** URL coding round trip: a string encoded into a large enough buffer and
    decoded into a large enough buffer comes back unchanged, whatever its bytes. *)
Theorem http_url_roundtrip src n m :
  3 * strlen src < n < 2 ^ 64 → strlen src < m < 2 ^ 64 →
  http_url_decode (http_url_encode src n) m = src.
Proof.
  intros Hn Hm. unfold http_url_encode, http_url_decode.
  rewrite url_encode_fits by lia. rewrite u64_small by (unfold strlen in *; lia).
  apply url_decode_encoded. lia.
Qed.
Lemma http_url_roundtrip_witness :
  http_url_decode (http_url_encode (str "a b/%?+" ++ [xff]) 100) 20 = str "a b/%?+" ++ [xff].
Proof. apply http_url_roundtrip; by vm_compute. Defined.

(** ** Parsing *)

Lemma url_decode_length room src : 0 ≤ room → strlen (url_decode room src) ≤ room.
Proof.
  unfold strlen. remember (length src) as n eqn:Hn. revert room src Hn.
  induction n as [n IH] using lt_wf_ind; intros room src Hn Hr. subst n.
  destruct src as [|c src1]; [simpl; lia|]. cbn [url_decode].
  destruct (Z.leb_spec room 0); [simpl; lia|].
  pose proof (IH (length src1) ltac:(simpl; lia) (room - 1) src1 eq_refl ltac:(lia)).
  destruct src1 as [|a [|b src3]]; cbn [length] in *; try lia.
  pose proof (IH (length src3) ltac:(simpl; lia) (room - 1) src3 eq_refl ltac:(lia)).
  case_decide; cbn [length] in *; lia.
Qed.
Lemma cstr_le l : strlen (cstr l) ≤ strlen l.
Proof. unfold strlen. induction l; simpl; [lia|]. case_decide; simpl; lia. Qed.

Lemma request_line_bounds line m v p q :
  parse_request_line line = Some (m, v, p, q) →
  m ≠ HTTP_METHOD_UNKNOWN ∧ strlen p ≤ MAX_PATH_LENGTH - 1 ∧ nonul p.
Proof.
  unfold parse_request_line. intros H.
  repeat (apply bind_Some in H as ([? ?] & _ & H)). case_decide as Hm; [done|].
  assert (Hd : ∀ x, strlen (cstr (http_url_decode x MAX_PATH_LENGTH)) ≤ MAX_PATH_LENGTH - 1).
  { intros x. etrans; [apply cstr_le|]. unfold http_url_decode, MAX_PATH_LENGTH.
    rewrite u64_small by lia. apply url_decode_length. lia. }
  destruct (find_byte x3f _); injection H as <- <- <- <-;
    (split; [done|]; split; [apply Hd|apply cstr_nonul]).
Qed.

Lemma parse_headers_total fuel : ∀ s h, (length s ≤ fuel)%nat →
  ∃ pos h', parse_headers fuel s h = Ret (pos, h') ∧ ∃ k, pos = drop k s.
Proof.
  induction fuel as [|fuel IH]; intros [|c s] h Hf; simpl in Hf; try lia.
  - exists [], h. split; [done|by exists 0%nat].
  - exists [], h. split; [done|by exists 0%nat].
  - cbn [parse_headers].
    assert (Hstop : ∃ pos h', Ret (c :: s, h) = Ret (pos, h') ∧ ∃ k, pos = drop k (c :: s)).
    { exists (c :: s), h. split; [done|by exists 0%nat]. }
    case_decide; [done|]. destruct (find_sub crlf (c :: s)) as [k|]; [|done].
    case_match; [done|].
    destruct (IH (drop (k + 2) (c :: s)) (parse_header (take k (c :: s)) h))
      as (pos & h' & E & j & Hj); [rewrite length_drop; simpl; lia|].
    exists pos, h'. split; [done|]. exists (k + 2 + j)%nat. by rewrite Hj, drop_drop.
Qed.

Lemma find_line_end a rest : Forall (λ c, c ≠ x0d) a → find_sub crlf (a ++ crlf ++ rest) = Some (length a).
Proof. exact (find_crlf a rest). Qed.

(** The text of a request. *)
Definition target (p : list byte) (q : option (list byte)) : list byte :=
  encoded p ++ match q with Some q => x3f :: q | None => [] end.
Definition request_line (m : http_method_t) (p : list byte) (q : option (list byte)) : list byte :=
  http_method_name m ++ x20 :: target p q ++ x20 :: str "HTTP/1.1".
Definition print_request (m : http_method_t) (p : list byte) (q : option (list byte))
    (h : list byte) : list byte :=
  request_line m p q ++ crlf ++ (str "Host: " ++ h) ++ crlf ++ crlf.

Definition query_ok (c : byte) : Prop := is_space c = false ∧ c ≠ x00.

Lemma not_space_cr c : is_space c = false → c ≠ x0d ∧ c ≠ x0a.
Proof. intros H. split; intros ->; discriminate H. Qed.

Lemma target_chars p q : (∀ x, q = Some x → Forall query_ok x) →
  Forall (λ c, is_space c = false ∧ c ≠ x00) (target p q).
Proof.
  intros Hq. unfold target. apply Forall_app. split.
  - eapply Forall_impl; [apply encoded_safe|]. intros c (? & ? & ? & ? & ?). done.
  - destruct q as [q|]; [|constructor]. constructor; [done|]. by apply Hq.
Qed.

Lemma parse_request_line_print m p q :
  m ≠ HTTP_METHOD_UNKNOWN → p ≠ [] → nonul p → strlen (target p q) ≤ 1023 →
  (∀ x, q = Some x → Forall query_ok x) →
  parse_request_line (request_line m p q) = Some (m, HTTP_VERSION_1_1, p, q).
Proof.
  intros Hm Hp Hn Hl Hq. unfold parse_request_line, request_line, strlen in *.
  pose proof (target_chars p q Hq) as Ht.
  assert (Hne : target p q ≠ []).
  { unfold target. destruct p as [|c p]; [done|]. simpl. by case_match. }
  rewrite (scan_word_exact 15 (http_method_name m)); [|by destruct m|destruct m; simpl; lia
    |destruct m; repeat constructor|done]. cbn [mbind option_bind].
  assert (Hsk : ∀ n s, scan_word n (x20 :: s) = scan_word n s) by done.
  rewrite Hsk, (scan_word_exact (Z.to_nat 1023) (target p q)); [|done|lia| |done].
  2: { eapply Forall_impl; [exact Ht|]. by intros ? []. }
  cbn [mbind option_bind]. rewrite Hsk.
  assert (Hv : scan_word 15 (str "HTTP/1.1") = Some (str "HTTP/1.1", [])) by done.
  rewrite Hv. cbn [mbind option_bind]. rewrite method_roundtrip, decide_False by done.
  assert (Hfind : match find_byte x3f (target p q) with
                  | Some i => (take i (target p q), Some (drop (S i) (target p q)))
                  | None => (target p q, None) end = (encoded p, q)).
  { unfold target. assert (Hnq : x3f ∉ encoded p).
    { intros Hin. pose proof (proj1 (Forall_forall _ _) (encoded_safe p) _ Hin) as (? & ? & _). done. }
    destruct q as [q|].
    - assert (Hf : find_byte x3f (encoded p ++ x3f :: q) = Some (length (encoded p))).
      { induction (encoded p) as [|c l IH]; simpl; [done|].
        rewrite decide_False by set_solver. rewrite IH by set_solver. done. }
      rewrite Hf, take_app_length. f_equal. f_equal.
      replace (S (length (encoded p))) with (length (encoded p) + 1)%nat by lia.
      by rewrite drop_app_add.
    - rewrite app_nil_r. by rewrite (proj2 (find_byte_None _ _) Hnq). }
  rewrite Hfind. unfold http_url_decode, MAX_PATH_LENGTH. rewrite u64_small by lia.
  rewrite url_decode_encoded, cstr_id by (try done;
    unfold target in Hl; rewrite length_app in Hl; pose proof (encoded_ge p); unfold strlen in *; lia).
  rewrite decide_False, decide_True by done. done.
Qed.

(** A header value: no line break or NUL, and no leading white space. *)
Definition value_ok (h : list byte) : Prop :=
  Forall (λ c, c ≠ x0d ∧ c ≠ x0a ∧ c ≠ x00) h ∧
  match h with [] => False | c :: _ => is_space c = false end ∧ strlen h ≤ 1023.

Lemma parse_header_host h hd : value_ok h →
  parse_header (str "Host: " ++ h) hd = set_header (str "host") h hd.
Proof.
  intros (Hall & Hc & Hl). unfold strlen in Hl. unfold parse_header.
  assert (H1 : scan_set 255 (λ c, negb (bool_decide (c = x3a))) (str "Host: " ++ h) =
               Some (str "Host", x3a :: x20 :: h)).
  { unfold scan_set. change (str "Host: " ++ h) with (str "Host" ++ x3a :: x20 :: h).
    rewrite span_n_exact; [done|simpl; lia|repeat constructor|done]. }
  rewrite H1. change (skip_space (x20 :: h)) with (skip_space h).
  destruct h as [|c h]; [done|].
  assert (H2 : skip_space (c :: h) = (c :: h) ++ []) by (rewrite app_nil_r; simpl; by rewrite Hc).
  unfold scan_set. rewrite H2, span_n_exact; [|lia| |done].
  - simpl. rewrite decide_False; [done|]. intros ->. discriminate Hc.
  - eapply Forall_impl; [exact Hall|]. intros x (? & ? & ?). by rewrite !bool_decide_eq_false_2.
Qed.

Lemma request_line_chars m p q : (∀ x, q = Some x → Forall query_ok x) →
  Forall (λ c, c ≠ x00 ∧ c ≠ x0d) (request_line m p q).
Proof.
  intros Hq. unfold request_line. apply Forall_app. split; [destruct m; repeat constructor; done|].
  constructor; [done|]. apply Forall_app. split; [|by repeat constructor].
  eapply Forall_impl; [by apply target_chars|]. intros c [Hs ?]. split; [done|]. by apply not_space_cr.
Qed.

Lemma length_request_line m p q : (length (request_line m p q) ≤ 17 + length (target p q))%nat.
Proof. unfold request_line. rewrite !length_app. simpl. rewrite length_app. destruct m; simpl; lia. Qed.

(** Request round trip: the text of a request with any known method, any
    path (percent-encoded), an optional query and a Host header parses back to
    exactly that request. *)
Theorem http_request_roundtrip m p q h :
  m ≠ HTTP_METHOD_UNKNOWN → p ≠ [] → nonul p → strlen (target p q) ≤ 1023 →
  (∀ x, q = Some x → Forall query_ok x) → value_ok h →
  http_request_parse (print_request m p q h) =
  Ret (Some (Request m HTTP_VERSION_1_1 p q
               (Headers (Some h) None None None None None None None false) None 0)).
Proof.
  intros Hm Hp Hn Hl Hq Hh. pose proof Hh as (Hh1 & Hh2 & Hh3). unfold strlen in *.
  pose proof (request_line_chars m p q Hq) as Hrl. pose proof (length_request_line m p q) as Hlen.
  assert (Hhost : Forall (λ c, c ≠ x00 ∧ c ≠ x0d) (str "Host: " ++ h)).
  { apply Forall_app. split; [repeat constructor; done|]. eapply Forall_impl; [exact Hh1|].
    by intros ? (? & ? & ?). }
  assert (Hcs : cstr (print_request m p q h) = print_request m p q h).
  { apply cstr_id. unfold print_request, nonul. rewrite !Forall_app. split_and!;
      try (repeat constructor; done);
      (eapply Forall_impl; [first [exact Hrl|exact (proj1 (proj1 (Forall_app _ _ _) Hhost))
        |exact (proj2 (proj1 (Forall_app _ _ _) Hhost))]|]; by intros ? []). }
  unfold http_request_parse. rewrite Hcs. unfold print_request.
  rewrite find_line_end by (eapply Forall_impl; [exact Hrl|by intros ? []]).
  rewrite (proj2 (Z.leb_gt _ _)) by lia. rewrite take_app_length.
  rewrite parse_request_line_print by done.
  replace (drop (length (request_line m p q) + 2) (request_line m p q ++ crlf ++ (str "Host: " ++ h) ++ crlf ++ crlf))
    with ((str "Host: " ++ h) ++ crlf ++ crlf) by (by rewrite drop_app_add).
  set (n := length (request_line m p q ++ crlf ++ (str "Host: " ++ h) ++ crlf ++ crlf)).
  assert (Hn2 : ∃ n', n = S n') by (exists (pred n); unfold n; rewrite length_app; simpl; lia).
  destruct Hn2 as [n' Hn']. rewrite Hn'.
  assert (Hph : ∀ f, parse_headers (S f) ((str "Host: " ++ h) ++ crlf ++ crlf) no_headers =
    Ret (crlf, Headers (Some h) None None None None None None None false)).
  { intros f. change ((str "Host: " ++ h) ++ crlf ++ crlf) with (x48 :: (str "ost: " ++ h) ++ crlf ++ crlf).
    cbn [parse_headers]. rewrite decide_False by done.
    change (x48 :: (str "ost: " ++ h) ++ crlf ++ crlf) with ((str "Host: " ++ h) ++ crlf ++ crlf).
    rewrite find_line_end by (eapply Forall_impl; [exact Hhost|by intros ? []]).
    rewrite (proj2 (Z.leb_gt _ _)) by (rewrite length_app; simpl; lia).
    rewrite take_app_length, parse_header_host, drop_app_add by done. by destruct f. }
  rewrite Hph. done.
Qed.
Lemma http_request_roundtrip_witness :
  http_request_parse (print_request HTTP_METHOD_GET (str "/a b") (Some (str "x=1")) (str "localhost")) =
  Ret (Some (Request HTTP_METHOD_GET HTTP_VERSION_1_1 (str "/a b") (Some (str "x=1"))
               (Headers (Some (str "localhost")) None None None None None None None false) None 0)).
Proof.
  apply http_request_roundtrip; [done|done|by repeat constructor|by vm_compute| |].
  - intros x [= <-]. by repeat constructor.
  - split; [by repeat constructor|by vm_compute].
Defined.

(** Robustness: for any bytes received the parser terminates without
    undefined behaviour, and an accepted request has a known method, a NUL-free
    path of at most 1023 bytes and a body that lies inside the received data
    with exactly the announced length. *)
Theorem http_request_parse_total data :
  ∃ o, http_request_parse data = Ret o ∧
    ∀ r, o = Some r → r.(method) ≠ HTTP_METHOD_UNKNOWN ∧ strlen r.(path) ≤ MAX_PATH_LENGTH - 1 ∧
      nonul r.(path) ∧
      ∀ b, r.(body) = Some b → strlen b = r.(body_length) ∧
        ∃ pre post, data = pre ++ b ++ post.
Proof.
  unfold http_request_parse. set (s := cstr data).
  assert (Hnone : ∃ o : option http_request_t, Ret None = Ret o ∧ ∀ r, o = Some r →
    r.(method) ≠ HTTP_METHOD_UNKNOWN ∧ strlen r.(path) ≤ MAX_PATH_LENGTH - 1 ∧ nonul r.(path) ∧
    ∀ b, r.(body) = Some b → strlen b = r.(body_length) ∧ ∃ pre post, data = pre ++ b ++ post)
    by (exists None; split; [done|by intros]).
  destruct (find_sub crlf s) as [k|]; [|done]. destruct (2048 <=? Z.of_nat k); [done|].
  destruct (parse_request_line (take k s)) as [[[[m v] p] q]|] eqn:El; [|done].
  destruct (request_line_bounds _ _ _ _ _ El) as (Hm & Hp & Hn).
  destruct (parse_headers_total (length s) (drop (k + 2) s) no_headers) as (pos & h & Eh & j & Hj);
    [rewrite length_drop; lia|].
  rewrite Eh. eexists. split; [reflexivity|]. intros r Hr.
  set (pos' := match pos with x0d :: x0a :: pos' => pos' | _ => pos end) in *.
  set (off := (length s - length pos')%nat) in *. cbv zeta in Hr.
  assert (Hbase : r = Request m v p q h None 0 ∨ ∃ n, 0 < n ≤ Z.of_nat (length data) - Z.of_nat off ∧
    r = Request m v p q h (Some (take (Z.to_nat n) (drop off data))) n).
  { destruct (content_length h) as [cl|]; [|left; congruence].
    destruct (_ && _) eqn:Ec; [right|left; congruence].
    rewrite !andb_true_iff, !Z.ltb_lt, Z.leb_le in Ec. exists (u64 (atoi cl)). split; [lia|congruence]. }
  destruct Hbase as [->|(n & Hnb & ->)]; simpl; (split_and!; [done|done|done|]); [done|].
  intros b [= <-]. split.
  - unfold strlen. rewrite length_take, length_drop. lia.
  - exists (take off data), (drop (Z.to_nat n) (drop off data)).
    by rewrite take_drop, take_drop.
Qed.
(** ** Responses *)

(** Everything the head of a response consists of. *)
Definition head_pieces (r : http_response_t) : list (list byte) :=
  [str "HTTP/1.1 " ++ dec r.(status) ++ str " " ++ http_status_text r.(status) ++ crlf] ++
  (match r.(rcontent_type) with Some ct => [str "Content-Type: " ++ ct ++ crlf] | None => [] end) ++
  (if 0 <? r.(rbody_length) then [str "Content-Length: " ++ dec r.(rbody_length) ++ crlf] else []) ++
  [str "Connection: close" ++ crlf] ++ [str "Server: SimpleHTTP/1.0" ++ crlf].
Definition response_head (r : http_response_t) : list byte := mjoin (head_pieces r) ++ crlf.

Lemma build_head r size : 0 < size → strlen (response_head r) < size →
  http_response_build r size =
  match r.(rbody) with
  | Some b =>
      if 0 <? r.(rbody_length) then
        let n := Z.min r.(rbody_length) (size - strlen (response_head r)) in
        if strlen b <? n then UB
        else Ret (response_head r ++ take (Z.to_nat n) b, strlen (response_head r) + n)
      else Ret (response_head r, strlen (response_head r))
  | None => Ret (response_head r, strlen (response_head r))
  end.
Proof.
  intros Hs Hl. unfold http_response_build.
  match goal with |- match ?hd ([], 0) with _ => _ end = _ =>
    assert (Hh : hd ([], 0) = Ret (tt, (response_head r, strlen (response_head r)))) end.
  { pose proof (sn_all_run size (head_pieces r) crlf [] Hs) as H.
    rewrite take_nil in H. change (strlen []) with 0 in H. specialize (H ltac:(lia)).
    cbn [app] in H. rewrite (proj2 (Z.ltb_ge size (strlen (mjoin (head_pieces r))))) in H
      by (unfold strlen, response_head in *; rewrite length_app in Hl; lia).
    fold (response_head r) in H.
    rewrite take_ge in H by (unfold strlen in *; lia). fold (response_head r) in H. rewrite <- H.
    unfold head_pieces. rewrite <- !(assoc_L (++)).
    rewrite sn_all_app. apply bind_ext; [by rewrite sn_all_one|intros [] ?].
    rewrite sn_all_app. apply bind_ext; [by case_match; rewrite ?sn_all_one|intros [] ?].
    rewrite sn_all_app. apply bind_ext; [by case_match; rewrite ?sn_all_one|intros [] ?].
    rewrite sn_all_app. apply bind_ext; [by rewrite sn_all_one|intros [] ?].
    rewrite sn_all_app. apply bind_ext; [by rewrite sn_all_one|intros [] ?].
    by rewrite sn_all_one. }
  rewrite Hh. rewrite (proj2 (Z.ltb_ge size _)) by lia.
  rewrite (Z.min_l (strlen (response_head r)) size) by lia. rewrite Z.sub_diag. simpl replicate. rewrite app_nil_r.
  destruct (rbody r) as [b|]; [|done]. destruct (0 <? rbody_length r); [|done].
  assert (Hn : (if size - strlen (response_head r) <? rbody_length r
    then size - strlen (response_head r) else rbody_length r) =
    Z.min (rbody_length r) (size - strlen (response_head r))).
  { destruct (Z.ltb_spec (size - strlen (response_head r)) (rbody_length r)); lia. }
  by rewrite Hn.
Qed.

(** What a response occupies on the wire, within the 64 KiB buffer. *)
Definition response_wire (r : http_response_t) : list byte :=
  response_head r ++ match r.(rbody) with
    | Some b => take (Z.to_nat (Z.min r.(rbody_length) (MAX_RESPONSE_SIZE - strlen (response_head r)))) b
    | None => []
    end.

Lemma response_send_open r s : s.(sends) = [] → strlen (response_head r) < MAX_RESPONSE_SIZE →
  (∀ b, r.(rbody) = Some b → r.(rbody_length) ≤ strlen b) →
  http_response_send r s = Ret (0, wrote (response_wire r) s).
Proof.
  intros Hs Hl Hb. unfold http_response_send.
  assert (Hbuild : ∃ n, http_response_build r MAX_RESPONSE_SIZE = Ret (response_wire r, n) ∧
    n ≤ MAX_RESPONSE_SIZE).
  { rewrite build_head by done. unfold response_wire. destruct (rbody r) as [b|] eqn:Eb.
    - specialize (Hb b eq_refl). destruct (Z.ltb_spec 0 (rbody_length r)).
      + cbv zeta. rewrite (proj2 (Z.ltb_ge _ _)) by lia. eexists. split; [done|]. lia.
      + eexists. split; [|apply Z.lt_le_incl, Hl]. do 2 f_equal.
        rewrite Z2Nat.nonpos by lia. by rewrite take_0, app_nil_r.
    - eexists. rewrite app_nil_r. split; [done|lia]. }
  destruct Hbuild as (n & Hbuild & Hn). rewrite Hbuild. erewrite bind_Ret by done.
  cbn [fst snd]. rewrite (proj2 (Z.ltb_ge _ _)) by lia. by apply Protocol.send_loop_open.
Qed.

(** Responses: the socket receives the status line, the headers and the
    body in this order; Content-Length announces the full body, while at most
    65536 bytes leave the buffer, so a longer body is cut short. *)
Theorem http_response_wire r b s :
  s.(sends) = [] → strlen (response_head r) < MAX_RESPONSE_SIZE →
  r.(rbody) = Some b → 0 < r.(rbody_length) ≤ strlen b →
  ∃ s', http_response_send r s = Ret (0, s') ∧
    s'.(sent) = s.(sent) ++ response_head r ++
      take (Z.to_nat (Z.min r.(rbody_length) (MAX_RESPONSE_SIZE - strlen (response_head r)))) b.
Proof.
  intros Hs Hl Hb Hn. eexists. split; [apply response_send_open; [done|done|]|].
  - intros b' Hb'. assert (b' = b) as -> by congruence. lia.
  - unfold wrote, response_wire. simpl. by rewrite Hb.
Qed.
Lemma http_response_wire_witness :
  ∃ s', http_response_send (Response 200 (Some (str "hi")) 2 (Some (str "text/plain")))
          (Sock [] [] [] false) = Ret (0, s') ∧
    s'.(sent) = str "HTTP/1.1 200 OK" ++ crlf ++ str "Content-Type: text/plain" ++ crlf ++
      str "Content-Length: 2" ++ crlf ++ str "Connection: close" ++ crlf ++
      str "Server: SimpleHTTP/1.0" ++ crlf ++ crlf ++ str "hi".
Proof.
  destruct (http_response_wire (Response 200 (Some (str "hi")) 2 (Some (str "text/plain"))) (str "hi")
    (Sock [] [] [] false)) as (s' & E & Hs); [done|by vm_compute|done|by vm_compute|].
  exists s'. split; [exact E|]. rewrite Hs. by vm_compute.
Defined.

(** ** Serving files *)

Section serve.
Context (fs : gmap (list byte) node) (dir_size : Z).

Lemma send_blocks_open f c s : s.(sends) = [] → (length c ≤ f)%nat →
  send_blocks f c s = Ret (0, wrote c s).
Proof.
  revert c s. induction f as [|f IH]; intros c s Hs Hf.
  { destruct c; simpl in Hf; [|lia]. by rewrite wrote_nil. }
  destruct c as [|b c]; [by rewrite wrote_nil|].
  cbn [send_blocks]. erewrite bind_Ret by (by apply Protocol.send_loop_open). rewrite Z.eqb_refl.
  rewrite IH by (try done; rewrite length_drop; simpl in *; lia).
  by rewrite wrote_app, take_drop.
Qed.

Lemma send_error_open st s : s.(sends) = [] →
  strlen (response_head (Response st (Some (error_body st)) (strlen (error_body st))
            (Some (str "text/html")))) < MAX_RESPONSE_SIZE →
  http_send_error st s = Ret (tt, wrote (response_wire (Response st (Some (error_body st))
    (strlen (error_body st)) (Some (str "text/html")))) s).
Proof.
  intros Hs Hl. unfold http_send_error.
  by erewrite bind_Ret by (apply response_send_open; [done|done|intros b [= <-]; simpl; lia]).
Qed.

Definition mime_of (p : list byte) : list byte :=
  match last_dot p with Some e => http_mime_type e | None => str "application/octet-stream" end.

(** What [handle_client] does with a request that no route takes. *)
Lemma handle_static server s data xs req :
  s.(sends) = [] → s.(inbox) = Some data :: xs → data ≠ [] → strlen data ≤ MAX_REQUEST_SIZE - 1 →
  http_request_parse data = Ret (Some req) →
  find_route server.(routes) req.(method) req.(path) = None →
  handle_client fs dir_size server s =
    let file_path := take (Z.to_nat 1023) (server.(config).(document_root) ++ req.(path)) in
    (file_path ← (match fs !! file_path with
                  | Some NDir =>
                      let index_path := take (Z.to_nat 1023)
                        (file_path ++ str "/" ++ server.(config).(index_file)) in
                      match fs !! index_path with
                      | Some _ => mret index_path
                      | None => http_send_error HTTP_STATUS_FORBIDDEN;; mret file_path
                      end
                  | _ => mret file_path
                  end);
     (if is_reg fs file_path then http_send_file fs dir_size file_path;; mret tt
      else http_send_error HTTP_STATUS_NOT_FOUND);; close) (Sock s.(sent) [] xs s.(closed)).
Proof.
  intros Hs Hi Hd Hl Hp Hr. unfold handle_client, recv.
  unfold mbind at 1, C_bind at 1. rewrite Hi, (proj2 (Z.leb_le _ _)) by done. cbn [fst snd].
  rewrite (proj2 (Z.leb_gt _ _)) by (unfold strlen; destruct data; simpl; [done|lia]).
  unfold c_lift, mbind at 1, C_bind at 1. rewrite Hp, Hr, Hs. done.
Qed.

Lemma static_file server s data xs req content :
  s.(sends) = [] → s.(inbox) = Some data :: xs → data ≠ [] → strlen data ≤ MAX_REQUEST_SIZE - 1 →
  http_request_parse data = Ret (Some req) →
  find_route server.(routes) req.(method) req.(path) = None →
  strlen (server.(config).(document_root) ++ req.(path)) ≤ 1023 →
  fs !! (server.(config).(document_root) ++ req.(path)) = Some (NFile content true) →
  ∃ s', handle_client fs dir_size server s = Ret (tt, s') ∧ s'.(closed) = true ∧
    s'.(sent) = s.(sent) ++
      file_header (mime_of (server.(config).(document_root) ++ req.(path))) (strlen content) ++ content.
Proof.
  intros Hs Hi Hd Hl Hp Hr Hlen Hf. erewrite handle_static by done. cbv zeta.
  rewrite take_ge by (unfold strlen in Hlen; lia). rewrite Hf. erewrite bind_Ret by done.
  unfold is_reg. rewrite Hf. set (s0 := Sock (sent s) [] xs (closed s)).
  assert (Hfile : http_send_file fs dir_size (document_root (config server) ++ path req) s0 =
    Ret (0, wrote (file_header (mime_of (document_root (config server) ++ path req))
              (strlen content) ++ content) s0)).
  { unfold http_send_file. rewrite Hf. erewrite bind_Ret by (by apply send_open).
    rewrite Z.eqb_refl. cbn [negb]. rewrite send_blocks_open by done. by rewrite wrote_app. }
  erewrite bind_Ret by (by c_step Hfile). by eexists.
Qed.

(** Static files: a request no route takes, for a path that names a
    readable regular file under the document root, is answered with the file's
    headers and its whole content, and the connection is closed.  The path is
    used as sent: no component, [..] included, is rejected. *)
Theorem http_serves_file server s data xs req content :
  s.(sends) = [] → s.(inbox) = Some data :: xs → data ≠ [] → strlen data ≤ MAX_REQUEST_SIZE - 1 →
  http_request_parse data = Ret (Some req) →
  find_route server.(routes) req.(method) req.(path) = None →
  strlen (server.(config).(document_root) ++ req.(path)) ≤ 1023 →
  fs !! (server.(config).(document_root) ++ req.(path)) = Some (NFile content true) →
  ∃ s', handle_client fs dir_size server s = Ret (tt, s') ∧ s'.(closed) = true ∧
    s'.(sent) = s.(sent) ++
      file_header (mime_of (server.(config).(document_root) ++ req.(path))) (strlen content) ++ content.
Proof. exact (static_file server s data xs req content). Qed.

(** A directory without an index file is answered twice: the 403 response
    is followed by a complete 404 response on the same connection. *)
Theorem http_directory_two_responses server s data xs req :
  s.(sends) = [] → s.(inbox) = Some data :: xs → data ≠ [] → strlen data ≤ MAX_REQUEST_SIZE - 1 →
  http_request_parse data = Ret (Some req) →
  find_route server.(routes) req.(method) req.(path) = None →
  strlen (server.(config).(document_root) ++ req.(path)) ≤ 1023 →
  fs !! (server.(config).(document_root) ++ req.(path)) = Some NDir →
  fs !! take (Z.to_nat 1023) ((server.(config).(document_root) ++ req.(path)) ++ str "/" ++
                              server.(config).(index_file)) = None →
  ∃ s', handle_client fs dir_size server s = Ret (tt, s') ∧
    s'.(sent) = s.(sent) ++
      response_wire (Response 403 (Some (error_body 403)) (strlen (error_body 403)) (Some (str "text/html"))) ++
      response_wire (Response 404 (Some (error_body 404)) (strlen (error_body 404)) (Some (str "text/html"))).
Proof.
  intros Hs Hi Hd Hl Hp Hr Hlen Hf Hx. erewrite handle_static by done. cbv zeta.
  rewrite (take_ge (_ ++ path req)) by (unfold strlen in Hlen; lia). rewrite Hf, Hx.
  erewrite bind_Ret by (erewrite bind_Ret by (apply send_error_open; [done|by vm_compute]); done).
  unfold is_reg. rewrite Hf.
  erewrite bind_Ret by (apply send_error_open; [done|by vm_compute]).
  eexists. split; [reflexivity|]. unfold wrote, HTTP_STATUS_FORBIDDEN, HTTP_STATUS_NOT_FOUND.
  cbn [sent]. by rewrite <- (assoc_L (++)).
Qed.

End serve.

(** ** The connection queue *)

Definition queue_of (s : http_server) : list Z :=
  ring_list s.(connection_queue) s.(config).(max_connections) s.(queue_head) s.(queue_size).

Definition server_ok (s : http_server) : Prop :=
  ring_ok s.(connection_queue) s.(config).(max_connections) s.(queue_head) s.(queue_tail) s.(queue_size).

Lemma enqueue_run s fd : server_ok s →
  if decide (s.(queue_size) < s.(config).(max_connections)) then
    ∃ s', enqueue_connection fd s = Ret (true, s') ∧ server_ok s' ∧ queue_of s' = queue_of s ++ [fd] ∧
      s'.(config) = s.(config)
  else enqueue_connection fd s = Ret (false, s).
Proof.
  intros Hok. unfold enqueue_connection.
  case_decide; [|by rewrite (proj2 (Z.ltb_ge _ _)) by lia]. rewrite (proj2 (Z.ltb_lt _ _)) by lia.
  destruct (ring_ok_put _ _ _ _ _ fd Hok) as ([x ->] & Hok' & Hq); [done|].
  eexists. split; [reflexivity|]. by split_and!.
Qed.

Lemma take_run s : server_ok s →
  if decide (0 < s.(queue_size)) then
    ∃ fd s', worker_take s = Ret (Some fd, s') ∧ server_ok s' ∧ queue_of s = fd :: queue_of s' ∧
      s'.(config) = s.(config)
  else worker_take s = if s.(running) then Blocked else Ret (None, s).
Proof.
  intros Hok. unfold worker_take. case_decide as Hd.
  - rewrite (proj2 (Z.eqb_neq _ _)), (proj2 (Z.ltb_lt _ _)) by lia. cbn [andb].
    destruct (ring_ok_take _ _ _ _ _ Hok) as (fd & E & Hok' & Hq); [done|].
    rewrite E. eexists _, _. split; [reflexivity|]. by split_and!.
  - assert (queue_size s = 0) as -> by (destruct Hok; lia). simpl. by destruct (running s).
Qed.

(** The server's queue is a bounded FIFO. *)
Lemma http_fifo_put s fd : server_ok s →
  if decide (Z.of_nat (length (queue_of s)) < s.(config).(max_connections))
  then ∃ s', enqueue_connection fd s = Ret (true, s') ∧ server_ok s' ∧ queue_of s' = queue_of s ++ [fd] ∧
         s'.(config).(max_connections) = s.(config).(max_connections)
  else enqueue_connection fd s = Ret (false, s).
Proof.
  intros Hok. pose proof (enqueue_run s fd Hok) as H. pose proof (ring_ok_length _ _ _ _ _ Hok) as Hl.
  fold (queue_of s) in Hl. rewrite Hl.
  case_decide; [|done]. destruct H as (s' & ? & ? & ? & Hc). exists s'. by rewrite Hc.
Qed.
Lemma http_fifo_take s : server_ok s →
  match queue_of s with
  | fd :: l => ∃ s', worker_take s = Ret (Some fd, s') ∧ server_ok s' ∧ queue_of s' = l ∧
                 s'.(config).(max_connections) = s.(config).(max_connections)
  | [] => worker_take s = Blocked ∨ worker_take s = Ret (None, s)
  end.
Proof.
  intros Hok. pose proof (take_run s Hok) as H. pose proof (ring_ok_length _ _ _ _ _ Hok) as Hl.
  fold (queue_of s) in Hl. case_decide.
  - destruct H as (fd & s' & E & Hok' & -> & Hc). exists s'. by rewrite Hc.
  - destruct (queue_of s); [|simpl in Hl; lia]. destruct (running s); [by left|by right].
Qed.
#[global] Instance http_fifo : Fifo http_server Z := {|
  fifo_put_law := http_fifo_put; fifo_take_law := http_fifo_take
|}.

(** The server's steps are steps of the queue. *)
Definition hist (st : wstate) : history http_server Z := History st.(srv) st.(queued) st.(refused) st.(taken).
Definition stopped (s s' : http_server) : Prop := s' = set_running false s.
Lemma wstep_step st st' : wstep st st' → step stopped (hist st) (hist st').
Proof.
  intros Hs. destruct Hs; unfold hist; simpl.
  - by apply (step_accept stopped).
  - by apply (step_refuse stopped).
  - by apply (step_take stopped).
  - by apply (step_none stopped).
  - by apply (step_other stopped).
Qed.
Lemma wreach_reach st st' : wreach st st' → reach stopped (hist st) (hist st').
Proof. induction 1; [constructor|]. eapply reach_step; [done|by apply wstep_step]. Qed.

(** The connection queue: from a created server with a positive limit, every
    interleaving of the accept loop, the workers and the stop request keeps the
    circular buffer well formed, hands connections to the workers in the order
    they were queued, each exactly once, and refuses one only when
    max_connections are waiting. *)
Theorem http_queue_fifo c s0 st :
  http_server_create c true true true true true = Some s0 → 0 < c.(max_connections) →
  wreach (WState (set_running true s0) [] [] []) st →
  server_ok st.(srv) ∧ st.(taken) ++ queue_of st.(srv) = st.(queued) ∧
  (∀ st', wstep st st' → st'.(refused) ≠ st.(refused) →
     Z.of_nat (length (queue_of st.(srv))) = st.(srv).(config).(max_connections)).
Proof.
  intros Hc Hm Hr. injection Hc as <-. apply wreach_reach in Hr.
  assert (Hg : good c.(max_connections) (hist st)).
  { apply (reach_good stopped ltac:(by intros s s' ->) _ _ _ Hr). unfold good. split_and!; [|done|done].
    apply ring_ok_empty; [done|apply length_replicate]. }
  destruct Hg as (Hok & Hq & Hmax). split_and!; [exact Hok|exact Hq|]. intros st' Hs Hne.
  destruct Hs as [|s q r t fd s' _ E| | |]; simpl in *; try done.
  destruct (put_cases (H := http_fifo) s fd false s' Hok E) as [_ Hfull].
  pose proof (ring_ok_length _ _ _ _ _ Hok) as Hl. fold (queue_of s) in Hl. change (fifo_cap s) with (max_connections (config s)) in Hfull.
  change (fifo_list s) with (queue_of s) in Hfull. destruct Hok. lia.
Qed.

(** ** Witnesses *)

Definition wit_server : http_server :=
  Server (Config 2 1 (str "www") (str "index.html") true 30 false) true 1 [0; 0] 0 0 0 [].
Definition wit_fs : gmap (list byte) node :=
  {[ str "www/a.txt" := NFile (str "hello") true; str "www/d" := NDir ]}.
Definition wit_request (p : list byte) : http_request_t :=
  Request HTTP_METHOD_GET HTTP_VERSION_1_1 p None
    (Headers (Some (str "h")) None None None None None None None false) None 0.
Definition wit_sock (p : list byte) : sock :=
  Sock [] [] [Some (print_request HTTP_METHOD_GET p None (str "h"))] false.

Lemma http_serves_file_witness :
  ∃ s', handle_client wit_fs 4096 wit_server (wit_sock (str "/a.txt")) = Ret (tt, s') ∧
    s'.(closed) = true ∧
    s'.(sent) = file_header (str "text/plain") 5 ++ str "hello".
Proof.
  destruct (http_serves_file wit_fs 4096 wit_server (wit_sock (str "/a.txt"))
    (print_request HTTP_METHOD_GET (str "/a.txt") None (str "h")) [] (wit_request (str "/a.txt"))
    (str "hello")) as (s' & E & Hc & Hs); [done..|by vm_compute| | |by vm_compute| |].
  - by vm_compute.
  - done.
  - by vm_compute.
  - exists s'. split; [exact E|]. split; [exact Hc|]. rewrite Hs. by vm_compute.
Defined.

Lemma http_directory_two_responses_witness :
  ∃ s', handle_client wit_fs 4096 wit_server (wit_sock (str "/d")) = Ret (tt, s') ∧
    s'.(sent) =
      response_wire (Response 403 (Some (error_body 403)) (strlen (error_body 403)) (Some (str "text/html"))) ++
      response_wire (Response 404 (Some (error_body 404)) (strlen (error_body 404)) (Some (str "text/html"))).
Proof.
  destruct (http_directory_two_responses wit_fs 4096 wit_server (wit_sock (str "/d"))
    (print_request HTTP_METHOD_GET (str "/d") None (str "h")) [] (wit_request (str "/d")))
    as (s' & E & Hs); [done..|by vm_compute|by vm_compute|done|by vm_compute|by vm_compute|by vm_compute|].
  exists s'. split; [exact E|]. exact Hs.
Defined.

Lemma http_queue_fifo_witness :
  ∃ st, wreach (WState (set_running true (Server (Config 2 1 [] [] true 30 false) false 1 [0; 0] 0 0 0 [])) [] [] []) st ∧
    st.(queued) = [7] ∧ st.(taken) ++ queue_of st.(srv) = st.(queued).
Proof.
  set (s0 := Server (Config 2 1 [] [] true 30 false) false 1 [0; 0] 0 0 0 []).
  set (st := WState (Server (Config 2 1 [] [] true 30 false) true 1 [7; 0] 0 1 1 []) [7] [] []).
  assert (Hr : wreach (WState (set_running true s0) [] [] []) st).
  { eapply wr_step; [constructor|]. by apply (ws_accept (set_running true s0) [] [] [] 7). }
  exists st. split; [exact Hr|]. split; [reflexivity|].
  destruct (http_queue_fifo (Config 2 1 [] [] true 30 false) s0 st) as (_ & H & _);
    [reflexivity|simpl; lia|exact Hr|exact H].
Defined.

End WebHttpSpec.
