(* ===== verification/WebMain.v ===== *)
(** * web-server: the program (web-server/src/main.c, and of http.c the server's life:
    http_server_create, http_server_start, http_server_destroy)

    The process is the one of [Process]: the handles it holds, with a script of the system
    calls and of accept.  The threads are in [ConnPool]. *)

From stdpp Require Import gmap.
From S2P Require Import Prelude Net Getopt Process WebHttp.

Module WebMain.
Import WebHttp Process.
#[local] Arguments Z.to_nat : simpl never.

(** ** The server's life *)

Inductive handle := HServer | HListen | HQueue | HThreads | HSync | HPattern | HThread.
#[global] Instance handle_eq_dec : EqDecision handle.
Proof. solve_decision. Defined.
#[local] Notation proc := (Process.proc handle).

Definition http_server_create (c : http_server_config_t) : C proc (option http_server) :=
  ok ← acquire HServer;
  if negb ok then mret None else
  ok ← acquire HListen;
  if negb ok then release HServer;; mret None else
  ok ← call;
  if negb ok then release HListen;; release HServer;; mret None else
  ok ← acquire HQueue;
  if negb ok then release HListen;; release HServer;; mret None else
  ok ← acquire HThreads;
  if negb ok then release HQueue;; release HListen;; release HServer;; mret None else
  hold HSync;;
  mret (WebHttp.http_server_create c true true true true true).
(** strdup of the pattern. *)
Definition add_route (s : http_server) (m : http_method_t) (p : list byte) (h : http_request_t → http_response_t → http_response_t) : C proc http_server :=
  let '(z, s') := http_server_add_route s m p h in
  (if z =? 0 then hold HPattern else mret tt);; mret s'.
(** Threads that were not joined use what is destroyed here. *)
Definition http_server_destroy : C proc unit :=
  unused HThread;; release HListen;; release HQueue;; release HThreads;; release HSync;; release HServer.

(** The signal handler and http_server_stop, which joins the threads. *)
Section stop.
Context (workers_end : bool).   (* every worker leaves its client and its loop; see [ConnPool] *)
Definition http_server_stop : C proc unit := join_threads HThread workers_end.
Definition signal_handler (sig : Z) : C proc unit :=
  if (sig =? signum SIGINT) || (sig =? signum SIGTERM) then
    print ([x0a] ++ str "Received signal " ++ dec sig ++ str ", shutting down..." ++ [x0a]);; http_server_stop
  else mret tt.
Definition http_server_start (port : Z) (s : http_server) (rs : list accepted) : C proc Z :=
  ok ← call;
  if negb ok then mret (-1) else
  print (str "HTTP Server listening on port " ++ dec port ++ [x0a]);;
  print (str "Document root: " ++ s.(config).(document_root) ++ [x0a]);;
  ok ← create_threads HThread (Z.to_nat s.(thread_count));
  if negb ok then mret (-1) else
  accept_loop enqueue_connection running set_running signal_handler rs (set_running true s);;
  mret 0.

(** ** main *)

Record settings := Settings { port : Z; http : http_server_config_t; verbose : bool }.
Definition HTTP_DEFAULT_CONFIG : settings := Settings 8080 (Config 100 4 (str "./www") (str "index.html") true 30 false) false.
Definition set_root (d : list byte) (c : http_server_config_t) : http_server_config_t :=
  Config c.(max_connections) c.(thread_pool_size) d c.(index_file) c.(enable_keep_alive) c.(keep_alive_timeout) c.(enable_directory_listing).
Definition set_threads (n : Z) (c : http_server_config_t) : http_server_config_t :=
  Config c.(max_connections) n c.(document_root) c.(index_file) c.(enable_keep_alive) c.(keep_alive_timeout) c.(enable_directory_listing).
Definition option_table : Getopt.table :=
  Getopt.Table [(x70, true); (x72, true); (x74, true); (x76, false); (x68, false)]
    [Getopt.Long (str "port") true x70; Getopt.Long (str "root") true x72; Getopt.Long (str "threads") true x74;
     Getopt.Long (str "verbose") false x76; Getopt.Long (str "help") false x68].
Fixpoint options (os : list Getopt.opt) (c : settings) : settings + Z :=
  match os with
  | [] => inl c
  | Getopt.Opt x70 (Some v) :: os' => options os' (Settings (u16 (atoi v)) c.(http) c.(verbose))
  | Getopt.Opt x72 (Some v) :: os' => options os' (Settings c.(port) (set_root v c.(http)) c.(verbose))
  | Getopt.Opt x74 (Some v) :: os' => options os' (Settings c.(port) (set_threads (atoi v) c.(http)) c.(verbose))
  | Getopt.Opt x76 _ :: os' => options os' (Settings c.(port) c.(http) true)
  | Getopt.Opt x68 _ :: _ => inr 0
  | _ => inr 1
  end.
Definition usage_text (prog : list byte) : list byte :=
  mjoin ((λ l, l ++ [x0a]) <$>
    [str "Usage: " ++ prog ++ str " [options]"; str "Options:";
     str "  -p, --port <port>      Listen port (default: 8080)"; str "  -r, --root <dir>       Document root (default: ./www)";
     str "  -t, --threads <num>    Worker threads (default: 4)"; str "  -v, --verbose          Verbose output";
     str "  -h, --help             Show this help"]).

Definition quote : byte := x22.
Definition index_html : list byte := str "<html><body><h1>Welcome to Simple HTTP Server</h1></body></html>".
Definition status_json : list byte :=
  let q s := quote :: str s ++ [quote] in str "{" ++ q "status"%string ++ str ":" ++ q "ok"%string ++ str "," ++ q "version"%string ++ str ":" ++ q "1.0.0"%string ++ str "}".
Definition handle_index (req : http_request_t) (r : http_response_t) : http_response_t :=
  Response HTTP_STATUS_OK (Some index_html) (strlen index_html) (Some (str "text/html")).
Definition handle_api_status (req : http_request_t) (r : http_response_t) : http_response_t :=
  Response HTTP_STATUS_OK (Some status_json) (strlen status_json) (Some (str "application/json")).

Definition routes_added (s : http_server) : C proc http_server :=
  s ← add_route s HTTP_METHOD_GET (str "/") handle_index;
  add_route s HTTP_METHOD_GET (str "/api/status") handle_api_status.
Definition verbose_text (c : settings) : list byte :=
  str "Starting HTTP server..." ++ [x0a] ++ str "Port: " ++ dec c.(port) ++ [x0a] ++
  str "Document root: " ++ c.(http).(document_root) ++ [x0a] ++ str "Worker threads: " ++ dec c.(http).(thread_pool_size) ++ [x0a].
Definition main (prog : list byte) (args : list (list byte)) (rs : list accepted) : C proc Z :=
  match options (Getopt.getopt_long option_table args).1 HTTP_DEFAULT_CONFIG with
  | inr status => print (usage_text prog);; mret status
  | inl c =>
      s ← http_server_create c.(http);
      match s with
      | None => eprint (str "Failed to create HTTP server" ++ [x0a]);; mret 1
      | Some s =>
          s ← routes_added s;
          (if c.(verbose) then print (verbose_text c) else mret tt);;
          z ← http_server_start c.(port) s rs;
          if negb (z =? 0) then
            eprint (str "Failed to start HTTP server" ++ [x0a]);; http_server_destroy;; mret 1
          else
            http_server_destroy;; print (str "Server shutdown complete" ++ [x0a]);; mret 0
      end
  end.
End stop.
End WebMain.
