(* ===== verification/WebMainSpec.v ===== *)
(** * web-server: what the program serves, what it keeps, and how it stops *)

From stdpp Require Import gmap relations.
From S2P Require Import Prelude Calls Net Getopt Queue Process ConnPool WebHttp WebHttpSpec WebMain.

Module WebMainSpec.
Import Queue Calls Net Process WebHttp WebHttpSpec WebMain.
#[local] Arguments Z.to_nat : simpl never.

(** ** The program's server *)

Definition fresh_server (c : http_server_config_t) (rts : list http_route_t) : http_server :=
  Server c false c.(thread_pool_size) (replicate (Z.to_nat c.(max_connections)) 0) 0 0 0 rts.
Definition main_routes : list http_route_t :=
  [Route HTTP_METHOD_GET (str "/") handle_index; Route HTTP_METHOD_GET (str "/api/status") handle_api_status].
Definition serving (c : settings) : http_server := fresh_server c.(http) main_routes.
Lemma options_config os : ∀ c c', options os c = inl c' → c'.(http).(max_connections) = c.(http).(max_connections).
Proof.
  induction os as [|o os IH]; intros c c'; [by intros [= <-]|]. destruct o as [ch arg|]; [|done].
  cbn [options]. destruct ch; try done; try (destruct arg as [v|]; [|done]); by intros E%IH.
Qed.

Lemma server_ok_fresh c rts b : 0 < c.(max_connections) → server_ok (set_running b (fresh_server c rts)).
Proof. intros H. apply ring_ok_empty; [done|apply length_replicate]. Qed.

(** ** What the process holds *)

Definition server_handles : list handle := [HSync; HThreads; HQueue; HListen; HServer].
(** http_server_create from nothing: all or nothing. *)
Lemma http_create_ends {B} c p (k : option http_server → C (Process.proc handle) B) f : p.(held) = [] →
  (∀ p', all_ok 5 p.(script) = false → p'.(held) = [] → ends (k None p') f) →
  (∀ p', all_ok 5 p.(script) = true → p'.(held) = server_handles → p'.(script) = drop 5 p.(script) → ends (k (Some (fresh_server c [])) p') f) →
  ends ((http_server_create c ≫= k) p) f.
Proof.
  intros Hp HN HS. unfold http_server_create. cbn [all_ok] in HN, HS. rewrite !andb_assoc in *.
  apply ends_assoc, ends_acquire; intros p1 E1 S1. destruct (default true (head (script p))); cbn [negb andb] in *; [|apply HN; [done|congruence]].
  apply ends_assoc, ends_acquire; intros p2 E2 S2. rewrite S1 in *. destruct (default true (head (tail (script p)))); cbn [negb andb] in *; [|apply HN; [done|cbn; by rewrite E2, E1, Hp]].
  apply ends_assoc, ends_call; intros p3 E3 S3. rewrite S2 in *. destruct (default true _); cbn [negb andb] in *; [|apply HN; [done|cbn; by rewrite E3, E2, E1, Hp]].
  apply ends_assoc, ends_acquire; intros p4 E4 S4. rewrite S3 in *. destruct (default true _); cbn [negb andb] in *; [|apply HN; [done|cbn; by rewrite E4, E3, E2, E1, Hp]].
  apply ends_assoc, ends_acquire; intros p5 E5 S5. rewrite S4 in *. destruct (default true _); cbn [negb andb] in *; [|apply HN; [done|cbn; by rewrite E5, E4, E3, E2, E1, Hp]].
  apply ends_assoc, ends_mod, HS; cbn; [done|by rewrite E5, E4, E3, E2, E1, Hp|]. rewrite S5. destruct (script p) as [|? [|? [|? [|? [|]]]]]; done.
Qed.
Lemma routes_ends {B} c p (k : http_server → C (Process.proc handle) B) f :
  (∀ p', p'.(held) = HPattern :: HPattern :: p.(held) → p'.(script) = p.(script) → ends (k (fresh_server c main_routes) p') f) →
  ends ((routes_added (fresh_server c []) ≫= k) p) f.
Proof. intros HK. by apply HK. Qed.
(** What stays: the two patterns. *)
Definition kept : list handle := [HPattern; HPattern].
Lemma http_destroy_ends {A B} (a : A) (k : A → C (Process.proc handle) B) p f : p.(held) = HPattern :: HPattern :: server_handles →
  (∀ p', p'.(held) = kept → ends (k a p') f) → ends (((http_server_destroy;; mret a) ≫= k) p) f.
Proof.
  intros Hp HK. unfold http_server_destroy. apply ends_assoc, ends_assoc, ends_unused; [rewrite Hp; set_solver|]. destruct p as [h sc o e]. cbn in Hp. subst h.
  by apply HK.
Qed.
Lemma http_destroy_used {B} (k : unit → C (Process.proc handle) B) p : HThread ∈ p.(held) → ends ((http_server_destroy ≫= k) p) Undefined.
Proof. intros Hp. unfold http_server_destroy. by apply ends_assoc, ends_used. Qed.

Lemma enqueue_keeps fd s : server_ok s → ∃ b s', enqueue_connection fd s = Ret (b, s') ∧ server_ok s' ∧ running s' = running s.
Proof.
  intros Hs. pose proof (enqueue_run s fd Hs) as He. case_decide; [|by eexists _, _].
  destruct He as (s' & E & Hs' & _). eexists _, _. split_and!; [done..|]. unfold enqueue_connection in E. repeat case_match; try done. by injection E as <-.
Qed.
Lemma http_running_set b s : server_ok s → server_ok (set_running b s) ∧ running (set_running b s) = b.
Proof. done. Qed.

(** How a run with a configuration ends, the calls that it makes being answered by [sc]: five
    to create the server, one to listen, one for each thread; [b] tells whether a signal
    ended its accept loop. *)
Definition web_fate (workers_end : bool) (c : settings) (b : bool) (sc : list bool) : fate handle Z :=
  if negb (all_ok 5 sc) then Returns 1 [] else
  if negb (default true (head (drop 5 sc))) then Returns 1 kept else
  let n := Z.to_nat c.(http).(thread_pool_size) in let k := good_calls n (drop 6 sc) in
  if (k <? n)%nat then (if (k =? 0)%nat then Returns 1 kept else Undefined) else
  if (n =? 0)%nat then Returns 0 kept else
  if b then (if workers_end then Returns 0 kept else Waits) else Undefined.
(** The end of main after http_server_start has returned [z] with [k] threads left. *)
Definition web_last (z : Z) : C (Process.proc handle) Z :=
  if negb (z =? 0) then eprint (str "Failed to start HTTP server" ++ [x0a]);; http_server_destroy;; mret 1
  else http_server_destroy;; print (str "Server shutdown complete" ++ [x0a]);; mret 0.
Lemma web_last_ends k z p : p.(held) = replicate k HThread ++ HPattern :: HPattern :: server_handles →
  ends (web_last z p) (if (k =? 0)%nat then Returns (if z =? 0 then 0 else 1) kept else Undefined).
Proof.
  intros Hp. unfold web_last. destruct p as [h sc o e]. cbn in Hp. subst h. destruct (z =? 0); cbn [negb]; [|apply ends_mod]; destruct k as [|k]; cbn [Nat.eqb];
    try (by eexists); apply http_destroy_used; by left.
Qed.

(** C38. The web server's program, which way its run ends: whatever its options, and whichever
    calls fail, until accept fails or a signal stops it.  With status 1 and nothing held
    when the server cannot be created; with 1 or 0 and only the two patterns of the routes
    when it is stopped before a thread exists or after all were joined; waiting for ever in
    a signal handler when a worker does not end; and undefined, threads being left on a
    server that is destroyed, when accept fails or a later thread cannot be made. *)
Theorem web_main_ends we prog args rs p b : p.(held) = [] → ending true rs = Some b →
  ends (main we prog args rs p)
    match options (Getopt.getopt_long option_table args).1 HTTP_DEFAULT_CONFIG with
    | inr st => Returns st []
    | inl c => web_fate we c b p.(script)
    end.
Proof.
  intros Hp Hb. unfold main. destruct (options _ _) as [c|st] eqn:Eo; [|by eexists]. unfold web_fate.
  apply http_create_ends; [done| |]; [intros p1 -> Hp1; cbn [negb]; by eexists|]. intros p1 -> Hl S1. cbn [negb].
  apply routes_ends. intros p2 E2 S2. rewrite Hl in E2. rewrite S1 in S2. apply ends_if_print. intros p3 E3 S3. rewrite E2 in E3. rewrite S2 in S3. clear p1 p2 Hl S1 E2 S2.
  change (λ z, if negb (z =? 0) then _ else _) with web_last. unfold http_server_start.
  apply ends_assoc, ends_call. intros p4 E4 S4. rewrite E3 in E4. rewrite S3 in *. destruct (default true (head (drop 5 (script p)))); cbn [negb].
  2: { eapply ends_bind; [reflexivity|]. by apply (web_last_ends 0 (-1)). }
  apply ends_assoc, ends_mod, ends_assoc, ends_mod, ends_assoc, ends_threads. cbn [held script thread_count fresh_server]. intros p5 E5. rewrite S4 in *.
  replace (tail (drop 5 (script p))) with (drop 6 (script p)) in * by (by destruct (script p) as [|? [|? [|? [|? [|? [|]]]]]]).
  set (n := Z.to_nat c.(http).(thread_pool_size)) in *. set (k := good_calls n (drop 6 (script p))) in *.
  pose proof (good_calls_le n (drop 6 (script p)) : (k ≤ n)%nat) as Hk. rewrite E4 in E5. destruct (Nat.eqb_spec k n) as [Ekn|Hkn]; cbn [negb].
  2: { rewrite (proj2 (Nat.ltb_lt k n)) by lia. eapply ends_bind; [reflexivity|]. by apply (web_last_ends k (-1)). }
  rewrite (proj2 (Nat.ltb_ge k n)) by lia. clearbody k. subst k. apply ends_assoc.
  assert (Hok : server_ok (set_running true (fresh_server c.(http) main_routes))) by (apply server_ok_fresh; by rewrite (options_config _ _ _ Eo)).
  apply (ends_accept enqueue_connection running set_running _ server_ok enqueue_keeps http_running_set HThread we n (HPattern :: HPattern :: server_handles) _ _ rs _ p5 b); [done|set_solver|done..| | | |].
  - intros sg g Hj HK. unfold signal_handler. replace (_ || _) with true by by destruct sg. by apply ends_assoc, ends_mod, ends_join, HK.
  - intros sg Hin ->. unfold signal_handler. replace (_ || _) with true by by destruct sg. erewrite bind_Ret by reflexivity.
    unfold http_server_stop, join_threads. erewrite bind_Ret by reflexivity. cbn [held]. by rewrite bool_decide_true.
  - intros p6 E6 Hj. eapply ends_bind; [reflexivity|]. destruct b; [|by pose proof (web_last_ends n 0 p6 E6) as H; destruct (n =? 0)%nat].
    pose proof (web_last_ends 0 0 p6 E6) as H. destruct (Nat.eqb_spec n 0); [done|]. by rewrite Hj.
  - intros -> Hn ->. by destruct (Nat.eqb_spec n 0).
Qed.
Lemma web_main_ends_witness :
  ends (main true (str "web") [str "-p"; str "9000"] [AConn 5; AStop true SIGINT; AConn 6] (Proc [] [] [] [])) (Returns 0 [HPattern; HPattern]) ∧
  ends (main true (str "web") [str "-t"; str "2"] [AConn 5; AFail] (Proc [] [] [] [])) Undefined.
Proof.
  split.
  - apply (web_main_ends true (str "web") [str "-p"; str "9000"] [AConn 5; AStop true SIGINT; AConn 6] (Proc [] [] [] []) true); reflexivity.
  - apply (web_main_ends true (str "web") [str "-t"; str "2"] [AConn 5; AFail] (Proc [] [] [] []) false); reflexivity.
Defined.

(** ** What the program answers *)

(** The pages of the program itself. *)
Definition page (req : http_request_t) : option http_response_t :=
  if decide (req.(method) = HTTP_METHOD_GET ∧ req.(path) = str "/") then
    Some (Response 200 (Some (str "<html><body><h1>Welcome to Simple HTTP Server</h1></body></html>")) 64 (Some (str "text/html")))
  else if decide (req.(method) = HTTP_METHOD_GET ∧ req.(path) = str "/api/status") then
    Some (Response 200 (Some status_json) 33 (Some (str "application/json")))
  else None.
Lemma page_route req : match find_route main_routes req.(method) req.(path) with
  | Some rt => page req = Some (rt.(WebHttp.handler) req (Response HTTP_STATUS_OK None 0 None))
  | None => page req = None
  end.
Proof.
  unfold page, main_routes. cbn [find_route rmethod pattern].
  destruct (decide (_ ∧ _)) as [[<- <-]|H1]; [by rewrite decide_True|]. rewrite (decide_False (P := _ ∧ path req = str "/")) by naive_solver.
  destruct (decide (_ ∧ _)) as [[<- <-]|H2]; [by rewrite decide_True|]. by rewrite decide_False by naive_solver.
Qed.
Lemma page_size req r : page req = Some r → strlen (response_head r) < MAX_RESPONSE_SIZE ∧ ∀ b, r.(rbody) = Some b → r.(rbody_length) ≤ strlen b.
Proof. unfold page. repeat case_decide; intros [= <-]; (split; [by vm_compute|]); intros b [= <-]; by vm_compute. Qed.

(** C39. The server with the program's routes answers GET of / and of /api/status with those
    pages, whatever is in the document root, and every other request that names a readable
    file under the document root with that file; the connection is closed. *)
Theorem web_answers fs dir_size c p p' server s data xs req :
  routes_added (fresh_server c []) p = Ret (server, p') →
  s.(sends) = [] → s.(inbox) = Some data :: xs → data ≠ [] → strlen data ≤ MAX_REQUEST_SIZE - 1 →
  http_request_parse data = Ret (Some req) →
  match page req with
  | Some r => ∃ s', handle_client fs dir_size server s = Ret (tt, s') ∧ s'.(Net.closed) = true ∧ s'.(sent) = s.(sent) ++ response_wire r
  | None => ∀ content, strlen (c.(document_root) ++ req.(path)) ≤ 1023 → fs !! (c.(document_root) ++ req.(path)) = Some (NFile content true) →
      ∃ s', handle_client fs dir_size server s = Ret (tt, s') ∧ s'.(Net.closed) = true ∧
        s'.(sent) = s.(sent) ++ file_header (mime_of (c.(document_root) ++ req.(path))) (strlen content) ++ content
  end.
Proof.
  intros Hr Hs Hi Hd Hl Hp. injection Hr as <- _. pose proof (page_route req) as Hpr.
  destruct (find_route main_routes (method req) (path req)) as [rt|] eqn:Ef; rewrite Hpr.
  - destruct (page_size req _ Hpr) as [H1 H2]. unfold handle_client, recv. unfold mbind at 1, C_bind at 1. rewrite Hi, (proj2 (Z.leb_le _ _)) by done. cbn [fst snd].
    rewrite (proj2 (Z.leb_gt _ _)) by (unfold strlen; destruct data; cbn; [done|lia]).
    unfold c_lift, mbind at 1, C_bind at 1. rewrite Hp. change (routes _) with main_routes. rewrite Ef.
    erewrite bind_Ret by (by apply response_send_open). by eexists.
  - intros content Hlen Hf. by apply (static_file fs dir_size (fresh_server c main_routes) s data xs req content).
Qed.
Lemma web_answers_witness : ∃ server p', routes_added (fresh_server (HTTP_DEFAULT_CONFIG.(http)) []) (Proc [] [] [] []) = Ret (server, p') ∧
  ∃ s', handle_client ∅ 4096 server (wit_sock (str "/api/status")) = Ret (tt, s') ∧ s'.(Net.closed) = true ∧
    s'.(sent) = response_wire (Response 200 (Some status_json) 33 (Some (str "application/json"))).
Proof.
  eexists _, _. split; [reflexivity|].
  refine (web_answers ∅ 4096 HTTP_DEFAULT_CONFIG.(http) (Proc [] [] [] []) _ _ (wit_sock (str "/api/status"))
    (print_request HTTP_METHOD_GET (str "/api/status") None (str "h")) [] (wit_request (str "/api/status")) _ _ _ _ _ _); try reflexivity; [done|by vm_compute].
Defined.

(** ** Stopping *)

Lemma http_stop_fine s : server_ok s → server_ok (set_running false s) ∧ running (set_running false s) = false ∧ queue_of (set_running false s) = queue_of s.
Proof. done. Qed.
Lemma http_put_fine fd s b s' : server_ok s → enqueue_connection fd s = Ret (b, s') → server_ok s' ∧ queue_of s' = queue_of s ++ if b then [fd] else [].
Proof.
  intros Hs E. pose proof (enqueue_run s fd Hs) as He. case_decide.
  - destruct He as (s1 & E1 & ? & ? & _). rewrite E1 in E. by injection E as <- <-.
  - rewrite He in E. injection E as <- <-. by rewrite app_nil_r.
Qed.
Lemma http_take_fine s o s' : server_ok s → worker_take s = Ret (o, s') → server_ok s' ∧ queue_of s = option_list o ++ queue_of s'.
Proof.
  intros Hs E. pose proof (take_run s Hs) as Ht. case_decide.
  - destruct Ht as (fd & s1 & E1 & ? & ? & _). rewrite E1 in E. by injection E as <- <-.
  - rewrite E in Ht. destruct (running s); [done|]. by injection Ht as -> ->.
Qed.
Lemma http_take_off s : server_ok s → running s = false → ∃ o s', worker_take s = Ret (o, s') ∧ running s' = false.
Proof.
  intros Hs Ho. pose proof (take_run s Hs) as Ht. case_decide.
  - destruct Ht as (fd & s' & E & _). exists (Some fd), s'. split; [done|]. unfold worker_take in E. repeat case_match; try done. by injection E as _ <-.
  - rewrite Ho in Ht. by exists None, s.
Qed.
#[global] Instance http_pool : ConnPool.Server http_server := {|
  ConnPool.is_running := running; ConnPool.stop_running := set_running false; ConnPool.put := enqueue_connection; ConnPool.take_conn := worker_take;
  ConnPool.server_fine := server_ok; ConnPool.conns := queue_of; ConnPool.stop_law := http_stop_fine; ConnPool.put_law := http_put_fine; ConnPool.take_law := http_take_fine;
  ConnPool.take_stopped := http_take_off
|}.

(** C40. http_server_stop, called by the signal handler wherever the main thread then is: if
    that is not inside the critical section, no worker is between its test of the queue and
    its wait, and every client that is being served or waits in the queue answers, then
    within 6 n + 2 steps of the n workers and the handler, however they interleave, every
    worker has been joined and the handler returns; some thread can always move until then. *)
Theorem http_server_stop_returns answers c n s s1 k s' : 0 < c.(max_connections) →
  rtc (ConnPool.any_step answers) (ConnPool.started (set_running true (fresh_server c main_routes)) n) s →
  ConnPool.sig s = ConnPool.HNone → ConnPool.step answers s s1 → ConnPool.sig s1 = ConnPool.HFlagged →
  ConnPool.main_holds (ConnPool.main s) = false → ConnPool.WSleepy ∉ ConnPool.workers s → (∀ fd, ConnPool.attended s fd → answers fd) →
  nsteps (ConnPool.waiting answers) k s1 s' → (k ≤ 6 * n + 2)%nat ∧ ∃ s2, ConnPool.step answers s' s2.
Proof. intros Hc. apply (ConnPool.stop_in_time (Q := http_server)). by apply server_ok_fresh. Qed.
(** One worker, which serves client 7 when the signal comes. *)
Definition wit_started : http_server := set_running true (fresh_server HTTP_DEFAULT_CONFIG.(http) main_routes).
Definition wit_taken : http_server :=
  Server HTTP_DEFAULT_CONFIG.(http) true 4 (<[0%nat := 7]> (replicate 100 0)) 1 1 0 main_routes.
Lemma wit_web_serving : rtc (ConnPool.any_step (λ fd, fd = 7)) (ConnPool.started wit_started 1) (ConnPool.Pool wit_taken [ConnPool.WServe 7] ConnPool.MTop ConnPool.HNone []).
Proof.
  set (q1 := Server HTTP_DEFAULT_CONFIG.(http) true 4 (<[0%nat := 7]> (replicate 100 0)) 0 1 1 main_routes).
  apply (rtc_subrel (ConnPool.step (λ fd, fd = 7))); [by left|].
  eapply rtc_l; [by apply (ConnPool.w_on _ wit_started [ConnPool.WTop] ConnPool.MTop ConnPool.HNone [] 0)|].
  eapply rtc_l; [apply ConnPool.m_on; [by left|done]|]. eapply rtc_l; [by apply (ConnPool.m_accept _ _ _ _ _ 7); left|].
  eapply rtc_l; [by apply ConnPool.m_lock; [left|split; [repeat constructor|]]|].
  eapply rtc_l; [apply (ConnPool.m_put _ _ _ [ConnPool.WLock] _ _ _ q1); [by left|reflexivity|apply ConnPool.sg_none; set_solver]|].
  eapply rtc_l; [by apply (ConnPool.w_lock _ q1 [ConnPool.WLock] ConnPool.MTop ConnPool.HNone [] 0); [|split; [repeat constructor|]]|].
  eapply rtc_l; [by apply (ConnPool.w_take _ q1 [ConnPool.WHold] ConnPool.MTop ConnPool.HNone [] 0 (Some 7) wit_taken)|]. done.
Qed.
Lemma http_server_stop_returns_witness :
  let s1 := ConnPool.Pool (set_running false wit_taken) [ConnPool.WServe 7] ConnPool.MTop ConnPool.HFlagged [] in
  let s2 := ConnPool.Pool (set_running false wit_taken) [ConnPool.WTop] ConnPool.MTop ConnPool.HFlagged [7] in
  (1 ≤ 6 * 1 + 2)%nat ∧ ∃ s3, ConnPool.step (λ fd, fd = 7) s2 s3.
Proof.
  intros s1 s2. apply (http_server_stop_returns (λ fd, fd = 7) HTTP_DEFAULT_CONFIG.(http) 1 _ s1 1 s2 eq_refl wit_web_serving); try reflexivity.
  - exact (ConnPool.h_flag (Q := http_server) (λ fd, fd = 7) wit_taken [ConnPool.WServe 7] ConnPool.MTop [] ltac:(discriminate)).
  - cbn. set_solver.
  - intros fd [H|H]; cbn in H; set_solver.
  - eapply nsteps_l; [|constructor]. split; [|discriminate]. left. exact (ConnPool.w_serve (Q := http_server) (λ fd, fd = 7) (set_running false wit_taken) [ConnPool.WServe 7] ConnPool.MTop ConnPool.HFlagged [] 0 7 eq_refl eq_refl).
Defined.

(** It can also wait for ever: a worker about to wait misses the broadcast, which is sent
    without the mutex; a handler that interrupts the critical section of the accept loop
    waits for a worker that waits for the mutex of the interrupted thread; and a worker
    waits without limit for a client that has connected and sends nothing. *)
Theorem http_server_stop_hangs answers c fd : 0 < c.(max_connections) → 0 ≤ fd →
  let s0 := ConnPool.started (set_running true (fresh_server c main_routes)) 1 in
  (∃ s, rtc (ConnPool.step answers) s0 s ∧ ConnPool.sig s = ConnPool.HJoin ∧ ConnPool.workers s = [ConnPool.WAsleep] ∧
     ConnPool.main_holds (ConnPool.main s) = false ∧ ∀ s', ¬ ConnPool.step answers s s') ∧
  (∃ s, rtc (ConnPool.step answers) s0 s ∧ ConnPool.sig s = ConnPool.HJoin ∧ ConnPool.main s = ConnPool.MHold fd ∧ ∀ s', ¬ ConnPool.any_step answers s s') ∧
  (¬ answers fd → ∃ s, rtc (ConnPool.step answers) s0 s ∧ ConnPool.sig s = ConnPool.HJoin ∧ ConnPool.workers s = [ConnPool.WServe fd] ∧
     ConnPool.main_holds (ConnPool.main s) = false ∧ ∀ s', ¬ ConnPool.any_step answers s s').
Proof.
  intros Hc Hfd s0. split_and!; [by apply (ConnPool.stop_loses_wakeup (Q := http_server))|by apply (ConnPool.stop_deadlocks (Q := http_server))|].
  intros Ha. set (q := set_running true (fresh_server c main_routes)). pose proof (server_ok_fresh c main_routes true Hc : server_ok q) as Hq.
  pose proof (enqueue_run q fd Hq) as Hp. rewrite decide_True in Hp by done. destruct Hp as (q1 & E1 & Hq1 & El & _).
  pose proof (http_fifo_take q1 Hq1) as Ht. rewrite El in Ht. change (queue_of q ++ [fd]) with [fd] in Ht. destruct Ht as (q2 & E2 & _).
  by apply (ConnPool.stop_waits_for_client (Q := http_server) answers q fd q1 q2).
Qed.
Lemma http_server_stop_hangs_witness :
  ∃ s, rtc (ConnPool.step (λ _, False)) (ConnPool.started (set_running true (fresh_server HTTP_DEFAULT_CONFIG.(http) main_routes)) 1) s ∧
    ConnPool.sig s = ConnPool.HJoin ∧ ConnPool.main s = ConnPool.MHold 7 ∧ ∀ s', ¬ ConnPool.any_step (λ _, False) s s'.
Proof. apply (http_server_stop_hangs (λ _, False) HTTP_DEFAULT_CONFIG.(http) 7); [reflexivity|lia]. Defined.
End WebMainSpec.
