(* ===== verification/LogSys.v ===== *)
(** * log-system: levels, formatting, rotation and the asynchronous writer
    (log-system/src/log.c)

    The global state [g_log] and [g_ring] are one world, with the file system,
    the two standard streams and the calls of the user callback.  The variadic
    message of [log_write] is its formatted text; [localtime_r] is a parameter.
    The writer thread, the producers and [log_close] interleave in the step
    relation at the end of the file. *)

From S2P Require Import Prelude.

Module LogSys.

(** ** Data *)

Definition log_level_t : Type := Z.
Definition LOG_TRACE : log_level_t := 0.
Definition LOG_DEBUG : log_level_t := 1.
Definition LOG_INFO : log_level_t := 2.
Definition LOG_WARN : log_level_t := 3.
Definition LOG_ERROR : log_level_t := 4.
Definition LOG_FATAL : log_level_t := 5.
Definition LOG_OFF : log_level_t := 6.

Definition LOG_TARGET_CONSOLE : Z := 1.
Definition LOG_TARGET_FILE : Z := 2.
Definition LOG_TARGET_CALLBACK : Z := 8.

Inductive log_rotate_policy_t := LOG_ROTATE_NONE | LOG_ROTATE_SIZE | LOG_ROTATE_TIME | LOG_ROTATE_BOTH.
#[global] Instance policy_eq_dec : EqDecision log_rotate_policy_t.
Proof. solve_decision. Defined.

Definition LOG_FORMAT_TIME : Z := 1.
Definition LOG_FORMAT_LEVEL : Z := 2.
Definition LOG_FORMAT_TID : Z := 4.
Definition LOG_FORMAT_FILE : Z := 8.
Definition LOG_FORMAT_LINE : Z := 16.
Definition LOG_FORMAT_FUNC : Z := 32.

(** [flags & bit] as a truth value. *)
Definition has (flags bit : Z) : bool := negb (Z.land flags bit =? 0).

Record log_entry_t := Entry {
  level : log_level_t;
  file : list byte;
  line : Z;
  func : list byte;
  timestamp : Z;
  tid : Z;
  message : list byte
}.

Record log_config_t := Config {
  min_level : log_level_t;
  targets : Z;
  format : Z;
  log_dir : list byte;
  log_prefix : list byte;
  max_file_size : Z;
  max_file_count : Z;
  rotate_policy : log_rotate_policy_t;
  async_mode : bool;
  ring_buffer_size : Z;
  callback : bool              (* a callback is installed *)
}.

Record g_log_t := GLog {
  config : log_config_t;
  log_file : option (list byte);     (* the path of the open FILE, or NULL *)
  current_file_index : Z;
  current_file_size : Z;
  mutex : bool;                      (* held *)
  running : bool;
  total_bytes : Z;
  total_entries : Z
}.

Record ring_buffer_t := Ring {
  entries : list log_entry_t;
  capacity : Z;
  head : Z;
  tail : Z;
  count : Z
}.

(** [broken] holds the paths [fopen] and [mkdir] refuse. *)
Record world := World {
  g : g_log_t;
  ring : ring_buffer_t;
  fs : gmap (list byte) (list byte);
  dirs : gset (list byte);
  broken : gset (list byte);
  out : list byte;                   (* written to stdout *)
  err : list byte;                   (* written to stderr *)
  called : list log_entry_t;         (* entries passed to the callback *)
  clock : Z;                         (* gettimeofday, microseconds *)
  self : Z;                          (* gettid *)
  calloc_ok : bool;
  thread_ok : bool
}.

Definition set_g (f : g_log_t → g_log_t) (w : world) : world :=
  World (f w.(g)) w.(ring) w.(fs) w.(dirs) w.(broken) w.(out) w.(err) w.(called) w.(clock)
    w.(self) w.(calloc_ok) w.(thread_ok).
Definition set_ring (r : ring_buffer_t) (w : world) : world :=
  World w.(g) r w.(fs) w.(dirs) w.(broken) w.(out) w.(err) w.(called) w.(clock)
    w.(self) w.(calloc_ok) w.(thread_ok).
Definition set_fs (f : gmap (list byte) (list byte)) (w : world) : world :=
  World w.(g) w.(ring) f w.(dirs) w.(broken) w.(out) w.(err) w.(called) w.(clock)
    w.(self) w.(calloc_ok) w.(thread_ok).
Definition add_dir (d : list byte) (w : world) : world :=
  World w.(g) w.(ring) w.(fs) ({[ d ]} ∪ w.(dirs)) w.(broken) w.(out) w.(err) w.(called) w.(clock)
    w.(self) w.(calloc_ok) w.(thread_ok).
Definition print_out (s : list byte) (w : world) : world :=
  World w.(g) w.(ring) w.(fs) w.(dirs) w.(broken) (w.(out) ++ s) w.(err) w.(called) w.(clock)
    w.(self) w.(calloc_ok) w.(thread_ok).
Definition print_err (s : list byte) (w : world) : world :=
  World w.(g) w.(ring) w.(fs) w.(dirs) w.(broken) w.(out) (w.(err) ++ s) w.(called) w.(clock)
    w.(self) w.(calloc_ok) w.(thread_ok).
Definition call (e : log_entry_t) (w : world) : world :=
  World w.(g) w.(ring) w.(fs) w.(dirs) w.(broken) w.(out) w.(err) (w.(called) ++ [e]) w.(clock)
    w.(self) w.(calloc_ok) w.(thread_ok).

Definition set_mutex (b : bool) (s : g_log_t) : g_log_t :=
  GLog s.(config) s.(log_file) s.(current_file_index) s.(current_file_size) b s.(running)
    s.(total_bytes) s.(total_entries).
Definition set_running (b : bool) (s : g_log_t) : g_log_t :=
  GLog s.(config) s.(log_file) s.(current_file_index) s.(current_file_size) s.(mutex) b
    s.(total_bytes) s.(total_entries).
Definition set_log_file (f : option (list byte)) (s : g_log_t) : g_log_t :=
  GLog s.(config) f s.(current_file_index) s.(current_file_size) s.(mutex) s.(running)
    s.(total_bytes) s.(total_entries).
Definition set_index (i : Z) (s : g_log_t) : g_log_t :=
  GLog s.(config) s.(log_file) i s.(current_file_size) s.(mutex) s.(running)
    s.(total_bytes) s.(total_entries).
Definition set_size (n : Z) (s : g_log_t) : g_log_t :=
  GLog s.(config) s.(log_file) s.(current_file_index) n s.(mutex) s.(running)
    s.(total_bytes) s.(total_entries).
Definition add_bytes (n : Z) (s : g_log_t) : g_log_t :=
  GLog s.(config) s.(log_file) s.(current_file_index) (u64 (s.(current_file_size) + n)) s.(mutex)
    s.(running) (u64 (s.(total_bytes) + n)) s.(total_entries).
Definition inc_entries (s : g_log_t) : g_log_t :=
  GLog s.(config) s.(log_file) s.(current_file_index) s.(current_file_size) s.(mutex) s.(running)
    s.(total_bytes) (u64 (s.(total_entries) + 1)).
Definition set_config (c : log_config_t) (s : g_log_t) : g_log_t :=
  GLog c s.(log_file) s.(current_file_index) s.(current_file_size) s.(mutex) s.(running)
    s.(total_bytes) s.(total_entries).

(** The broken-down time [localtime_r] fills in. *)
Record tm := Tm {
  tm_year : Z; tm_mon : Z; tm_mday : Z; tm_hour : Z; tm_min : Z; tm_sec : Z
}.

(** ** Level names *)

Definition names : list (list byte) :=
  [str "TRACE"; str "DEBUG"; str "INFO"; str "WARN"; str "ERROR"; str "FATAL"; str "OFF"].
Definition log_level_name (l : log_level_t) : list byte :=
  if (l <? LOG_TRACE) || (LOG_OFF <? l) then str "UNKNOWN"
  else default [] (names !! Z.to_nat l).

Definition log_level_from_name (name : list byte) : log_level_t :=
  if strcaseeq name (str "trace") then LOG_TRACE
  else if strcaseeq name (str "debug") then LOG_DEBUG
  else if strcaseeq name (str "info") then LOG_INFO
  else if strcaseeq name (str "warn") then LOG_WARN
  else if strcaseeq name (str "error") then LOG_ERROR
  else if strcaseeq name (str "fatal") then LOG_FATAL
  else if strcaseeq name (str "off") then LOG_OFF
  else LOG_INFO.

(** ** Formatting *)

Section log.
Context (localtime : Z → tm).

Definition format_timestamp (len : Z) (ts : Z) : list byte :=
  let t := localtime (ts `div` 1000000) in
  take (Z.to_nat (len - 1))
    (pad0 4 (dec (t.(tm_year) + 1900)) ++ str "-" ++ pad0 2 (dec (t.(tm_mon) + 1)) ++ str "-" ++
     pad0 2 (dec t.(tm_mday)) ++ str " " ++ pad0 2 (dec t.(tm_hour)) ++ str ":" ++
     pad0 2 (dec t.(tm_min)) ++ str ":" ++ pad0 2 (dec t.(tm_sec)) ++ str "." ++
     pad0 6 (dec (ts `mod` 1000000))).

Definition format_entry (fmt : Z) (len : Z) (e : log_entry_t) : outcome (list byte) :=
  let ts := format_timestamp 64 e.(timestamp) in
  let body : C (list byte * Z) unit :=
    (if has fmt LOG_FORMAT_TIME then sn len (str "[" ++ ts ++ str "] ") else mret tt);;
    (if has fmt LOG_FORMAT_LEVEL
     then sn len (str "[" ++ padr 5 (log_level_name e.(level)) ++ str "] ") else mret tt);;
    (if has fmt LOG_FORMAT_TID then sn len (str "[" ++ dec e.(tid) ++ str "] ") else mret tt);;
    (if has fmt LOG_FORMAT_FILE then
       sn len (str "[" ++ e.(file));;
       (if has fmt LOG_FORMAT_LINE then sn len (str ":" ++ dec e.(line)) else mret tt);;
       sn len (str "] ")
     else if has fmt LOG_FORMAT_LINE then sn len (str "[:" ++ dec e.(line) ++ str "] ")
     else mret tt);;
    (if has fmt LOG_FORMAT_FUNC then sn len (str "[" ++ e.(func) ++ str "] ") else mret tt);;
    sn len (e.(message) ++ [x0a]) in
  match body ([], 0) with
  | Ret (_, (acc, _)) => Ret acc
  | UB => UB
  | Blocked => Blocked
  | Fuel => Fuel
  end.

(** ** Files *)

Definition create_log_dir (dir : list byte) : C world Z :=
  w ← c_get;
  if bool_decide (dir ∈ w.(dirs)) || bool_decide (is_Some (w.(fs) !! dir)) then mret 0
  else if bool_decide (dir ∈ w.(broken)) then mret (-1)
  else c_mod (add_dir dir);; mret 0.

(** The name of the log file of index [i] on the day of [now] seconds. *)
Definition log_filepath (c : log_config_t) (now i : Z) : list byte :=
  let t := localtime now in
  take (Z.to_nat 511) (c.(log_dir) ++ str "/" ++ c.(log_prefix) ++ str "_" ++
            pad0 4 (dec (t.(tm_year) + 1900)) ++ pad0 2 (dec (t.(tm_mon) + 1)) ++
            pad0 2 (dec t.(tm_mday)) ++ str "_" ++ pad0 6 (dec i) ++ str ".log").

Definition open_log_file : C world Z :=
  c_mod (set_g (set_log_file None));;
  w ← c_get;
  let path := log_filepath w.(g).(config) (w.(clock) `div` 1000000) w.(g).(current_file_index) in
  if bool_decide (path ∈ w.(broken)) then
    c_mod (print_err (str "Failed to open log file: " ++ path ++ [x0a]));; mret (-1)
  else
    c_mod (set_fs (<[path := default [] (w.(fs) !! path)]> w.(fs)));;
    c_mod (set_g (λ s, set_size 0 (set_log_file (Some path) s)));;
    mret 0.

Definition lock_mutex : C world unit :=
  w ← c_get;
  if w.(g).(mutex) then c_blocked else c_mod (set_g (set_mutex true)).
Definition unlock_mutex : C world unit := c_mod (set_g (set_mutex false)).

Definition log_rotate : C world unit :=
  w ← c_get;
  match w.(g).(log_file) with
  | None => mret tt
  | Some _ =>
      lock_mutex;;
      c_mod (set_g (λ s, set_index (s.(current_file_index) + 1) s));;
      c_mod (set_g (λ s, if s.(config).(max_file_count) <=? s.(current_file_index)
                         then set_index 0 s else s));;
      open_log_file;;
      unlock_mutex
  end.

(** ** Output *)

Definition output_console (e : log_entry_t) : C world unit :=
  w ← c_get;
  buf ← c_lift (format_entry w.(g).(config).(format) 4096 e);
  if LOG_ERROR <=? e.(level) then c_mod (print_err buf) else c_mod (print_out buf).

Definition size_rotation (p : log_rotate_policy_t) : bool :=
  bool_decide (p = LOG_ROTATE_SIZE) || bool_decide (p = LOG_ROTATE_BOTH).

Definition output_file (e : log_entry_t) : C world unit :=
  w ← c_get;
  match w.(g).(log_file) with
  | None => mret tt
  | Some _ =>
      buf ← c_lift (format_entry w.(g).(config).(format) 4096 e);
      let len := strlen buf in
      (if size_rotation w.(g).(config).(rotate_policy) &&
          (w.(g).(config).(max_file_size) <? u64 (w.(g).(current_file_size) + len))
       then log_rotate else mret tt);;
      w ← c_get;
      match w.(g).(log_file) with
      | None => c_ub                       (* fwrite to NULL *)
      | Some path =>
          c_mod (set_fs (<[path := default [] (w.(fs) !! path) ++ buf]> w.(fs)));;
          c_mod (set_g (add_bytes len))
      end
  end.

Definition output_callback (e : log_entry_t) : C world unit :=
  w ← c_get;
  if w.(g).(config).(callback) then c_mod (call e) else mret tt.

(** The output sequence the writer thread and the synchronous mode share. *)
Definition deliver (e : log_entry_t) : C world unit :=
  w ← c_get;
  (if has w.(g).(config).(targets) LOG_TARGET_CONSOLE then output_console e else mret tt);;
  (if has w.(g).(config).(targets) LOG_TARGET_FILE then output_file e else mret tt);;
  (if has w.(g).(config).(targets) LOG_TARGET_CALLBACK then output_callback e else mret tt);;
  c_mod (set_g inc_entries).

(** ** Ring buffer *)

Definition zero_entry : log_entry_t := Entry 0 [] 0 [] 0 0 [].

Definition ring_buffer_init (cap : Z) : C world Z :=
  w ← c_get;
  if negb w.(calloc_ok) then mret (-1)
  else c_mod (set_ring (Ring (replicate (Z.to_nat cap) zero_entry) cap 0 0 0));; mret 0.

Definition ring_buffer_destroy : C world unit :=
  c_mod (λ w, set_ring (Ring [] w.(ring).(capacity) w.(ring).(head) w.(ring).(tail)
                          w.(ring).(count)) w).

(** One critical section; [Blocked] is the wait on [not_full]. *)
Definition ring_buffer_push (e : log_entry_t) : C world Z :=
  w ← c_get;
  let r := w.(ring) in
  if r.(capacity) <=? r.(count) then c_blocked else
  match r.(entries) !! Z.to_nat r.(tail) with
  | None => c_ub
  | Some _ =>
      c_mod (set_ring (Ring (<[Z.to_nat r.(tail) := e]> r.(entries)) r.(capacity) r.(head)
                         (u64 (r.(tail) + 1) `mod` r.(capacity)) (u64 (r.(count) + 1))));;
      mret 0
  end.

(** [Blocked] is the wait on [not_empty]; [None] is the result -1. *)
Definition ring_buffer_pop : C world (option log_entry_t) :=
  w ← c_get;
  let r := w.(ring) in
  if (r.(count) =? 0) && w.(g).(running) then c_blocked
  else if r.(count) =? 0 then mret None else
  match r.(entries) !! Z.to_nat r.(head) with
  | None => c_ub
  | Some e =>
      c_mod (set_ring (Ring r.(entries) r.(capacity) (u64 (r.(head) + 1) `mod` r.(capacity))
                         r.(tail) (u64 (r.(count) - 1))));;
      mret (Some e)
  end.

(** ** The interface *)

Definition log_init (c : option log_config_t) : C world Z :=
  (match c with Some c => c_mod (set_g (set_config c)) | None => mret tt end);;
  w ← c_get;
  let cfg := w.(g).(config) in
  r ← (if has cfg.(targets) LOG_TARGET_FILE then
         d ← create_log_dir cfg.(log_dir);
         if negb (d =? 0) then
           c_mod (print_err (str "Failed to create log directory: " ++ cfg.(log_dir) ++ [x0a]));;
           mret (-1)
         else
           f ← open_log_file;
           if negb (f =? 0) then mret (-1) else mret 0
       else mret 0);
  if negb (r =? 0) then mret (-1) else
  c_mod (set_g (set_mutex false));;
  if cfg.(async_mode) then
    i ← ring_buffer_init cfg.(ring_buffer_size);
    if negb (i =? 0) then mret (-1) else
    c_mod (set_g (set_running true));;
    w ← c_get;
    if negb w.(thread_ok) then ring_buffer_destroy;; mret (-1) else mret 0
  else mret 0.

Definition log_set_level (l : log_level_t) : C world unit :=
  c_mod (set_g (λ s, set_config (Config l s.(config).(targets) s.(config).(format)
    s.(config).(log_dir) s.(config).(log_prefix) s.(config).(max_file_size)
    s.(config).(max_file_count) s.(config).(rotate_policy) s.(config).(async_mode)
    s.(config).(ring_buffer_size) s.(config).(callback)) s)).
Definition log_get_level : C world log_level_t := w ← c_get; mret w.(g).(config).(min_level).

(** [text] is the expanded format. *)
Definition log_write (l : log_level_t) (fl : list byte) (ln : Z) (fn text : list byte)
    : C world unit :=
  w ← c_get;
  if l <? w.(g).(config).(min_level) then mret tt else
  let e := Entry l fl ln fn w.(clock) w.(self) (take (Z.to_nat 4095) text) in
  if w.(g).(config).(async_mode) then ring_buffer_push e;; mret tt
  else lock_mutex;; deliver e;; unlock_mutex.

(** The va_list version has the same body. *)
Definition log_write_va (l : log_level_t) (fl : list byte) (ln : Z) (fn text : list byte)
    : C world unit :=
  w ← c_get;
  if l <? w.(g).(config).(min_level) then mret tt else
  let e := Entry l fl ln fn w.(clock) w.(self) (take (Z.to_nat 4095) text) in
  if w.(g).(config).(async_mode) then ring_buffer_push e;; mret tt
  else lock_mutex;; deliver e;; unlock_mutex.

Definition log_get_stats : C world (Z * Z) :=
  w ← c_get; mret (w.(g).(total_bytes), w.(g).(total_entries)).

(** One line of [log_hexdump] from offset [i]; all snprintf calls fit in 128 bytes. *)
Definition hexdump_line (data : list byte) (i : nat) : list byte :=
  let chunk := take 16 (drop i data) in
  str "  " ++ pad0 4 (hex (Z.of_nat i)) ++ str ": " ++
  mjoin ((λ c, pad0 2 (hex (b2z c)) ++ str " ") <$> chunk) ++
  mjoin (replicate (16 - length chunk) (str "   ")) ++
  str " |" ++ ((λ c, if (32 <=? b2z c) && (b2z c <? 127) then c else x2e) <$> chunk) ++ str "|".

Fixpoint hexdump_lines (n : nat) (l : log_level_t) (src fn : list byte) (ln : Z)
    (data : list byte) (i : nat) : C world unit :=
  match n with
  | O => mret tt
  | S n' => log_write l src ln fn (take 127 (hexdump_line data i));;
            hexdump_lines n' l src fn ln data (i + 16)
  end.
(** [src], [fn], [ln1] and [ln2] are __FILE__, __func__ and the two __LINE__s. *)
Definition log_hexdump (l : log_level_t) (data label src fn : list byte) (ln1 ln2 : Z)
    : C world unit :=
  w ← c_get;
  if l <? w.(g).(config).(min_level) then mret tt else
  log_write l src ln1 fn
    (take 127 (label ++ str " [" ++ dec (Z.of_nat (length data)) ++ str " bytes]:" ++ [x0a]));;
  hexdump_lines ((length data + 15) / 16) l src fn ln2 data 0.

(** ** Threads *)

(** The writer thread: testing [running], at [ring_buffer_pop] (in the main loop
    or in the drain loop), having decided to wait while still holding the ring
    lock, waiting on [not_empty], delivering an entry, finished. *)
Inductive cpc :=
  | CLoop
  | CPop (drain : bool)
  | CWillWait (drain : bool)
  | CWaiting (drain : bool)
  | CDeliver (drain : bool) (e : log_entry_t)
  | CDone.

(** [log_close]: not called, [running] cleared, signal sent (joining), returned. *)
Inductive kpc := KIdle | KCleared | KJoining | KClosed.

Record astate := AState {
  aw : world;
  cons : cpc;
  clos : kpc;
  pushed : list log_entry_t;      (* history of completed pushes *)
  handled : list log_entry_t      (* history of delivered entries *)
}.

(** [pthread_cond_signal(&g_ring.not_empty)] wakes the writer if it waits. *)
Definition wake (c : cpc) : cpc :=
  match c with CWaiting d => CPop d | _ => c end.

(** After the join. *)
Definition log_close_finish : C world unit :=
  ring_buffer_destroy;; c_mod (set_g (set_log_file None)).

(** [sp]: whether condition variables may wake up spuriously. *)
Inductive astep (sp : bool) : astate → astate → Prop :=
  | st_push w c k p h e w' :
      (∀ d, c ≠ CWillWait d) →
      ring_buffer_push e w = Ret (0, w') →
      astep sp (AState w c k p h) (AState w' (wake c) k (p ++ [e]) h)
  | st_loop w k p h :
      astep sp (AState w CLoop k p h) (AState w (CPop (negb w.(g).(running))) k p h)
  | st_pop w d k p h e w' :
      ring_buffer_pop w = Ret (Some e, w') →
      astep sp (AState w (CPop d) k p h) (AState w' (CDeliver d e) k p h)
  | st_pop_none w d k p h w' :
      ring_buffer_pop w = Ret (None, w') →
      astep sp (AState w (CPop d) k p h) (AState w' (if d then CDone else CLoop) k p h)
  | st_pop_block w d k p h :
      ring_buffer_pop w = Blocked →
      astep sp (AState w (CPop d) k p h) (AState w (CWillWait d) k p h)
  | st_wait w d k p h :
      astep sp (AState w (CWillWait d) k p h) (AState w (CWaiting d) k p h)
  | st_spurious w d k p h :
      sp = true →
      astep sp (AState w (CWaiting d) k p h) (AState w (CPop d) k p h)
  | st_deliver w d e k p h w' :
      deliver e w = Ret (tt, w') →
      astep sp (AState w (CDeliver d e) k p h)
        (AState w' (if d then CPop true else CLoop) k p (h ++ [e]))
  | st_close_clear w c p h :
      astep sp (AState w c KIdle p h) (AState (set_g (set_running false) w) c KCleared p h)
  | st_close_signal w c p h :
      astep sp (AState w c KCleared p h) (AState w (wake c) KJoining p h)
  | st_close_join w p h w' :
      log_close_finish w = Ret (tt, w') →
      astep sp (AState w CDone KJoining p h) (AState w' CDone KClosed p h).

Inductive areach (sp : bool) (s : astate) : astate → Prop :=
  | ar_refl : areach sp s s
  | ar_step s1 s2 : areach sp s s1 → astep sp s1 s2 → areach sp s s2.

End log.
End LogSys.
