(* ===== verification/LogSysSpec.v ===== *)
(** * log-system: properties of formatting, delivery, rotation and the writer *)

From S2P Require Import Prelude LogSys.
Import LogSys.

Module LogSysSpec.
#[local] Arguments Z.to_nat : simpl never.
Section spec.
Context (localtime : Z → tm).

(** ** Level names *)

Lemma level_name_roundtrip l : LOG_TRACE ≤ l ≤ LOG_OFF → log_level_from_name (log_level_name l) = l.
Proof.
  intros H. assert (l = 0 ∨ l = 1 ∨ l = 2 ∨ l = 3 ∨ l = 4 ∨ l = 5 ∨ l = 6) as Hl
    by (unfold LOG_TRACE, LOG_OFF in H; lia).
  destruct_or! Hl; subst; vm_compute; done.
Qed.

(** ** Formatting *)

(** The text in front of the message, in the pieces the code prints. *)
Definition pieces (fmt : Z) (e : log_entry_t) : list (list byte) :=
  (if has fmt LOG_FORMAT_TIME
   then [str "[" ++ format_timestamp localtime 64 e.(timestamp) ++ str "] "] else []) ++
  (if has fmt LOG_FORMAT_LEVEL
   then [str "[" ++ padr 5 (log_level_name e.(level)) ++ str "] "] else []) ++
  (if has fmt LOG_FORMAT_TID then [str "[" ++ dec e.(tid) ++ str "] "] else []) ++
  (if has fmt LOG_FORMAT_FILE
   then [str "[" ++ e.(file)] ++
        (if has fmt LOG_FORMAT_LINE then [str ":" ++ dec e.(line)] else []) ++ [str "] "]
   else if has fmt LOG_FORMAT_LINE then [str "[:" ++ dec e.(line) ++ str "] "] else []) ++
  (if has fmt LOG_FORMAT_FUNC then [str "[" ++ e.(func) ++ str "] "] else []).

Definition prefix (fmt : Z) (e : log_entry_t) : list byte := mjoin (pieces fmt e).
(** The complete line of an entry. *)
Definition full_line (fmt : Z) (e : log_entry_t) : list byte :=
  prefix fmt e ++ e.(message) ++ [x0a].

(** [format_entry] prints the pieces and the message one after the other. *)
Lemma format_entry_pieces fmt len e :
  format_entry localtime fmt len e =
  match sn_all len (pieces fmt e ++ [e.(message) ++ [x0a]]) ([], 0) with
  | Ret (_, (acc, _)) => Ret acc | UB => UB | Blocked => Blocked | Fuel => Fuel
  end.
Proof.
  unfold format_entry. match goal with |- match ?a ?x with _ => _ end = match ?b with _ => _ end =>
    assert (Hb : b = a x); [|by rewrite Hb] end.
  unfold pieces. rewrite <- !(assoc_L (++)).
  repeat (rewrite sn_all_app; apply bind_ext; [|intros [] ?]);
    rewrite ?sn_all_if, ?sn_all_one; try (case_match; [by rewrite ?sn_all_one|done]).
  - destruct (has fmt LOG_FORMAT_FILE).
    + rewrite !sn_all_app. apply bind_ext; [by rewrite sn_all_one|]. intros [] st.
      rewrite sn_all_app. apply bind_ext; [|intros [] ?; by rewrite sn_all_one].
      rewrite sn_all_if. case_match; [by rewrite sn_all_one|done].
    + rewrite sn_all_if. case_match; [by rewrite sn_all_one|done].
  - done.
Qed.

Lemma format_entry_run fmt len e : 0 < len →
  format_entry localtime fmt len e =
  if len <? strlen (prefix fmt e) then UB else Ret (take (Z.to_nat (len - 1)) (full_line fmt e)).
Proof.
  intros Hl. rewrite format_entry_pieces.
  pose proof (sn_all_run len (pieces fmt e) (message e ++ [x0a]) [] Hl) as H.
  rewrite take_nil in H. change (strlen []) with 0 in H. rewrite H by lia. cbn [app].
  unfold full_line, prefix. by destruct (len <? strlen (mjoin (pieces fmt e))).
Qed.

(** ** The ring buffer is a FIFO queue *)

Definition queue (r : ring_buffer_t) : list log_entry_t :=
  ring_list r.(entries) r.(capacity) r.(head) r.(count).

Record ring_ok (r : ring_buffer_t) : Prop := {
  ro_cap : 0 < r.(capacity) < 2 ^ 64;
  ro_len : length r.(entries) = Z.to_nat r.(capacity);
  ro_head : 0 ≤ r.(head) < r.(capacity);
  ro_count : 0 ≤ r.(count) ≤ r.(capacity);
  ro_tail : r.(tail) = (r.(head) + r.(count)) `mod` r.(capacity)
}.

Lemma ring_tail_lt r : ring_ok r → 0 ≤ r.(tail) < r.(capacity).
Proof. intros []. rewrite ro_tail0. apply Z.mod_pos_bound. lia. Qed.

Lemma ring_push_run w e : ring_ok w.(ring) →
  if decide (w.(ring).(count) < w.(ring).(capacity)) then
    ∃ r', ring_buffer_push e w = Ret (0, set_ring r' w) ∧ ring_ok r' ∧
      queue r' = queue w.(ring) ++ [e] ∧ r'.(capacity) = w.(ring).(capacity)
  else ring_buffer_push e w = Blocked.
Proof.
  intros Hok. pose proof (ring_tail_lt _ Hok) as Htl. pose proof Hok as [Hc Hl Hh Hn Ht].
  unfold ring_buffer_push. erewrite bind_Ret by done. cbv zeta. case_decide as Hlt.
  2: { by rewrite (proj2 (Z.leb_le _ _)) by lia. }
  rewrite (proj2 (Z.leb_gt _ _)) by lia.
  destruct (lookup_lt_is_Some_2 (entries (ring w)) (Z.to_nat (tail (ring w)))) as [x ->]; [lia|].
  eexists. split; [reflexivity|]. rewrite Ht in *.
  split; [|split; [|done]].
  - split; simpl; rewrite ?length_insert, ?u64_small by lia; try done; [lia|].
    rewrite Z.add_mod_idemp_l by lia. f_equal. lia.
  - unfold queue. simpl. rewrite (u64_small (_ + 1)) by lia. by apply ring_list_push; lia.
Qed.

Lemma ring_pop_run w : ring_ok w.(ring) →
  if decide (w.(ring).(count) = 0) then
    ring_buffer_pop w = if w.(g).(running) then Blocked else Ret (None, w)
  else ∃ e r', ring_buffer_pop w = Ret (Some e, set_ring r' w) ∧ ring_ok r' ∧
      queue w.(ring) = e :: queue r' ∧ r'.(capacity) = w.(ring).(capacity).
Proof.
  intros Hok. pose proof Hok as [Hc Hl Hh Hn Ht].
  unfold ring_buffer_pop. erewrite bind_Ret by done. cbv zeta. case_decide as H0.
  { rewrite H0. simpl. by destruct (running (g w)). }
  rewrite (proj2 (Z.eqb_neq _ _)) by done. simpl.
  destruct (ring_list_pop (entries (ring w)) (capacity (ring w)) (head (ring w)) (count (ring w)))
    as (e & He & Hq); [done|lia|lia|].
  rewrite He. eexists _, _. split; [reflexivity|]. split; [|split; [|done]].
  - pose proof (Z.mod_pos_bound (head (ring w) + 1) (capacity (ring w)) ltac:(lia)).
    split; simpl; rewrite ?u64_small by lia; try done; [lia|].
    rewrite Z.add_mod_idemp_l by lia. rewrite Ht. f_equal. lia.
  - unfold queue. simpl. rewrite !u64_small by lia. exact Hq.
Qed.

(** ** What delivering an entry leaves alone *)

Definition frame (w w' : world) : Prop :=
  w'.(ring) = w.(ring) ∧ w'.(g).(running) = w.(g).(running) ∧ w'.(g).(config) = w.(g).(config) ∧
  w'.(g).(total_entries) = w.(g).(total_entries).

#[local] Instance frame_preorder : PreOrder frame.
Proof. split; [intros w; by split_and!|]. intros x y z (?&?&?&?) (?&?&?&?). split_and!; congruence. Qed.

Lemma open_log_file_frame w r w' : open_log_file localtime w = Ret (r, w') → frame w w'.
Proof.
  unfold open_log_file. intros H. run_inv. case_bool_decide; run_inv; by split_and!.
Qed.
Lemma log_rotate_frame w w' : log_rotate localtime w = Ret (tt, w') → frame w w'.
Proof.
  unfold log_rotate, lock_mutex, unlock_mutex. intros H. run_inv.
  case_match; [|run_inv; by split_and!]. run_inv. case_match; run_inv.
  match goal with Ho : open_log_file _ _ = _ |- _ => apply open_log_file_frame in Ho end.
  match goal with Ho : frame _ ?x |- frame _ (set_g _ ?x) => transitivity x; [|by split_and!];
    refine (transitivity _ Ho) end.
  unfold set_g. simpl. case_match; by split_and!.
Qed.
Lemma if_frame (b : bool) (m : C world unit) w u w' :
  (∀ w', m w = Ret (tt, w') → frame w w') →
  (if b then m else mret tt) w = Ret (u, w') → frame w w'.
Proof. intros Hm H. destruct u, b; [by apply Hm|by run_inv]. Qed.
Lemma output_console_frame e w w' : output_console localtime e w = Ret (tt, w') → frame w w'.
Proof. unfold output_console. intros H. run_inv. case_match; run_inv; by split_and!. Qed.
Lemma output_callback_frame e w w' : output_callback e w = Ret (tt, w') → frame w w'.
Proof. unfold output_callback. intros H. run_inv. case_match; run_inv; by split_and!. Qed.
Lemma output_file_frame e w w' : output_file localtime e w = Ret (tt, w') → frame w w'.
Proof.
  unfold output_file. intros H. run_inv. case_match; [|run_inv; by split_and!].
  run_inv. match goal with Hr : (if _ then log_rotate _ else _) ?a = Ret (?u, ?b) |- _ =>
    assert (Hf : frame a b) by (eapply if_frame; [apply log_rotate_frame|exact Hr]);
    clear Hr end.
  case_match; run_inv. etrans; [exact Hf|]. by split_and!.
Qed.

Lemma deliver_frame e w w' : deliver localtime e w = Ret (tt, w') →
  w'.(ring) = w.(ring) ∧ w'.(g).(running) = w.(g).(running) ∧
  w'.(g).(total_entries) = u64 (w.(g).(total_entries) + 1).
Proof.
  unfold deliver. intros H. apply bind_inv in H as (? & ? & Hg & H). injection Hg as <- <-.
  apply bind_inv in H as ([] & w1 & H1 & H). apply bind_inv in H as ([] & w2 & H2 & H).
  apply bind_inv in H as ([] & w3 & H3 & H). injection H as <-.
  assert (F1 : frame w w1).
  { eapply if_frame; [apply output_console_frame|exact H1]. }
  assert (F2 : frame w1 w2).
  { eapply if_frame; [apply output_file_frame|exact H2]. }
  assert (F3 : frame w2 w3).
  { eapply if_frame; [apply output_callback_frame|exact H3]. }
  destruct (transitivity (transitivity F1 F2) F3) as (? & ? & ? & Ht). simpl. by rewrite Ht.
Qed.

(** ** The asynchronous writer *)

Definition inflight (c : cpc) : list log_entry_t :=
  match c with CDeliver _ e => [e] | _ => [] end.

Record async_inv (t0 : Z) (s : astate) : Prop := {
  ai_ring : ring_ok s.(aw).(ring);
  ai_fifo : s.(handled) ++ inflight s.(cons) ++ queue s.(aw).(ring) = s.(pushed);
  ai_entries : s.(aw).(g).(total_entries) = u64 (t0 + Z.of_nat (length s.(handled)))
}.

Lemma u64_succ a : u64 (u64 a + 1) = u64 (a + 1).
Proof. unfold u64. by rewrite Z.add_mod_idemp_l. Qed.

Lemma inflight_wake c : inflight (wake c) = inflight c.
Proof. by destruct c. Qed.

Lemma async_step sp t0 s s' : astep localtime sp s s' → async_inv t0 s → s'.(clos) ≠ KClosed →
  async_inv t0 s' ∧ (s.(cons) ≠ CDone → s'.(cons) = CDone → s'.(handled) = s'.(pushed)).
Proof.
  intros Hs [Hr Hf Ht] Hk. destruct Hs; simpl in *.
  - pose proof (ring_push_run w e Hr) as Hp. case_decide; [|congruence].
    destruct Hp as (r' & E & Hr' & Hq & _). assert (w' = set_ring r' w) as -> by congruence.
    split; [split; simpl; [done| |done]|by destruct c].
    rewrite Hq, inflight_wake, <- Hf, <- !(assoc_L (++)). done.
  - split; [by split|done].
  - pose proof (ring_pop_run w Hr) as Hp. case_decide.
    { rewrite H in Hp. by destruct (running (g w)). }
    destruct Hp as (e' & r' & E & Hr' & Hq & _). rewrite H in E. injection E as <- ->.
    split; [split; simpl; [done| |done]|done]. by rewrite <- Hf, Hq.
  - pose proof (ring_pop_run w Hr) as Hp. case_decide as Hc; [|destruct Hp as (? & ? & ? & _); congruence].
    rewrite H in Hp. destruct (running (g w)); [done|]. injection Hp as ->.
    assert (Hq : queue (ring w) = []) by (unfold queue; by rewrite Hc).
    rewrite Hq, app_nil_r in Hf. split.
    + split; simpl; [done| |done]. rewrite Hq. by destruct d; rewrite <- Hf, app_nil_r.
    + by intros _ _.
  - split; [by split|done].
  - split; [by split|done].
  - split; [by split|done].
  - apply deliver_frame in H as (Er & _ & Et). split; [split; simpl|by destruct d].
    + by rewrite Er.
    + rewrite Er, <- Hf. rewrite <- (assoc_L (++)). by destruct d.
    + rewrite Et, Ht, u64_succ, length_app. simpl. f_equal. lia.
  - split; [by split|done].
  - split; [|by destruct c]. split; simpl; try done. by rewrite inflight_wake.
  - done.
Qed.

Lemma log_init_async cfg w w0 : log_init localtime (Some cfg) w = Ret (0, w0) →
  cfg.(async_mode) = true → 0 < cfg.(ring_buffer_size) < 2 ^ 64 →
  ring_ok w0.(ring) ∧ queue w0.(ring) = [] ∧ w0.(ring).(count) = 0 ∧ w0.(g).(running) = true.
Proof.
  unfold log_init. intros H Ha Hs. apply bind_inv in H as ([] & w1 & E & H).
  injection E as <-. apply bind_inv in H as (? & ? & E & H). injection E as <- <-. simpl in H.
  apply bind_inv in H as (r & w1 & _ & H). destruct (negb (r =? 0)); [by run_inv|].
  apply bind_inv in H as ([] & w2 & E & H). injection E as <-. rewrite Ha in H.
  apply bind_inv in H as (r2 & w3 & E & H). unfold ring_buffer_init in E. run_inv.
  destruct (negb (calloc_ok _)); run_inv; [done|]. simpl in H. run_inv.
  destruct (negb (thread_ok _)); run_inv; [done|]. split; [|by split_and!].
  split; simpl; rewrite ?length_replicate; try lia.
  by rewrite Z.mod_0_l by lia.
Qed.

Lemma async_reach sp t0 s s' : areach localtime sp s s' → async_inv t0 s →
  s'.(clos) ≠ KClosed → async_inv t0 s'.
Proof.
  intros Hr Hi. induction Hr as [|s1 s2 _ IH Hs]; intros Hk; [done|].
  eapply async_step; [exact Hs| |done]. apply IH. intros E. by destruct Hs.
Qed.

(** ** Synchronous delivery and rotation *)

Lemma output_console_run e w :
  strlen (prefix w.(g).(config).(format) e) ≤ 4096 →
  output_console localtime e w =
  let buf := take (Z.to_nat (4096 - 1)) (full_line w.(g).(config).(format) e) in
  Ret (tt, if LOG_ERROR <=? e.(level) then print_err buf w else print_out buf w).
Proof.
  intros Hp. unfold output_console. erewrite bind_Ret by done.
  erewrite bind_Ret by (unfold c_lift; by rewrite format_entry_run, (proj2 (Z.ltb_ge _ _)) by lia).
  by case_match.
Qed.

Definition line_of (w : world) (e : log_entry_t) : list byte :=
  take (Z.to_nat (4096 - 1)) (full_line w.(g).(config).(format) e).
#[local] Arguments line_of : simpl never.
Definition must_rotate (w : world) (e : log_entry_t) : bool :=
  size_rotation w.(g).(config).(rotate_policy) &&
  (w.(g).(config).(max_file_size) <? u64 (w.(g).(current_file_size) + strlen (line_of w e))).

(** Writing a line to the open file [path]. *)
Definition write_line (path buf : list byte) (w : world) : world :=
  set_g (add_bytes (strlen buf)) (set_fs (<[path := default [] (w.(fs) !! path) ++ buf]> w.(fs)) w).

Lemma output_file_norot e w path :
  strlen (prefix w.(g).(config).(format) e) ≤ 4096 → w.(g).(log_file) = Some path →
  must_rotate w e = false →
  output_file localtime e w = Ret (tt, write_line path (line_of w e) w).
Proof.
  intros Hp Hf Hr. unfold output_file. erewrite bind_Ret by done. rewrite Hf.
  erewrite bind_Ret by (unfold c_lift; by rewrite format_entry_run, (proj2 (Z.ltb_ge _ _)) by lia).
  unfold must_rotate, line_of in Hr. rewrite Hr.
  erewrite bind_Ret by done. erewrite bind_Ret by done. by rewrite Hf.
Qed.

Lemma open_log_file_run w :
  let path := log_filepath localtime w.(g).(config) (w.(clock) `div` 1000000)
                w.(g).(current_file_index) in
  path ∉ w.(broken) →
  open_log_file localtime w =
  Ret (0, set_g (λ s, set_size 0 (set_log_file (Some path) (set_log_file None s)))
            (set_fs (<[path := default [] (w.(fs) !! path)]> w.(fs)) w)).
Proof.
  intros path Hb. unfold open_log_file. erewrite bind_Ret by done. erewrite bind_Ret by done.
  cbv zeta. simpl in *. fold path. by rewrite bool_decide_eq_false_2.
Qed.

Definition next_index (w : world) : Z :=
  let i := w.(g).(current_file_index) + 1 in
  if w.(g).(config).(max_file_count) <=? i then 0 else i.
Definition next_path (w : world) : list byte :=
  log_filepath localtime w.(g).(config) (w.(clock) `div` 1000000) (next_index w).

Lemma log_rotate_run w path : w.(g).(log_file) = Some path → w.(g).(mutex) = false →
  next_path w ∉ w.(broken) →
  log_rotate localtime w =
  Ret (tt, set_g (λ s, set_mutex false (set_size 0 (set_log_file (Some (next_path w))
                        (set_index (next_index w) s))))
             (set_fs (<[next_path w := default [] (w.(fs) !! next_path w)]> w.(fs)) w)).
Proof.
  intros Hf Hm Hb. unfold log_rotate. erewrite bind_Ret by done. rewrite Hf.
  unfold lock_mutex. erewrite bind_Ret by (erewrite bind_Ret by done; by rewrite Hm).
  erewrite bind_Ret by done. erewrite bind_Ret by done.
  match goal with |- (_ ≫= _) ?x = _ => assert (Hx : x =
    set_g (λ s, set_mutex true (set_index (next_index w) s)) w) end.
  { unfold set_g, next_index. simpl. by destruct (max_file_count (config (g w)) <=? _). }
  rewrite Hx. erewrite bind_Ret by (apply open_log_file_run; exact Hb). done.
Qed.

Lemma deliver_run e w path :
  has w.(g).(config).(targets) LOG_TARGET_FILE = true →
  strlen (prefix w.(g).(config).(format) e) ≤ 4096 → w.(g).(log_file) = Some path →
  must_rotate w e = false →
  ∃ w', deliver localtime e w = Ret (tt, w') ∧
    w'.(fs) = <[path := default [] (w.(fs) !! path) ++ line_of w e]> w.(fs) ∧
    w'.(out) = w.(out) ++ (if has w.(g).(config).(targets) LOG_TARGET_CONSOLE &&
                              negb (LOG_ERROR <=? e.(level)) then line_of w e else []) ∧
    w'.(err) = w.(err) ++ (if has w.(g).(config).(targets) LOG_TARGET_CONSOLE &&
                              (LOG_ERROR <=? e.(level)) then line_of w e else []) ∧
    w'.(called) = w.(called) ++ (if has w.(g).(config).(targets) LOG_TARGET_CALLBACK &&
                                    w.(g).(config).(callback) then [e] else []) ∧
    w'.(g) = inc_entries (add_bytes (strlen (line_of w e)) w.(g)).
Proof.
  intros Ht Hp Hf Hr. unfold deliver. erewrite bind_Ret by done. rewrite Ht.
  set (w1 := if has w.(g).(config).(targets) LOG_TARGET_CONSOLE
             then (if LOG_ERROR <=? e.(level) then print_err (line_of w e) w
                   else print_out (line_of w e) w) else w).
  assert (H1 : (if has w.(g).(config).(targets) LOG_TARGET_CONSOLE then output_console localtime e
                else mret tt) w = Ret (tt, w1)).
  { unfold w1. destruct (has _ LOG_TARGET_CONSOLE); [by apply output_console_run|done]. }
  assert (Hg : g w1 = g w ∧ fs w1 = fs w ∧ called w1 = called w ∧
    out w1 = out w ++ (if has w.(g).(config).(targets) LOG_TARGET_CONSOLE &&
                          negb (LOG_ERROR <=? e.(level)) then line_of w e else []) ∧
    err w1 = err w ++ (if has w.(g).(config).(targets) LOG_TARGET_CONSOLE &&
                          (LOG_ERROR <=? e.(level)) then line_of w e else [])).
  { unfold w1. destruct (has (targets (config (g w))) LOG_TARGET_CONSOLE), (LOG_ERROR <=? level e);
      simpl; split_and!; rewrite ?app_nil_r; reflexivity. }
  clearbody w1. destruct Hg as (Hg & Hfs & Hca & Hout & Herr). c_step H1.
  assert (Hl : line_of w1 e = line_of w e) by (unfold line_of; by rewrite Hg).
  erewrite bind_Ret by (apply (output_file_norot e w1 path); unfold must_rotate, line_of in *;
    rewrite Hg; done).
  rewrite Hl. set (w2 := write_line path (line_of w e) w1).
  set (w3 := if has w.(g).(config).(targets) LOG_TARGET_CALLBACK && w.(g).(config).(callback)
             then call e w2 else w2).
  assert (H3 : (if has w.(g).(config).(targets) LOG_TARGET_CALLBACK then output_callback e
                else mret tt) w2 = Ret (tt, w3)).
  { unfold w3. destruct (has (targets (config (g w))) LOG_TARGET_CALLBACK); [|done].
    unfold output_callback. erewrite bind_Ret by done. simpl. rewrite Hg. by destruct (callback _). }
  c_step H3. eexists. split; [reflexivity|].
  unfold w3, w2. clear H3 w3 w2. destruct (has _ LOG_TARGET_CALLBACK && _); split_and!; simpl;
    rewrite ?Hfs, ?Hout, ?Herr, ?Hca, ?Hg, ?app_nil_r; reflexivity.
Qed.

(** ** Properties *)

(** C5. The asynchronous writer is a lossless FIFO: in every state reachable
    from a successful [log_init] (any interleaving of producers, the writer
    thread and [log_close], with or without spurious wake-ups, before
    [log_close] has returned) the entries delivered so far, the one in flight
    and the ring's contents are exactly the entries pushed, in order;
    [total_entries] counts the deliveries; and when the writer thread ends
    nothing that was pushed is left undelivered. *)
Theorem log_async_fifo sp cfg w w0 s :
  log_init localtime (Some cfg) w = Ret (0, w0) → cfg.(async_mode) = true →
  0 < cfg.(ring_buffer_size) < 2 ^ 64 → is_u64 w0.(g).(total_entries) →
  areach localtime sp (AState w0 CLoop KIdle [] []) s → s.(clos) ≠ KClosed →
  ring_ok s.(aw).(ring) ∧
  s.(handled) ++ inflight s.(cons) ++ queue s.(aw).(ring) = s.(pushed) ∧
  s.(aw).(g).(total_entries) = u64 (w0.(g).(total_entries) + Z.of_nat (length s.(handled))) ∧
  (∀ s', astep localtime sp s s' → s.(cons) ≠ CDone → s'.(cons) = CDone →
     s'.(handled) = s'.(pushed)).
Proof.
  intros Hi Ha Hs Hu Hr Hk. destruct (log_init_async cfg w w0 Hi Ha Hs) as (Hok & Hq & _ & _).
  assert (HI0 : async_inv w0.(g).(total_entries) (AState w0 CLoop KIdle [] [])).
  { split; simpl; [done|done|]. rewrite Z.add_0_r. symmetry. by apply u64_small. }
  pose proof (async_reach sp _ _ _ Hr HI0 Hk) as HI. destruct HI as [? ? ?].
  split_and!; try done. intros s' Hst Hc Hc'. eapply async_step; [exact Hst|by split| |done|done].
  intros E. destruct Hst; simpl in *; try done; by destruct d.
Qed.

(** [log_close] clears [running] and signals without holding the ring lock,
    so the signal can fall between the writer's test and its wait: a state is
    reachable in which [log_close] is joining a writer that waits for ever;
    only another [log_write] could let any thread move. *)
Theorem log_close_lost_wakeup cfg w w0 :
  log_init localtime (Some cfg) w = Ret (0, w0) → cfg.(async_mode) = true →
  0 < cfg.(ring_buffer_size) < 2 ^ 64 →
  ∃ s, areach localtime false (AState w0 CLoop KIdle [] []) s ∧ s.(clos) = KJoining ∧
    ∀ s', astep localtime false s s' → ∃ e, s'.(pushed) = s.(pushed) ++ [e].
Proof.
  intros Hi Ha Hs. destruct (log_init_async cfg w w0 Hi Ha Hs) as (Hok & _ & Hc & Hrun).
  set (w1 := set_g (set_running false) w0). exists (AState w1 (CWaiting false) KJoining [] []).
  split; [|split; [done|]].
  - assert (Hb : ring_buffer_pop w0 = Blocked).
    { pose proof (ring_pop_run w0 Hok) as H. by rewrite Hc, decide_True, Hrun in H. }
    pose proof (st_loop localtime false w0 KIdle [] []) as S1. rewrite Hrun in S1.
    pose proof (st_pop_block localtime false w0 false KIdle [] [] Hb) as S2.
    pose proof (st_close_clear localtime false w0 (CWillWait false) [] []) as S3.
    pose proof (st_close_signal localtime false w1 (CWillWait false) [] []) as S4.
    pose proof (st_wait localtime false w1 false KJoining [] []) as S5.
    do 5 (eapply ar_step; [|eassumption]). constructor.
  - intros s' Hst. inversion Hst; subst; [|done]. by eexists.
Qed.

(** Synchronous [log_write]: a message below the level is dropped without
    any effect; otherwise, when the size limit is not reached, the line goes to
    the end of the log file, to stdout or (from ERROR on) stderr and to the
    callback according to the targets, the counters advance and the mutex is
    free again. *)
Theorem log_write_sync l fl ln fn text w path :
  let e := Entry l fl ln fn w.(clock) w.(self) (take (Z.to_nat 4095) text) in
  w.(g).(config).(async_mode) = false → w.(g).(mutex) = false →
  has w.(g).(config).(targets) LOG_TARGET_FILE = true → w.(g).(log_file) = Some path →
  strlen (prefix w.(g).(config).(format) e) ≤ 4096 → must_rotate w e = false →
  if decide (l < w.(g).(config).(min_level)) then log_write localtime l fl ln fn text w = Ret (tt, w)
  else ∃ w', log_write localtime l fl ln fn text w = Ret (tt, w') ∧
    w'.(fs) = <[path := default [] (w.(fs) !! path) ++ line_of w e]> w.(fs) ∧
    w'.(out) = w.(out) ++ (if has w.(g).(config).(targets) LOG_TARGET_CONSOLE &&
                              negb (LOG_ERROR <=? l) then line_of w e else []) ∧
    w'.(err) = w.(err) ++ (if has w.(g).(config).(targets) LOG_TARGET_CONSOLE &&
                              (LOG_ERROR <=? l) then line_of w e else []) ∧
    w'.(called) = w.(called) ++ (if has w.(g).(config).(targets) LOG_TARGET_CALLBACK &&
                                    w.(g).(config).(callback) then [e] else []) ∧
    w'.(g) = inc_entries (add_bytes (strlen (line_of w e)) w.(g)).
Proof.
  intros e Ha Hm Ht Hf Hp Hr. unfold log_write. erewrite bind_Ret by done. fold e.
  case_decide as Hl; [by rewrite (proj2 (Z.ltb_lt _ _))|]. rewrite (proj2 (Z.ltb_ge _ _)), Ha by lia.
  unfold lock_mutex. erewrite bind_Ret by (erewrite bind_Ret by done; by rewrite Hm).
  destruct (deliver_run e (set_g (set_mutex true) w) path) as (w' & E & ? & ? & ? & ? & Eg); try done.
  erewrite bind_Ret by exact E. eexists. split; [reflexivity|]. simpl. split_and!; try done.
  rewrite Eg. simpl. unfold set_mutex, inc_entries, add_bytes. simpl. by rewrite Hm.
Qed.

(** In synchronous mode the first message that would exceed the size limit
    never returns: [log_write] holds the mutex when [output_file] calls
    [log_rotate], which locks it again. *)
Theorem log_sync_rotate_deadlock l fl ln fn text w path :
  let e := Entry l fl ln fn w.(clock) w.(self) (take (Z.to_nat 4095) text) in
  w.(g).(config).(min_level) ≤ l →
  w.(g).(config).(async_mode) = false → w.(g).(mutex) = false →
  has w.(g).(config).(targets) LOG_TARGET_FILE = true → w.(g).(log_file) = Some path →
  strlen (prefix w.(g).(config).(format) e) ≤ 4096 → must_rotate w e = true →
  log_write localtime l fl ln fn text w = Blocked.
Proof.
  intros e Hl Ha Hm Ht Hf Hp Hr. unfold log_write. erewrite bind_Ret by done. fold e.
  rewrite (proj2 (Z.ltb_ge _ _)), Ha by lia.
  unfold lock_mutex. erewrite bind_Ret by (erewrite bind_Ret by done; by rewrite Hm).
  set (w0 := set_g (set_mutex true) w).
  assert (Hblock : ∀ w1, g w1 = g w0 → output_file localtime e w1 = Blocked).
  { intros w1 Hg. unfold output_file. erewrite bind_Ret by done. rewrite Hg. simpl. rewrite Hf.
    erewrite bind_Ret by (unfold c_lift; by rewrite format_entry_run, (proj2 (Z.ltb_ge _ _)) by lia).
    unfold must_rotate, line_of in Hr. rewrite Hr. unfold mbind at 1, C_bind at 1.
    assert (Hrot : log_rotate localtime w1 = Blocked); [|by rewrite Hrot].
    unfold log_rotate, lock_mutex. erewrite bind_Ret by done. rewrite Hg. simpl. rewrite Hf.
    unfold mbind at 1, C_bind at 1. erewrite bind_Ret by done. by rewrite Hg. }
  unfold mbind at 1, C_bind at 1. assert (Hd : deliver localtime e w0 = Blocked); [|by rewrite Hd].
  unfold deliver. erewrite bind_Ret by done. simpl. rewrite Ht.
  destruct (has (targets (config (g w))) LOG_TARGET_CONSOLE).
  - erewrite bind_Ret by (by apply output_console_run). unfold mbind at 1, C_bind at 1.
    by rewrite Hblock by (by case_match).
  - erewrite bind_Ret by done. unfold mbind at 1, C_bind at 1. by rewrite Hblock.
Qed.

(** Formatting: while the text in front of the message fits in the 4096-byte
    buffer, the result is the full line cut to 4095 bytes (a long message loses
    its newline); once it does not, [len - pos] wraps around and the next
    snprintf writes outside the buffer. *)
Theorem format_entry_spec fmt e :
  format_entry localtime fmt 4096 e =
  if decide (strlen (prefix fmt e) ≤ 4096)
  then Ret (take (Z.to_nat 4095) (prefix fmt e ++ e.(message) ++ [x0a])) else UB.
Proof.
  rewrite format_entry_run by lia. case_decide.
  - by rewrite (proj2 (Z.ltb_ge _ _)) by lia.
  - by rewrite (proj2 (Z.ltb_lt _ _)) by lia.
Qed.

(** Rotation (asynchronous mode) moves to the next index modulo the file
    count and appends to that file: the size counter restarts at zero, so a file
    that is reused grows past [max_file_size] unnoticed. *)
Theorem log_rotation_reuses_files e w path :
  w.(g).(log_file) = Some path → w.(g).(mutex) = false → next_path w ∉ w.(broken) →
  0 ≤ w.(g).(current_file_index) < w.(g).(config).(max_file_count) →
  strlen (prefix w.(g).(config).(format) e) ≤ 4096 → must_rotate w e = true →
  ∃ w', output_file localtime e w = Ret (tt, w') ∧
    w'.(g).(log_file) = Some (next_path w) ∧
    w'.(g).(current_file_index) = (w.(g).(current_file_index) + 1) `mod` w.(g).(config).(max_file_count) ∧
    w'.(fs) !! next_path w = Some (default [] (w.(fs) !! next_path w) ++ line_of w e) ∧
    w'.(g).(current_file_size) = strlen (line_of w e).
Proof.
  intros Hf Hm Hb Hi Hp Hr. unfold output_file. erewrite bind_Ret by done. rewrite Hf.
  erewrite bind_Ret by (unfold c_lift; by rewrite format_entry_run, (proj2 (Z.ltb_ge _ _)) by lia).
  unfold must_rotate, line_of in *. rewrite Hr.
  erewrite bind_Ret by (by apply (log_rotate_run w path)). erewrite bind_Ret by done. simpl.
  eexists. split; [reflexivity|]. split_and!; simpl.
  - done.
  - unfold next_index. destruct (Z.leb_spec (max_file_count (config (g w))) (current_file_index (g w) + 1)).
    + replace (current_file_index (g w) + 1) with (max_file_count (config (g w))) by lia.
      by rewrite Z.mod_same by lia.
    + by rewrite Z.mod_small by lia.
  - by rewrite !lookup_insert_eq.
  - apply u64_small. unfold strlen. rewrite length_take. lia.
Qed.

End spec.

(** ** Witnesses *)

Definition wit_time (_ : Z) : tm := Tm 124 0 15 10 30 0.
Definition wit_config (async : bool) (maxsize : Z) : log_config_t :=
  Config LOG_INFO 3 2 (str "log") (str "app") maxsize 2 LOG_ROTATE_SIZE async 2 false.
Definition wit_g (cfg : log_config_t) (f : option (list byte)) : g_log_t :=
  GLog cfg f 0 0 false false 0 0.
Definition wit_world (cfg : log_config_t) (f : option (list byte)) : world :=
  World (wit_g cfg f) (Ring [] 0 0 0 0) ∅ ∅ ∅ [] [] [] 1705314600000000 77 true true.
Definition wit_entry : log_entry_t :=
  Entry LOG_WARN (str "main.c") 3 (str "main") 1705314600000000 77 (str "hi").

(** The state after [log_init] in asynchronous mode. *)
Definition wit_started : world :=
  match log_init wit_time (Some (wit_config true 100)) (wit_world (wit_config true 100) None) with
  | Ret (_, w) => w
  | _ => wit_world (wit_config true 100) None
  end.
Lemma wit_started_eq :
  log_init wit_time (Some (wit_config true 100)) (wit_world (wit_config true 100) None) =
  Ret (0, wit_started).
Proof. vm_compute. reflexivity. Qed.

Definition wit_pushed : world :=
  match ring_buffer_push wit_entry wit_started with Ret (_, w) => w | _ => wit_started end.

Lemma log_async_fifo_witness :
  ∃ s, areach wit_time true (AState wit_started CLoop KIdle [] []) s ∧ s.(pushed) = [wit_entry] ∧
    s.(handled) ++ inflight s.(cons) ++ queue s.(aw).(ring) = s.(pushed).
Proof.
  set (s := AState wit_pushed CLoop KIdle [wit_entry] []).
  assert (Hr : areach wit_time true (AState wit_started CLoop KIdle [] []) s).
  { eapply ar_step; [constructor|].
    exact (st_push wit_time true wit_started CLoop KIdle [] [] wit_entry wit_pushed
             (λ d, ltac:(done)) eq_refl). }
  exists s. split; [exact Hr|]. split; [reflexivity|].
  destruct (log_async_fifo wit_time true (wit_config true 100) (wit_world (wit_config true 100) None)
    wit_started s wit_started_eq) as (_ & H & _); [reflexivity|simpl; lia|by vm_compute|exact Hr|done|].
  exact H.
Defined.

Lemma log_close_lost_wakeup_witness :
  ∃ s, areach wit_time false (AState wit_started CLoop KIdle [] []) s ∧ s.(clos) = KJoining ∧
    ∀ s', astep wit_time false s s' → ∃ e, s'.(pushed) = s.(pushed) ++ [e].
Proof.
  apply (log_close_lost_wakeup wit_time (wit_config true 100)
    (wit_world (wit_config true 100) None) wit_started wit_started_eq); [reflexivity|simpl; lia].
Defined.

Lemma log_write_sync_witness :
  ∃ w', log_write wit_time LOG_WARN (str "main.c") 3 (str "main") (str "hi")
      (wit_world (wit_config false 100) (Some (str "f"))) = Ret (tt, w') ∧
    w'.(fs) !! str "f" = Some (str "[WARN ] hi" ++ [x0a]).
Proof.
  pose proof (log_write_sync wit_time LOG_WARN (str "main.c") 3 (str "main") (str "hi")
    (wit_world (wit_config false 100) (Some (str "f"))) (str "f")) as H.
  cbv zeta in H. rewrite decide_False in H by (vm_compute; congruence).
  destruct H as (w' & E & Hfs & _); [reflexivity..|by vm_compute|by vm_compute|].
  exists w'. split; [exact E|]. rewrite Hfs. by vm_compute.
Defined.

Lemma log_sync_rotate_deadlock_witness :
  log_write wit_time LOG_WARN (str "main.c") 3 (str "main") (str "hi")
    (wit_world (wit_config false 4) (Some (str "f"))) = Blocked.
Proof.
  apply (log_sync_rotate_deadlock wit_time LOG_WARN _ _ _ _ _ (str "f"));
    [by vm_compute|reflexivity..|by vm_compute|by vm_compute].
Defined.

Lemma log_rotation_reuses_files_witness :
  ∃ w', output_file wit_time wit_entry (wit_world (wit_config true 4) (Some (str "f"))) = Ret (tt, w') ∧
    w'.(g).(current_file_index) = 1.
Proof.
  destruct (log_rotation_reuses_files wit_time wit_entry
    (wit_world (wit_config true 4) (Some (str "f"))) (str "f")) as (w' & E & _ & Hi & _);
    [reflexivity|reflexivity|apply not_elem_of_empty|simpl; lia|by vm_compute|by vm_compute|].
  exists w'. split; [exact E|exact Hi].
Defined.

End LogSysSpec.
