(* ===== verification/Serial.v ===== *)
(** * serial-tool: the serial terminal (serial-tool/src/serial.c, hexdump.c)

    One state holds the port, the bytes written to the device, the scripted results
    of the system calls on it, the log files and standard output; termios flags are
    sets of names.  Messages on standard error are not modelled. *)

From S2P Require Import Prelude.

Module Serial.
#[local] Arguments Z.to_nat : simpl never.

(** ** The port *)

(** termios: the flags the code names; the character size and the speed are values. *)
Inductive flag :=
  | IGNBRK | BRKINT | PARMRK | ISTRIP | INLCR | IGNCR | ICRNL | IXON | IXOFF | IXANY
  | OPOST | PARENB | PARODD | CSTOPB | CRTSCTS | CREAD | CLOCAL
  | ECHO | ECHONL | ICANON | ISIG | IEXTEN.
#[global] Instance flag_eq_dec : EqDecision flag.
Proof. solve_decision. Defined.
Record termios := Termios {
  c_flags : flag → bool; c_size : Z; c_speed : Z; c_vmin : Z; c_vtime : Z
}.
Definition clear (fs : list flag) (t : flag → bool) : flag → bool := λ f, t f && negb (bool_decide (f ∈ fs)).
Definition raise (fs : list flag) (t : flag → bool) : flag → bool := λ f, t f || bool_decide (f ∈ fs).

(** [log_fd] is the name of the open log file. *)
Record serial_port_t := Port {
  fd : Z; device : list byte; baud_rate : Z; data_bits : Z; stop_bits : Z; parity : byte;
  old_termios : option termios; is_open : bool; hex_mode : bool; timestamp : bool;
  log_fd : option (list byte)
}.

(** The results of write, and of select followed by read. *)
Inductive write_t := WRetry | WError | WCount (n : Z).
Inductive read_t := RNothing | RError | RData (bs : list byte).

Record serial := State {
  port : serial_port_t;
  tty : termios;                           (* the device's settings *)
  wire : list byte;                        (* what the device was sent *)
  writes : list write_t;                   (* after these, everything is taken *)
  arriving : list read_t;                  (* after these, nothing arrives *)
  logs : gmap (list byte) (list byte);     (* log files by name *)
  slept : list Z;                          (* arguments of usleep in scripts *)
  stamps : list (list byte);               (* the next readings of the clock, as printed *)
  stdout : list byte
}.
Definition set_port (p : serial_port_t) (s : serial) : serial :=
  State p s.(tty) s.(wire) s.(writes) s.(arriving) s.(logs) s.(slept) s.(stamps) s.(stdout).
Definition set_tty (t : termios) (s : serial) : serial :=
  State s.(port) t s.(wire) s.(writes) s.(arriving) s.(logs) s.(slept) s.(stamps) s.(stdout).
Definition set_out (w : list byte) (ws : list write_t) (s : serial) : serial :=
  State s.(port) s.(tty) w ws s.(arriving) s.(logs) s.(slept) s.(stamps) s.(stdout).
Definition set_arriving (a : list read_t) (s : serial) : serial :=
  State s.(port) s.(tty) s.(wire) s.(writes) a s.(logs) s.(slept) s.(stamps) s.(stdout).
Definition set_logs (l : gmap (list byte) (list byte)) (s : serial) : serial :=
  State s.(port) s.(tty) s.(wire) s.(writes) s.(arriving) l s.(slept) s.(stamps) s.(stdout).
Definition usleep (n : Z) : C serial unit := c_mod (λ s,
  State s.(port) s.(tty) s.(wire) s.(writes) s.(arriving) s.(logs) (s.(slept) ++ [n]) s.(stamps) s.(stdout)).
Definition printed (m : list byte) (s : serial) : serial :=
  State s.(port) s.(tty) s.(wire) s.(writes) s.(arriving) s.(logs) s.(slept) s.(stamps) (s.(stdout) ++ m).
Definition print (m : list byte) : C serial unit := c_mod (printed m).
(** A reading of the clock. *)
Definition stamp : C serial (list byte) := λ s,
  Ret (default [] (head s.(stamps)),
       State s.(port) s.(tty) s.(wire) s.(writes) s.(arriving) s.(logs) s.(slept) (tail s.(stamps)) s.(stdout)).

Definition supported_rates : list Z :=
  [50; 75; 110; 134; 150; 200; 300; 600; 1200; 1800; 2400; 4800; 9600; 19200; 38400; 57600; 115200; 230400;
   460800; 500000; 576000; 921600; 1000000; 1500000; 2000000].
(** A speed constant is named by its rate. *)
Definition serial_baud_const (baud : Z) : Z := if bool_decide (baud ∈ supported_rates) then baud else 115200.

Definition serial_open (dev : list byte) (baud open_fd : Z) (getattr_ok : bool) : C serial Z :=
  let fresh f := Port f [] 0 0 0 x00 None false false false None in
  if open_fd <? 0 then c_mod (set_port (fresh open_fd));; mret (-1)
  else if negb getattr_ok then c_mod (set_port (fresh (-1)));; mret (-1)
  else s ← c_get;
       c_mod (set_port (Port open_fd (cstr (strncpy_zeroed 256 255 dev)) baud 0 0 x00 (Some s.(tty))
                          true false false None));;
       mret 0.

Definition toupper (c : byte) : byte := if is_lower c then z2b (b2z c - 32) else c.
(** The settings [serial_configure] asks for. *)
Definition raw_settings (baud bits stop : Z) (par : byte) (t : termios) : termios :=
  let t1 := clear [IGNBRK; BRKINT; PARMRK; ISTRIP; INLCR; IGNCR; ICRNL; IXON; IXOFF; IXANY; OPOST;
                   PARENB; PARODD; CSTOPB; CRTSCTS] t.(c_flags) in
  let t2 := raise [CREAD; CLOCAL] t1 in
  let t3 := if stop =? 2 then raise [CSTOPB] t2 else t2 in
  let t4 := if bool_decide (toupper par = x45) then raise [PARENB] t3
            else if bool_decide (toupper par = x4f) then raise [PARENB; PARODD] t3 else t3 in
  Termios (clear [ECHO; ECHONL; ICANON; ISIG; IEXTEN] t4)
    (if (5 <=? bits) && (bits <=? 8) then bits else 8) (serial_baud_const baud) 0 0.
Definition serial_configure (baud bits stop : Z) (par : byte) (getattr_ok setattr_ok : bool) : C serial Z :=
  s ← c_get;
  let p := s.(port) in
  if negb p.(is_open) then mret (-1) else if negb getattr_ok then mret (-1)
  else if negb setattr_ok then mret (-1)
  else
    c_mod (set_tty (raw_settings baud bits stop par s.(tty)));;
    c_mod (set_port (Port p.(fd) p.(device) baud (if (5 <=? bits) && (bits <=? 8) then bits else 8) stop
                       (toupper par) p.(old_termios) p.(is_open) p.(hex_mode) p.(timestamp) p.(log_fd)));;
    mret 0.

(** [write] in a loop: whether it succeeded. *)
Fixpoint write_loop (ws : list write_t) (sent rest : list byte) : bool * list byte * list write_t :=
  match rest with
  | [] => (true, sent, ws)
  | _ =>
      match ws with
      | [] => (true, sent ++ rest, [])
      | WRetry :: ws' => write_loop ws' sent rest
      | WError :: ws' => (false, sent, ws')
      | WCount n :: ws' =>
          let k := Z.to_nat (Z.min n (strlen rest)) in
          write_loop ws' (sent ++ take k rest) (drop k rest)
      end
  end.
(** Three writes to the log file, when one is open. *)
Definition log_record (prefix data : list byte) : C serial unit :=
  s ← c_get;
  match s.(port).(log_fd) with
  | None => mret tt
  | Some f => c_mod (set_logs (<[f := default [] (s.(logs) !! f) ++ prefix ++ data ++ [x0a]]> s.(logs)))
  end.
Definition serial_send (data : list byte) : C serial Z :=
  s ← c_get;
  if negb s.(port).(is_open) then mret (-1) else
  let '(ok, w, ws) := write_loop s.(writes) s.(wire) data in
  c_mod (set_out w ws);;
  if (ok : bool) then log_record (str ">> ") data;; mret (strlen data) else mret (-1).
Definition serial_send_str (s : option (list byte)) : C serial Z :=
  match s with None => mret (-1) | Some s => serial_send s end.

Definition xdigit (c : byte) : option Z :=
  if is_digit c then Some (b2z c - 48)
  else if (97 <=? b2z c) && (b2z c <=? 102) then Some (b2z c - 87)
  else if (65 <=? b2z c) && (b2z c <=? 70) then Some (b2z c - 55) else None.
Fixpoint xdigits (acc : Z) (s : list byte) : Z :=
  match s with
  | c :: s' => match xdigit c with Some d => xdigits (16 * acc + d) s' | None => acc end
  | [] => acc
  end.
(** [strtol(s, &end, 16)] on a short string; [None] when no digit was found. *)
Definition strtol16 (s : list byte) : option Z :=
  let s := skip_space s in
  let '(neg, s) := match s with x2d :: r => (true, r) | x2b :: r => (false, r) | _ => (false, s) end in
  match s with
  | [] => None
  | c :: r =>
      match xdigit c with
      | None => None
      | Some _ =>
          let v := match c, r with
                   | x30, x :: d :: _ =>
                       if (bool_decide (x = x78) || bool_decide (x = x58)) && bool_decide (is_Some (xdigit d))
                       then xdigits 0 (drop 1 r) else xdigits 0 s
                   | _, _ => xdigits 0 s
                   end in
          Some (if (neg : bool) then - v else v)
      end
  end.

Definition is_blank (c : byte) : bool := bool_decide (c = x20) || bool_decide (c = x09).
(** The bytes named by a text like "FF 01 A3" or "FF01A3", at most [room]. *)
Fixpoint parse_hex (fuel room : nat) (p : list byte) : option (list byte) :=
  match room with
  | O => Some []
  | S room' =>
      match (span_n (length p) is_blank p).2 with
      | [] => Some []
      | a :: p' =>
        match fuel with
        | O => None
        | S fuel' =>
          let '(h, p'') := match p' with
                           | b :: q => if is_blank b then ([a], p') else ([a; b], q)
                           | [] => ([a], [])
                           end in
          match strtol16 h with
          | None => None
          | Some v => match parse_hex fuel' room' p'' with Some bs => Some (z2b (u8 v) :: bs) | None => None end
          end
        end
      end
  end.
Definition serial_send_hex (hex_str : option (list byte)) : C serial Z :=
  match hex_str with
  | None => mret (-1)
  | Some h =>
      match parse_hex (length h) (Z.to_nat 4096) h with
      | None => mret (-1)
      | Some [] => mret 0
      | Some bs => serial_send bs
      end
  end.

Definition serial_recv (max_len : Z) : C serial (Z * list byte) :=
  s ← c_get;
  if negb s.(port).(is_open) then mret (-1, []) else
  match s.(arriving) with
  | [] => mret (0, [])
  | RNothing :: a => c_mod (set_arriving a);; mret (0, [])
  | RError :: a => c_mod (set_arriving a);; mret (-1, [])
  | RData bs :: a =>
      if strlen bs <=? max_len then c_mod (set_arriving a);; mret (strlen bs, bs)
      else c_mod (set_arriving (RData (drop (Z.to_nat max_len) bs) :: a));;
           mret (max_len, take (Z.to_nat max_len) bs)
  end.

Definition serial_flush (tcflush : Z) : C serial Z :=
  s ← c_get;
  mret (if s.(port).(is_open) then tcflush else -1).

Definition serial_close : C serial unit :=
  s ← c_get;
  let p := s.(port) in
  (if p.(is_open) && (0 <=? p.(fd)) then
     match p.(old_termios) with Some t => c_mod (set_tty t) | None => c_ub end
   else mret tt);;
  c_mod (set_port (Port (-1) p.(device) p.(baud_rate) p.(data_bits) p.(stop_bits) p.(parity) p.(old_termios)
                     false p.(hex_mode) p.(timestamp) None)).

(** The names in /dev that start with a pattern and can be opened, up to [room]. *)
Fixpoint scan_dev (pattern : list byte) (openable : list byte → bool) (room : nat) (names : list (list byte))
    : list (list byte) :=
  match room, names with
  | O, _ | _, [] => []
  | S room', n :: names' =>
      let full_path := take (Z.to_nat 255) (str "/dev/" ++ n) in
      if is_prefix pattern n && openable full_path then full_path :: scan_dev pattern openable room' names'
      else scan_dev pattern openable room names'
  end.
(** [names] are the entries of /dev in the order of readdir, if it can be opened. *)
Definition serial_list_ports (names : option (list (list byte))) (openable : list byte → bool) (max_ports : nat)
    : list (list byte) :=
  match names with
  | None => []
  | Some ns =>
      foldl (λ found pattern, found ++ scan_dev pattern openable (max_ports - length found) ns) []
        [str "ttyUSB"; str "ttyACM"; str "ttyS"]
  end.

(** ** Hex dumps *)

Definition is_print (c : byte) : bool := (32 <=? b2z c) && (b2z c <=? 126).
Definition dump_hex (chunk : list byte) : list byte :=
  mjoin ((λ j, match chunk !! j with Some c => hex2 c ++ [x20] | None => str "   " end ++
               (if (j =? 7)%nat then [x20] else [])) <$> seq 0 16).
Definition dump_line (offset : Z) (chunk : list byte) : list byte :=
  pad0 8 (hex (u64 offset)) ++ str ": " ++ dump_hex chunk ++ str " |" ++
  ((λ c, if is_print c then c else x2e) <$> chunk) ++ str "|" ++ [x0a].
Fixpoint dump_lines (fuel : nat) (offset : Z) (data : list byte) : list byte :=
  match data, fuel with
  | [], _ => []
  | _, O => []
  | _, S fuel' => dump_line offset (take 16 data) ++ dump_lines fuel' (offset + 16) (drop 16 data)
  end.
Definition hexdump_print (data : list byte) (offset : Z) : C serial unit :=
  print (dump_lines (length data) offset data).

Definition stamped : C serial unit := t ← stamp; print (str "[" ++ t ++ str "] ").
Fixpoint timestamp_loop (data : list byte) : C serial unit :=
  match data with
  | [] => mret tt
  | c :: data' =>
      (if bool_decide (c = x0a) then
         print [x0a];; match data' with [] => mret tt | _ => stamped end
       else if bool_decide (c = x0d) then mret tt
       else if is_print c then print [c] else print (str "\x" ++ hex2 c));;
      timestamp_loop data'
  end.
Definition hexdump_timestamp (data : list byte) : C serial unit :=
  match data with [] => mret tt | _ => stamped;; timestamp_loop data end.

End Serial.
