(* ===== verification/SerialTerminal.v ===== *)
(** * serial-tool: the interactive terminal (serial-tool/src/terminal.c)

    Every return of select is an event of a script; keys that are read go through
    the escape, line and raw modes as the code has them.  Standard input is a
    terminal whose settings are raw or those from before. *)

From S2P Require Import Prelude Serial.
Import Serial.

Module Terminal.
#[local] Arguments Z.to_nat : simpl never.

(** The static line buffer is part of the state. *)
Record terminal := Term {
  dev : serial; running : bool; escape_mode : bool; local_echo : bool; line_mode : bool;
  line_buf : list byte; line_pos : Z;
  typed : list byte;                      (* what fgets will read from standard input *)
  raw : bool                              (* the keyboard's terminal: raw or as it was *)
}.
Definition set_dev (d : serial) (t : terminal) : terminal :=
  Term d t.(running) t.(escape_mode) t.(local_echo) t.(line_mode) t.(line_buf) t.(line_pos) t.(typed) t.(raw).
Definition set_running (b : bool) (t : terminal) : terminal :=
  Term t.(dev) b t.(escape_mode) t.(local_echo) t.(line_mode) t.(line_buf) t.(line_pos) t.(typed) t.(raw).
Definition set_escape (b : bool) (t : terminal) : terminal :=
  Term t.(dev) t.(running) b t.(local_echo) t.(line_mode) t.(line_buf) t.(line_pos) t.(typed) t.(raw).
Definition set_echo (b : bool) (t : terminal) : terminal :=
  Term t.(dev) t.(running) t.(escape_mode) b t.(line_mode) t.(line_buf) t.(line_pos) t.(typed) t.(raw).
Definition set_line_mode (b : bool) (t : terminal) : terminal :=
  Term t.(dev) t.(running) t.(escape_mode) t.(local_echo) b t.(line_buf) t.(line_pos) t.(typed) t.(raw).
Definition set_line (buf : list byte) (pos : Z) (t : terminal) : terminal :=
  Term t.(dev) t.(running) t.(escape_mode) t.(local_echo) t.(line_mode) buf pos t.(typed) t.(raw).
Definition set_typed (l : list byte) (t : terminal) : terminal :=
  Term t.(dev) t.(running) t.(escape_mode) t.(local_echo) t.(line_mode) t.(line_buf) t.(line_pos) l t.(raw).
Definition set_raw (b : bool) (t : terminal) : terminal :=
  Term t.(dev) t.(running) t.(escape_mode) t.(local_echo) t.(line_mode) t.(line_buf) t.(line_pos) t.(typed) b.

Definition on_port {A} (m : C serial A) : C terminal A := λ t,
  match m t.(dev) with
  | Ret (a, d) => Ret (a, set_dev d t)
  | UB => UB | Blocked => Blocked | Fuel => Fuel
  end.
Definition say (m : list byte) : C terminal unit := on_port (print m).

Definition terminal_help : C terminal unit :=
  say ([x0a] ++ str "=== Serial Terminal Help ===" ++ [x0a] ++
    str "  Ctrl+A ?    - Show this help" ++ [x0a] ++
    str "  Ctrl+A q    - Quit" ++ [x0a] ++
    str "  Ctrl+A h    - Toggle hex display mode" ++ [x0a] ++
    str "  Ctrl+A t    - Toggle timestamps" ++ [x0a] ++
    str "  Ctrl+A e    - Toggle local echo" ++ [x0a] ++
    str "  Ctrl+A l    - Toggle line mode" ++ [x0a] ++
    str "  Ctrl+A s    - Send file" ++ [x0a] ++
    str "  Ctrl+A c    - Send Ctrl+C (break)" ++ [x0a] ++
    str "  Ctrl+A d    - Send Ctrl+D" ++ [x0a] ++
    str "============================" ++ [x0a; x0a]).

(** [set_raw_mode] on a terminal: the settings before, raw from now on. *)
Definition set_raw_mode : C terminal bool := t ← c_get; c_mod (set_raw true);; mret t.(raw).

(** ** Sending a file, displaying data *)

(** Pieces of 1024 bytes; [None] when a send failed, else the bytes sent. *)
Fixpoint send_pieces (fuel : nat) (file_size total : Z) (rest : list byte) : C serial (option Z) :=
  match rest with
  | [] => mret (Some total)
  | _ =>
    match fuel with
    | O => c_fuel
    | S fuel' =>
        ret ← serial_send (take (Z.to_nat 1024) rest);
        if ret <? 0 then
          print ([x0a] ++ str "Send error at byte " ++ dec total ++ [x0a]);; mret None
        else
          (if 0 <? file_size then
             print ([x0d] ++ str "Progress: " ++ dec (total + ret) ++ str "/" ++ dec file_size ++ str " bytes (" ++
                    dec (s32 (u64 ((total + ret) * 100) `div` file_size)) ++ str "%)")
           else mret tt);;
          send_pieces fuel' file_size (total + ret) (drop (Z.to_nat 1024) rest)
    end
  end.
(** [file] is the content, if the file can be opened. *)
Definition send_file (filename : list byte) (file : option (list byte)) : C serial Z :=
  match file with
  | None => print ([x0a] ++ str "Cannot open file: " ++ filename ++ [x0a]);; mret (-1)
  | Some c =>
      print ([x0a] ++ str "Sending file " ++ filename ++ str " (" ++ dec (strlen c) ++ str " bytes)..." ++ [x0a]);;
      r ← send_pieces (length c) (strlen c) 0 c;
      match r with
      | None => mret (-1)
      | Some n => print ([x0a] ++ str "File sent: " ++ dec n ++ str " bytes" ++ [x0a]);; mret (s32 n)
      end
  end.

Definition display_data (data : list byte) : C serial unit :=
  s ← c_get;
  (if s.(port).(hex_mode) then hexdump_print data 0
   else if s.(port).(timestamp) then hexdump_timestamp data else print data);;
  log_record (str "<< ") data.

(** ** Keys *)

Section keys.
Context (files : list byte → option (list byte)).
Context (orig : bool).   (* the keyboard's settings before the session *)

Definition on_off (b : bool) : list byte := if b then str "ON" else str "OFF".
Definition with_modes (hex ts : bool) (p : serial_port_t) : serial_port_t :=
  Port p.(fd) p.(device) p.(baud_rate) p.(data_bits) p.(stop_bits) p.(parity) p.(old_termios) p.(is_open)
    hex ts p.(log_fd).
Definition set_modes (hex ts : bool) : C terminal unit :=
  on_port (c_mod (λ s, set_port (with_modes hex ts s.(port)) s)).

(** The name typed at the prompt, its line end removed. *)
Definition chomp (s : list byte) : list byte :=
  reverse ((span_n (length s) (λ c, bool_decide (c = x0a) || bool_decide (c = x0d)) (reverse s)).2).
Definition prompt_line : C terminal unit :=
  say ([x0a] ++ str "File to send: ");;
  t ← c_get;
  match t.(typed) with
  | [] => mret tt
  | l => let '(line, rest) := fgets_line (Z.to_nat 255) l in
         c_mod (set_typed rest);;
         match chomp (cstr line) with
         | [] => mret tt
         | name => on_port (send_file name (files name));; mret tt
         end
  end.
(** The settings saved first are overwritten by the second [set_raw_mode]. *)
Definition prompt_and_send : C terminal unit :=
  c_mod (set_raw orig);;
  prompt_line;;
  saved ← set_raw_mode;
  c_mod (set_raw saved).

Definition send_key (c : byte) (echo : list byte) : C terminal unit :=
  on_port (serial_send [c]);;
  t ← c_get;
  if t.(local_echo) then say echo else mret tt.

Definition either (c a b : byte) : bool := bool_decide (c = a) || bool_decide (c = b).
(** The key after Ctrl+A. *)
Definition escape_key (ch : byte) : C terminal unit :=
  c_mod (set_escape false);;
  t ← c_get;
  if bool_decide (ch = x3f) then terminal_help
  else if either ch x71 x51 then say ([x0a] ++ str "Exiting terminal..." ++ [x0a]);; c_mod (set_running false)
  else if either ch x68 x48 then
    let b := negb t.(dev).(port).(hex_mode) in
    set_modes b t.(dev).(port).(timestamp);; say ([x0a] ++ str "Hex mode: " ++ on_off b ++ [x0a])
  else if either ch x74 x54 then
    let b := negb t.(dev).(port).(timestamp) in
    set_modes t.(dev).(port).(hex_mode) b;; say ([x0a] ++ str "Timestamps: " ++ on_off b ++ [x0a])
  else if either ch x65 x45 then
    let b := negb t.(local_echo) in
    c_mod (set_echo b);; say ([x0a] ++ str "Local echo: " ++ on_off b ++ [x0a])
  else if either ch x6c x4c then
    let b := negb t.(line_mode) in
    c_mod (set_line_mode b);; say ([x0a] ++ str "Line mode: " ++ on_off b ++ [x0a])
  else if either ch x73 x53 then prompt_and_send
  else if either ch x63 x43 then send_key x03 (str "^C")
  else if either ch x64 x44 then send_key x04 (str "^D")
  else if either ch x61 x41 then on_port (serial_send [ch]);; mret tt
  else say ([x0a] ++ str "Unknown command: Ctrl+A " ++ [ch; x0a]);; terminal_help.

(** A store into [line_buf] at [pos]. *)
Definition poke (pos : Z) (c : byte) : C terminal unit :=
  t ← c_get;
  match t.(line_buf) !! Z.to_nat pos with
  | None => c_ub
  | Some _ => c_mod (set_line (<[Z.to_nat pos := c]> t.(line_buf)) t.(line_pos))
  end.
Definition echo_if (m : list byte) : C terminal unit :=
  t ← c_get; if t.(local_echo) then say m else mret tt.
Definition line_key (ch : byte) : C terminal unit :=
  t ← c_get;
  let pos := t.(line_pos) in
  if either ch x0d x0a then
    poke pos x0a;;
    t ← c_get;
    on_port (serial_send (take (Z.to_nat (pos + 1)) t.(line_buf)));;
    echo_if [x0d; x0a];;
    c_mod (λ t, set_line t.(line_buf) 0 t)
  else if either ch x7f x08 then
    if 0 <? pos then c_mod (set_line t.(line_buf) (pos - 1));; echo_if [x08; x20; x08] else mret tt
  else if pos <? 1023 then
    poke pos ch;; c_mod (λ t, set_line t.(line_buf) (pos + 1) t);; echo_if [ch]
  else mret tt.
Definition raw_key (ch : byte) : C terminal unit :=
  on_port (serial_send [ch]);;
  echo_if (if bool_decide (ch = x0d) then [x0d; x0a]
           else if b2z ch <? 32 then [x5e; z2b (b2z ch + 64)] else [ch]).

Definition key (ch : byte) : C terminal unit :=
  t ← c_get;
  if t.(escape_mode) then escape_key ch
  else if bool_decide (ch = x01) then c_mod (set_escape true)
  else if t.(line_mode) then line_key ch
  else raw_key ch.

(** ** The loop *)

(** A return of select: interrupted, failed, or the descriptors that are ready,
    with what read returns for the keyboard. *)
Inductive event := EvIntr | EvError | EvReady (serial_ready : bool) (keyboard : option (option byte)).

(** Data from the port: [false] leaves the loop. *)
Definition port_ready : C terminal bool :=
  r ← on_port (serial_recv 4096);
  if 0 <? r.1 then on_port (display_data r.2);; mret true
  else mret (negb (r.1 <? 0)).
Definition keyboard_ready (k : option byte) : C terminal unit :=
  match k with None => mret tt | Some ch => key ch end.

(** After the script nothing happens any more. *)
Fixpoint terminal_loop (script : list event) : C terminal unit :=
  t ← c_get;
  if negb t.(running) then mret tt else
  match script with
  | [] => c_blocked
  | EvIntr :: script' => terminal_loop script'
  | EvError :: _ => mret tt
  | EvReady sr kb :: script' =>
      go ← (if sr then port_ready else mret true);
      if negb go then mret tt else
      (match kb with None => mret tt | Some k => keyboard_ready k end);;
      terminal_loop script'
  end.
End keys.

Definition terminal_run (files : list byte → option (list byte)) (script : list event) : C terminal Z :=
  t ← c_get;
  if negb t.(dev).(port).(is_open) then mret (-1) else
  orig ← set_raw_mode;
  terminal_help;; terminal_loop files orig script;;
  c_mod (set_raw orig);; mret 0.
End Terminal.
