(* ===== verification/SerialSpec.v ===== *)
(** * serial-tool: sending, hexadecimal text, dumps, the keyboard *)

From S2P Require Import Prelude Serial SerialTerminal.
Import Serial Terminal.

Module SerialSpec.
#[local] Arguments Z.to_nat : simpl never.

(** ** Sending *)

Lemma write_loop_run ws : ∀ sent rest, ∃ ok k ws',
  write_loop ws sent rest = (ok, sent ++ take k rest, ws') ∧ ws' `suffix_of` ws ∧
  ((ok = true ∧ (length rest ≤ k)%nat) ∨ (ok = false ∧ (k < length rest)%nat ∧ WError ∈ ws)).
Proof.
  induction ws as [|e ws IH]; intros sent rest; destruct rest as [|b rest].
  - exists true, 0%nat, []. rewrite app_nil_r. split_and!; [done|done|by left].
  - exists true, (length (b :: rest)), []. rewrite take_ge by done. split_and!; [done|done|by left].
  - exists true, 0%nat, (e :: ws). rewrite app_nil_r. split_and!; [done|done|by left].
  - destruct e as [| |n]; cbn [write_loop].
    + destruct (IH sent (b :: rest)) as (ok & k & ws' & E & Hsuf & Hc). exists ok, k, ws'.
      split_and!; [done|by apply suffix_cons_r|]. destruct Hc as [?|(? & ? & ?)]; [by left|right].
      split_and!; [done|done|by right].
    + exists false, 0%nat, ws. rewrite take_0, app_nil_r. split_and!; [done|by apply suffix_cons_r|].
      right. split_and!; [done|simpl; lia|by left].
    + set (m := Z.to_nat (Z.min n (strlen (b :: rest)))).
      destruct (IH (sent ++ take m (b :: rest)) (drop m (b :: rest))) as (ok & k & ws' & E & Hsuf & Hc).
      assert (Hm : (m ≤ length (b :: rest))%nat) by (unfold m, strlen; lia).
      exists ok, (m + k)%nat, ws'. rewrite E, <- (assoc_L (++)), take_take_drop, length_drop in *.
      split_and!; [done|by apply suffix_cons_r|]. destruct Hc as [[? ?]|(? & ? & ?)]; [left|right].
      * split; [done|lia].
      * split_and!; [done|lia|by right].
Qed.

(** The log after a record. *)
Definition logged (prefix data : list byte) (s : serial) : gmap (list byte) (list byte) :=
  match s.(port).(log_fd) with
  | None => s.(logs)
  | Some f => <[f := default [] (s.(logs) !! f) ++ prefix ++ data ++ [x0a]]> s.(logs)
  end.
Lemma log_record_run prefix data s : log_record prefix data s = Ret (tt, set_logs (logged prefix data s) s).
Proof. unfold log_record, logged. c_simpl. destruct s as [p ? ? ? ? ? ? ? ?]. simpl. by destruct (log_fd p). Qed.

Lemma serial_send_run data s : s.(port).(is_open) = true → ∃ k ws,
  (serial_send data s = Ret (strlen data, set_logs (logged (str ">> ") data s) (set_out (s.(wire) ++ data) ws s)) ∧
   ws `suffix_of` s.(writes)) ∨
  (serial_send data s = Ret (-1, set_out (s.(wire) ++ take k data) ws s) ∧ (k < length data)%nat ∧
   WError ∈ s.(writes) ∧ ws `suffix_of` s.(writes)).
Proof.
  intros Ho. destruct (write_loop_run s.(writes) s.(wire) data) as (ok & k & ws & E & Hsuf & Hc).
  exists k, ws. unfold serial_send. erewrite bind_Ret by reflexivity. rewrite Ho. cbn [negb]. rewrite E.
  erewrite bind_Ret by reflexivity. destruct Hc as [[-> Hk]|(-> & Hk & Hin)]; [left|right; done].
  rewrite take_ge by done. erewrite bind_Ret by apply log_record_run. done.
Qed.

(** A device that takes everything. *)
Definition wired (data : list byte) (s : serial) : serial :=
  set_logs (logged (str ">> ") data s) (set_out (s.(wire) ++ data) [] s).
Lemma serial_send_open data s : s.(port).(is_open) = true → s.(writes) = [] →
  serial_send data s = Ret (strlen data, wired data s).
Proof.
  intros Ho Hw. destruct (serial_send_run data s Ho) as (k & ws & [[-> Hs]|(_ & _ & Hin & _)]).
  - rewrite Hw in Hs. by rewrite (suffix_nil_inv _ Hs).
  - rewrite Hw in Hin. by apply elem_of_nil in Hin.
Qed.

(** Sending: whatever write returns, interruptions and partial writes included,
    [serial_send] terminates; it returns the length with every byte on the wire
    once and in order and one record in the log, or -1 after a failed write with a
    proper prefix on the wire and nothing logged. *)
Theorem serial_send_delivers data s : s.(port).(is_open) = true → ∃ r s' k,
  serial_send data s = Ret (r, s') ∧ s'.(wire) = s.(wire) ++ take k data ∧ s'.(arriving) = s.(arriving) ∧
  s'.(port) = s.(port) ∧
  ((r = strlen data ∧ take k data = data ∧ s'.(logs) = logged (str ">> ") data s) ∨
   (r = -1 ∧ (k < length data)%nat ∧ WError ∈ s.(writes) ∧ s'.(logs) = s.(logs))).
Proof.
  intros Ho. destruct (serial_send_run data s Ho) as (k & ws & [[E _]|(E & Hk & Hin & _)]).
  - do 2 eexists. exists (length data). rewrite take_ge by done. split; [exact E|].
    split_and!; [done|done|done|by left].
  - do 2 eexists. exists k. split; [exact E|]. split_and!; [done|done|done|by right].
Qed.

(** ** Hexadecimal *)

Definition hex2_check (c : byte) : bool :=
  match hex2 c with
  | [a; b] =>
      match xdigit a, xdigit b with
      | Some x, Some y =>
          bool_decide (z2b (u8 (16 * x + y)) = c ∧ z2b (16 * x + y) = c ∧ is_blank a = false ∧ is_blank b = false ∧
                       a ≠ x20 ∧ a ≠ x3a ∧ strtol16 [a; b] = Some (16 * x + y))
      | _, _ => false
      end
  | _ => false
  end.
Lemma hex2_spec c : ∃ a b x y, hex2 c = [a; b] ∧ xdigit a = Some x ∧ xdigit b = Some y ∧
  z2b (u8 (16 * x + y)) = c ∧ z2b (16 * x + y) = c ∧ is_blank a = false ∧ is_blank b = false ∧ a ≠ x20 ∧ a ≠ x3a ∧
  strtol16 [a; b] = Some (16 * x + y).
Proof.
  assert (Hc : hex2_check c = true) by (destruct c; vm_compute; reflexivity). unfold hex2_check in Hc.
  destruct (hex2 c) as [|a [|b [|? ?]]]; try done. destruct (xdigit a) as [x|] eqn:Hx; [|done]. destruct (xdigit b) as [y|] eqn:Hy; [|done].
  exists a, b, x, y. apply bool_decide_eq_true in Hc. destruct Hc as (? & ? & ? & ? & ? & ? & ?). by split_and!.
Qed.

(** Bytes written out as two digits each, with any blanks in between. *)
Definition hex_text (items : list (list byte * byte)) : list byte := mjoin ((λ i, i.1 ++ hex2 i.2) <$> items).
Lemma hex_text_cons sep c items : hex_text ((sep, c) :: items) = sep ++ hex2 c ++ hex_text items.
Proof. unfold hex_text. cbn [fmap list_fmap mjoin list_join fst snd]. by rewrite <- (assoc_L (++)). Qed.
Lemma hex_text_length items : (length items ≤ length (hex_text items))%nat.
Proof.
  induction items as [|[sep c] items IH]; [done|]. rewrite hex_text_cons, !length_app.
  destruct (hex2_spec c) as (a & b & _ & _ & -> & _). cbn [length]. lia.
Qed.
Definition blanks (l : list byte) : Prop := Forall (λ c, is_blank c = true) l.

Lemma skip_blanks sep a r : blanks sep → is_blank a = false →
  (span_n (length (sep ++ a :: r)) is_blank (sep ++ a :: r)).2 = a :: r.
Proof. intros Hs Ha. rewrite (span_n_exact _ is_blank sep (a :: r)); [done|rewrite length_app; lia|done|done]. Qed.
Lemma skip_all_blanks sep : blanks sep → (span_n (length sep) is_blank sep).2 = [].
Proof. intros Hs. rewrite <- (app_nil_r sep) at 2. by rewrite (span_n_exact _ is_blank sep []). Qed.

Lemma parse_hex_text items trail : ∀ fuel room, Forall (λ i, blanks i.1) items → blanks trail →
  (length items ≤ fuel)%nat → (length items ≤ room)%nat →
  parse_hex fuel room (hex_text items ++ trail) = Some (items.*2).
Proof.
  induction items as [|[sep c] items IH]; intros fuel room Hi Ht Hf Hr.
  - cbn [hex_text fmap list_fmap mjoin list_join app].
    destruct fuel, room; cbn [parse_hex]; try done; by rewrite skip_all_blanks.
  - apply Forall_cons in Hi as [Hs Hi]. cbn [length] in *. destruct room as [|room]; [lia|]. destruct fuel as [|fuel]; [lia|].
    destruct (hex2_spec c) as (a & b & x & y & Hc & _ & _ & Hv & _ & Ha & Hb & _ & _ & Hst).
    assert (E : hex_text ((sep, c) :: items) ++ trail = sep ++ a :: b :: hex_text items ++ trail).
    { by rewrite hex_text_cons, Hc, <- !(assoc_L (++)). }
    rewrite E. cbn [parse_hex]. rewrite skip_blanks by done. rewrite Hb, Hst, IH by (done || lia). by rewrite Hv.
Qed.

(** Hexadecimal input: bytes written as pairs of digits, with or without blanks
    between them, are what [serial_send_hex] sends. *)
Theorem serial_send_hex_roundtrip items trail s :
  Forall (λ i, blanks i.1) items → blanks trail → items ≠ [] → strlen (items.*2) ≤ 4096 →
  serial_send_hex (Some (hex_text items ++ trail)) s = serial_send (items.*2) s.
Proof.
  intros Hi Ht Hne Hl. unfold serial_send_hex. unfold strlen in Hl. rewrite length_fmap in Hl.
  rewrite parse_hex_text; [|done|done| |lia]; [by destruct items|].
  rewrite length_app. pose proof (hex_text_length items). lia.
Qed.

(** ** Dumps *)

(** Reading a dump back: the hex columns of each line. *)
Fixpoint undump_hex (n : nat) (s : list byte) : list byte :=
  match n with
  | O => []
  | S n' =>
      match s with
      | a :: b :: _ :: r =>
          match xdigit a, xdigit b with
          | Some x, Some y => z2b (16 * x + y) :: undump_hex n' (if (n' =? 8)%nat then tail r else r)
          | _, _ => []
          end
      | _ => []
      end
  end.
Definition undump_line (l : list byte) : list byte :=
  undump_hex 16 (drop 2 (span_n (length l) (λ c, negb (bool_decide (c = x3a))) l).2).
Fixpoint undump (fuel : nat) (s : list byte) : list byte :=
  match s, fuel with
  | [], _ => []
  | _, O => []
  | _, S fuel' =>
      let '(l, r) := span_n (length s) (λ c, negb (bool_decide (c = x0a))) s in
      undump_line l ++ undump fuel' (tail r)
  end.

Definition is_newline (c : byte) : bool := bool_decide (c = x0a).
Lemma hex2_no_newline c : Forall (λ b, b ≠ x0a) (hex2 c).
Proof. destruct (hex2_spec c) as (a & b & x & y & -> & Ha & Hb & _). repeat constructor; intros ->; discriminate. Qed.

(** The columns of the bytes, from column [j] on. *)
Definition columns (j n : nat) (chunk : list byte) : list byte :=
  mjoin ((λ j, match chunk !! j with Some c => hex2 c ++ [x20] | None => str "   " end ++
               (if (j =? 7)%nat then [x20] else [])) <$> seq j n).
Lemma undump_columns n : ∀ j chunk rest, (j + n = 16)%nat →
  undump_hex n (columns j n chunk ++ rest) = drop j (take 16 chunk).
Proof.
  induction n as [|n IH]; intros j chunk rest Hj.
  - cbn. rewrite drop_ge; [done|]. rewrite length_take. lia.
  - unfold columns. cbn [seq fmap list_fmap mjoin list_join]. fold (columns (S j) n chunk).
    destruct (chunk !! j) as [c|] eqn:E.
    + destruct (hex2_spec c) as (a & b & x & y & -> & Hx & Hy & _ & Hv & _).
      assert (Hd : drop j (take 16 chunk) = c :: drop (S j) (take 16 chunk)).
      { apply drop_S. rewrite lookup_take_lt by lia. done. }
      cbn [app undump_hex]. rewrite Hx, Hy, Hd, Hv. f_equal.
      rewrite <- (IH (S j) chunk rest) by lia. f_equal.
      destruct (Nat.eqb_spec j 7), (Nat.eqb_spec n 8); try lia; done.
    + apply lookup_ge_None in E. rewrite drop_ge by (rewrite length_take; lia).
      cbn [app undump_hex]. done.
Qed.

Definition not_colon (c : byte) : bool := negb (bool_decide (c = x3a)).
Definition not_newline (c : byte) : bool := negb (bool_decide (c = x0a)).
Lemma hex_digit_char d : 0 ≤ d < 16 →
  let c := z2b (if d <? 10 then 48 + d else 87 + d) in not_colon c = true ∧ not_newline c = true.
Proof.
  intros Hd. assert (H : d = 0 ∨ d = 1 ∨ d = 2 ∨ d = 3 ∨ d = 4 ∨ d = 5 ∨ d = 6 ∨ d = 7 ∨ d = 8 ∨ d = 9 ∨
    d = 10 ∨ d = 11 ∨ d = 12 ∨ d = 13 ∨ d = 14 ∨ d = 15) by lia.
  by repeat (destruct H as [->|H]); subst.
Qed.
Lemma hex_chars fuel : ∀ n acc, Forall (λ c, not_colon c = true ∧ not_newline c = true) acc →
  Forall (λ c, not_colon c = true ∧ not_newline c = true) (digits fuel 16 n acc).
Proof.
  induction fuel as [|fuel IH]; intros n acc Hacc; [done|]. cbn [digits].
  pose proof (hex_digit_char (n `mod` 16) (Z.mod_pos_bound n 16 ltac:(lia))) as Hc.
  destruct (n `div` 16 =? 0); [|apply IH]; by constructor.
Qed.
Lemma offset_chars w n : Forall (λ c, not_colon c = true ∧ not_newline c = true) (pad0 w (hex n)).
Proof. apply Forall_app; split; [apply Forall_replicate; by split|by apply hex_chars]. Qed.

(** A line without its newline. *)
Definition dump_body (offset : Z) (chunk : list byte) : list byte :=
  pad0 8 (hex (u64 offset)) ++ str ": " ++ columns 0 16 chunk ++ str " |" ++
  ((λ c, if is_print c then c else x2e) <$> chunk) ++ str "|".
Lemma dump_line_body offset chunk : dump_line offset chunk = dump_body offset chunk ++ [x0a].
Proof. unfold dump_line, dump_body. by rewrite <- !(assoc_L (++)). Qed.
Lemma columns_chars n : ∀ j chunk, Forall (λ c, not_newline c = true) (columns j n chunk).
Proof.
  induction n as [|n IH]; intros j chunk; [constructor|]. unfold columns.
  cbn [seq fmap list_fmap mjoin list_join]. fold (columns (S j) n chunk).
  apply Forall_app; split; [|apply IH]. apply Forall_app; split; [|by destruct (j =? 7)%nat; repeat constructor].
  destruct (chunk !! j) as [c|]; [|by repeat constructor]. apply Forall_app; split; [|by repeat constructor].
  by destruct c; repeat constructor.
Qed.
Lemma dump_body_chars offset chunk : Forall (λ c, not_newline c = true) (dump_body offset chunk).
Proof.
  unfold dump_body. apply Forall_app; split; [eapply Forall_impl; [apply (offset_chars 8)|]; by intros c []|].
  apply Forall_app; split; [by repeat constructor|]. apply Forall_app; split; [apply columns_chars|].
  apply Forall_app; split; [by repeat constructor|]. apply Forall_app; split; [|by repeat constructor].
  apply Forall_fmap, Forall_true. intros c. by destruct c.
Qed.
Lemma undump_body offset chunk : undump_line (dump_body offset chunk) = take 16 chunk.
Proof.
  unfold undump_line. unfold dump_body at 2. change (str ": ") with [x3a; x20]. cbn [app].
  rewrite (span_n_exact _ _ (pad0 8 (hex (u64 offset)))).
  - cbn [fst snd drop]. rewrite drop_0. by rewrite undump_columns.
  - unfold dump_body. rewrite length_app. lia.
  - eapply Forall_impl; [apply (offset_chars 8)|]. by intros c [].
  - done.
Qed.

Lemma undump_lines n : ∀ fuel offset data, (length data ≤ n)%nat → (length data ≤ fuel)%nat →
  undump n (dump_lines fuel offset data) = data.
Proof.
  induction n as [|n IH]; intros fuel offset data Hn Hf.
  { destruct data; [|simpl in Hn; lia]. by destruct fuel. }
  destruct data as [|b data]; [by destruct fuel|]. destruct fuel as [|fuel]; [simpl in Hf; lia|].
  cbn [dump_lines]. rewrite dump_line_body. set (r := dump_lines fuel (offset + 16) (drop 16 (b :: data))).
  assert (E : undump (S n) ((dump_body offset (take 16 (b :: data)) ++ [x0a]) ++ r) =
    undump_line (dump_body offset (take 16 (b :: data))) ++ undump n r).
  { rewrite <- (assoc_L (++)). cbn [app undump].
    rewrite (span_n_exact _ _ (dump_body offset (take 16 (b :: data))) (x0a :: r)); [|rewrite length_app; lia|apply dump_body_chars|done].
    cbn [tail]. destruct (dump_body offset (take 16 (b :: data)) ++ x0a :: r) eqn:E; [|done].
    by apply app_eq_nil in E as [_ ?]. }
  rewrite E, undump_body, take_take. cbn [length] in *.
  unfold r. rewrite IH by (rewrite length_drop; cbn [length]; lia). apply take_drop.
Qed.

(** Hex dumps: what [hexdump_print] prints determines the data, whatever its
    length and the starting offset; reading the hex columns gives it back. *)
Theorem hexdump_roundtrip data offset s : ∃ text s', hexdump_print data offset s = Ret (tt, s') ∧
  s'.(stdout) = s.(stdout) ++ text ∧ undump (length data) text = data.
Proof. do 2 eexists. split; [reflexivity|]. split; [reflexivity|]. by apply undump_lines. Qed.

(** ** The keyboard *)

Section keyboard.
Context (files : list byte → option (list byte)) (orig : bool).

(** The modes, the line being edited and what fgets has left to read. *)
Record keys := Keys {
  k_running : bool; k_escape : bool; k_echo : bool; k_line : bool; k_pending : list byte; k_typed : list byte;
  k_raw : bool
}.
(** What the prompt of Ctrl+A s leaves of the typed text, and the bytes it sends. *)
Definition prompt_spec (typed : list byte) : list byte * list byte :=
  match typed with
  | [] => ([], [])
  | _ => let '(raw, rest) := fgets_line (Z.to_nat 255) typed in
         (rest, match chomp (cstr raw) with [] => [] | name => default [] (files name) end)
  end.
(** What the code does for the key after Ctrl+A. *)
Definition escape_spec (k : keys) (c : byte) : keys * list byte :=
  let '(Keys r _ e l p t w) := k in
  if bool_decide (c = x3f) then (Keys r false e l p t w, [])
  else if either c x71 x51 then (Keys false false e l p t w, [])
  else if either c x68 x48 then (Keys r false e l p t w, [])
  else if either c x74 x54 then (Keys r false e l p t w, [])
  else if either c x65 x45 then (Keys r false (negb e) l p t w, [])
  else if either c x6c x4c then (Keys r false e (negb l) p t w, [])
  else if either c x73 x53 then (Keys r false e l p (prompt_spec t).1 orig, (prompt_spec t).2)
  else if either c x63 x43 then (Keys r false e l p t w, [x03])
  else if either c x64 x44 then (Keys r false e l p t w, [x04])
  else if either c x61 x41 then (Keys r false e l p t w, [c])
  else (Keys r false e l p t w, []).
(** What the README says it does: a sends Ctrl+A, and sending a file leaves the
    keyboard as it is. *)
Definition documented_escape (k : keys) (c : byte) : keys * list byte :=
  let '(Keys r _ e l p t w) := k in
  if bool_decide (c = x3f) then (Keys r false e l p t w, [])
  else if either c x71 x51 then (Keys false false e l p t w, [])
  else if either c x68 x48 then (Keys r false e l p t w, [])
  else if either c x74 x54 then (Keys r false e l p t w, [])
  else if either c x65 x45 then (Keys r false (negb e) l p t w, [])
  else if either c x6c x4c then (Keys r false e (negb l) p t w, [])
  else if either c x73 x53 then (Keys r false e l p (prompt_spec t).1 w, (prompt_spec t).2)
  else if either c x63 x43 then (Keys r false e l p t w, [x03])
  else if either c x64 x44 then (Keys r false e l p t w, [x04])
  else if either c x61 x41 then (Keys r false e l p t w, [x01])
  else (Keys r false e l p t w, []).
(** The two keys after Ctrl+A that the code treats differently. *)
Definition disputed (k : keys) (c : byte) : bool := k.(k_escape) && (either c x73 x53 || either c x61 x41).

Section by_escape.
Context (escape : keys → byte → keys * list byte).
Definition key_by (k : keys) (c : byte) : keys * list byte :=
  let '(Keys r esc e l p t w) := k in
  if esc then escape k c
  else if bool_decide (c = x01) then (Keys r true e l p t w, [])
  else if l then
    if either c x0d x0a then (Keys r esc e l [] t w, p ++ [x0a])
    else if either c x7f x08 then (Keys r esc e l (take (length p - 1) p) t w, [])
    else (Keys r esc e l (if strlen p <? 1023 then p ++ [c] else p) t w, [])
  else (k, [c]).
(** Keys up to the one that quits. *)
Fixpoint keys_by (k : keys) (cs : list byte) : keys * list byte :=
  match cs with
  | [] => (k, [])
  | c :: cs' =>
      if k.(k_running) then
        let '(k1, o1) := key_by k c in let '(k2, o2) := keys_by k1 cs' in (k2, o1 ++ o2)
      else (k, [])
  end.
Fixpoint undisputed (k : keys) (cs : list byte) : bool :=
  match cs with
  | [] => true
  | c :: cs' => if k.(k_running) then negb (disputed k c) && undisputed (key_by k c).1 cs' else true
  end.
End by_escape.
Notation key_spec := (key_by escape_spec).
Notation keys_spec := (keys_by escape_spec).

(** Apart from those keys the code does what is documented. *)
Lemma key_documented k c : disputed k c = false → key_by escape_spec k c = key_by documented_escape k c.
Proof.
  destruct k as [r [] e l p t w]; [|done]. unfold disputed. cbn [k_escape andb].
  intros [Hs Ha]%orb_false_iff. unfold key_by, escape_spec, documented_escape. by rewrite Hs, Ha.
Qed.
Lemma keys_documented cs : ∀ k, undisputed documented_escape k cs = true → keys_by escape_spec k cs = keys_by documented_escape k cs.
Proof.
  induction cs as [|c cs IH]; intros k H; [done|]. cbn [undisputed keys_by] in *. destruct (k_running k); [|done].
  apply andb_true_iff in H as [Hd%negb_true_iff H]. rewrite (key_documented k c Hd).
  destruct (key_by documented_escape k c) as [k1 o1]. by rewrite (IH k1 H).
Qed.

(** A terminal in these modes, on an open port that takes everything. *)
Definition dev_ok (d : serial) : Prop := d.(port).(is_open) = true ∧ d.(writes) = [].
Record in_modes (t : terminal) (k : keys) : Prop := {
  im_run : t.(running) = k.(k_running); im_esc : t.(escape_mode) = k.(k_escape);
  im_echo : t.(local_echo) = k.(k_echo); im_line : t.(line_mode) = k.(k_line);
  im_buf : length t.(line_buf) = 1024%nat;
  im_pos : t.(line_pos) = strlen k.(k_pending); im_max : strlen k.(k_pending) ≤ 1023;
  im_pending : take (length k.(k_pending)) t.(line_buf) = k.(k_pending);
  im_typed : t.(typed) = k.(k_typed); im_raw : t.(raw) = k.(k_raw)
}.

(** A step that leaves the terminal, its device apart, as [t'] and sends [out]. *)
Definition sends {A} (m : C terminal A) (t t' : terminal) (out : list byte) : Prop :=
  ∃ a d, m t = Ret (a, set_dev d t') ∧ dev_ok d ∧ d.(wire) = t.(dev).(wire) ++ out.

Lemma sends_bind {A B} (m : C terminal A) (f : A → C terminal B) t t1 t2 o1 o2 :
  sends m t t1 o1 → (∀ a d, dev_ok d → sends (f a) (set_dev d t1) t2 o2) → sends (m ≫= f) t t2 (o1 ++ o2).
Proof.
  intros (a & d & E & Hd & Hw) Hf. destruct (Hf a d Hd) as (b & d2 & E2 & Hd2 & Hw2).
  exists b, d2. rewrite (bind_Ret _ _ _ _ _ E), E2, Hw2. simpl. rewrite Hw, (assoc_L (++)). done.
Qed.
Lemma sends_then {A B} (m : C terminal A) (f : A → C terminal B) t t1 t2 o :
  sends m t t1 [] → (∀ a d, dev_ok d → sends (f a) (set_dev d t1) t2 o) → sends (m ≫= f) t t2 o.
Proof. apply (sends_bind m f t t1 t2 [] o). Qed.
Lemma sends_same {A} (m : C terminal A) t t1 t2 o : sends m t t1 o → (∀ d, set_dev d t1 = set_dev d t2) →
  sends m t t2 o.
Proof. intros (a & d & E & Hd & Hw) Ht. exists a, d. by rewrite <- Ht. Qed.
Lemma sends_ret {A} (a : A) t : dev_ok t.(dev) → sends (mret a) t t [].
Proof. intros Hd. exists a, t.(dev). rewrite app_nil_r. split_and!; [by destruct t|done|done]. Qed.
Lemma sends_mod f t : dev_ok t.(dev) → (f t).(dev) = t.(dev) → sends (c_mod f) t (f t) [].
Proof.
  intros Hd Hf. exists tt, t.(dev). rewrite app_nil_r. split_and!; [|done|done].
  unfold c_mod. rewrite <- Hf. by destruct (f t).
Qed.
Lemma sends_get {B} (f : terminal → C terminal B) t t' o : sends (f t) t t' o → sends (c_get ≫= f) t t' o.
Proof. done. Qed.
Lemma sends_port {A} (m : C serial A) t a d o : m t.(dev) = Ret (a, d) → dev_ok d → d.(wire) = t.(dev).(wire) ++ o →
  sends (on_port m) t t o.
Proof. intros E Hd Hw. exists a, d. unfold on_port. by rewrite E. Qed.
Lemma sends_say m t : dev_ok t.(dev) → sends (say m) t t [].
Proof. intros Hd. eapply sends_port; [reflexivity|done|]. by rewrite app_nil_r. Qed.
Lemma sends_data data t : dev_ok t.(dev) → sends (on_port (serial_send data)) t t data.
Proof. intros [Ho Hw]. by eapply sends_port; [by apply serial_send_open| |]. Qed.
Lemma sends_echo m t : dev_ok t.(dev) → sends (echo_if m) t t [].
Proof. intros Hd. apply sends_get. destruct (local_echo t); [by apply sends_say|by apply sends_ret]. Qed.

Lemma send_pieces_open fuel : ∀ size total rest d, dev_ok d → (length rest ≤ fuel)%nat → ∃ d',
  send_pieces fuel size total rest d = Ret (Some (total + strlen rest), d') ∧ dev_ok d' ∧
  d'.(wire) = d.(wire) ++ rest.
Proof.
  induction fuel as [|fuel IH]; intros size total rest d Hd Hf.
  { destruct rest; [|simpl in Hf; lia]. exists d. by rewrite app_nil_r, Z.add_0_r. }
  destruct rest as [|b rest]; [exists d; by rewrite app_nil_r, Z.add_0_r|].
  cbn [send_pieces]. destruct Hd as [Ho Hw]. set (piece := take (Z.to_nat 1024) (b :: rest)).
  c_step (serial_send_open piece d Ho Hw). rewrite (proj2 (Z.ltb_ge _ _)) by (unfold strlen; lia).
  assert (Hrest : ∀ d1, dev_ok d1 → d1.(wire) = d.(wire) ++ piece → ∃ d',
    send_pieces fuel size (total + strlen piece) (drop (Z.to_nat 1024) (b :: rest)) d1 =
      Ret (Some (total + strlen (b :: rest)), d') ∧ dev_ok d' ∧ d'.(wire) = d.(wire) ++ b :: rest).
  { intros d1 Hd1 Hw1. destruct (IH size (total + strlen piece) (drop (Z.to_nat 1024) (b :: rest)) d1 Hd1)
      as (d' & E & Hd' & Hw'); [rewrite length_drop; cbn [length] in *; lia|].
    exists d'. rewrite E, Hw', Hw1, <- (assoc_L (++)). unfold piece. rewrite take_drop. split_and!; [|done|done].
    do 3 f_equal. unfold strlen, piece. rewrite length_take, length_drop. lia. }
  destruct (0 <? size); erewrite bind_Ret by reflexivity; by apply Hrest.
Qed.

Lemma sends_file name t : dev_ok t.(dev) →
  sends (on_port (send_file name (files name))) t t (default [] (files name)).
Proof.
  intros Hd. unfold send_file. destruct (files name) as [c|].
  - destruct (send_pieces_open (length c) (strlen c) 0 c (printed ([x0a] ++ str "Sending file " ++ name ++
      str " (" ++ dec (strlen c) ++ str " bytes)..." ++ [x0a]) t.(dev))) as (d' & E & Hd' & Hw); [done|done|].
    eapply sends_port; [erewrite bind_Ret by reflexivity; c_step E; reflexivity|exact Hd'|exact Hw].
  - eapply sends_port; [reflexivity|done|]. cbn [default from_option]. by rewrite app_nil_r.
Qed.
Lemma sends_prompt_line l t : dev_ok t.(dev) → t.(typed) = l →
  sends (prompt_line files) t (set_typed (prompt_spec l).1 t) (prompt_spec l).2.
Proof.
  intros Hd <-. unfold prompt_line. eapply sends_then; [by apply sends_say|]. intros _ d Hd1. apply sends_get.
  cbn [typed set_dev]. unfold prompt_spec. destruct (typed t) as [|c l] eqn:E.
  { eapply sends_same; [by apply sends_ret|]. intros d1. cbn [fst]. rewrite <- E. by destruct t. }
  destruct (fgets_line (Z.to_nat 255) (c :: l)) as [line rest]. cbn [fst snd].
  eapply sends_then; [by apply sends_mod|]. intros _ d2 Hd2. destruct (chomp (cstr line)) as [|x name].
  - by eapply sends_same; [apply sends_ret|].
  - rewrite <- (app_nil_r (default [] _)). eapply sends_bind; [by apply sends_file|]. intros _ d3 Hd3.
    by eapply sends_same; [apply sends_ret|].
Qed.
(** The keyboard is left with the settings from before the session. *)
Lemma sends_prompt l t : dev_ok t.(dev) → t.(typed) = l →
  sends (prompt_and_send files orig) t (set_raw orig (set_typed (prompt_spec l).1 t)) (prompt_spec l).2.
Proof.
  intros Hd Hl. unfold prompt_and_send. eapply sends_then; [by apply sends_mod|]. intros _ d Hd1.
  rewrite <- (app_nil_r (prompt_spec l).2). eapply sends_bind; [by apply sends_prompt_line|]. intros _ d2 Hd2.
  exists tt, d2. rewrite app_nil_r. split_and!; [reflexivity|done|done].
Qed.

Lemma sends_modes hex ts t : dev_ok t.(dev) → sends (set_modes hex ts) t t [].
Proof. intros Hd. eapply sends_port; [reflexivity|exact Hd|]. by rewrite app_nil_r. Qed.
Lemma sends_help t : dev_ok t.(dev) → sends terminal_help t t [].
Proof. apply sends_say. Qed.
Lemma sends_key c echo t : dev_ok t.(dev) → sends (send_key c echo) t t [c].
Proof.
  intros Hd. unfold send_key. rewrite <- (app_nil_r [c]). eapply sends_bind; [by apply sends_data|].
  intros _ d Hd1. apply sends_get. cbn [local_echo set_dev].
  destruct (local_echo t); (eapply sends_same; [first [by apply sends_say|by apply sends_ret]|done]).
Qed.

Lemma sends_byte c t : dev_ok t.(dev) → sends (on_port (serial_send [c]);; mret tt) t t [c].
Proof.
  intros Hd. rewrite <- (app_nil_r [c]) at 2. eapply sends_bind; [by apply sends_data|].
  intros _ d Hd1. by eapply sends_same; [apply sends_ret|].
Qed.

(** A chain of silent steps. *)
Ltac silent := first
  [ apply sends_get
  | eapply sends_then; [first [by apply sends_say|by apply sends_mod|by apply sends_modes|by apply sends_echo]|intros ? ? ?] ].
Ltac send_last := cbn [snd]; eapply sends_same;
  [ first
    [ by apply sends_help | apply sends_prompt; solve [assumption] | by apply sends_key
    | by apply sends_mod | by apply sends_say | by apply sends_echo | by apply sends_ret
    | by apply sends_byte ]
  | intros ?; unfold set_dev; simpl; f_equal; congruence ].

(** The terminal in modes [k], its line buffer given. *)
Definition remode (k : keys) (buf : list byte) (t : terminal) : terminal :=
  Term t.(dev) k.(k_running) k.(k_escape) k.(k_echo) k.(k_line) buf (strlen k.(k_pending)) k.(k_typed) k.(k_raw).

Lemma escape_key_run t k c : in_modes t k → dev_ok t.(dev) →
  let t' := remode (escape_spec k c).1 t.(line_buf) t in
  sends (escape_key files orig c) t t' (escape_spec k c).2 ∧ in_modes t' (escape_spec k c).1.
Proof.
  intros [Hr He Hec Hl Hb Hp Hm Hpd Ht Hw] Hd. destruct k as [kr ke kec kl kp kt kw].
  cbn [k_running k_escape k_echo k_line k_pending k_typed k_raw] in *.
  unfold escape_key, escape_spec.
  destruct (bool_decide (c = x3f)); [|destruct (either c x71 x51); [|destruct (either c x68 x48); [|
    destruct (either c x74 x54); [|destruct (either c x65 x45); [|destruct (either c x6c x4c); [|
    destruct (either c x73 x53); [|destruct (either c x63 x43); [|destruct (either c x64 x44); [|
    destruct (either c x61 x41)]]]]]]]]];
    (split; [|by split]).
  all: eapply sends_then; [by apply sends_mod|intros _ d Hd1]; apply sends_get.
  - send_last.
  - silent. send_last.
  - silent. send_last.
  - silent. send_last.
  - silent. send_last.
  - silent. send_last.
  - send_last.
  - send_last.
  - send_last.
  - send_last.
  - silent. send_last.
Qed.

Lemma take_insert_snoc (buf p : list byte) c : take (length p) buf = p → (length p < length buf)%nat →
  take (S (length p)) (<[length p := c]> buf) = p ++ [c].
Proof.
  intros Hp Hl. rewrite (take_S_r _ _ c) by (by rewrite list_lookup_insert_eq). by rewrite take_insert_ge, Hp by lia.
Qed.
Lemma sends_poke pos c t : dev_ok t.(dev) → 0 ≤ pos → (Z.to_nat pos < length t.(line_buf))%nat →
  sends (poke pos c) t (set_line (<[Z.to_nat pos := c]> t.(line_buf)) t.(line_pos) t) [].
Proof.
  intros Hd Hp Hl. unfold poke. apply sends_get.
  destruct (line_buf t !! Z.to_nat pos) eqn:E; [by apply sends_mod|]. apply lookup_ge_None in E. lia.
Qed.

Lemma line_key_run t k c : in_modes t k → dev_ok t.(dev) → k.(k_escape) = false → k.(k_line) = true → c ≠ x01 →
  ∃ t', sends (line_key c) t t' (key_spec k c).2 ∧ in_modes t' (key_spec k c).1.
Proof.
  intros [Hr He Hec Hl Hb Hp Hm Hpd Ht Hw] Hd Hesc Hline Hc. destruct k as [kr ke kec kl p kt kw].
  cbn [k_running k_escape k_echo k_line k_pending k_typed k_raw] in *. destruct ke; [done|]. destruct kl; [|done].
  unfold key_by. rewrite bool_decide_eq_false_2 by done. unfold strlen in *.
  unfold line_key. destruct (either c x0d x0a); [|destruct (either c x7f x08)].
  - exists (remode (Keys kr false kec true [] kt kw) (<[length p := x0a]> t.(line_buf)) t). split.
    + apply sends_get. rewrite Hp. eapply sends_then; [apply sends_poke; [done|lia|lia]|]. intros _ d Hd1. apply sends_get.
      cbn [snd]. rewrite <- (app_nil_r (p ++ [x0a])). eapply sends_bind; [|intros _ d2 Hd2].
      { replace (p ++ [x0a]) with (take (Z.to_nat (Z.of_nat (length p) + 1))
          (line_buf (set_dev d (set_line (<[Z.to_nat (Z.of_nat (length p)) := x0a]> (line_buf t)) (line_pos t) t)))).
        { by apply sends_data. }
        cbn [set_dev set_line line_buf]. rewrite Nat2Z.id.
        replace (Z.to_nat (Z.of_nat (length p) + 1)) with (S (length p)) by lia. apply take_insert_snoc; [done|lia]. }
      silent. eapply sends_same; [by apply sends_mod|]. intros d3. unfold set_dev, remode. simpl. rewrite Nat2Z.id.
      f_equal; congruence.
    + constructor; simpl; try done. by rewrite length_insert.
  - exists (remode (Keys kr false kec true (take (length p - 1) p) kt kw) t.(line_buf) t). split.
    + apply sends_get. rewrite Hp. destruct p as [|b p].
      { cbn [length]. change (0 <? Z.of_nat 0) with false. cbv iota. eapply sends_same; [by apply sends_ret|]. intros d. unfold set_dev. simpl. by f_equal. }
      rewrite (proj2 (Z.ltb_lt _ _)) by (cbn [length]; lia). silent.
      eapply sends_same; [by apply sends_echo|]. intros d2. unfold set_dev, remode. simpl k_pending.
      unfold strlen. rewrite length_take. cbn [length line_buf set_line dev running escape_mode local_echo line_mode line_pos typed raw k_running k_escape k_echo k_line k_typed k_raw]. f_equal; [congruence..|lia|congruence|congruence].
    + constructor; simpl; try done; unfold strlen; rewrite length_take; [lia|].
      transitivity (take (length p - 1) (take (length p) (line_buf t))); [rewrite take_take; f_equal; lia|by rewrite Hpd].
  - exists (remode (Keys kr false kec true (if strlen p <? 1023 then p ++ [c] else p) kt kw)
      (if strlen p <? 1023 then <[length p := c]> t.(line_buf) else t.(line_buf)) t). unfold strlen. split.
    + apply sends_get. rewrite Hp. destruct (Z.ltb_spec (Z.of_nat (length p)) 1023).
      * eapply sends_then; [apply sends_poke; [done|lia|lia]|]. intros _ d Hd1. silent.
        eapply sends_same; [by apply sends_echo|]. intros d2. unfold set_dev, remode. simpl. rewrite Nat2Z.id.
        unfold strlen. rewrite length_app. simpl. f_equal; [congruence..|lia|congruence|congruence].
      * eapply sends_same; [by apply sends_ret|]. intros d. unfold set_dev. simpl. unfold strlen. by f_equal.
    + destruct (Z.ltb_spec (Z.of_nat (length p)) 1023); constructor; simpl; try done; unfold strlen; rewrite ?length_app; simpl.
      * by rewrite length_insert.
      * lia.
      * rewrite Nat.add_1_r. apply take_insert_snoc; [done|lia].
Qed.

Lemma key_run t k c : in_modes t k → dev_ok t.(dev) → ∃ t',
  sends (key files orig c) t t' (key_spec k c).2 ∧ in_modes t' (key_spec k c).1.
Proof.
  intros Hk Hd. pose proof Hk as [Hr He Hec Hl Hb Hp Hm Hpd Ht Hw]. destruct k as [kr ke kec kl p kt kw].
  cbn [k_running k_escape k_echo k_line k_pending k_typed k_raw] in *. destruct ke.
  { destruct (escape_key_run t (Keys kr true kec kl p kt kw) c Hk Hd) as [Hs Hm']. eexists. split; [|exact Hm'].
    apply sends_get. rewrite He. exact Hs. }
  destruct (decide (c = x01)) as [->|Hc].
  { exists (remode (Keys kr true kec kl p kt kw) t.(line_buf) t). split; [|by constructor].
    apply sends_get. rewrite He. send_last. }
  destruct kl.
  - destruct (line_key_run t (Keys kr false kec true p kt kw) c Hk Hd eq_refl eq_refl Hc) as (t' & Hs & Hm').
    exists t'. split; [|done]. apply sends_get. rewrite He, bool_decide_eq_false_2, Hl by done. exact Hs.
  - exists t. unfold key_by. rewrite bool_decide_eq_false_2 by done. split; [|done].
    apply sends_get. rewrite He, bool_decide_eq_false_2, Hl by done. cbn [snd]. unfold raw_key.
    rewrite <- (app_nil_r [c]) at 2. eapply sends_bind; [by apply sends_data|]. intros _ d Hd1.
    by eapply sends_same; [apply sends_echo|].
Qed.
Lemma in_modes_dev t d k : in_modes t k → in_modes (set_dev d t) k.
Proof. by intros []. Qed.

Definition pressed (c : byte) : event := EvReady false (Some (Some c)).

Lemma keys_refine cs : ∀ t k, in_modes t k → dev_ok t.(dev) → ∃ t',
  terminal_loop files orig ((pressed <$> cs) ++ [EvError]) t = Ret (tt, t') ∧
  in_modes t' (keys_spec k cs).1 ∧ t'.(dev).(wire) = t.(dev).(wire) ++ (keys_spec k cs).2.
Proof.
  induction cs as [|c cs IH]; intros t k Hk Hd.
  - exists t. cbn. rewrite app_nil_r. split; [|done]. unfold mbind, C_bind, c_get. by destruct (running t).
  - cbn [fmap list_fmap app terminal_loop keys_spec pressed]. erewrite bind_Ret by reflexivity.
    rewrite (im_run t k Hk). destruct (k_running k); [|exists t; by rewrite app_nil_r].
    destruct (key_run t k c Hk Hd) as (t1 & (a & d & E & Hd1 & Hw) & Hk1).
    destruct (key_spec k c) as [k1 o1] eqn:Ek. cbn [fst snd] in *.
    destruct (IH (set_dev d t1) k1 (in_modes_dev t1 d k1 Hk1) Hd1) as (t' & E' & Hk' & Hw').
    destruct (keys_spec k1 cs) as [k2 o2] eqn:Ek2. cbn [fst snd] in *.
    exists t'. cbn [negb]. erewrite bind_Ret by reflexivity. cbn [negb keyboard_ready].
    c_step E. rewrite E', Hw'. cbn [dev set_dev]. by rewrite Hw, (assoc_L (++)).
Qed.

(** C21. The keyboard: for any keys, on a port that takes everything, the terminal
    with its static 1024-byte buffer and index behaves as the documented line editor
    with modes, as long as the key after Ctrl+A is neither a nor s: it sends exactly
    the bytes the specification gives, ends in the specified modes, and no store
    leaves the buffer.  The README's a and s do something else: after a the letter is
    sent in place of Ctrl+A, and after s the keyboard is no longer raw. *)
Theorem terminal_keys_refine cs t k : in_modes t k → dev_ok t.(dev) → undisputed documented_escape k cs = true → ∃ t',
  terminal_loop files orig ((pressed <$> cs) ++ [EvError]) t = Ret (tt, t') ∧
  in_modes t' (keys_by documented_escape k cs).1 ∧ t'.(dev).(wire) = t.(dev).(wire) ++ (keys_by documented_escape k cs).2.
Proof. intros Hk Hd Hu. rewrite <- keys_documented by done. by apply keys_refine. Qed.

(** Bytes other than Ctrl+A. *)
Definition plain (l : list byte) : Prop := Forall (λ b, b ≠ x01) l.
Lemma plain_take n l : plain l → plain (take n l).
Proof. apply Forall_take. Qed.
Lemma either_plain c a b : either c a b = true → a ≠ x01 → b ≠ x01 → plain [c].
Proof.
  unfold either. rewrite orb_true_iff, !bool_decide_eq_true. intros Hc Ha Hb. constructor; [|done]. by destruct Hc as [->| ->].
Qed.
Lemma escape_spec_plain k c : (∀ f, plain (default [] (files f))) → plain k.(k_pending) →
  plain (escape_spec k c).2 ∧ plain (escape_spec k c).1.(k_pending).
Proof.
  intros Hf Hp. destruct k as [r esc e l p t w]. unfold escape_spec. cbn [k_pending] in *.
  assert (Hpr : plain (prompt_spec t).2).
  { unfold prompt_spec. destruct t as [|b t]; [constructor|]. destruct (fgets_line _ _) as [raw rest].
    cbn [snd]. destruct (chomp (cstr raw)); [constructor|apply Hf]. }
  destruct (bool_decide (c = x3f)); [by split; [constructor|]|].
  destruct (either c x71 x51); [by split; [constructor|]|]. destruct (either c x68 x48); [by split; [constructor|]|].
  destruct (either c x74 x54); [by split; [constructor|]|]. destruct (either c x65 x45); [by split; [constructor|]|].
  destruct (either c x6c x4c); [by split; [constructor|]|]. destruct (either c x73 x53); [by split|].
  destruct (either c x63 x43); [by split; [repeat constructor|]|].
  destruct (either c x64 x44); [by split; [repeat constructor|]|].
  destruct (either c x61 x41) eqn:E; [|by split; [constructor|]]. split; [by apply (either_plain _ _ _ E)|done].
Qed.
Lemma key_spec_plain k c : (∀ f, plain (default [] (files f))) → plain k.(k_pending) →
  plain (key_spec k c).2 ∧ plain (key_spec k c).1.(k_pending).
Proof.
  intros Hf Hp. pose proof (escape_spec_plain k c Hf Hp) as Hesc. destruct k as [r esc e l p t w].
  unfold key_by. cbn [k_pending] in *. destruct esc; [done|].
  destruct (decide (c = x01)) as [->|Hc]; [by split; [constructor|]|]. rewrite bool_decide_eq_false_2 by done.
  destruct l; [|by split; [constructor|]]. destruct (either c x0d x0a).
  { split; [|constructor]. by apply Forall_app; split; [|constructor]. }
  destruct (either c x7f x08); [split; [constructor|by apply plain_take]|]. split; [constructor|]. cbn [k_pending fst].
  destruct (strlen p <? 1023); [|done]. by apply Forall_app; split; [|constructor].
Qed.
Lemma keys_spec_plain cs : ∀ k, (∀ f, plain (default [] (files f))) → plain k.(k_pending) → plain (keys_spec k cs).2.
Proof.
  induction cs as [|c cs IH]; intros k Hf Hp; [constructor|]. cbn [keys_spec].
  destruct (k_running k); [|constructor]. pose proof (key_spec_plain k c Hf Hp) as [Ho Hp'].
  destruct (key_spec k c) as [k1 o1]. specialize (IH k1 Hf Hp'). destruct (keys_spec k1 cs) as [k2 o2].
  by apply Forall_app.
Qed.

(** Ctrl+A cannot be typed: the key after Ctrl+A that is meant to send it sends
    the letter instead, so whatever keys are pressed no byte 1 reaches the device
    unless a file that is sent contains one. *)
Theorem terminal_never_sends_ctrl_a cs t k : in_modes t k → dev_ok t.(dev) → plain k.(k_pending) →
  (∀ f, plain (default [] (files f))) → plain t.(dev).(wire) →
  ∃ t', terminal_loop files orig ((pressed <$> cs) ++ [EvError]) t = Ret (tt, t') ∧ plain t'.(dev).(wire).
Proof.
  intros Hk Hd Hp Hf Hw. destruct (keys_refine cs t k Hk Hd) as (t' & E & _ & E').
  exists t'. split; [done|]. rewrite E'. apply Forall_app; split; [done|by apply keys_spec_plain].
Qed.

End keyboard.

(** ** Witnesses *)

Definition wit_port (log : option (list byte)) : serial_port_t :=
  Port 3 (str "/dev/ttyUSB0") 115200 8 1 x4e None true false false log.
Definition wit_dev (ws : list write_t) : serial :=
  State (wit_port (Some (str "log"))) (Termios (λ _, false) 8 115200 0 0) [] ws [] ∅ [] [] [].
Lemma serial_send_delivers_witness : ∃ r s' k,
  serial_send (str "hello") (wit_dev [WCount 2; WRetry]) = Ret (r, s') ∧ s'.(wire) = [] ++ take k (str "hello") ∧ (r = 5 ∨ r = -1).
Proof.
  destruct (serial_send_delivers (str "hello") (wit_dev [WCount 2; WRetry]) eq_refl) as (r & s' & k & E & Hw & _ & _ & Hr).
  exists r, s', k. split; [exact E|]. split; [exact Hw|].
  destruct Hr as [[Hr _]|[Hr _]]; [left|right]; exact Hr.
Defined.

Lemma serial_send_hex_roundtrip_witness :
  serial_send_hex (Some (str "ff 01a3 ")) (wit_dev []) = serial_send [xff; x01; xa3] (wit_dev []).
Proof.
  exact (serial_send_hex_roundtrip [([], xff); ([x20], x01); ([], xa3)] [x20] (wit_dev [])
    ltac:(repeat constructor) ltac:(repeat constructor) ltac:(discriminate) ltac:(vm_compute; discriminate)).
Defined.

Definition wit_term : terminal := Term (wit_dev []) true false false false (replicate 1024 x00) 0 [] true.
Definition wit_keys : keys := Keys true false false false [] [] true.
Lemma wit_in_modes : in_modes wit_term wit_keys.
Proof. constructor; try reflexivity. vm_compute. discriminate. Qed.

(** Raw mode, then line mode with a correction. *)
Lemma terminal_keys_refine_witness : ∃ t',
  terminal_loop (λ _, None) false ((pressed <$> str "x" ++ [x01] ++ str "lab" ++ [x7f; x0d]) ++ [EvError]) wit_term = Ret (tt, t') ∧
  t'.(dev).(wire) = str "xa" ++ [x0a].
Proof.
  destruct (terminal_keys_refine (λ _, None) false (str "x" ++ [x01] ++ str "lab" ++ [x7f; x0d]) wit_term wit_keys wit_in_modes
    (conj eq_refl eq_refl) eq_refl) as (t' & E & _ & Hw).
  exists t'. split; [exact E|]. rewrite Hw. reflexivity.
Defined.

Lemma terminal_never_sends_ctrl_a_witness : ∃ t',
  terminal_loop (λ _, None) false ((pressed <$> [x01; x61]) ++ [EvError]) wit_term = Ret (tt, t') ∧ plain t'.(dev).(wire).
Proof.
  exact (terminal_never_sends_ctrl_a (λ _, None) false [x01; x61] wit_term wit_keys wit_in_modes (conj eq_refl eq_refl)
    (Forall_nil_2 _) (λ _, Forall_nil_2 _) (Forall_nil_2 _)).
Defined.

End SerialSpec.
