(* ===== verification/SerialScriptSpec.v ===== *)
(** * serial-tool: scripts are read back as the statements they were printed from

    Statements with their meaning on the port, their text, and the theorem that
    [script_run] on the text has exactly that meaning; what an "expect" reports. *)

From S2P Require Import Prelude Serial SerialScript SerialTerminal SerialSpec.
Import Serial Script SerialSpec.

Module ScriptSpec.
#[local] Arguments Z.to_nat : simpl never.

(** ** Statements *)

Inductive stmt :=
  | Send (text : list byte) | SendHex (bytes : list byte)
  | Expect (pattern : list byte) (timeout : option Z)
  | Wait (ms : Z)
  | SendRecv (text pattern : list byte) (timeout : option Z)
  | LogTo (file : list byte) | LogOff
  | Comment (text : list byte) | Blank.
#[global] Instance stmt_eq_dec : EqDecision stmt.
Proof. solve_decision. Defined.

Definition escape1 (c : byte) : list byte :=
  match c with
  | x0a => [x5c; x6e] | x0d => [x5c; x72] | x09 => [x5c; x74] | x5c => [x5c; x5c] | _ => [c]
  end.
Definition escape (s : list byte) : list byte := mjoin (escape1 <$> s).
Definition quoted (s : list byte) : list byte := quote :: s ++ [quote].
Definition timeout_text (t : option Z) : list byte := match t with Some n => x20 :: dec n | None => [] end.
Definition render (s : stmt) : list byte :=
  match s with
  | Send t => str "send " ++ quoted (escape t)
  | SendHex bs => str "send_hex " ++ quoted (hex_text ((λ b, ([x20], b)) <$> bs))
  | Expect p t => str "expect " ++ quoted p ++ timeout_text t
  | Wait ms => str "wait " ++ dec ms
  | SendRecv a p t => str "send_recv " ++ quoted (escape a) ++ [x20] ++ quoted p ++ timeout_text t
  | LogTo f => str "log " ++ quoted f
  | LogOff => str "log off"
  | Comment c => x23 :: c
  | Blank => []
  end.
Definition render_script (prog : list stmt) : list byte := mjoin ((λ s, render s ++ [x0a]) <$> prog).

(** A byte that may stand between quotes. *)
Definition text_char (c : byte) : Prop := c ≠ x00 ∧ c ≠ quote.
Definition literal (n : Z) (s : list byte) : Prop := Forall (λ c, text_char c ∧ c ≠ x0a) s ∧ strlen s ≤ n.
Definition timeout_ok (t : option Z) : Prop := match t with Some n => 0 ≤ n < 2 ^ 31 | None => True end.
Definition stmt_ok (s : stmt) : Prop :=
  strlen (render s) ≤ 4094 ∧
  match s with
  | Send t => Forall text_char t ∧ strlen (escape t) ≤ 2047
  | SendHex bs => 3 * strlen bs ≤ 2047
  | Expect p t => literal 2047 p ∧ timeout_ok t
  | Wait ms => 0 ≤ ms < 2 ^ 31
  | SendRecv a p t => Forall text_char a ∧ strlen (escape a) ≤ 2047 ∧ literal 2047 p ∧ timeout_ok t
  | LogTo f => literal 255 f ∧ find_sub (str "off") (render (LogTo f)) = None
  | LogOff => True
  | Comment c => Forall (λ c, c ≠ x00 ∧ c ≠ x0a) c ∧ match last c with Some b => is_space b = false | None => True end
  | Blank => True
  end.

(** ** Their meaning: the number of errors *)

Section meaning.
Context (log_opens : list byte → bool).

Definition matched (label : list byte) (n : Z) : C serial Z :=
  if n <? 0 then mret 1 else print (label ++ dec n ++ str " bytes, pattern matched" ++ [x0a]);; mret 0.
Definition exec (s : stmt) : C serial Z :=
  match s with
  | Send t => ret ← serial_send t; report ret
  | SendHex [] => report 0
  | SendHex bs => ret ← serial_send bs; report ret
  | Expect p t =>
      n ← script_send_recv None 4096 p (default 5000 t); matched (str "  <- received ") n.1
  | Wait ms =>
      (if 0 <? ms then print (str "  ... waiting " ++ dec ms ++ str " ms" ++ [x0a]);; usleep (u32 (ms * 1000))
       else mret tt);; mret 0
  | SendRecv a p t =>
      n ← script_send_recv (Some a) 4096 p (default 5000 t); matched (str "  <- ") n.1
  | LogTo f =>
      if log_opens f then
        s ← c_get;
        set_log (Some f);; c_mod (set_logs (<[f := default [] (s.(logs) !! f)]> s.(logs)));;
        print (str "  Logging to " ++ f ++ [x0a]);; mret 0
      else set_log None;; mret 1
  | LogOff =>
      s ← c_get;
      (match s.(port).(log_fd) with
       | Some _ => set_log None;; print (str "  Logging disabled" ++ [x0a])
       | None => mret tt
       end);; mret 0
  | Comment _ | Blank => mret 0
  end.
(** A statement shows its line first. *)
Definition exec_line (n : Z) (s : stmt) : C serial Z :=
  match s with
  | Comment _ | Blank => mret 0
  | _ => print (str "[" ++ dec n ++ str "] " ++ render s ++ [x0a]);; exec s
  end.
Fixpoint exec_lines (n errors : Z) (prog : list stmt) : C serial Z :=
  match prog with
  | [] => mret errors
  | s :: prog' => e ← exec_line (n + 1) s; exec_lines (n + 1) (errors + e) prog'
  end.
Definition exec_script (name : list byte) (prog : list stmt) : C serial Z :=
  print (str "Running script: " ++ name ++ [x0a]);;
  errors ← exec_lines 0 0 prog;
  print ([x0a] ++ str "Script completed: " ++ dec errors ++ str " error(s)" ++ [x0a]);;
  mret (if 0 <? errors then -1 else 0).

(** ** Reading lines *)

Lemma drop_space_end_snoc l : drop_space_end (l ++ [x0a]) = drop_space_end l.
Proof. induction l as [|c l IH]; [done|]. cbn [app drop_space_end]. by rewrite IH. Qed.
Lemma drop_space_end_id l b : last l = Some b → is_space b = false → drop_space_end l = l.
Proof.
  intros Hl Hb. induction l as [|c l IH]; [done|]. cbn [drop_space_end]. destruct l as [|d l].
  - injection Hl as ->. cbn. by rewrite Hb.
  - rewrite IH by done. done.
Qed.
Lemma trim_line c l b : is_space c = false → last (c :: l) = Some b → is_space b = false →
  trim ((c :: l) ++ [x0a]) = c :: l.
Proof.
  intros Hc Hl Hb. unfold trim. cbn [app skip_space]. rewrite Hc.
  change (c :: l ++ [x0a]) with ((c :: l) ++ [x0a]). rewrite drop_space_end_snoc. by apply drop_space_end_id with b.
Qed.

(** ** Arguments *)

Lemma to_quote_app a r : Forall (λ c, nonquote c = true) a → to_quote (a ++ quote :: r) = Some (a, r).
Proof. intros Ha. unfold to_quote. rewrite (span_n_exact _ _ a); [done|rewrite length_app; lia|done|done]. Qed.
Lemma text_nonquote s : Forall text_char s → Forall (λ c, nonquote c = true) s.
Proof. intros H. eapply Forall_impl; [exact H|]. intros c [_ Hc]. unfold nonquote. by rewrite bool_decide_eq_false_2. Qed.
Lemma literal_text n s : literal n s → Forall text_char s.
Proof. intros [H _]. eapply Forall_impl; [exact H|]. by intros c []. Qed.
Lemma extract_quoted_text pre s r n : Forall (λ c, nonquote c = true) pre → Forall (λ c, nonquote c = true) s →
  strlen s ≤ n - 1 → extract_quoted (pre ++ quoted s ++ r) n = Some s ∧ after_quoted (pre ++ quoted s ++ r) = Some r.
Proof.
  intros Hp Hs Hl. unfold extract_quoted, after_quoted, quoted. cbn [app].
  rewrite to_quote_app by done. cbn [mbind option_bind].
  rewrite <- (assoc_L (++)). cbn [app]. rewrite to_quote_app by done. cbn [mbind option_bind].
  rewrite take_ge; [done|]. unfold strlen in Hl. lia.
Qed.

Lemma escape1_cases c : (c = x0a ∧ escape1 c = [x5c; x6e]) ∨ (c = x0d ∧ escape1 c = [x5c; x72]) ∨
  (c = x09 ∧ escape1 c = [x5c; x74]) ∨ (c = x5c ∧ escape1 c = [x5c; x5c]) ∨
  (c ≠ x0a ∧ c ≠ x5c ∧ escape1 c = [c]).
Proof. destruct c; try (by do 4 right; repeat split); auto 8. Qed.
Lemma escape_cons c s : escape (c :: s) = escape1 c ++ escape s.
Proof. done. Qed.
Lemma unescape_escape b s : ∀ n, (length s ≤ n)%nat → unescape b n (escape s) = s.
Proof.
  induction s as [|c s IH]; intros [|n] Hn; simpl in Hn; try lia; [done|done|].
  rewrite escape_cons. destruct (escape1_cases c) as [(-> & ->)|[(-> & ->)|[(-> & ->)|[(-> & ->)|(Hn1 & Hc & ->)]]]];
    cbn [app unescape]; try (cbn; by rewrite IH by lia).
  rewrite bool_decide_eq_false_2 by done. by rewrite IH by lia.
Qed.
Lemma escape_chars s : Forall text_char s → Forall (λ c, text_char c ∧ c ≠ x0a) (escape s).
Proof.
  induction 1 as [|c s Hc _ IH]; [constructor|]. rewrite escape_cons.
  apply Forall_app; split; [|exact IH].
  destruct (escape1_cases c) as [(_ & ->)|[(_ & ->)|[(_ & ->)|[(_ & ->)|(Hn1 & _ & ->)]]]]; repeat constructor; try done; apply Hc.
Qed.
Lemma escape_length s : strlen s ≤ strlen (escape s).
Proof.
  unfold strlen. induction s as [|c s IH]; [done|]. rewrite escape_cons, length_app. destruct (escape1_cases c) as [(_ & ->)|[(_ & ->)|[(_ & ->)|[(_ & ->)|(_ & _ & ->)]]]]; simpl; lia.
Qed.

Lemma timeout_text_ok t : timeout_ok t → timeout_of (Some (timeout_text t)) = default 5000 t.
Proof.
  destruct t as [n|]; [|done]. intros Hn. destruct (dec_spec n) as (Hd & Hne & _); [simpl in Hn; lia|].
  unfold timeout_of. cbn [timeout_text skip_space default from_option]. change (is_space x20) with true. cbv iota.
  destruct (dec n) as [|c ds] eqn:E; [done|]. apply Forall_cons in Hd as [Hc _].
  assert (Hsp : skip_space (c :: ds) = c :: ds).
  { cbn [skip_space]. destruct (is_space c) eqn:Es; [|done]. by destruct c. }
  rewrite Hsp, <- E. by apply atoi_dec.
Qed.
Lemma dec_line n : 0 ≤ n < 2 ^ 31 → Forall (λ c, text_char c ∧ c ≠ x0a) (dec n) ∧
  ∃ b, last (dec n) = Some b ∧ is_space b = false.
Proof.
  intros Hn. destruct (dec_spec n) as (Hd & Hne & _); [lia|]. split.
  - eapply Forall_impl; [exact Hd|]. intros c Hc. by destruct c.
  - destruct (last (dec n)) as [b|] eqn:E; [|by apply last_None in E]. exists b. split; [done|].
    apply last_Some_elem_of in E. rewrite Forall_forall in Hd. specialize (Hd b E). by destruct b.
Qed.
Lemma hex_text_chars bs : Forall (λ c, text_char c ∧ c ≠ x0a) (hex_text ((λ b, ([x20], b)) <$> bs)).
Proof.
  induction bs as [|b bs IH]; [constructor|]. cbn [fmap list_fmap]. rewrite hex_text_cons.
  constructor; [done|]. apply Forall_app; split; [|exact IH].
  destruct (hex2_spec b) as (x & y & u & v & -> & Hx & Hy & _).
  repeat constructor; intros ->; discriminate.
Qed.
Lemma hex_text_size bs : strlen (hex_text ((λ b, ([x20], b)) <$> bs)) = 3 * strlen bs.
Proof.
  unfold strlen. induction bs as [|b bs IH]; [done|]. cbn [fmap list_fmap]. rewrite hex_text_cons, !length_app.
  destruct (hex2_spec b) as (x & y & _ & _ & -> & _). cbn [length] in *. lia.
Qed.

(** ** Lines *)

Lemma quoted_chars s : Forall (λ c, text_char c ∧ c ≠ x0a) s → Forall (λ c, c ≠ x00 ∧ c ≠ x0a) (quoted s).
Proof.
  intros Hs. constructor; [done|]. apply Forall_app; split; [|by repeat constructor].
  eapply Forall_impl; [exact Hs|]. by intros c [[] ?].
Qed.
Lemma timeout_chars t : timeout_ok t → Forall (λ c, c ≠ x00 ∧ c ≠ x0a) (timeout_text t).
Proof.
  destruct t as [n|]; [|constructor]. intros Hn. constructor; [done|].
  eapply Forall_impl; [apply (dec_line n Hn)|]. by intros c [[] ?].
Qed.
Lemma render_chars s : stmt_ok s → Forall (λ c, c ≠ x00 ∧ c ≠ x0a) (render s).
Proof.
  intros [_ Hs]. destruct s as [t|bs|p t|ms|a p t|f| |c|]; cbn [render]; try (by repeat constructor).
  - apply Forall_app; split; [by repeat constructor|]. apply quoted_chars, escape_chars, Hs.
  - apply Forall_app; split; [by repeat constructor|]. apply quoted_chars, hex_text_chars.
  - destruct Hs as [[Hp _] Ht]. do 2 (apply Forall_app; split; [first [by apply quoted_chars|by repeat constructor]|]).
    by apply timeout_chars.
  - apply Forall_app; split; [by repeat constructor|]. eapply Forall_impl; [apply (dec_line ms Hs)|]. by intros c [[] ?].
  - destruct Hs as (Ha & _ & [Hp _] & Ht). apply Forall_app; split; [by repeat constructor|].
    apply Forall_app; split; [by apply quoted_chars, escape_chars|]. constructor; [done|].
    apply Forall_app; split; [by apply quoted_chars|by apply timeout_chars].
  - apply Forall_app; split; [by repeat constructor|]. apply quoted_chars, Hs.
  - constructor; [done|]. apply Hs.
Qed.

Lemma last_quoted pre s r : r = [] ∨ (∃ b, last r = Some b ∧ is_space b = false) →
  ∃ b, last (pre ++ quoted s ++ r) = Some b ∧ is_space b = false.
Proof.
  intros [->|(b & Hb & Hs)]; rewrite !last_app; [|exists b; by rewrite Hb].
  exists quote. unfold quoted. by rewrite (app_comm_cons s), last_snoc.
Qed.
Lemma last_timeout t : timeout_ok t → timeout_text t = [] ∨ ∃ b, last (timeout_text t) = Some b ∧ is_space b = false.
Proof.
  destruct t as [n|]; [|by left]. intros Hn. right. destruct (dec_line n Hn) as (_ & b & Hl & Hb). exists b.
  split; [|done]. cbn [timeout_text]. change (x20 :: dec n) with ([x20] ++ dec n). by rewrite last_app, Hl.
Qed.

Lemma last_render s : stmt_ok s → s ≠ Blank → ∃ b, last (render s) = Some b ∧ is_space b = false.
Proof.
  intros [_ Hs] Hb. destruct s as [t|bs|p t|ms|a p t|f| |c|]; cbn [render]; try done.
  - rewrite <- (app_nil_r (quoted _)). apply last_quoted. by left.
  - rewrite <- (app_nil_r (quoted _)). apply last_quoted. by left.
  - apply last_quoted, last_timeout, Hs.
  - destruct (dec_line ms Hs) as (_ & b & Hl & Hsp). exists b. by rewrite last_app, Hl.
  - rewrite !(assoc_L (++)), <- (assoc_L (++)). apply last_quoted, last_timeout, Hs.
  - rewrite <- (app_nil_r (quoted _)). apply last_quoted. by left.
  - by eexists.
  - change (x23 :: c) with ([x23] ++ c). rewrite last_app. destruct Hs as [_ Hl].
    destruct (last c) as [b|]; [by exists b|by exists x23].
Qed.
Lemma trim_render s : stmt_ok s → s ≠ Blank → trim (render s ++ [x0a]) = render s.
Proof.
  intros Hs Hb. destruct (last_render s Hs Hb) as (b & Hl & Hsp).
  assert (Hh : ∃ c l, render s = c :: l ∧ is_space c = false) by (destruct s; try done; by do 2 eexists).
  destruct Hh as (c & l & Hr & Hc). rewrite Hr in *. by apply trim_line with b.
Qed.

(** ** The meaning of a line *)

Lemma command_render s st : stmt_ok s → match s with Comment _ | Blank => False | _ => True end →
  command log_opens (render s) st = exec s st.
Proof.
  intros [_ Hs] Hne. destruct s as [t|bs|p t|ms|a p t|f| |c|]; cbn [render] in *; try done.
  - change (command log_opens (str "send " ++ quoted (escape t)) st) with (cmd_send (quoted (escape t)) st).
    destruct Hs as [Ht Hl]. unfold cmd_send. rewrite <- (app_nil_r (quoted _)).
    destruct (extract_quoted_text [] (escape t) [] 2048) as [E _]; [done| |lia|].
    { eapply text_nonquote, Forall_impl; [by apply escape_chars|]. by intros c []. }
    cbn [app] in E. rewrite E. cbn [serial_send_str exec]. rewrite unescape_escape; [done|].
    pose proof (escape_length t). unfold strlen in *. lia.
  - set (h := hex_text _) in *.
    change (command log_opens (str "send_hex " ++ quoted h) st) with (cmd_send_hex (quoted h) st).
    unfold cmd_send_hex. rewrite <- (app_nil_r (quoted _)).
    destruct (extract_quoted_text [] h [] 2048) as [E _]; [done| | |].
    { eapply text_nonquote, Forall_impl; [by apply hex_text_chars|]. by intros c []. }
    { unfold h. rewrite hex_text_size. lia. }
    cbn [app] in E. rewrite E. cbn [exec]. unfold serial_send_hex.
    pose proof (parse_hex_text ((λ b, ([x20], b)) <$> bs) [] (length h) (Z.to_nat 4096)) as Hp.
    rewrite app_nil_r in Hp. fold h in Hp.
    rewrite Hp; [|by apply Forall_fmap, Forall_true; repeat constructor|constructor|apply hex_text_length|].
    + rewrite <- list_fmap_compose. unfold compose. cbn [snd]. rewrite list_fmap_id. by destruct bs.
    + rewrite length_fmap. unfold strlen in Hs. lia.
  - change (command log_opens (str "expect " ++ quoted p ++ timeout_text t) st) with (cmd_expect (quoted p ++ timeout_text t) st).
    destruct Hs as [Hp Ht]. unfold cmd_expect.
    destruct (extract_quoted_text [] p (timeout_text t) 2048) as [E1 E2]; [done|by eapply text_nonquote, literal_text|apply Hp|].
    cbn [app] in E1, E2. rewrite E1, E2, timeout_text_ok by done. done.
  - change (command log_opens (str "wait " ++ dec ms) st) with (cmd_wait (dec ms) st).
    unfold cmd_wait. rewrite atoi_dec by done. done.
  - change (command log_opens (str "send_recv " ++ quoted (escape a) ++ [x20] ++ quoted p ++ timeout_text t) st)
      with (cmd_send_recv (quoted (escape a) ++ [x20] ++ quoted p ++ timeout_text t) st).
    destruct Hs as (Ha & Hl & Hp & Ht). unfold cmd_send_recv.
    destruct (extract_quoted_text [] (escape a) ([x20] ++ quoted p ++ timeout_text t) 2048) as [E1 E2]; [done| |lia|].
    { eapply text_nonquote, Forall_impl; [by apply escape_chars|]. by intros c []. }
    destruct (extract_quoted_text [x20] p (timeout_text t) 2048) as [E3 E4];
      [by repeat constructor|by eapply text_nonquote, literal_text|apply Hp|].
    cbn [app] in E1, E2, E3, E4. cbn [app]. rewrite E1, E2, E3, E4, timeout_text_ok by done. cbn [exec].
    rewrite unescape_escape; [done|]. pose proof (escape_length a). unfold strlen in *. lia.
  - change (command log_opens (str "log " ++ quoted f) st) with (cmd_log log_opens (str "log " ++ quoted f) st).
    destruct Hs as [Hf Hoff]. unfold cmd_log. erewrite bind_Ret by reflexivity. rewrite Hoff.
    rewrite bool_decide_eq_false_2 by (by intros []). change (drop 4 (str "log " ++ quoted f)) with (quoted f).
    destruct (extract_quoted_text [] f [] 256) as [E _]; [done|by eapply text_nonquote, literal_text|apply Hf|].
    rewrite app_nil_r in E. cbn [app] in E. rewrite E. cbn [exec]. by destruct (log_opens f).
Qed.

Lemma bind_ext_run {A B} (m : C serial A) (f g : A → C serial B) st :
  (∀ a st', f a st' = g a st') → (m ≫= f) st = (m ≫= g) st.
Proof. intros H. unfold mbind, C_bind. destruct (m st) as [[a st']| | |]; [apply H|done|done|done]. Qed.

Lemma script_line_render n s st : stmt_ok s → script_line log_opens n (render s ++ [x0a]) st = exec_line n s st.
Proof.
  intros Hs. destruct (decide (s = Blank)) as [->|Hb]; [done|]. unfold script_line. rewrite trim_render by done.
  destruct s as [t|bs|p t|ms|a p t|f| |c|]; try done; cbn [exec_line]; apply bind_ext_run; intros [] st';
    by apply command_render.
Qed.
Lemma render_script_cons s prog : render_script (s :: prog) = render s ++ x0a :: render_script prog.
Proof. unfold render_script. cbn [fmap list_fmap mjoin list_join]. by rewrite <- (assoc_L (++)). Qed.
Lemma script_lines_render prog : ∀ fuel n errors st, Forall stmt_ok prog → (length prog ≤ fuel)%nat →
  script_lines log_opens fuel n errors (render_script prog) st = exec_lines n errors prog st.
Proof.
  induction prog as [|s prog IH]; intros [|fuel] n errors st Hp Hf; simpl in Hf; try lia; [done|done|].
  apply Forall_cons in Hp as [Hs Hp]. pose proof (render_chars s Hs) as Hch.
  rewrite render_script_cons. destruct (render s ++ x0a :: render_script prog) as [|b l] eqn:Ebl; [by apply app_nil in Ebl as [_ ?]|].
  cbn [script_lines]. rewrite <- Ebl. rewrite fgets_line_exact.
  - rewrite cstr_id.
    + cbn [exec_lines]. unfold mbind, C_bind. rewrite script_line_render by done.
      destruct (exec_line (n + 1) s st) as [[e st']| | |]; [by apply IH; [|lia]|done|done|done].
    + apply Forall_app; split; [|by repeat constructor]. eapply Forall_impl; [exact Hch|]. by intros c [].
  - eapply Forall_impl; [exact Hch|]. by intros c [].
  - destruct Hs as [Hl _]. unfold strlen in Hl. lia.
Qed.
Lemma render_script_length prog : (length prog ≤ length (render_script prog))%nat.
Proof.
  induction prog as [|s prog IH]; [done|]. rewrite render_script_cons, length_app.
  cbn [length]. lia.
Qed.

(** C20. Scripts: the text of any statements that fit the line and argument buffers
    is executed by [script_run] exactly as those statements, in order, with escapes,
    hexadecimal bytes, timeouts and the count of errors, on any port and whatever
    the device does; undefined behaviour on neither side is hidden.  The texts hold
    neither a quote (a documented escape, which ends the text in the code) nor NUL, and
    the name of a log file does not contain "off" (which turns logging off). *)
Theorem script_run_refines name prog st : Forall stmt_ok prog →
  script_run log_opens name (Some (render_script prog)) st = exec_script name prog st.
Proof.
  intros Hp. unfold script_run, exec_script. apply bind_ext_run. intros [] st'. unfold mbind, C_bind.
  rewrite script_lines_render; [done|done|]. apply render_script_length.
Qed.

End meaning.

(** ** What an expect reports *)

(** The bytes that arrive, errors and timeouts aside. *)
Fixpoint arrived (a : list read_t) : list byte :=
  match a with
  | RData bs :: a' => bs ++ arrived a'
  | _ :: a' => arrived a'
  | [] => []
  end.
Lemma serial_recv_run max s : s.(port).(is_open) = true → 0 ≤ max → ∃ n bs a,
  serial_recv max s = Ret ((n, bs), set_arriving a s) ∧ arrived s.(arriving) = bs ++ arrived a ∧ strlen bs ≤ max ∧
  (n = strlen bs ∨ (n = -1 ∧ bs = [])).
Proof.
  intros Ho Hm. unfold serial_recv. erewrite bind_Ret by reflexivity. rewrite Ho. cbn [negb].
  destruct s as [p t w ws ar lg sl stp out]. cbn [arriving].
  destruct ar as [|[| |bs] a].
  - exists 0, [], []. split_and!; [done|done|done|by left].
  - exists 0, [], a. split_and!; [done|done|done|by left].
  - exists (-1), [], a. split_and!; [done|done|unfold strlen; simpl; lia|by right].
  - destruct (Z.leb_spec (strlen bs) max).
    + exists (strlen bs), bs, a. split_and!; [done|done|done|by left].
    + assert (Hl : strlen (take (Z.to_nat max) bs) = max) by (unfold strlen in *; rewrite length_take; lia).
      exists max, (take (Z.to_nat max) bs), (RData (drop (Z.to_nat max) bs) :: a). split_and!; [done| |lia|by left].
      cbn [arrived]. by rewrite (assoc_L (++)), take_drop.
Qed.

(** The pattern as strstr sees it in the buffer. *)
Definition holds (p buf : list byte) : Prop := is_Some (find_sub p (cstr buf)).

Lemma expect_loop_run fuel : ∀ elapsed timeout size p buf s, s.(port).(is_open) = true →
  0 ≤ elapsed → timeout - elapsed ≤ Z.of_nat fuel → timeout ≤ 2 ^ 31 - 100 → strlen buf ≤ size - 1 →
  ¬ holds p buf → p ≠ [] → ∃ o more a,
  recv_loop fuel elapsed timeout size p buf s = Ret ((o, buf ++ more), set_arriving a s) ∧
  arrived s.(arriving) = more ++ arrived a ∧ strlen (buf ++ more) ≤ size - 1 ∧
  ((o = Some (strlen (buf ++ more)) ∧ holds p (buf ++ more)) ∨ (o = None ∧ ¬ holds p (buf ++ more))).
Proof.
  induction fuel as [|fuel IH]; intros elapsed timeout size p buf s Ho He Hf Ht Hb Hn Hp; cbn [recv_loop].
  - rewrite (proj2 (Z.ltb_ge _ _)) by lia. exists None, [], s.(arriving). rewrite app_nil_r.
    split_and!; [by destruct s|done|done|by right].
  - destruct ((elapsed <? timeout) && (strlen buf <? size - 1)) eqn:Hc.
    2:{ exists None, [], s.(arriving). rewrite app_nil_r. split_and!; [by destruct s|done|done|by right]. }
    apply andb_true_iff in Hc as [Hc1 Hc2]. apply Z.ltb_lt in Hc1, Hc2.
    destruct (serial_recv_run (size - 1 - strlen buf) s Ho) as (n & bs & a & E & Ha & Hl & Hnb); [lia|].
    c_step E. cbn [fst snd].
    assert (Hbuf : (if 0 <? n then buf ++ bs else buf) = buf ++ bs).
    { destruct Hnb as [->|[-> ->]]; [|by rewrite app_nil_r]. unfold strlen. destruct bs; [by rewrite app_nil_r|].
      by rewrite (proj2 (Z.ltb_lt _ _)) by (simpl; lia). }
    rewrite Hbuf, (bool_decide_eq_false_2 _ Hp). cbn [negb]. rewrite andb_true_r.
    assert (Hlen : strlen (buf ++ bs) ≤ size - 1) by (unfold strlen in *; rewrite length_app; lia).
    destruct (decide (holds p (buf ++ bs))) as [Hh|Hh].
    + assert (0 <? n = true) as ->.
      { destruct (Z.ltb_spec 0 n); [done|]. exfalso. apply Hn. destruct Hnb as [->|[_ ->]]; [|by rewrite app_nil_r in Hh].
        destruct bs; [by rewrite app_nil_r in Hh|unfold strlen in *; simpl in *; lia]. }
      rewrite bool_decide_eq_true_2 by done. cbn [andb]. exists (Some (strlen (buf ++ bs))), bs, a. by split_and!; [| | |left].
    + rewrite (bool_decide_eq_false_2 (is_Some _)) by done. rewrite andb_false_r.
      rewrite (proj2 (Z.leb_gt _ _)) by lia.
      destruct (IH (elapsed + 100) timeout size p (buf ++ bs) (set_arriving a s)) as (o & more & a' & E' & Ha' & Hl' & Ho');
        try done; [lia|lia|].
      exists o, (bs ++ more), a'. rewrite !(assoc_L (++)) in *. split_and!; try done.
      cbn [arriving set_arriving] in Ha'. by rewrite Ha, Ha', (assoc_L (++)).
Qed.

(** Expecting: for a non-empty pattern, [script_send_recv] always returns; what
    it stored is the front of what arrived and fits the buffer; it returns the
    number of bytes stored when the pattern occurs in them (as strstr sees it) and
    -2 when it does not, and nothing that arrived is lost. *)
Theorem script_expect_result size p timeout s : s.(port).(is_open) = true → 1 ≤ size → p ≠ [] →
  timeout ≤ 2 ^ 31 - 100 → ∃ r buf a,
  script_send_recv None size p timeout s = Ret ((r, buf), set_arriving a s) ∧
  arrived s.(arriving) = buf ++ arrived a ∧ strlen buf < size ∧
  ((r = strlen buf ∧ holds p buf) ∨ (r = -2 ∧ ¬ holds p buf)).
Proof.
  intros Ho Hs Hp Ht.
  assert (Hn : ¬ holds p []) by (unfold holds; destruct p; [done|]; by intros []).
  destruct (expect_loop_run (Z.to_nat timeout) 0 timeout size p [] s) as (o & buf & a & E & Ha & Hl & Hc);
    try done; [lia|unfold strlen; simpl; lia|]. cbn [app] in *.
  unfold script_send_recv. erewrite bind_Ret by reflexivity. change (0 <? 0) with false. cbv iota.
  rewrite (proj2 (Z.eqb_neq _ _)) by lia. c_step E.
  destruct Hc as [[-> Hh]|[-> Hh]].
  - exists (strlen buf), buf, a. split_and!; [done|done|lia|by left].
  - rewrite (bool_decide_eq_false_2 _ Hp), (bool_decide_eq_false_2 (is_Some _)) by done.
    exists (-2), buf, a. split_and!; [done|done|lia|by right].
Qed.

(** ** Witnesses *)

Definition wit_port : serial_port_t := Port 3 (str "/dev/ttyUSB0") 115200 8 1 x4e None true false false None.
Definition wit_serial : serial :=
  State wit_port (Termios (λ _, false) 8 115200 0 0) [] [] [RData (str "boot OK>")] ∅ [] [] [].
Definition wit_prog : list stmt :=
  [Comment (str " start"); Send (str "AT" ++ [x0d]); SendHex [xff; x01]; Blank; Expect (str "OK") (Some 500); Wait 10].
Lemma wit_prog_ok : Forall stmt_ok wit_prog.
Proof.
  repeat constructor; try (intros ?; discriminate); try discriminate; vm_compute; try reflexivity; try discriminate.
Qed.

Lemma script_run_refines_witness : ∃ s',
  script_run (λ _, true) (str "t") (Some (render_script wit_prog)) wit_serial = Ret (0, s') ∧
  s'.(wire) = str "AT" ++ [x0d; xff; x01].
Proof.
  eexists. rewrite (script_run_refines (λ _, true) (str "t") wit_prog wit_serial wit_prog_ok).
  split; vm_compute; reflexivity.
Defined.

Lemma script_expect_result_witness : ∃ r buf a,
  script_send_recv None 4096 (str "OK") 500 wit_serial = Ret ((r, buf), set_arriving a wit_serial) ∧ r = 8 ∧
  ((r = strlen buf ∧ holds (str "OK") buf) ∨ (r = -2 ∧ ¬ holds (str "OK") buf)).
Proof.
  destruct (script_expect_result 4096 (str "OK") 500 wit_serial) as (r & buf & a & E & _ & _ & Hr);
    [reflexivity|lia|discriminate|lia|].
  exists r, buf, a. split; [exact E|]. split; [|exact Hr].
  vm_compute in E. by injection E as <- _ _.
Defined.

End ScriptSpec.
