(* ===== verification/SerialMain.v ===== *)
(** * serial-tool: the program (serial-tool/src/main.c)

    Options, the three modes and the order in which the port is opened, configured and
    closed.  What the system answers is a record; whatever mode runs, the device gets its
    settings back. *)

From stdpp Require Import gmap.
From S2P Require Import Prelude Calls Getopt Serial SerialTerminal SerialScript.

Module SerialMain.
Import Serial Terminal Script.
#[local] Arguments Z.to_nat : simpl never.

Definition option_table : Getopt.table :=
  Getopt.Table [(x64, true); (x62, true); (x44, true); (x73, true); (x70, true); (x78, false); (x74, false); (x6c, true); (x65, true); (x53, true);
                (x4c, false); (x68, false)]
    [Getopt.Long (str "device") true x64; Getopt.Long (str "baud") true x62; Getopt.Long (str "databits") true x44;
     Getopt.Long (str "stopbits") true x73; Getopt.Long (str "parity") true x70; Getopt.Long (str "hex") false x78;
     Getopt.Long (str "timestamp") false x74; Getopt.Long (str "log") true x6c; Getopt.Long (str "execute") true x65;
     Getopt.Long (str "send") true x53; Getopt.Long (str "list") false x4c; Getopt.Long (str "help") false x68].
Record settings := Settings {
  o_device : list byte; o_baud : Z; o_databits : Z; o_stopbits : Z; o_parity : byte; o_hex : bool; o_timestamp : bool;
  o_log : option (list byte); o_script : option (list byte); o_send : option (list byte); o_list : bool
}.
Definition defaults : settings := Settings (str "/dev/ttyUSB0") 115200 8 1 x4e false false None None None false.
(** The options in order, or the exit status after the usage.  The parity is the first
    byte of its argument, zero when that is empty. *)
Fixpoint options (os : list Getopt.opt) (o : settings) : settings + Z :=
  let '(Settings d b n s p x t l e S' L) := o in
  match os with
  | [] => inl o
  | Getopt.Opt x64 (Some v) :: os' => options os' (Settings v b n s p x t l e S' L)
  | Getopt.Opt x62 (Some v) :: os' => options os' (Settings d (atoi v) n s p x t l e S' L)
  | Getopt.Opt x44 (Some v) :: os' => options os' (Settings d b (atoi v) s p x t l e S' L)
  | Getopt.Opt x73 (Some v) :: os' => options os' (Settings d b n (atoi v) p x t l e S' L)
  | Getopt.Opt x70 (Some v) :: os' => options os' (Settings d b n s (default x00 (head v)) x t l e S' L)
  | Getopt.Opt x78 _ :: os' => options os' (Settings d b n s p true t l e S' L)
  | Getopt.Opt x74 _ :: os' => options os' (Settings d b n s p x true l e S' L)
  | Getopt.Opt x6c (Some v) :: os' => options os' (Settings d b n s p x t (Some v) e S' L)
  | Getopt.Opt x65 (Some v) :: os' => options os' (Settings d b n s p x t l (Some v) S' L)
  | Getopt.Opt x53 (Some v) :: os' => options os' (Settings d b n s p x t l e (Some v) L)
  | Getopt.Opt x4c _ :: os' => options os' (Settings d b n s p x t l e S' true)
  | Getopt.Opt x68 _ :: _ => inr 0
  | _ => inr 1
  end.
Definition usage_text (prog : list byte) : list byte :=
  mjoin ((λ l, l ++ [x0a]) <$>
    [str "Usage: " ++ prog ++ str " [options]"; []; str "Serial port debugging tool for embedded development."; []; str "Options:";
     str "  -d, --device <dev>     Serial device (default: /dev/ttyUSB0)"; str "  -b, --baud <rate>      Baud rate (default: 115200)";
     str "  -D, --databits <n>     Data bits: 5,6,7,8 (default: 8)"; str "  -s, --stopbits <n>     Stop bits: 1,2 (default: 1)";
     str "  -p, --parity <type>    Parity: N,E,O (default: N)"; str "  -x, --hex              Hex mode (display as hex)";
     str "  -t, --timestamp        Show timestamps"; str "  -l, --log <file>       Log to file"; str "  -e, --execute <file>   Run script file";
     str "  -S, --send <data>      Send data and exit"; str "  -L, --list             List available serial ports";
     str "  -h, --help             Show this help"; []; str "Interactive mode keys:"; str "  Ctrl+A then ?    - Show help";
     str "  Ctrl+A then q    - Quit"; str "  Ctrl+A then h    - Toggle hex mode"; str "  Ctrl+A then t    - Toggle timestamps";
     str "  Ctrl+A then s    - Send file"]).

(** What the system answers: the descriptor of the device and the calls on its settings,
    the entries of /dev, the files that can be opened and read, and the keyboard. *)
Record system := System {
  open_fd : Z; getattr_ok : bool; configure_getattr : bool; setattr_ok : bool; dev_names : option (list (list byte)); openable : list byte → bool;
  log_opens : list byte → bool; files : list byte → option (list byte); events : list event; keyboard : list byte; keyboard_raw : bool
}.
Section program.
Context (y : system).

(** Errors on standard error are left out. *)
Definition open_log (name : option (list byte)) : C serial unit :=
  match name with
  | None => mret tt
  | Some f => if y.(log_opens) f then set_log (Some f);; c_mod (λ s, set_logs (<[f := default [] (s.(logs) !! f)]> s.(logs)) s) else mret tt
  end.
Definition send_mode (hex : bool) (data : list byte) : C serial unit :=
  serial_send_str (Some data);;
  usleep 100000;;
  r ← serial_recv 4096;
  if 0 <? r.1 then (if hex then hexdump_print r.2 0 else print r.2) else mret tt.
Definition interactive : C serial unit := λ s,
  match terminal_run y.(files) y.(events) (Term s true false false false (replicate 1024 x00) 0 y.(keyboard) y.(keyboard_raw)) with
  | Ret (_, t) => Ret (tt, t.(dev))
  | UB => UB | Blocked => Blocked | Fuel => Fuel
  end.
Definition connected (o : settings) : list byte :=
  str "Connected to " ++ o.(o_device) ++ str " at " ++ dec o.(o_baud) ++ str " baud (" ++ dec o.(o_databits) ++ [o.(o_parity)] ++ dec o.(o_stopbits) ++
  str ")" ++ [x0a].
(** From the open port to the end of the mode. *)
Definition session (o : settings) : C serial unit :=
  serial_configure o.(o_baud) o.(o_databits) o.(o_stopbits) o.(o_parity) y.(configure_getattr) y.(setattr_ok);;
  c_mod (λ s, set_port (with_modes o.(o_hex) o.(o_timestamp) (with_log_fd None s.(port))) s);;
  open_log o.(o_log);;
  print (connected o);;
  match o.(o_send), o.(o_script) with
  | Some data, _ => send_mode o.(o_hex) data
  | None, Some f => script_run y.(log_opens) f (y.(files) f);; mret tt
  | None, None => interactive
  end.
Definition run (o : settings) : C serial Z :=
  if o.(o_list) then
    print (str "Available serial ports:" ++ [x0a]);;
    print (mjoin ((λ p, str "  " ++ p ++ [x0a]) <$> serial_list_ports y.(dev_names) y.(openable) 32));;
    mret 0
  else
  z ← serial_open o.(o_device) o.(o_baud) y.(open_fd) y.(getattr_ok);
  if negb (z =? 0) then mret 1 else
  session o;; serial_close;; mret 0.
Definition main (prog : list byte) (args : list (list byte)) : C serial Z :=
  match options (Getopt.getopt_long option_table args).1 defaults with
  | inr status => print (usage_text prog);; mret status
  | inl o => run o
  end.
End program.
End SerialMain.
