(* ===== verification/SerialMainSpec.v ===== *)
(** * serial-tool: whatever runs, the device gets its settings back *)

From stdpp Require Import gmap.
From S2P Require Import Prelude Calls Getopt Serial SerialTerminal SerialSpec SerialScript SerialScriptSpec SerialMain.

Module SerialMainSpec.
Import Serial Terminal Script SerialSpec ScriptSpec SerialMain Calls.
#[local] Arguments Z.to_nat : simpl never.

(** ** The open port, kept by everything a mode does *)

(** Open, on the descriptor [f], with the settings [u] put aside and [t] in force. *)
Definition held (t u : termios) (f : Z) (s : serial) : Prop :=
  s.(tty) = t ∧ s.(port).(is_open) = true ∧ s.(port).(fd) = f ∧ s.(port).(old_termios) = Some u.

Section kept.
Context (t u : termios) (f : Z).
Notation keeps := (stays (held t u f)).

Lemma keeps_state (g : serial → serial) : (∀ s, (g s).(tty) = s.(tty)) → (∀ s, (g s).(port).(is_open) = s.(port).(is_open)) →
  (∀ s, (g s).(port).(fd) = s.(port).(fd)) → (∀ s, (g s).(port).(old_termios) = s.(port).(old_termios)) → keeps (c_mod g).
Proof. intros H1 H2 H3 H4. apply stays_mod. unfold held. intros s. by rewrite H1, H2, H3, H4. Qed.
Hint Extern 2 (stays _ (c_mod _)) => apply keeps_state; intros; reflexivity : stays.
Lemma keeps_print m : keeps (print m). Proof. unfold print. stays. Qed.
Lemma keeps_usleep n : keeps (usleep n). Proof. unfold usleep. stays. Qed.
Lemma keeps_stamp : keeps stamp. Proof. by intros s a s' Hs [= <- <-]. Qed.
Hint Resolve keeps_print keeps_usleep keeps_stamp : stays.
Lemma keeps_record p d : keeps (log_record p d). Proof. unfold log_record. stays. Qed.
Hint Resolve keeps_record : stays.
Lemma keeps_send d : keeps (serial_send d). Proof. unfold serial_send. stays. Qed.
Hint Resolve keeps_send : stays.
Lemma keeps_send_str o : keeps (serial_send_str o). Proof. unfold serial_send_str. stays. Qed.
Lemma keeps_send_hex o : keeps (serial_send_hex o). Proof. unfold serial_send_hex. stays. Qed.
Lemma keeps_recv n : keeps (serial_recv n). Proof. unfold serial_recv. stays. Qed.
Lemma keeps_dump d o : keeps (hexdump_print d o). Proof. unfold hexdump_print. stays. Qed.
Lemma keeps_stamped : keeps stamped. Proof. unfold stamped. stays. Qed.
Hint Resolve keeps_send_str keeps_send_hex keeps_recv keeps_dump keeps_stamped : stays.
Lemma keeps_timestamps d : keeps (timestamp_loop d).
Proof. induction d; cbn [timestamp_loop]; stays. Qed.
Hint Resolve keeps_timestamps : stays.
Lemma keeps_display d : keeps (display_data d).
Proof. unfold display_data, hexdump_timestamp. stays. Qed.
Lemma keeps_pieces n : ∀ size total rest, keeps (send_pieces n size total rest).
Proof. induction n; intros; destruct rest; cbn [send_pieces]; stays. Qed.
Hint Resolve keeps_display keeps_pieces : stays.
Lemma keeps_file name c : keeps (send_file name c). Proof. unfold send_file. stays. Qed.
Hint Resolve keeps_file : stays.

(** Scripts. *)
Lemma keeps_recv_loop n : ∀ e tm sz p b, keeps (recv_loop n e tm sz p b).
Proof. induction n; intros; cbn [recv_loop]; stays. Qed.
Hint Resolve keeps_recv_loop : stays.
Lemma keeps_send_recv o sz p tm : keeps (script_send_recv o sz p tm). Proof. unfold script_send_recv. stays. Qed.
Lemma keeps_set_log o : keeps (set_log o). Proof. unfold set_log. stays. Qed.
Hint Resolve keeps_send_recv keeps_set_log : stays.
Lemma keeps_command opens c : keeps (command opens c).
Proof. unfold command, cmd_send, cmd_send_hex, cmd_expect, cmd_wait, cmd_send_recv, cmd_log, report. stays. Qed.
Hint Resolve keeps_command : stays.
Lemma keeps_lines opens n : ∀ i e file, keeps (script_lines opens n i e file).
Proof. induction n; intros; destruct file; cbn [script_lines]; unfold script_line; stays. Qed.
Hint Resolve keeps_lines : stays.
Lemma keeps_script opens name file : keeps (script_run opens name file). Proof. unfold script_run. stays. Qed.

(** The terminal: what holds of the port it works on. *)
Notation keeps_dev := (stays (λ w : terminal, held t u f w.(dev))).
Lemma keeps_port {A} (m : C serial A) : keeps m → keeps_dev (on_port m).
Proof.
  intros Hm w a w' Hw. unfold on_port. destruct (m (dev w)) as [[b d]| | |] eqn:E; [|done..]. intros [= <- <-].
  by eapply Hm.
Qed.
Lemma keeps_term (g : terminal → terminal) : (∀ w, (g w).(dev) = w.(dev)) → keeps_dev (c_mod g).
Proof. intros H. apply stays_mod. intros w. by rewrite H. Qed.
Hint Resolve keeps_port : stays.
Hint Extern 2 (stays _ (c_mod _)) => apply keeps_term; intros; reflexivity : stays.
Lemma keeps_say m : keeps_dev (say m). Proof. unfold say. stays. Qed.
Lemma keeps_modes h x : keeps_dev (set_modes h x). Proof. unfold set_modes. stays. Qed.
Lemma keeps_raw : keeps_dev set_raw_mode. Proof. unfold set_raw_mode. stays. Qed.
Hint Resolve keeps_say keeps_modes keeps_raw : stays.
Lemma keeps_help : keeps_dev terminal_help. Proof. unfold terminal_help. stays. Qed.
Lemma keeps_local_echo m : keeps_dev (echo_if m). Proof. unfold echo_if. stays. Qed.
Lemma keeps_poke i c : keeps_dev (poke i c). Proof. unfold poke. stays. Qed.
Hint Resolve keeps_help keeps_local_echo keeps_poke : stays.
Lemma keeps_key files orig c : keeps_dev (key files orig c).
Proof. unfold key, escape_key, line_key, raw_key, prompt_and_send, prompt_line, send_key. stays. Qed.
Hint Resolve keeps_key : stays.
Lemma keeps_loop files orig es : keeps_dev (terminal_loop files orig es).
Proof. induction es; cbn [terminal_loop]; unfold port_ready, keyboard_ready; stays. Qed.
Hint Resolve keeps_loop : stays.
Lemma keeps_terminal files es : keeps_dev (terminal_run files es). Proof. unfold terminal_run. stays. Qed.
End kept.
#[local] Hint Resolve keeps_print keeps_script keeps_send_str keeps_recv keeps_dump keeps_usleep keeps_set_log : stays.
#[local] Hint Extern 2 (stays _ (c_mod _)) => apply keeps_state; intros; reflexivity : stays.

(** ** The program *)

(** Open with [u] put aside, whatever is in force. *)
Definition ready (u : termios) (f : Z) (s : serial) : Prop := ∃ t, held t u f s.
Lemma ready_keeps {A} u f (m : C serial A) : (∀ t, stays (held t u f) m) → stays (ready u f) m.
Proof. intros H s a s' [t Hs] E. exists t. by eapply H. Qed.
Definition released (u : termios) (s : serial) : Prop :=
  s.(tty) = u ∧ s.(port).(is_open) = false ∧ s.(port).(log_fd) = None.

(** Opening: the port is ready, or closed with the device untouched. *)
Lemma open_run d b f g s : ∃ r s1, serial_open d b f g s = Ret (r, s1) ∧ s1.(wire) = s.(wire) ∧ s1.(writes) = s.(writes) ∧
  ((r = 0 ∧ 0 ≤ f ∧ g = true ∧ ready s.(tty) f s1) ∨ (r = -1 ∧ (f < 0 ∨ g = false) ∧ released s.(tty) s1)).
Proof.
  unfold serial_open. destruct (Z.ltb_spec f 0); [|destruct g]; (do 2 eexists; split_and!; [reflexivity..|]).
  - right. split_and!; [done|by left|done].
  - left. split_and!; [done..|]. by exists s.(tty).
  - right. split_and!; [done|by right|done].
Qed.
Lemma serial_close_run u f s : ready u f s → 0 ≤ f → ∃ s', serial_close s = Ret (tt, s') ∧ released u s' ∧ s'.(wire) = s.(wire).
Proof.
  intros (t & Ht & Ho & Hf & Hu) Hpos. eexists. split_and!; [|..].
  - unfold serial_close. erewrite bind_Ret by reflexivity. rewrite Ho, Hf, Hu, (proj2 (Z.leb_le _ _)) by done. reflexivity.
  - done.
  - done.
Qed.
(** Configuring works on the port that is open, or leaves it. *)
Lemma configure_run b n st p g a u f s : ready u f s →
  ∃ r s1, serial_configure b n st p g a s = Ret (r, s1) ∧ s1.(wire) = s.(wire) ∧ s1.(writes) = s.(writes) ∧ ready u f s1.
Proof.
  intros (t & Ht & Ho & Hf & Hu). unfold serial_configure, ready, held.
  destruct g, a; (do 2 eexists; split; [erewrite bind_Ret by reflexivity; rewrite Ho; reflexivity|]); split_and!; try done;
    eexists; split_and!; try done.
Qed.

Section program.
Context (y : system).
Lemma ready_log u f o : stays (ready u f) (open_log y o).
Proof. apply ready_keeps. intros t. unfold open_log. stays. Qed.
Lemma ready_send u f hex data : stays (ready u f) (send_mode hex data).
Proof. apply ready_keeps. intros t. unfold send_mode. stays. Qed.
Lemma ready_interactive u f : stays (ready u f) (interactive y).
Proof.
  apply ready_keeps. intros t s a s' Hs. unfold interactive. destruct (terminal_run _ _ _) as [[b w]| | |] eqn:E; [|done..].
  intros [= <- <-]. by apply (keeps_terminal t u f _ _ _ _ _ (Hs : held t u f (dev (Term s true false false false (replicate 1024 x00) 0 y.(keyboard) y.(keyboard_raw)))) E).
Qed.
Lemma ready_session u f o : stays (ready u f) (session y o).
Proof.
  unfold session. apply stays_bind; [|intros _; apply stays_bind; [|intros _; apply stays_bind; [|intros _; apply stays_bind; [|intros _]]]].
  - intros s a s' Hs E. edestruct configure_run as (r & s1 & E' & _ & _ & H); [exact Hs|]. rewrite E' in E. by injection E as <- <-.
  - apply ready_keeps. intros t. stays.
  - apply ready_log.
  - apply ready_keeps. intros t. stays.
  - destruct (o_send o); [apply ready_send|]. destruct (o_script o); [|apply ready_interactive].
    apply ready_keeps. intros t. stays.
Qed.

(** The send mode returns, and the wire has the data, unless a write failed. *)
Lemma send_mode_run hex data s : s.(port).(is_open) = true → ∃ s' k, send_mode hex data s = Ret (tt, s') ∧
  s'.(wire) = s.(wire) ++ take k data ∧ (WError ∉ s.(writes) → (length data ≤ k)%nat).
Proof.
  intros Ho. unfold send_mode, serial_send_str.
  assert (∃ r s1 k, serial_send data s = Ret (r, s1) ∧ s1.(port).(is_open) = true ∧ s1.(wire) = s.(wire) ++ take k data ∧
    (WError ∉ s.(writes) → (length data ≤ k)%nat)) as (r & s1 & k & E & Ho1 & Hw & Hk).
  { destruct (serial_send_run data s Ho) as (k & ws & [[E _]|(E & _ & Hin & _)]).
    - do 2 eexists. exists (length data). rewrite E, take_ge by done. by split_and!.
    - do 2 eexists. exists k. rewrite E. split_and!; [reflexivity|done|done|done]. }
  c_step E. unfold usleep. erewrite bind_Ret by reflexivity. set (s2 := State _ _ _ _ _ _ _ _ _).
  destruct (serial_recv_run 4096 s2) as (n & bs & a & E2 & _); [done|lia|]. c_step E2. cbn [fst snd].
  destruct (0 <? n), hex; eexists; exists k; (split; [reflexivity|]); by split.
Qed.
Lemma session_sends o data s f u : ready u f s → o.(o_send) = Some data → ∃ s' k, session y o s = Ret (tt, s') ∧
  s'.(wire) = s.(wire) ++ take k data ∧ (WError ∉ s.(writes) → (length data ≤ k)%nat).
Proof.
  intros Hs Hd. unfold session. rewrite Hd.
  destruct (configure_run o.(o_baud) o.(o_databits) o.(o_stopbits) o.(o_parity) y.(configure_getattr) y.(setattr_ok) u f s Hs)
    as (r & s1 & E & Hw & Hws & t & _ & Ho & _).
  c_step E. erewrite bind_Ret by reflexivity. set (s2 := set_port _ s1).
  assert (∃ s3, open_log y o.(o_log) s2 = Ret (tt, s3) ∧ s3.(wire) = s.(wire) ∧ s3.(writes) = s.(writes) ∧
    s3.(port).(is_open) = true) as (s3 & E3 & Hw3 & Hws3 & Ho3).
  { unfold open_log. destruct (o_log o) as [l|]; [destruct (log_opens y l)|]; eexists; (split; [reflexivity|]); by rewrite <- ?Hw, <- ?Hws. }
  c_step E3. unfold print. erewrite bind_Ret by reflexivity. rewrite <- Hw3, <- Hws3.
  by apply (send_mode_run o.(o_hex) data (printed _ s3)).
Qed.

(** C32. The serial tool: whichever mode its options choose and however that mode ends,
    when [main] returns the device has the settings it had before, the port is closed
    and no log file is open; with data to send it does return, status 0 when the device
    could be opened and 1 when not, and then the device was sent a prefix of the data,
    all of it unless a write failed. *)
Theorem main_restores_device prog args s : s.(port).(is_open) = false → s.(port).(log_fd) = None →
  (∀ status s', main y prog args s = Ret (status, s') → released s.(tty) s') ∧
  (∀ o data, (options (Getopt.getopt_long option_table args).1 defaults) = inl o → o.(o_list) = false → o.(o_send) = Some data →
   ∃ s' k, main y prog args s = Ret (if (0 <=? y.(open_fd)) && y.(getattr_ok) then 0 else 1, s') ∧
     s'.(wire) = s.(wire) ++ take k data ∧
     ((0 <=? y.(open_fd)) && y.(getattr_ok) = true → WError ∉ s.(writes) → (length data ≤ k)%nat)).
Proof.
  intros Hc Hl. unfold main, run. destruct (options _ _) as [o|st] eqn:Eo.
  2: { split; [|done]. intros status s' E. run_inv. unfold print in *. run_inv. done. }
  destruct (open_run o.(o_device) o.(o_baud) y.(open_fd) y.(getattr_ok) s) as (r & s1 & E1 & Hw & Hws & Hr). split.
  - destruct (o_list o).
    { intros status s' E. unfold print in E. run_inv. done. }
    intros status s' E. rewrite (bind_Ret _ _ _ _ _ E1) in E. destruct Hr as [(-> & Hf & _ & Hs)|(-> & _ & Hs)]; cbn [negb Z.eqb] in E.
    + run_inv. destruct (serial_close_run (tty s) (open_fd y) x0) as (s2 & E2 & Hrel & _); [by eapply ready_session|done|].
      rewrite E2 in *. naive_solver.
    + by injection E as <- <-.
  - intros o' data [= <-] -> Hd. destruct Hr as [(-> & Hf & Hg & Hs)|(-> & Hf & Hs)].
    + assert ((0 <=? open_fd y) && getattr_ok y = true) as -> by (by rewrite Hg, (proj2 (Z.leb_le _ _))).
      destruct (session_sends o data s1 _ _ Hs Hd) as (s2 & k & E2 & Hw2 & Hk).
      destruct (serial_close_run _ _ s2 (ready_session _ _ o s1 tt s2 Hs E2) Hf) as (s3 & E3 & _ & Hw3).
      exists s3, k. rewrite <- Hw, <- Hws, Hw3. split_and!; [|done|done]. c_step E1. cbn [negb Z.eqb]. c_step E2. by c_step E3.
    + exists s1, 0%nat. assert ((0 <=? open_fd y) && getattr_ok y = false) as ->.
      { destruct Hf as [Hf|Hf]; [|by rewrite Hf, andb_false_r]. by rewrite (proj2 (Z.leb_gt _ _)). }
      rewrite take_0, app_nil_r. split_and!; [|done|done]. by c_step E1.
Qed.
End program.

(** ** Witness *)

Definition wit_system : system := System 3 true true true None (λ _, true) (λ _, true) (λ _, None) [] [] false.
Definition wit_state : serial :=
  State (Port 0 [] 0 0 0 x00 None false false false None) (Termios (λ _, false) 8 9600 0 0) [] [WRetry; WCount 1] [RData (str "OK")]
    ∅ [] [] [].
Lemma main_restores_device_witness : ∃ s',
  main wit_system (str "serial-tool") [str "-b"; str "19200"; str "-S"; str "AT"] wit_state = Ret (0, s') ∧
  s'.(wire) = str "AT" ∧ s'.(tty).(c_speed) = 9600.
Proof.
  destruct (main_restores_device wit_system (str "serial-tool") [str "-b"; str "19200"; str "-S"; str "AT"] wit_state)
    as [Hrel Hsend]; [reflexivity|reflexivity|].
  edestruct Hsend as (s' & k & E & Hw & Hk); [vm_compute; reflexivity|reflexivity|reflexivity|].
  exists s'. split; [exact E|]. split.
  - rewrite Hw. specialize (Hk eq_refl). rewrite take_ge; [reflexivity|]. apply Hk. intros [[=]|[[=]|[]%elem_of_nil]%elem_of_cons]%elem_of_cons.
  - by rewrite (proj1 (Hrel _ _ E)).
Defined.
End SerialMainSpec.
